(* ===== verification/_CoqProject ===== *)
-Q . S2P
Prelude.v
GoUnicode.v
GoStrings.v
GoNet.v
GoIO.v
GoJson.v
GoJsonDecode.v
HostAddr.v
McProto.v
SessionPool.v
UdpRelay.v
VoicePacket.v
VoiceChat.v
VoiceSafety.v
VoiceServe.v
VoiceHttp.v
ClientPolicy.v
ProxyProtocol.v
RateLimit.v
Scaler.v
Tables.v
GoSort.v
BedrockRoute.v
BedrockProxy.v
Config.v
Availability.v
Kubernetes.v
Metrics.v
MetricsHttp.v
WatchSupervisor.v
Merge.v
Router.v
Server.v
ConfigStore.v
DiscoveryCmd.v
DiscoveryRun.v
Main.v
ConfigWatch.v
Conn.v
ConnMetrics.v
Pipe.v
Accept.v
