(* ===== verification/Prelude.v ===== *)
(** * A verification development for mc-router

    mc-router is a gateway for Minecraft servers, written in Go ([src/cmd], [src/internal]).
    A Java client opens a TCP connection and names the server it wants in its handshake;
    the gateway looks the name up in a route table, dials the backend of the route, replays
    the handshake and copies bytes both ways. Routes come from a configuration file, which
    is reloaded on a signal or when the file changes, and from annotations of Kubernetes
    services, which are watched. Beside the Java path the process runs a UDP relay, a
    Bedrock path (an opaque relay or a proxy that routes by host), a voice chat relay with a
    registration API, an availability monitor, and a metrics endpoint.

    Go code becomes Rocq functions on the same data. Strings and byte slices are lists of
    bytes, integers are [Z] with their width where it matters, maps are [gmap]s with the
    iteration order as an argument where the code depends on it, a Go [error] is the type
    [error] below, a result [(T, error)] is [res T], and a panic is [None]. Code that
    goroutines share is a step relation whose steps are the critical sections of the code,
    so that a property of all runs is one of all interleavings. Where it matters who makes
    progress, the relation has two halves, [own] for what the code does and [env] for what
    clients, backends and the system do; a goroutine that is blocked in a read ends only
    when the other side ends it or the code closes what it reads from, and what is said to
    terminate does so in [own] steps alone.

    ** The files

    The language and its library:
    - Prelude: scopes, errors, results, machine integers, tactics, lists.
    - GoUnicode, GoStrings, GoNet, GoIO, GoJson, GoJsonDecode, GoSort: what the code uses of
      Go's [unicode], [strings], [strconv], [net], [net/netip], [io], [encoding/json] and
      [sort], written out as Go implements it.
    - Tables: maps keyed by normalised names against a scan of the entries; SessionPool: a
      table of shared session objects with its counters. Both are used by several parts.

    Protocols and tables:
    - HostAddr ([internal/hostaddr]): the normal form of a requested name.
    - McProto ([internal/mcproto]): VarInts, packets, handshake, status, login.
    - ProxyProtocol ([internal/proxyprotocol]), ClientPolicy ([internal/clientpolicy]),
      RateLimit ([internal/ratelimit]): who the client is and whether it may connect.
    - Router ([internal/router]), BedrockRoute ([internal/bedrockroute]): the route tables,
      each a hash table that answers what a scan of the routes answers.

    Configuration and discovery:
    - Config ([internal/config]): the data model, the defaults and every validator; the
      class [Env] is what is outside (environment, DNS, URL and YAML parsing).
    - Kubernetes ([internal/discovery/kubernetes]): annotations, snapshots of routes, the
      watch; WatchSupervisor: its restarts; Merge ([internal/discovery]): static and
      discovered routes together.
    - ConfigWatch ([internal/configwatch]): reloading when the file changes.

    The gateway:
    - Server ([internal/proxy/server.go], snapshots): the published state, reloads and
      discovery updates; ConfigStore ([cloneConfig]): configurations as references into a
      store, what copies share, and the goroutines of the start that write what is shared.
    - Conn ([handleConn] and what it calls): one connection from the first byte to the
      proxying; Pipe: the two-way copy; Accept: the accept loop and [Shutdown].
    - Metrics, MetricsHttp ([internal/metrics]): the recorder and the endpoint; ConnMetrics:
      what connections record.
    - Scaler ([internal/scaler]), Availability ([internal/availability]): the webhook before
      a dial, and the probes of backends.
    - UdpRelay ([internal/udprelay]), BedrockProxy ([internal/bedrockproxy]).
    - VoicePacket, VoiceChat ([internal/voicechat]): datagrams, registrations and sessions;
      VoiceSafety: what all their runs satisfy; VoiceServe: start and end of the runtime;
      VoiceHttp: the bodies of the registration API.
    - DiscoveryCmd, DiscoveryRun, Main ([cmd/mc-gateway]): discovery at start-up, reload and
      run time; the goroutine of the watch, its metrics and its end; the start of all parts
      and the end of the process.

    ** How the parts meet

    Where one part relies on another, the promise is a class or a predicate that the one
    proves and the other uses: [udprelay.ResolverLaws] between the UDP relay and its
    resolvers, [config_ok] and [routes_ok] between validation, merging, the router and the
    starts of the parts, [consistent] between snapshots and connections, [EnvLaws] for what
    the environment is relied on for (a sample instance shows that it can hold). Classes of
    operations with executable instances stand for floating point ([RateLimit],
    [WatchSupervisor]), error texts ([ErrorText]) and Unicode letters ([RuneClasses]).

    ** What is proved

    - Connections: a backend is dialled only for an identified, permitted, admitted client
      with a readable handshake and a route, and the address is that route's; the backend
      gets the client's bytes after a trusted peer's PROXY header, and the client the
      backend's, each a prefix of what was sent and in order; once one direction of the copy
      has ended the other one ends, because both connections are closed; every connection is
      recorded once as accepted and once as finished, under known labels.
    - State: in every reachable state router, policy, the limiter's settings and trusted peers
      are those of the static configuration merged with the discovered routes; operations
      never panic, an error changes nothing, static routes always win, and in an undisturbed
      run of the watch a service that alone declares a host is routed to.
    - Configuration: validation is equivalent to a declarative specification, and whatever it
      accepts starts, given that the network resolves and binds the addresses; what a copy
      shares with its original is listed exactly, one shared map is written while it is read,
      and a settled configuration file is the one that was loaded last, when fsnotify has
      reported every change.
    - Routing: normal forms and their spellings; both routers refine a scan; merging is exact.
    - Limiting: in exact arithmetic a client is admitted at most burst plus rate times elapsed
      for each entry it was given; in binary floating point the table stays bounded.
    - Protocols: round trips of handshakes, bounds on what is read, JSON that is valid; which
      registration requests are accepted, exactly.
    - UDP and voice chat: every datagram is settled once; tables stay within their limits;
      packets only go to the address of the backend a registration names, and registrations
      change only by authorised requests, by expiry or by closing; a lease that was granted
      can be used; operations drain and nothing stays open, connections included that were
      dialled and never used.
    - Bedrock: the proxy copies in order, each packet to the other side; it closes what it
      opened, and drains when closed.
    - The process: the parts are waited for after they were told to stop; [Serve] returns when
      no handler is left, and not before (a handler may block); closing the voice runtime
      ends all its goroutines.
    - Metrics: no call panics for callers that give UTF-8 labels and no negative sizes; gauges
      balance; the number of series is bounded.
    - Some theorems show runs in which the code does not do what it means to; they are
      named for it ([reverted_change_missed], [session_gauge_drifts],
      [session_outlives_registration], [shutdown_misses_connection], [metrics_path_panics],
      [reload_can_undo_watch], [startup_map_conflict], [overflow_missed], ...).

    ** Bounds and fuel

    A VarInt has at most five bytes, which bounds [readVarInt] structurally. [Itoa] has fuel
    for nineteen digits, all that an [int64] can have. [write_loop] has as much fuel as there
    are bytes to write, and each iteration takes a byte or ends. The JSON scanner keeps the
    nesting limit of Go, 10000; the decoder's loop over the members of an object has as many
    turns as there are bytes, and each member takes more than one. Every other recursion is
    on lists, or a step relation with a well-founded measure.

    ** Not modelled

    - Logging: [internal/logging], log messages and the attributes, error kinds and drop
      reasons made only for them.
    - Sharing of slices and maps outside ConfigStore: elsewhere data are values. Of what a
      copied configuration shares, only the map of voice backends is ever written (see
      [startup_map_conflict]); the other copies ([cloneRouteSnapshot], [cloneRoutes],
      [cloneUDPAddr]) are of data that nothing changes after it is published.
    - An environment that changes during a run: the answers of [Env] (environment variables,
      resolvers) are the same for every validation of one run.
    - Time in the ends of goroutines: how long a dial, a read or [Shutdown] takes; a handler
      that blocks in reading a PROXY header, for which the code sets no deadline, blocks
      [Serve] in Accept.v as it does in the code.
    - The command line, the operating system's signals and the choice of reload signals.
    - RakNet and the Bedrock protocol (gophertunnel), the Kubernetes client, the YAML
      decoder, fsnotify, SHA-256, Prometheus' text format, DNS, clocks and sockets: what they
      answer is an argument of the definitions.
    - HTTP itself: a registration request is its method, path, token and body.
    - Functions that only tests call ([NewServer], [UpdateConfig], [RouteNames]). *)
From stdpp Require Export base tactics list gmap strings sorting.
From coqutil Require Export Byte.
From Stdlib Require Export ZArith Lia Strings.Byte.

(** ** Scopes and notations *)

Declare Scope go_scope.
Delimit Scope go_scope with go.
Open Scope go_scope.

(** Go's [[]byte] and [string] are both sequences of bytes. *)
Abbreviation bytes := (list byte).

(** [gs"text"] is a Go string literal. *)
Notation "'gs' s" := (String.list_byte_of_string s%string)
  (at level 1, s at level 0, format "'gs' s") : go_scope.

(** [bv] is the value of a byte, [bz] the conversion [byte(x)] of an integer. *)
Abbreviation bv := byte.unsigned.
Abbreviation bz := byte.of_Z.

#[export] Instance byte_eq_dec : EqDecision byte.
Proof.
  intros a b. destruct (Byte.eqb a b) eqn:E.
  - left. by apply Byte.byte_dec_bl.
  - right. intros ->. by rewrite Byte.byte_dec_lb in E.
Defined.

#[export] Program Instance byte_countable : Countable byte :=
  inj_countable Byte.to_N Byte.of_N Byte.of_to_N.

(** ** Go errors

    A Go [error] is a tree: a package-level sentinel, the value of
    [fmt.Errorf] or [errors.New] with its format, its arguments and the errors
    it wraps with [%w] (the value of [errors.Join] is one that wraps all its
    arguments), or an error of the network stack that implements
    [net.Error]. *)

Inductive arg :=
| AInt (z : Z)
| AStr (s : bytes).

Inductive error :=
| Sentinel (name : string)
| Errorf (format : string) (args : list arg) (wraps : list error)
| NetError (timeout temporary : bool) (what : string).

Definition errors_New (msg : string) : error := Errorf msg [] [].

(** [errors.Is(err, target)] for a sentinel target: a search of the tree. *)
Fixpoint errors_Is (target : string) (e : error) : bool :=
  match e with
  | Sentinel n => String.eqb n target
  | Errorf _ _ ws => existsb (errors_Is target) ws
  | NetError _ _ _ => false
  end.

(** [errors.Join(errs...)] on a slice of non-nil errors: nil on the empty one. *)
Definition errors_Join (errs : list error) : option error :=
  match errs with
  | [] => None
  | _ => Some (Errorf "join" [] errs)
  end.

(** ** Results

    A Go function with results [(T, error)] whose value is meaningless next to
    a non-nil error. *)

Inductive res (A : Type) : Type :=
| Ok (a : A)
| Err (e : error).
Arguments Ok {A} a.
Arguments Err {A} e.

Definition res_bind {A B} (m : res A) (k : A → res B) : res B :=
  match m with Ok a => k a | Err e => Err e end.

(** The error mapped, as [fmt.Errorf("...: %w", err)] does on the way out. *)
Definition res_wrap {A} (f : error → error) (m : res A) : res A :=
  match m with Ok a => Ok a | Err e => Err (f e) end.

Definition is_ok {A} (m : res A) : bool :=
  match m with Ok _ => true | Err _ => false end.

Definition res_opt {A} (m : res A) : option A :=
  match m with Ok a => Some a | Err _ => None end.

Notation "'let?' p := m 'in' k" := (res_bind m (λ x, match x with p => k end))
  (at level 10, p pattern, m at level 200, k at level 200,
   format "'[v' 'let?'  p  :=  m  'in'  '/' k ']'") : go_scope.

(** ** Machine integers *)

Definition uint_wrap (w z : Z) : Z := (z mod 2 ^ w)%Z.
Definition int_wrap (w z : Z) : Z := ((z + 2 ^ (w - 1)) mod 2 ^ w - 2 ^ (w - 1))%Z.

Definition is_int (w z : Z) : Prop := (- 2 ^ (w - 1) ≤ z < 2 ^ (w - 1))%Z.
Definition is_uint (w z : Z) : Prop := (0 ≤ z < 2 ^ w)%Z.

(** [len(x)] as an integer. *)
Definition zlen {A} (l : list A) : Z := Z.of_nat (length l).

#[export] Instance zlen_proper {A} : Proper ((≡ₚ) ==> (=)) (@zlen A).
Proof. intros l l' Hp. unfold zlen. by rewrite Hp. Qed.

(** ** Tactics *)

(** The hint database of the development. *)
Create HintDb mc discriminated.

(** Case analysis on the innermost discriminee of a [match] or [if] in a
    hypothesis or the goal, keeping the equation. *)
Ltac case_in H :=
  match type of H with
  | context [match ?x with _ => _ end] =>
      lazymatch x with
      | context [match _ with _ => _ end] => fail
      | _ => let E := fresh "E" in destruct x eqn:E
      end
  end.

Ltac inv_res :=
  repeat match goal with
  | H : Ok _ = Ok _ |- _ => injection H as H
  | H : Err _ = Err _ |- _ => injection H as H
  | H : Ok _ = Err _ |- _ => discriminate H
  | H : Err _ = Ok _ |- _ => discriminate H
  | H : Some _ = Some _ |- _ => injection H as H
  | H : Some _ = None |- _ => discriminate H
  | H : None = Some _ |- _ => discriminate H
  | H : (_, _) = (_, _) |- _ => injection H as H
  end; simplify_eq.

(** Follow a run that is known to succeed: split every guard it passed. *)
Ltac run_ok H :=
  repeat (first [ progress inv_res | case_in H; try discriminate H ]).

Ltac bool_prop :=
  repeat match goal with
  | H : _ && _ = true |- _ => apply andb_true_iff in H as [??]
  | H : _ || _ = false |- _ => apply orb_false_iff in H as [??]
  | H : negb _ = true |- _ => apply negb_true_iff in H
  | H : negb _ = false |- _ => apply negb_false_iff in H
  | H : bool_decide _ = true |- _ => apply bool_decide_eq_true_1 in H
  | H : bool_decide _ = false |- _ => apply bool_decide_eq_false_1 in H
  | H : (_ =? _)%Z = true |- _ => apply Z.eqb_eq in H
  | H : (_ =? _)%Z = false |- _ => apply Z.eqb_neq in H
  | H : (_ <? _)%Z = true |- _ => apply Z.ltb_lt in H
  | H : (_ <? _)%Z = false |- _ => apply Z.ltb_ge in H
  | H : (_ <=? _)%Z = true |- _ => apply Z.leb_le in H
  | H : (_ <=? _)%Z = false |- _ => apply Z.leb_gt in H
  | H : (_ =? _)%nat = true |- _ => apply Nat.eqb_eq in H
  | H : (_ =? _)%nat = false |- _ => apply Nat.eqb_neq in H
  | H : (_ <? _)%nat = true |- _ => apply Nat.ltb_lt in H
  | H : (_ <? _)%nat = false |- _ => apply Nat.ltb_ge in H
  | H : (_ <=? _)%nat = true |- _ => apply Nat.leb_le in H
  | H : (_ <=? _)%nat = false |- _ => apply Nat.leb_gt in H
  end.

(** ** Generic lemmas: results *)

Lemma res_bind_Ok {A B} (m : res A) (k : A → res B) b :
  res_bind m k = Ok b ↔ ∃ a, m = Ok a ∧ k a = Ok b.
Proof.
  destruct m; simpl; split.
  - eauto.
  - by intros (? & [= <-] & ?).
  - done.
  - by intros (? & ? & ?).
Qed.

Lemma res_wrap_Ok {A} f (m : res A) a : res_wrap f m = Ok a ↔ m = Ok a.
Proof. destruct m; simpl; split; congruence. Qed.

Lemma is_ok_spec {A} (m : res A) : is_ok m = true ↔ ∃ a, m = Ok a.
Proof. destruct m; split; [eauto | done | done | by intros []]. Qed.

(** ** Generic lemmas: bytes and machine integers *)

Lemma bv_range b : (0 ≤ bv b < 256)%Z.
Proof. exact (byte.unsigned_range b). Qed.

Lemma bv_bz z : (0 ≤ z < 256)%Z → bv (bz z) = z.
Proof. intros. rewrite byte.unsigned_of_Z. by apply Z.mod_small. Qed.

Lemma bz_bv b : bz (bv b) = b.
Proof. apply byte.of_Z_unsigned. Qed.

(** A property of a byte that is decidable is checked by enumeration. *)
Lemma byte_forall (P : byte → Prop) `{!∀ b, Decision (P b)} :
  forallb (λ n, match Byte.of_N (N.of_nat n) with
                | Some b => bool_decide (P b) | None => true end) (seq 0 256) = true →
  ∀ b, P b.
Proof.
  intros Hall b. rewrite forallb_forall in Hall.
  specialize (Hall (N.to_nat (Byte.to_N b))).
  rewrite N2Nat.id, Byte.of_to_N in Hall.
  eapply bool_decide_eq_true_1, Hall, in_seq.
  pose proof (Byte.to_N_bounded b). lia.
Qed.

(** Prove a decidable statement about one byte by running through all of them. *)
Ltac byte_enum :=
  match goal with |- ∀ b : byte, @?P b => apply (byte_forall P); vm_compute; reflexivity end.

Lemma int_wrap_range w z : (0 < w)%Z → is_int w (int_wrap w z).
Proof.
  intros Hw. unfold is_int, int_wrap.
  pose proof (Z.mod_pos_bound (z + 2 ^ (w - 1)) (2 ^ w)) as H.
  assert (2 ^ w = 2 * 2 ^ (w - 1))%Z as E.
  { rewrite <- Z.pow_succ_r by lia. f_equal; lia. }
  assert (0 < 2 ^ (w - 1))%Z by (apply Z.pow_pos_nonneg; lia). lia.
Qed.

Lemma int_wrap_id w z : (0 < w)%Z → is_int w z → int_wrap w z = z.
Proof.
  intros Hw [H1 H2]. unfold int_wrap.
  assert (2 ^ w = 2 * 2 ^ (w - 1))%Z as E.
  { rewrite <- Z.pow_succ_r by lia. f_equal; lia. }
  rewrite Z.mod_small by lia. lia.
Qed.

Lemma uint_wrap_id w z : is_uint w z → uint_wrap w z = z.
Proof. apply Z.mod_small. Qed.

Lemma uint_wrap_range w z : (0 ≤ w)%Z → is_uint w (uint_wrap w z).
Proof. intros. apply Z.mod_pos_bound, Z.pow_pos_nonneg; lia. Qed.

(** Or-ing bits above the ones in use is addition. *)
Lemma lor_shift_add a b k :
  (0 ≤ k)%Z → (0 ≤ a < 2 ^ k)%Z → Z.lor a (b * 2 ^ k) = (a + b * 2 ^ k)%Z.
Proof.
  intros Hk Ha. rewrite <- Z.lxor_lor, Z.add_nocarry_lxor; try done;
    apply Z.bits_inj'; intros i Hi; rewrite Z.land_spec, Z.bits_0;
    rewrite <- Z.shiftl_mul_pow2, Z.shiftl_spec by lia;
    (destruct (Z.lt_ge_cases i k) as [Hlt|Hge];
     [rewrite (Z.testbit_neg_r b) by lia; apply andb_false_r|]);
    rewrite <- (Z.mod_small a (2 ^ k)) by lia;
    by rewrite Z.mod_pow2_bits_high by lia.
Qed.

#[export] Hint Resolve bv_range int_wrap_range uint_wrap_range : mc.
