(* ===== verification/GoUnicode.v ===== *)
(** * The parts of Go's [unicode/utf8] and [unicode] packages the gateway uses

    UTF-8 decoding and encoding of runes, [utf8.Valid], the white-space class of
    [unicode.IsSpace] and the simple lower-case mapping of [unicode.ToLower].
    They are used by the string functions of GoStrings.v. *)
From S2P Require Import Prelude.
Open Scope Z_scope.

Module utf8.

Definition RuneError : Z := 0xFFFD.
Definition RuneSelf : Z := 0x80.

Definition between (lo hi : Z) (b : byte) : bool := (lo <=? bv b) && (bv b <=? hi).

(** The range the second byte of a multi-byte sequence must be in. *)
Definition accept_lo (p0 : Z) : Z :=
  if p0 =? 0xE0 then 0xA0 else if p0 =? 0xF0 then 0x90 else 0x80.
Definition accept_hi (p0 : Z) : Z :=
  if p0 =? 0xED then 0x9F else if p0 =? 0xF4 then 0x8F else 0xBF.

(** [utf8.DecodeRune]: the first rune and its width; an encoding that is not
    valid gives [RuneError] and width 1. *)
Definition DecodeRune (s : bytes) : Z * nat :=
  match s with
  | [] => (RuneError, 0%nat)
  | b0 :: t =>
      let p0 := bv b0 in
      let lo6 b := Z.land (bv b) 0x3F in
      if p0 <? 0x80 then (p0, 1%nat)
      else if (0xC2 <=? p0) && (p0 <=? 0xDF) then
        match t with
        | b1 :: _ =>
            if between 0x80 0xBF b1
            then (Z.lor (Z.shiftl (Z.land p0 0x1F) 6) (lo6 b1), 2%nat)
            else (RuneError, 1%nat)
        | _ => (RuneError, 1%nat)
        end
      else if (0xE0 <=? p0) && (p0 <=? 0xEF) then
        match t with
        | b1 :: b2 :: _ =>
            if between (accept_lo p0) (accept_hi p0) b1 && between 0x80 0xBF b2
            then (Z.lor (Z.shiftl (Z.land p0 0x0F) 12)
                    (Z.lor (Z.shiftl (lo6 b1) 6) (lo6 b2)), 3%nat)
            else (RuneError, 1%nat)
        | _ => (RuneError, 1%nat)
        end
      else if (0xF0 <=? p0) && (p0 <=? 0xF4) then
        match t with
        | b1 :: b2 :: b3 :: _ =>
            if between (accept_lo p0) (accept_hi p0) b1 && between 0x80 0xBF b2
               && between 0x80 0xBF b3
            then (Z.lor (Z.shiftl (Z.land p0 0x07) 18)
                    (Z.lor (Z.shiftl (lo6 b1) 12)
                       (Z.lor (Z.shiftl (lo6 b2) 6) (lo6 b3))), 4%nat)
            else (RuneError, 1%nat)
        | _ => (RuneError, 1%nat)
        end
      else (RuneError, 1%nat)
  end.

(** [for _, r := range s]: the runes of a string with their widths. The bytes a
    rune covers are skipped by the counter [skip]. *)
Fixpoint runes_from (skip : nat) (s : bytes) : list (Z * nat) :=
  match s with
  | [] => []
  | _ :: t =>
      match skip with
      | S k => runes_from k t
      | O => let rw := DecodeRune s in rw :: runes_from (rw.2 - 1) t
      end
  end.
Definition runes (s : bytes) : list (Z * nat) := runes_from 0 s.

(** [utf8.Valid] and [utf8.ValidString]. *)
Definition Valid (s : bytes) : bool :=
  forallb (λ rw, negb ((rw.1 =? RuneError) && (rw.2 =? 1)%nat)) (runes s).

(** [utf8.AppendRune]; surrogates and values out of range are encoded as
    [RuneError]. *)
Definition EncodeRune (r0 : Z) : bytes :=
  let r := if (0xD800 <=? r0) && (r0 <=? 0xDFFF) || (0x10FFFF <? r0) || (r0 <? 0)
           then RuneError else r0 in
  if r <? 0x80 then [bz r]
  else if r <? 0x800 then
    [bz (0xC0 + Z.shiftr r 6); bz (0x80 + Z.land r 0x3F)]
  else if r <? 0x10000 then
    [bz (0xE0 + Z.shiftr r 12); bz (0x80 + Z.land (Z.shiftr r 6) 0x3F);
     bz (0x80 + Z.land r 0x3F)]
  else
    [bz (0xF0 + Z.shiftr r 18); bz (0x80 + Z.land (Z.shiftr r 12) 0x3F);
     bz (0x80 + Z.land (Z.shiftr r 6) 0x3F); bz (0x80 + Z.land r 0x3F)].

End utf8.

Module unicode.

(** The runes of [unicode.IsSpace] (Unicode's White_Space property). *)
Definition spaces : list Z :=
  [0x09; 0x0A; 0x0B; 0x0C; 0x0D; 0x20; 0x85; 0xA0; 0x1680;
   0x2000; 0x2001; 0x2002; 0x2003; 0x2004; 0x2005; 0x2006; 0x2007; 0x2008;
   0x2009; 0x200A; 0x2028; 0x2029; 0x202F; 0x205F; 0x3000].

(** The simple lower-case mapping above ASCII, as ranges [(lo, hi, step, delta)]:
    a rune [r] with [lo <= r <= hi] and [step] dividing [r - lo] maps to
    [r + delta]. *)
Definition lower_ranges : list (Z * Z * Z * Z) :=
  [
    (0xC0,0xD6,1,32); (0xD8,0xDE,1,32); (0x100,0x12E,2,1); (0x130,0x130,1,-199);
    (0x132,0x136,2,1); (0x139,0x147,2,1); (0x14A,0x176,2,1); (0x178,0x178,1,-121);
    (0x179,0x17D,2,1); (0x181,0x181,1,210); (0x182,0x184,2,1); (0x186,0x186,1,206);
    (0x187,0x187,1,1); (0x189,0x18A,1,205); (0x18B,0x18B,1,1); (0x18E,0x18E,1,79);
    (0x18F,0x18F,1,202); (0x190,0x190,1,203); (0x191,0x191,1,1); (0x193,0x193,1,205);
    (0x194,0x194,1,207); (0x196,0x196,1,211); (0x197,0x197,1,209); (0x198,0x198,1,1);
    (0x19C,0x19C,1,211); (0x19D,0x19D,1,213); (0x19F,0x19F,1,214); (0x1A0,0x1A4,2,1);
    (0x1A6,0x1A6,1,218); (0x1A7,0x1A7,1,1); (0x1A9,0x1A9,1,218); (0x1AC,0x1AC,1,1);
    (0x1AE,0x1AE,1,218); (0x1AF,0x1AF,1,1); (0x1B1,0x1B2,1,217); (0x1B3,0x1B5,2,1);
    (0x1B7,0x1B7,1,219); (0x1B8,0x1B8,1,1); (0x1BC,0x1BC,1,1); (0x1C4,0x1C4,1,2);
    (0x1C5,0x1C5,1,1); (0x1C7,0x1C7,1,2); (0x1C8,0x1C8,1,1); (0x1CA,0x1CA,1,2);
    (0x1CB,0x1DB,2,1); (0x1DE,0x1EE,2,1); (0x1F1,0x1F1,1,2); (0x1F2,0x1F4,2,1);
    (0x1F6,0x1F6,1,-97); (0x1F7,0x1F7,1,-56); (0x1F8,0x21E,2,1);
    (0x220,0x220,1,-130); (0x222,0x232,2,1); (0x23A,0x23A,1,10795);
    (0x23B,0x23B,1,1); (0x23D,0x23D,1,-163); (0x23E,0x23E,1,10792);
    (0x241,0x241,1,1); (0x243,0x243,1,-195); (0x244,0x244,1,69); (0x245,0x245,1,71);
    (0x246,0x24E,2,1); (0x370,0x372,2,1); (0x376,0x376,1,1); (0x37F,0x37F,1,116);
    (0x386,0x386,1,38); (0x388,0x38A,1,37); (0x38C,0x38C,1,64); (0x38E,0x38F,1,63);
    (0x391,0x3A1,1,32); (0x3A3,0x3AB,1,32); (0x3CF,0x3CF,1,8); (0x3D8,0x3EE,2,1);
    (0x3F4,0x3F4,1,-60); (0x3F7,0x3F7,1,1); (0x3F9,0x3F9,1,-7); (0x3FA,0x3FA,1,1);
    (0x3FD,0x3FF,1,-130); (0x400,0x40F,1,80); (0x410,0x42F,1,32); (0x460,0x480,2,1);
    (0x48A,0x4BE,2,1); (0x4C0,0x4C0,1,15); (0x4C1,0x4CD,2,1); (0x4D0,0x52E,2,1);
    (0x531,0x556,1,48); (0x10A0,0x10C5,1,7264); (0x10C7,0x10C7,1,7264);
    (0x10CD,0x10CD,1,7264); (0x13A0,0x13EF,1,38864); (0x13F0,0x13F5,1,8);
    (0x1C90,0x1CBA,1,-3008); (0x1CBD,0x1CBF,1,-3008); (0x1E00,0x1E94,2,1);
    (0x1E9E,0x1E9E,1,-7615); (0x1EA0,0x1EFE,2,1); (0x1F08,0x1F0F,1,-8);
    (0x1F18,0x1F1D,1,-8); (0x1F28,0x1F2F,1,-8); (0x1F38,0x1F3F,1,-8);
    (0x1F48,0x1F4D,1,-8); (0x1F59,0x1F5F,2,-8); (0x1F68,0x1F6F,1,-8);
    (0x1F88,0x1F8F,1,-8); (0x1F98,0x1F9F,1,-8); (0x1FA8,0x1FAF,1,-8);
    (0x1FB8,0x1FB9,1,-8); (0x1FBA,0x1FBB,1,-74); (0x1FBC,0x1FBC,1,-9);
    (0x1FC8,0x1FCB,1,-86); (0x1FCC,0x1FCC,1,-9); (0x1FD8,0x1FD9,1,-8);
    (0x1FDA,0x1FDB,1,-100); (0x1FE8,0x1FE9,1,-8); (0x1FEA,0x1FEB,1,-112);
    (0x1FEC,0x1FEC,1,-7); (0x1FF8,0x1FF9,1,-128); (0x1FFA,0x1FFB,1,-126);
    (0x1FFC,0x1FFC,1,-9); (0x2126,0x2126,1,-7517); (0x212A,0x212A,1,-8383);
    (0x212B,0x212B,1,-8262); (0x2132,0x2132,1,28); (0x2160,0x216F,1,16);
    (0x2183,0x2183,1,1); (0x24B6,0x24CF,1,26); (0x2C00,0x2C2F,1,48);
    (0x2C60,0x2C60,1,1); (0x2C62,0x2C62,1,-10743); (0x2C63,0x2C63,1,-3814);
    (0x2C64,0x2C64,1,-10727); (0x2C67,0x2C6B,2,1); (0x2C6D,0x2C6D,1,-10780);
    (0x2C6E,0x2C6E,1,-10749); (0x2C6F,0x2C6F,1,-10783); (0x2C70,0x2C70,1,-10782);
    (0x2C72,0x2C72,1,1); (0x2C75,0x2C75,1,1); (0x2C7E,0x2C7F,1,-10815);
    (0x2C80,0x2CE2,2,1); (0x2CEB,0x2CED,2,1); (0x2CF2,0x2CF2,1,1);
    (0xA640,0xA66C,2,1); (0xA680,0xA69A,2,1); (0xA722,0xA72E,2,1);
    (0xA732,0xA76E,2,1); (0xA779,0xA77B,2,1); (0xA77D,0xA77D,1,-35332);
    (0xA77E,0xA786,2,1); (0xA78B,0xA78B,1,1); (0xA78D,0xA78D,1,-42280);
    (0xA790,0xA792,2,1); (0xA796,0xA7A8,2,1); (0xA7AA,0xA7AA,1,-42308);
    (0xA7AB,0xA7AB,1,-42319); (0xA7AC,0xA7AC,1,-42315); (0xA7AD,0xA7AD,1,-42305);
    (0xA7AE,0xA7AE,1,-42308); (0xA7B0,0xA7B0,1,-42258); (0xA7B1,0xA7B1,1,-42282);
    (0xA7B2,0xA7B2,1,-42261); (0xA7B3,0xA7B3,1,928); (0xA7B4,0xA7C2,2,1);
    (0xA7C4,0xA7C4,1,-48); (0xA7C5,0xA7C5,1,-42307); (0xA7C6,0xA7C6,1,-35384);
    (0xA7C7,0xA7C9,2,1); (0xA7D0,0xA7D0,1,1); (0xA7D6,0xA7D8,2,1);
    (0xA7F5,0xA7F5,1,1); (0xFF21,0xFF3A,1,32); (0x10400,0x10427,1,40);
    (0x104B0,0x104D3,1,40); (0x10570,0x1057A,1,39); (0x1057C,0x1058A,1,39);
    (0x1058C,0x10592,1,39); (0x10594,0x10595,1,39); (0x10C80,0x10CB2,1,64);
    (0x118A0,0x118BF,1,32); (0x16E40,0x16E5F,1,32); (0x1E900,0x1E921,1,34)
  ].

Fixpoint lower_in (table : list (Z * Z * Z * Z)) (r : Z) : Z :=
  match table with
  | [] => r
  | (lo, hi, step, delta) :: t =>
      if (lo <=? r) && (r <=? hi) && ((r - lo) mod step =? 0) then r + delta
      else lower_in t r
  end.

(** [unicode.ToLower]. *)
Definition ToLower (r : Z) : Z :=
  if r <? 0x80 then if (0x41 <=? r) && (r <=? 0x5A) then r + 32 else r
  else lower_in lower_ranges r.

End unicode.

(** ** Lemmas *)

Definition is_ascii (b : byte) : bool := bv b <? 0x80.

(** Lower-casing of one ASCII byte. *)
Definition ascii_lower (b : byte) : byte :=
  if (0x41 <=? bv b) && (bv b <=? 0x5A) then bz (bv b + 32) else b.

(** No byte of the string is an upper-case ASCII letter. *)
Definition no_upper (b : byte) : bool := negb ((0x41 <=? bv b) && (bv b <=? 0x5A)).

Section lemmas.
Import utf8 unicode.

Lemma DecodeRune_ascii b t : is_ascii b = true → DecodeRune (b :: t) = (bv b, 1%nat).
Proof. unfold is_ascii. intros H. simpl. by rewrite H. Qed.

Lemma runes_ascii s : forallb is_ascii s = true → runes s = map (λ b, (bv b, 1%nat)) s.
Proof.
  unfold runes. induction s as [|b t IH]; intros H; [done|].
  apply andb_true_iff in H as [Hb Ht].
  change (runes_from 0 (b :: t)) with
    (DecodeRune (b :: t) :: runes_from ((DecodeRune (b :: t)).2 - 1) t).
  rewrite (DecodeRune_ascii _ _ Hb). simpl. by rewrite (IH Ht).
Qed.

Lemma Valid_ascii s : forallb is_ascii s = true → Valid s = true.
Proof.
  intros H. unfold Valid. rewrite (runes_ascii _ H). apply forallb_forall.
  intros rw (b & <- & Hb)%in_map_iff. rewrite forallb_forall in H.
  specialize (H b Hb). unfold is_ascii in H. bool_prop. unfold RuneError.
  cbn [fst snd]. by rewrite (proj2 (Z.eqb_neq _ _)) by lia.
Qed.

Lemma EncodeRune_ascii r : 0 ≤ r < 0x80 → EncodeRune r = [bz r].
Proof.
  intros H. unfold EncodeRune.
  assert ((0xD800 <=? r) && (r <=? 0xDFFF) || (0x10FFFF <? r) || (r <? 0) = false) as ->.
  { apply orb_false_iff; split; [apply orb_false_iff; split; [apply andb_false_iff; left|]|];
    (apply Z.leb_gt || apply Z.ltb_ge); lia. }
  by rewrite (proj2 (Z.ltb_lt _ _)) by lia.
Qed.

Lemma no_upper_high z : 0x80 ≤ z < 0x100 → no_upper (bz z) = true.
Proof.
  intros H. unfold no_upper. rewrite bv_bz by lia.
  apply negb_true_iff, andb_false_iff. right. apply Z.leb_gt. lia.
Qed.

Lemma land_small a n : 0 ≤ n → 0 ≤ Z.land a (Z.ones n) < 2 ^ n.
Proof. intros. rewrite Z.land_ones by lia. apply Z.mod_pos_bound, Z.pow_pos_nonneg; lia. Qed.

Lemma EncodeRune_no_upper r :
  ¬ (0x41 ≤ r ≤ 0x5A) → forallb no_upper (EncodeRune r) = true.
Proof.
  intros Hr. unfold EncodeRune.
  match goal with |- context [if ?c then RuneError else r] =>
    set (q := if c then RuneError else r) end.
  assert (0 ≤ q ≤ 0x10FFFF ∧ ¬ (0x41 ≤ q ≤ 0x5A)) as [Hq Hq'].
  { subst q. destruct (_ || (r <? 0)) eqn:E; [unfold RuneError; lia|]. bool_prop. lia. }
  clearbody q. clear Hr.
  change 0x3F with (Z.ones 6).
  destruct (Z.ltb_spec q 0x80); [|destruct (Z.ltb_spec q 0x800);
    [|destruct (Z.ltb_spec q 0x10000)]]; cbn [forallb].
  - rewrite andb_true_r. unfold no_upper. rewrite bv_bz by lia.
    apply negb_true_iff, andb_false_iff.
    destruct (Z.leb_spec 0x41 q); [right; apply Z.leb_gt; lia | by left].
  - rewrite !no_upper_high; try done;
      rewrite ?Z.shiftr_div_pow2 by lia;
      try (pose proof (land_small q 6); lia);
      (split; [pose proof (Z.div_pos q (2^6)); lia | apply Z.lt_add_lt_sub_l, Z.div_lt_upper_bound; lia]).
  - rewrite !no_upper_high; try done;
      try (pose proof (land_small q 6); pose proof (land_small (Z.shiftr q 6) 6); lia);
      rewrite ?Z.shiftr_div_pow2 by lia;
      (split; [pose proof (Z.div_pos q (2^12)); lia | apply Z.lt_add_lt_sub_l, Z.div_lt_upper_bound; lia]).
  - rewrite !no_upper_high; try done;
      try (pose proof (land_small q 6); pose proof (land_small (Z.shiftr q 6) 6);
           pose proof (land_small (Z.shiftr q 12) 6); lia);
      rewrite ?Z.shiftr_div_pow2 by lia;
      (split; [pose proof (Z.div_pos q (2^18)); lia | apply Z.lt_add_lt_sub_l, Z.div_lt_upper_bound; lia]).
Qed.

(** No rune of the table maps to an upper-case ASCII letter. *)
Lemma lower_in_no_upper table r :
  forallb (λ '(lo, hi, step, delta), 0x5A <? lo + delta) table = true →
  0x80 ≤ r → ¬ (0x41 ≤ lower_in table r ≤ 0x5A).
Proof.
  intros Ht Hr. induction table as [|[[[lo hi] step] delta] t IH]; simpl; [lia|].
  simpl in Ht. apply andb_true_iff in Ht as [H1 H2].
  destruct (_ && _) eqn:E; [|by apply IH]. bool_prop. lia.
Qed.

Lemma ToLower_no_upper r : ¬ (0x41 ≤ ToLower r ≤ 0x5A).
Proof.
  unfold ToLower. destruct (Z.ltb_spec r 0x80).
  - destruct (_ && _) eqn:E; bool_prop; [lia|]. apply andb_false_iff in E as [E|E]; bool_prop; lia.
  - apply lower_in_no_upper; [vm_compute; reflexivity | done].
Qed.

End lemmas.
