(* ===== verification/GoStrings.v ===== *)
(** * The parts of Go's [strings], [strconv] and [encoding/hex] the gateway uses

    Strings are byte sequences. [strings.TrimSpace] and [strings.ToLower] are
    the full functions, Unicode included (see GoUnicode.v); the remaining ones
    are byte operations. *)
From S2P Require Import Prelude GoUnicode.
Open Scope Z_scope.

Module gostrings.

(** ** Searching *)

(** [strings.IndexByte]; [None] is Go's -1. *)
Fixpoint IndexByte (s : bytes) (c : byte) : option nat :=
  match s with
  | [] => None
  | b :: t => if decide (b = c) then Some 0%nat else S <$> IndexByte t c
  end.

(** [strings.LastIndexByte]. *)
Fixpoint LastIndexByte (s : bytes) (c : byte) : option nat :=
  match s with
  | [] => None
  | b :: t =>
      match LastIndexByte t c with
      | Some i => Some (S i)
      | None => if decide (b = c) then Some 0%nat else None
      end
  end.

Definition HasPrefix (s p : bytes) : bool := bool_decide (p `prefix_of` s).
Definition HasSuffix (s p : bytes) : bool := bool_decide (p `suffix_of` s).

(** [strings.Contains] and [strings.ContainsAny] for ASCII characters. *)
Definition ContainsByte (s : bytes) (c : byte) : bool := bool_decide (c ∈ s).
Definition ContainsAny (s chars : bytes) : bool := existsb (λ c, ContainsByte chars c) s.

(** [strings.Count] of a one-byte substring. *)
Definition CountByte (s : bytes) (c : byte) : nat := length (filter (λ b, b = c) s).

(** ** Cutting *)

Definition TrimPrefix (s p : bytes) : bytes :=
  if HasPrefix s p then drop (length p) s else s.
Definition TrimSuffix (s p : bytes) : bytes :=
  if HasSuffix s p then take (length s - length p) s else s.

(** [strings.Split] on a one-byte separator. The result is never empty. *)
Fixpoint Split (s : bytes) (c : byte) : list bytes :=
  match s with
  | [] => [[]]
  | b :: t =>
      if decide (b = c) then [] :: Split t c
      else match Split t c with
           | [] => [[b]]
           | l :: ls => (b :: l) :: ls
           end
  end.

(** [strings.ReplaceAll(s, c, "")] for a one-byte [c]. *)
Definition RemoveByte (s : bytes) (c : byte) : bytes := filter (λ b, b ≠ c) s.

(** ** Trimming

    A rune is trimmed when it is white space, which is the case exactly when
    the string starts (ends) with the encoding of a white-space rune. *)

Definition space_encodings : list bytes := utf8.EncodeRune <$> unicode.spaces.

Definition find_prefix (encs : list bytes) (s : bytes) : option bytes :=
  find (λ e, HasPrefix s e) encs.

Fixpoint trim_left_from (encs : list bytes) (skip : nat) (s : bytes) : bytes :=
  match s with
  | [] => []
  | _ :: t =>
      match skip with
      | S k => trim_left_from encs k t
      | O => match find_prefix encs s with
             | Some e => trim_left_from encs (length e - 1) t
             | None => s
             end
      end
  end.

Definition TrimLeftSpace (s : bytes) : bytes := trim_left_from space_encodings 0 s.
Definition TrimRightSpace (s : bytes) : bytes :=
  rev (trim_left_from (@rev byte <$> space_encodings) 0 (rev s)).
Definition TrimSpace (s : bytes) : bytes := TrimRightSpace (TrimLeftSpace s).

(** [strings.TrimRight(s, c)] for a one-byte cutset. *)
Definition TrimRightByte (s : bytes) (c : byte) : bytes :=
  rev (trim_left_from [[c]] 0 (rev s)).

(** ** Case *)

(** [strings.ToLower]: every rune is mapped and re-encoded; a byte that is not
    part of a valid encoding becomes the encoding of [RuneError]. *)
Definition ToLower (s : bytes) : bytes :=
  concat (map (λ rw, utf8.EncodeRune (unicode.ToLower rw.1)) (utf8.runes s)).

(** ** Order: the [<] of Go strings *)

Fixpoint ltb (s t : bytes) : bool :=
  match s, t with
  | _, [] => false
  | [], _ :: _ => true
  | a :: s', b :: t' =>
      if bv a <? bv b then true else if bv b <? bv a then false else ltb s' t'
  end.

End gostrings.

Module strconv.

Definition digit (b : byte) : option Z :=
  if (0x30 <=? bv b) && (bv b <=? 0x39) then Some (bv b - 0x30) else None.

(** The value of a non-empty sequence of decimal digits. *)
Fixpoint digits_from (acc : Z) (s : bytes) : option Z :=
  match s with
  | [] => Some acc
  | b :: t => match digit b with
              | Some d => digits_from (acc * 10 + d) t
              | None => None
              end
  end.
Definition digits (s : bytes) : option Z :=
  match s with [] => None | _ => digits_from 0 s end.

(** [strconv.Atoi] on a 64-bit platform: an optional sign, decimal digits, and
    a range error outside [int64]. *)
Definition Atoi (s : bytes) : res Z :=
  let '(neg, ds) :=
    match s with
    | "-"%byte :: t => (true, t)
    | "+"%byte :: t => (false, t)
    | _ => (false, s)
    end in
  match digits ds with
  | None => Err (Sentinel "strconv.ErrSyntax")
  | Some u =>
      let v := if (neg : bool) then - u else u in
      if (- 2 ^ 63 <=? v) && (v <? 2 ^ 63) then Ok v
      else Err (Sentinel "strconv.ErrRange")
  end.

(** [strconv.ParseUint(s, 10, bits)]. *)
Definition ParseUint (s : bytes) (bits : Z) : res Z :=
  match digits s with
  | None => Err (Sentinel "strconv.ErrSyntax")
  | Some u => if u <? 2 ^ bits then Ok u else Err (Sentinel "strconv.ErrRange")
  end.

(** [strconv.Itoa] of a non-negative [int]; 19 digits are enough for [int64]. *)
Fixpoint itoa_from (fuel : nat) (n : Z) (acc : bytes) : bytes :=
  match fuel with
  | O => acc
  | S f => let acc' := bz (0x30 + n mod 10) :: acc in
           if n / 10 =? 0 then acc' else itoa_from f (n / 10) acc'
  end.
Definition Itoa (n : Z) : bytes := itoa_from 19 n [].

End strconv.

Module hex.

Definition hextable : bytes := gs"0123456789abcdef".
Definition digit (n : Z) : byte := nth (Z.to_nat n) hextable x00.

(** [hex.EncodeToString]. *)
Definition Encode (s : bytes) : bytes :=
  concat (map (λ b, [digit (Z.shiftr (bv b) 4); digit (Z.land (bv b) 0x0F)]) s).

Definition value (b : byte) : option Z :=
  if (0x30 <=? bv b) && (bv b <=? 0x39) then Some (bv b - 0x30)
  else if (0x61 <=? bv b) && (bv b <=? 0x66) then Some (bv b - 0x61 + 10)
  else if (0x41 <=? bv b) && (bv b <=? 0x46) then Some (bv b - 0x41 + 10)
  else None.

(** [hex.DecodeString]: an odd length or another character is an error. *)
Fixpoint Decode (s : bytes) : res bytes :=
  match s with
  | [] => Ok []
  | [_] => Err (Sentinel "hex.ErrLength")
  | h :: l :: t =>
      match value h, value l with
      | Some a, Some b =>
          let? r := Decode t in Ok (bz (Z.lor (Z.shiftl a 4) b) :: r)
      | _, _ => Err (errors_New "hex: invalid byte")
      end
  end.

End hex.

(** ** Lemmas: trimming *)

Section trimming.
Import gostrings.

Lemma trim_left_from_suffix encs k s : trim_left_from encs k s `suffix_of` s.
Proof.
  revert k. induction s as [|b t IH]; intros k; [done|].
  destruct k as [|k]; simpl; [|by apply suffix_cons_r].
  destruct (find_prefix encs (b :: t)); [by apply suffix_cons_r | done].
Qed.

Lemma trim_left_from_stop encs k s :
  trim_left_from encs k s = [] ∨ find_prefix encs (trim_left_from encs k s) = None.
Proof.
  revert k. induction s as [|b t IH]; intros k; [by left|].
  destruct k as [|k]; [|apply IH].
  change (trim_left_from encs 0 (b :: t)) with
    (match find_prefix encs (b :: t) with
     | Some e => trim_left_from encs (length e - 1) t | None => b :: t end).
  destruct (find_prefix encs (b :: t)) eqn:E; [apply IH | by right].
Qed.

Lemma trim_left_from_id encs s : find_prefix encs s = None → trim_left_from encs 0 s = s.
Proof. intros H. destruct s as [|b t]; [done|]. cbn [trim_left_from]. by rewrite H. Qed.

(** A string one of whose extensions starts with no encoding starts with none. *)
Lemma find_prefix_shorter encs s t :
  s `prefix_of` t → find_prefix encs t = None → find_prefix encs s = None.
Proof.
  intros Hst Ht. destruct (find_prefix encs s) as [e|] eqn:E; [|done].
  apply find_some in E as [He Hp]. unfold HasPrefix in Hp. bool_prop.
  pose proof (find_none _ _ Ht e He) as Hn. unfold HasPrefix in Hn. bool_prop.
  destruct Hn. by trans s.
Qed.

Lemma TrimRightSpace_prefix s : TrimRightSpace s `prefix_of` s.
Proof.
  unfold TrimRightSpace. rewrite <- (rev_involutive s) at 2.
  destruct (trim_left_from_suffix (@rev byte <$> space_encodings) 0 (rev s)) as [k Hk].
  exists (rev k). rewrite Hk at 1. apply rev_app_distr.
Qed.

Lemma TrimRightSpace_idemp s : TrimRightSpace (TrimRightSpace s) = TrimRightSpace s.
Proof.
  unfold TrimRightSpace. rewrite rev_involutive. f_equal.
  destruct (trim_left_from_stop (@rev byte <$> space_encodings) 0 (rev s)) as [E|E];
    [by rewrite E | by apply trim_left_from_id].
Qed.

Lemma TrimLeftSpace_kept s t : t `prefix_of` TrimLeftSpace s → TrimLeftSpace t = t.
Proof.
  intros Ht. destruct (trim_left_from_stop space_encodings 0 s) as [E|E].
  - unfold TrimLeftSpace in Ht. rewrite E in Ht. by apply prefix_nil_inv in Ht as ->.
  - apply trim_left_from_id. by apply (find_prefix_shorter _ _ _ Ht).
Qed.

Lemma TrimSpace_idemp s : TrimSpace (TrimSpace s) = TrimSpace s.
Proof.
  unfold TrimSpace. rewrite (TrimLeftSpace_kept s); [apply TrimRightSpace_idemp|].
  apply TrimRightSpace_prefix.
Qed.

(** Printable ASCII other than the space: what no trimming removes. *)
Definition graphic (b : byte) : bool := (0x21 <=? bv b) && (bv b <=? 0x7E).

Definition starts_none (encs : list bytes) (b : byte) : bool :=
  forallb (λ e, match e with [] => false | c :: _ => bool_decide (c ≠ b) end) encs.

Lemma starts_none_find encs b t : starts_none encs b = true → find_prefix encs (b :: t) = None.
Proof.
  intros H. destruct (find_prefix encs (b :: t)) as [e|] eqn:E; [|done].
  apply find_some in E as [He Hp]. unfold HasPrefix in Hp. bool_prop.
  unfold starts_none in H. rewrite forallb_forall in H. specialize (H e He).
  destruct e as [|c e]; [done|]. bool_prop. by apply prefix_cons_inv_1 in Hp.
Qed.

Lemma graphic_starts_none b :
  graphic b = true →
  starts_none space_encodings b = true ∧ starts_none (@rev byte <$> space_encodings) b = true.
Proof. revert b. byte_enum. Qed.

(** A string whose first and last characters are graphic is not trimmed. *)
Lemma TrimSpace_graphic s :
  (∀ b, head s = Some b → graphic b = true) →
  (∀ b, last s = Some b → graphic b = true) → TrimSpace s = s.
Proof.
  intros Hh Hl. unfold TrimSpace.
  assert (TrimLeftSpace s = s) as ->.
  { destruct s as [|b t]; [done|]. apply trim_left_from_id, starts_none_find.
    by apply graphic_starts_none, Hh. }
  unfold TrimRightSpace. destruct (rev s) as [|b t] eqn:E; [|].
  - apply (f_equal (@rev byte)) in E. by rewrite rev_involutive in E.
  - rewrite trim_left_from_id; [by rewrite <- E, rev_involutive|].
    apply starts_none_find, graphic_starts_none, Hl.
    apply (f_equal (@rev byte)) in E. rewrite rev_involutive in E. simpl in E.
    by rewrite E, last_snoc.
Qed.

Lemma TrimSpace_all_graphic s : forallb graphic s = true → TrimSpace s = s.
Proof.
  intros H. rewrite forallb_forall in H.
  apply TrimSpace_graphic; intros b Hb; apply H, list_elem_of_In.
  - destruct s; [done|]. simplify_eq/=. apply list_elem_of_here.
  - rewrite last_Some in Hb. destruct Hb as [l ->]. set_solver.
Qed.

End trimming.

(** ** Lemmas: splitting *)

Section splitting.
Import gostrings.

(** [strings.Join] with a one-byte separator. *)
Fixpoint Join (ls : list bytes) (c : byte) : bytes :=
  match ls with
  | [] => []
  | [l] => l
  | l :: ls' => l ++ c :: Join ls' c
  end.

Lemma Join_cons l ls c : ls ≠ [] → Join (l :: ls) c = l ++ c :: Join ls c.
Proof. by destruct ls. Qed.

Lemma Split_nonempty s c : Split s c ≠ [].
Proof. destruct s as [|b t]; simpl; [done|]. repeat case_match; done. Qed.

Lemma Join_Split s c : Join (Split s c) c = s.
Proof.
  induction s as [|b t IH]; [done|]. cbn [Split]. case_decide as Hb.
  - subst b. rewrite Join_cons by apply Split_nonempty. by rewrite IH.
  - destruct (Split t c) as [|l ls] eqn:E; [by apply Split_nonempty in E|].
    destruct ls; simpl in *; congruence.
Qed.

(** No piece contains the separator. *)
Lemma Split_pieces s c : Forall (λ l, c ∉ l) (Split s c).
Proof.
  induction s as [|b t IH]; cbn [Split]; [constructor; [by intros ?%elem_of_nil|constructor]|].
  case_decide as E; [constructor; [by intros ?%elem_of_nil|done]|].
  assert (∀ l, c ∉ l → c ∉ b :: l) as Hb by (intros l ?; rewrite not_elem_of_cons; split; congruence).
  destruct (Split t c) as [|l ls]; [constructor; [apply Hb; by intros ?%elem_of_nil|done]|].
  apply Forall_cons in IH as [? ?]. constructor; [by apply Hb|done].
Qed.

Lemma Split_app l s c : c ∉ l → Split (l ++ c :: s) c = l :: Split s c.
Proof.
  induction l as [|b l IH]; intros Hc; simpl; [by rewrite decide_True|].
  rewrite decide_False by set_solver. by rewrite IH by set_solver.
Qed.

Lemma Split_single l c : c ∉ l → Split l c = [l].
Proof.
  induction l as [|b l IH]; intros Hc; [done|]. simpl.
  rewrite decide_False by set_solver. by rewrite IH by set_solver.
Qed.

End splitting.

(** ** Lemmas: case *)

Section casing.
Import gostrings.

Lemma ToLower_ascii s : forallb is_ascii s = true → ToLower s = map ascii_lower s.
Proof.
  intros H. unfold ToLower. rewrite runes_ascii by done.
  induction s as [|b t IH]; [done|].
  apply andb_true_iff in H as [Hb Ht]. cbn [map concat fst]. rewrite IH by done.
  unfold is_ascii in Hb. bool_prop. pose proof (bv_range b).
  unfold ascii_lower, unicode.ToLower. rewrite (proj2 (Z.ltb_lt _ _)) by lia.
  destruct (_ && _) eqn:E.
  - bool_prop. by rewrite EncodeRune_ascii by lia.
  - rewrite EncodeRune_ascii by lia. by rewrite bz_bv.
Qed.

Lemma ToLower_fixed s :
  forallb is_ascii s = true → forallb no_upper s = true → ToLower s = s.
Proof.
  intros Ha Hu. rewrite ToLower_ascii by done.
  clear Ha. induction s as [|b t IH]; [done|].
  apply andb_true_iff in Hu as [Hb Ht]. simpl. rewrite IH by done.
  unfold no_upper in Hb. bool_prop. unfold ascii_lower. by rewrite Hb.
Qed.

Lemma ToLower_out_no_upper s : forallb no_upper (ToLower s) = true.
Proof.
  unfold ToLower. induction (utf8.runes s) as [|rw l IH]; [done|].
  cbn [map concat]. rewrite forallb_app, IH, andb_true_r.
  apply EncodeRune_no_upper, ToLower_no_upper.
Qed.

End casing.

(** ** Lemmas: numbers *)

Section numbers.
Import strconv.

Lemma digit_bz d : 0 ≤ d < 10 → digit (bz (0x30 + d)) = Some d.
Proof.
  intros H. unfold digit. rewrite bv_bz by lia.
  rewrite (proj2 (Z.leb_le 0x30 _)), (proj2 (Z.leb_le _ 0x39)) by lia. simpl. f_equal. lia.
Qed.

Lemma digits_itoa_from f n acc :
  0 ≤ n < 10 ^ Z.of_nat f → (0 < f)%nat →
  digits_from 0 (itoa_from f n acc) = digits_from n acc.
Proof.
  revert n acc. induction f as [|f IH]; intros n acc Hn Hf; [lia|].
  cbn [itoa_from].
  assert (0 ≤ n mod 10 < 10) by (apply Z.mod_pos_bound; lia).
  destruct (Z.eqb_spec (n / 10) 0) as [E|E].
  - cbn [digits_from]. rewrite digit_bz by done. f_equal.
    rewrite (Z.div_mod n 10) at 2 by lia. lia.
  - assert (0 < n / 10) by (pose proof (Z.div_pos n 10); lia).
    rewrite IH.
    + cbn [digits_from]. rewrite digit_bz by done. f_equal.
      rewrite (Z.div_mod n 10) at 3 by lia. lia.
    + rewrite Nat2Z.inj_succ, Z.pow_succ_r in Hn by lia.
      split; [lia|]. apply Z.div_lt_upper_bound; lia.
    + destruct f; [|lia]. exfalso. change (10 ^ Z.of_nat 1) with 10 in Hn.
      rewrite Z.div_small in E; lia.
Qed.

(** [strconv.Itoa] prints digits only. *)
Definition is_digit (b : byte) : bool := (0x30 <=? bv b) && (bv b <=? 0x39).

Lemma itoa_from_digits f n acc :
  forallb is_digit acc = true → forallb is_digit (itoa_from f n acc) = true.
Proof.
  revert n acc. induction f as [|f IH]; intros n acc Ha; [done|]. cbn [itoa_from].
  assert (forallb is_digit (bz (0x30 + n mod 10) :: acc) = true) as Hd.
  { cbn [forallb]. rewrite Ha, andb_true_r. unfold is_digit.
    pose proof (Z.mod_pos_bound n 10 eq_refl). rewrite bv_bz by lia.
    apply andb_true_iff; split; apply Z.leb_le; lia. }
  destruct (_ =? 0); [done | by apply IH].
Qed.

Lemma Itoa_digits n : forallb is_digit (Itoa n) = true.
Proof. by apply itoa_from_digits. Qed.

Lemma itoa_from_nonempty f n acc : (0 < f)%nat → itoa_from f n acc ≠ [].
Proof.
  revert n acc. induction f as [|f IH]; intros n acc Hf; [lia|]. cbn [itoa_from].
  destruct (_ =? 0); [done|]. destruct f; [done|]. apply IH. lia.
Qed.

Lemma Itoa_nonempty n : Itoa n ≠ [].
Proof. apply itoa_from_nonempty. lia. Qed.

Lemma Atoi_digits s u :
  forallb is_digit s = true → digits s = Some u → u < 2 ^ 63 → 0 ≤ u → Atoi s = Ok u.
Proof.
  intros Hs Hd Hu Hu0. unfold Atoi.
  assert ((match s with
    | "-"%byte :: t => (true, t) | "+"%byte :: t => (false, t) | _ => (false, s) end) = (false, s)) as ->.
  { destruct s as [|b t]; [done|]. apply andb_true_iff in Hs as [Hb _].
    destruct b; try done; vm_compute in Hb; done. }
  rewrite Hd. by rewrite (proj2 (Z.leb_le _ _)), (proj2 (Z.ltb_lt _ _)) by lia.
Qed.

Lemma Atoi_Itoa n : 0 ≤ n < 2 ^ 63 → Atoi (Itoa n) = Ok n.
Proof.
  intros H. apply Atoi_digits; try lia; [apply Itoa_digits|].
  unfold digits. destruct (Itoa n) eqn:E; [by apply Itoa_nonempty in E|].
  rewrite <- E. unfold Itoa. by rewrite digits_itoa_from by lia.
Qed.

(** A text [Atoi] accepts is a sign and digits. *)
Definition number_char (b : byte) : bool :=
  is_digit b || bool_decide (b = "-"%byte) || bool_decide (b = "+"%byte).

Lemma digits_from_chars acc s u : digits_from acc s = Some u → forallb is_digit s = true.
Proof.
  revert acc. induction s as [|b s IH]; intros acc; cbn; [done|].
  unfold is_digit, digit. destruct (_ && _); [|done]. cbn. apply IH.
Qed.

Lemma Atoi_chars s n : Atoi s = Ok n → forallb number_char s = true ∧ s ≠ [].
Proof.
  unfold Atoi. intros H.
  assert (∀ ds u, digits ds = Some u → forallb number_char ds = true ∧ ds ≠ []) as Hd.
  { intros ds u E. unfold digits in E. destruct ds as [|b ds]; [done|]. split; [|done].
    apply digits_from_chars in E. rewrite forallb_forall in E |- *. intros c Hc.
    unfold number_char. by rewrite (E c Hc). }
  assert (∃ ds u, digits ds = Some u ∧
    (s = ds ∨ s = "-"%byte :: ds ∨ s = "+"%byte :: ds)) as (ds & u & E & Hs).
  { destruct s as [|b t]; [done|]. destruct b; cbn beta iota in H;
      match type of H with context [digits ?x] =>
        destruct (digits x) eqn:E; [|done]; exists x; eauto end. }
  apply Hd in E as [E Hne]. destruct Hs as [-> |[-> | ->]]; [done|..]; split; try done;
    cbn [forallb]; by rewrite E.
Qed.

Lemma number_char_graphic b : number_char b = true → graphic b = true.
Proof. revert b. byte_enum. Qed.

End numbers.
