(* ===== verification/GoNet.v ===== *)
(** * The parts of Go's [net/netip] and [net] the gateway uses

    Textual IP addresses and prefixes ([netip.ParseAddr], [netip.ParsePrefix],
    [net.ParseIP]), membership of an address in a prefix, and the [host:port]
    syntax ([net.SplitHostPort], [net.JoinHostPort]). The parsers follow the
    loops of the Go implementation, because what they reject (leading zeros,
    zones, an ellipsis that stands for nothing) is visible in the host names the
    gateway accepts. *)
From S2P Require Import Prelude GoUnicode GoStrings.
Import gostrings.
Open Scope Z_scope.

Module netip.

(** [netip.Addr]: the zero value, a 32-bit IPv4 address, or a 128-bit IPv6
    address with its zone ([[]] for none). *)
Inductive Addr :=
| AddrZero
| V4 (a : Z)
| V6 (a : Z) (zone : bytes).

#[export] Instance Addr_eq_dec : EqDecision Addr.
Proof. solve_decision. Defined.

#[export] Program Instance Addr_countable : Countable Addr :=
  inj_countable
    (λ a, match a with AddrZero => inl tt | V4 n => inr (inl n) | V6 n z => inr (inr (n, z)) end)
    (λ x, match x with inl _ => Some AddrZero | inr (inl n) => Some (V4 n)
                     | inr (inr (n, z)) => Some (V6 n z) end) _.
Next Obligation. by intros []. Qed.

Definition IsValid (ip : Addr) : bool := match ip with AddrZero => false | _ => true end.
Definition Is4 (ip : Addr) : bool := match ip with V4 _ => true | _ => false end.
Definition Is6 (ip : Addr) : bool := match ip with V6 _ _ => true | _ => false end.
Definition Zone (ip : Addr) : bytes := match ip with V6 _ z => z | _ => [] end.
Definition BitLen (ip : Addr) : Z := match ip with AddrZero => 0 | V4 _ => 32 | V6 _ _ => 128 end.

(** [Is4In6] and [Unmap]: an IPv4-mapped IPv6 address [::ffff:a.b.c.d]. *)
Definition Is4In6 (ip : Addr) : bool :=
  match ip with V6 a _ => Z.shiftr a 32 =? 0xFFFF | _ => false end.
Definition Unmap (ip : Addr) : Addr :=
  match ip with
  | V6 a _ => if Is4In6 ip then V4 (Z.land a 0xFFFFFFFF) else ip
  | _ => ip
  end.

Definition withoutZone (ip : Addr) : Addr := match ip with V6 a _ => V6 a [] | _ => ip end.

(** Big-endian value of a byte array. *)
Definition be_value (s : bytes) : Z := fold_left (λ acc b, acc * 256 + bv b) s 0.

Definition AddrFrom4 (s : bytes) : Addr := V4 (be_value s).
Definition AddrFrom16 (s : bytes) : Addr := V6 (be_value s) [].
(** [AddrFromSlice]: 4 or 16 bytes. *)
Definition AddrFromSlice (s : bytes) : option Addr :=
  if (length s =? 4)%nat then Some (AddrFrom4 s)
  else if (length s =? 16)%nat then Some (AddrFrom16 s) else None.

(** ** Parsing *)

(** The loop of [parseIPv4Fields]: [i0] says that the index is 0, [dot] that the
    previous character was a dot, [val] and [digLen] are the value and the number
    of digits of the current octet, [fields] the octets before it. *)
Fixpoint v4_loop (s : bytes) (i0 dot : bool) (val : Z) (digLen : nat) (fields : list Z)
    : res (list Z) :=
  match s with
  | [] => if (length fields <? 3)%nat then Err (errors_New "IPv4 address too short")
          else Ok (fields ++ [val])
  | c :: t =>
      match strconv.digit c with
      | Some d =>
          if (digLen =? 1)%nat && (val =? 0)
          then Err (errors_New "IPv4 field has octet with leading zero")
          else let val' := val * 10 + d in
               if 255 <? val' then Err (errors_New "IPv4 field has value >255")
               else v4_loop t false false val' (S digLen) fields
      | None =>
          if decide (c = "."%byte) then
            if i0 || (match t with [] => true | _ => false end) || dot
            then Err (errors_New "IPv4 field must have at least one digit")
            else if (length fields =? 3)%nat then Err (errors_New "IPv4 address too long")
            else v4_loop t false true 0 0 (fields ++ [val])
          else Err (errors_New "unexpected character")
      end
  end.
Definition parseIPv4Fields (s : bytes) : res (list Z) := v4_loop s true false 0 0 [].

Definition parseIPv4 (s : bytes) : res Addr :=
  let? fs := parseIPv4Fields s in Ok (V4 (fold_left (λ acc f, acc * 256 + f) fs 0)).

(** One group of hexadecimal digits: its value, its length and what follows. *)
Fixpoint hex_group (off : nat) (acc : Z) (s : bytes) : res (Z * nat * bytes) :=
  match s with
  | [] => Ok (acc, off, [])
  | c :: t =>
      match hex.value c with
      | Some d =>
          if (3 <? off)%nat then Err (errors_New "each group must have 4 or fewer digits")
          else let acc' := Z.shiftl acc 4 + d in
               if 0xFFFF <? acc' then Err (errors_New "IPv6 field has value >=2^16")
               else hex_group (S off) acc' t
      | None => Ok (acc, off, s)
      end
  end.

(** The loop of [parseIPv6]: [ip] holds the bytes parsed so far ([i] is its
    length) and [ell] the position of the ellipsis. The result is the bytes, the
    position of the ellipsis and the unread rest. At most eight groups fit, so
    the fuel of 8 the caller gives is never exhausted. *)
Fixpoint v6_loop (fuel : nat) (s : bytes) (ip : list Z) (ell : option nat)
    : res (list Z * option nat * bytes) :=
  match fuel with
  | O => Ok (ip, ell, s)
  | S f =>
      let? (acc, off, rest) := hex_group 0 0 s in
      if (off =? 0)%nat
      then Err (errors_New "each colon-separated field must have at least one digit")
      else
        let ip' := ip ++ [Z.shiftr acc 8; Z.land acc 0xFF] in
        match rest with
        | [] => Ok (ip', ell, [])
        | c :: s1 =>
            if decide (c = "."%byte) then
              if (match ell with None => true | _ => false end) && negb (length ip =? 12)%nat
              then Err (errors_New "embedded IPv4 address must replace the final 2 fields of the address")
              else if (16 <? length ip + 4)%nat
              then Err (errors_New "too many hex fields to fit an embedded IPv4 at the end of the address")
              else let? fs := parseIPv4Fields s in Ok (ip ++ fs, ell, [])
            else if decide (c ≠ ":"%byte) then Err (errors_New "unexpected character, want colon")
            else match s1 with
            | [] => Err (errors_New "colon must be followed by more characters")
            | d :: s2 =>
                if decide (d = ":"%byte) then
                  match ell with
                  | Some _ => Err (errors_New "multiple :: in address")
                  | None =>
                      match s2 with
                      | [] => Ok (ip', Some (length ip'), [])
                      | _ => v6_loop f s2 ip' (Some (length ip'))
                      end
                  end
                else v6_loop f s1 ip' ell
            end
        end
  end.

(** The expansion of the ellipsis at the end of [parseIPv6]. *)
Definition v6_finish (ip : list Z) (ell : option nat) (rest zone : bytes) : res Addr :=
  match rest with
  | _ :: _ => Err (errors_New "trailing garbage after address")
  | [] =>
      if (length ip <? 16)%nat then
        match ell with
        | None => Err (errors_New "address string too short")
        | Some e =>
            let full := take e ip ++ replicate (16 - length ip) 0 ++ drop e ip in
            Ok (V6 (fold_left (λ acc f, acc * 256 + f) full 0) zone)
        end
      else match ell with
           | Some _ => Err (errors_New "the :: must expand to at least one field of zeros")
           | None => Ok (V6 (fold_left (λ acc f, acc * 256 + f) ip 0) zone)
           end
  end.

(** [parseIPv6] once the zone has been split off. *)
Definition v6_body (s zone : bytes) : res Addr :=
  let '(ell, s') := if HasPrefix s gs"::" then (Some 0%nat, drop 2 s) else (None, s) in
  match ell, s' with
  | Some _, [] => Ok (V6 0 zone)
  | _, _ => let? (ip, ell', rest) := v6_loop 8 s' [] ell in v6_finish ip ell' rest zone
  end.

Definition parseIPv6 (inp : bytes) : res Addr :=
  let? (s, zone) :=
    match IndexByte inp "%"%byte with
    | None => Ok (inp, [])
    | Some i =>
        match drop (S i) inp with
        | [] => Err (errors_New "zone must be a non-empty string")
        | z => Ok (take i inp, z)
        end
    end in
  v6_body s zone.

(** [netip.ParseAddr]: the first of ['.'], [':'] and ['%'] decides the family. *)
Fixpoint first_special (s : bytes) : option byte :=
  match s with
  | [] => None
  | c :: t => if decide (c = "."%byte) then Some c
              else if decide (c = ":"%byte) then Some c
              else if decide (c = "%"%byte) then Some c
              else first_special t
  end.

Definition ParseAddr (s : bytes) : res Addr :=
  match first_special s with
  | Some "."%byte => parseIPv4 s
  | Some ":"%byte => parseIPv6 s
  | Some _ => Err (errors_New "missing IPv6 address")
  | None => Err (errors_New "unable to parse IP")
  end.

(** ** Prefixes *)

(** [netip.Prefix]; [bitsPlusOne = 0] marks an invalid prefix. *)
Record Prefix := { pip : Addr; bitsPlusOne : Z }.

Definition PrefixZero : Prefix := {| pip := AddrZero; bitsPlusOne := 0 |}.
Definition PrefixIsValid (p : Prefix) : bool := 0 <? bitsPlusOne p.
Definition Bits (p : Prefix) : Z := bitsPlusOne p - 1.

Definition PrefixFrom (ip : Addr) (bits : Z) : Prefix :=
  {| pip := withoutZone ip;
     bitsPlusOne := if IsValid ip && (0 <=? bits) && (bits <=? BitLen ip)
                    then bits + 1 else 0 |}.

(** The mask of the [bits] most significant bits of a [w]-bit word. *)
Definition mask (w bits : Z) : Z := 2 ^ w - 2 ^ (w - bits).

Definition Masked (p : Prefix) : Prefix :=
  let b := Bits p in
  if b <? 0 then PrefixZero
  else match pip p with
       | AddrZero => PrefixZero
       | V4 a => if 32 <? b then PrefixZero else PrefixFrom (V4 (Z.land a (mask 32 b))) b
       | V6 a z => if 128 <? b then PrefixZero else PrefixFrom (V6 (Z.land a (mask 128 b)) z) b
       end.

Definition ParsePrefix (s : bytes) : res Prefix :=
  match LastIndexByte s "/"%byte with
  | None => Err (errors_New "no '/'")
  | Some i =>
      let? ip := ParseAddr (take i s) in
      if Is6 ip && negb (bool_decide (Zone ip = []))
      then Err (errors_New "IPv6 zones cannot be present in a prefix")
      else
        let bitsStr := drop (S i) s in
        if (1 <? length bitsStr)%nat &&
           (match bitsStr with b :: _ => negb ((0x31 <=? bv b) && (bv b <=? 0x39)) | [] => false end)
        then Err (errors_New "bad bits after slash")
        else
          let? bits := strconv.Atoi bitsStr in
          let maxBits := if Is6 ip then 128 else 32 in
          if (bits <? 0) || (maxBits <? bits) then Err (errors_New "prefix length out of range")
          else Ok (PrefixFrom ip bits)
  end.

(** [Prefix.Contains]. *)
Definition Contains (p : Prefix) (ip : Addr) : bool :=
  if negb (PrefixIsValid p) || negb (bool_decide (Zone ip = [])) then false
  else match pip p, ip with
       | V4 n, V4 a => Z.shiftr (Z.lxor a n) (32 - Bits p) =? 0
       | V6 n _, V6 a _ => Z.land (Z.lxor a n) (mask 128 (Bits p)) =? 0
       | _, _ => false
       end.

End netip.

Module net.

(** [net.UDPAddr]: the IP as its 16-byte value ([None] for a nil slice). *)
Record UDPAddr := { ua_IP : option Z; ua_Port : Z; ua_Zone : bytes }.

(** [net.ParseIP] as the 16-byte value of the address. *)
Definition ParseIP (s : bytes) : option Z :=
  match netip.ParseAddr s with
  | Ok (netip.V4 a) => Some (0xFFFF * 2 ^ 32 + a)
  | Ok (netip.V6 a []) => Some a
  | _ => None
  end.

(** [net.IP.To4], [IsUnspecified], [IsMulticast] and the comparison with
    [net.IPv4bcast], on the 16-byte form. *)
Definition To4 (ip : Z) : option Z :=
  if Z.shiftr ip 32 =? 0xFFFF then Some (Z.land ip 0xFFFFFFFF) else None.
Definition IsUnspecified (ip : Z) : bool :=
  (ip =? 0) || bool_decide (To4 ip = Some 0).
Definition IsMulticast (ip : Z) : bool :=
  match To4 ip with
  | Some v => Z.land (Z.shiftr v 24) 0xF0 =? 0xE0
  | None => Z.shiftr ip 120 =? 0xFF
  end.
Definition IsIPv4bcast (ip : Z) : bool := bool_decide (To4 ip = Some 0xFFFFFFFF).

(** [net.SplitHostPort]. *)
Definition SplitHostPort (hp : bytes) : res (bytes * bytes) :=
  let missingPort := errors_New "missing port in address" in
  let tooManyColons := errors_New "too many colons in address" in
  match LastIndexByte hp ":"%byte with
  | None => Err missingPort
  | Some i =>
      let port := drop (S i) hp in
      let finish (host : bytes) (j k : nat) :=
        if ContainsByte (drop j hp) "["%byte then Err (errors_New "unexpected '[' in address")
        else if ContainsByte (drop k hp) "]"%byte then Err (errors_New "unexpected ']' in address")
        else Ok (host, port) in
      match hp with
      | "["%byte :: _ =>
          match IndexByte hp "]"%byte with
          | None => Err (errors_New "missing ']' in address")
          | Some e =>
              if (S e =? length hp)%nat then Err missingPort
              else if (S e =? i)%nat then finish (drop 1 (take e hp)) 1%nat (S e)
              else if bool_decide (hp !! S e = Some ":"%byte) then Err tooManyColons
              else Err missingPort
          end
      | _ =>
          let host := take i hp in
          if ContainsByte host ":"%byte then Err tooManyColons
          else finish host 0%nat 0%nat
      end
  end.

(** [net.JoinHostPort]. *)
Definition JoinHostPort (host port : bytes) : bytes :=
  if ContainsByte host ":"%byte then gs"[" ++ host ++ gs"]:" ++ port
  else host ++ gs":" ++ port.

End net.

(** ** Examples *)

Example ParseAddr_v4 : netip.ParseAddr gs"10.0.3.255" = Ok (netip.V4 0x0A0003FF).
Proof. reflexivity. Qed.
Example ParseAddr_leading_zero : is_ok (netip.ParseAddr gs"10.0.03.1") = false.
Proof. reflexivity. Qed.
Example ParseAddr_v6_ellipsis : netip.ParseAddr gs"2001:db8::1" = Ok (netip.V6 0x20010db8000000000000000000000001 []).
Proof. reflexivity. Qed.
Example ParseAddr_v6_embedded : netip.ParseAddr gs"::ffff:1.2.3.4" = Ok (netip.V6 0xFFFF01020304 []).
Proof. reflexivity. Qed.
Example ParseAddr_v6_zone : netip.ParseAddr gs"fe80::1%eth0" = Ok (netip.V6 0xfe800000000000000000000000000001 gs"eth0").
Proof. reflexivity. Qed.
Example ParseAddr_v6_empty_ellipsis : is_ok (netip.ParseAddr gs"1:2:3:4:5:6:7::8") = false.
Proof. vm_compute. reflexivity. Qed.

(** ** Lemmas: the characters of an address without zone *)

Definition ip_char (b : byte) : bool :=
  bool_decide (is_Some (hex.value b)) || bool_decide (b = ":"%byte) || bool_decide (b = "."%byte).

(** What the parsers guarantee of the text they accept. *)
Definition ip_text (s : bytes) : Prop :=
  forallb ip_char s = true ∧ last s ≠ Some "."%byte.

Section parse_lemmas.
Import netip.

Lemma digit_ip_char b d : strconv.digit b = Some d → ip_char b = true ∧ b ≠ "."%byte.
Proof.
  intros H. enough (bool_decide (is_Some (strconv.digit b)) = true →
    ip_char b = true ∧ b ≠ "."%byte) as Hb.
  { apply Hb. rewrite H. by apply bool_decide_eq_true_2. }
  clear H d. revert b. byte_enum.
Qed.

Lemma hex_ip_char b d : hex.value b = Some d → ip_char b = true ∧ b ≠ "."%byte.
Proof.
  intros H. enough (bool_decide (is_Some (hex.value b)) = true →
    ip_char b = true ∧ b ≠ "."%byte) as Hb.
  { apply Hb. rewrite H. by apply bool_decide_eq_true_2. }
  clear H d. revert b. byte_enum.
Qed.

Lemma ip_text_cons b s :
  ip_char b = true → (s = [] → b ≠ "."%byte) → ip_text s → ip_text (b :: s).
Proof.
  intros Hb Hs [H1 H2]. split; [simpl; by rewrite Hb|].
  destruct s as [|c s]; simpl in *; [|done]. intros [=]. by apply Hs.
Qed.

Lemma ip_text_app s t :
  forallb ip_char s = true → (t = [] → last s ≠ Some "."%byte) → ip_text t → ip_text (s ++ t).
Proof.
  intros Hs Hl [H1 H2]. split; [by rewrite forallb_app, Hs, H1|].
  rewrite last_app. destruct (last t) eqn:E; [done|]. apply Hl. by apply last_None in E.
Qed.

Lemma v4_loop_text s i0 dot val dl fs l :
  v4_loop s i0 dot val dl fs = Ok l → ip_text s.
Proof.
  revert i0 dot val dl fs. induction s as [|c t IH]; intros i0 dot val dl fs H; [done|].
  cbn [v4_loop] in H. destruct (strconv.digit c) as [d|] eqn:Hd.
  - apply digit_ip_char in Hd as [Hc Hn]. case_match; [done|]. case_match; [done|].
    apply ip_text_cons; eauto.
  - destruct (decide (c = "."%byte)) as [->|]; [|done].
    destruct t as [|b t']; [by rewrite orb_true_r in H|].
    case_match; [done|]. case_match; [done|].
    apply ip_text_cons; [done | done | eauto].
Qed.

Lemma hex_group_split off acc s r : hex_group off acc s = Ok r →
  ∃ p, s = p ++ r.2 ∧ forallb ip_char p = true ∧ last p ≠ Some "."%byte ∧
       (r.1.2 = off + length p)%nat.
Proof.
  revert off acc. induction s as [|c t IH]; intros off acc H; cbn [hex_group] in H.
  { simplify_eq. exists []. by rewrite Nat.add_0_r. }
  destruct (hex.value c) as [d|] eqn:Hd.
  - case_match; [done|]. case_match; [done|]. apply IH in H as (p & -> & Hp & Hl & Ho).
    apply hex_ip_char in Hd as [Hc Hn]. exists (c :: p). split_and!; [done| |destruct p; simpl in *; congruence|simpl; lia].
    simpl. by rewrite Hc.
  - simplify_eq. exists []. split_and!; [done..|simpl; lia].
Qed.

Lemma v6_loop_text fuel s ip ell ip' ell' :
  v6_loop fuel s ip ell = Ok (ip', ell', []) → ip_text s.
Proof.
  revert s ip ell. induction fuel as [|f IH]; intros s ip ell H; cbn [v6_loop] in H.
  { by simplify_eq. }
  destruct (hex_group 0 0 s) as [[[acc off] rest]|] eqn:Hg; [|done]. cbn [res_bind] in H.
  pose proof Hg as (p & -> & Hp & Hl & _)%hex_group_split. cbn [snd] in *.
  destruct (off =? 0)%nat; [done|].
  destruct rest as [|c s1]; [by apply ip_text_app|].
  apply ip_text_app; [done|done|].
  assert (c = "."%byte → ip_text (p ++ c :: s1) → ip_text (c :: s1)) as Hdot.
  { intros -> [Ha Hb]. rewrite forallb_app in Ha. apply andb_true_iff in Ha as [_ Ha].
    split; [done|]. rewrite last_app in Hb. destruct s1; [done|].
    change (last ("."%byte :: b :: s1)) with (last (b :: s1)) in *. destruct (last (b :: s1)) eqn:E; [done|].
    by apply last_None in E. }
  destruct (decide (c = "."%byte)) as [->|Hc].
  - apply Hdot; [done|]. destruct (_ && _) in H; [done|]. destruct (_ <? _)%nat in H; [done|].
    destruct (parseIPv4Fields _) eqn:E; [|done]. unfold parseIPv4Fields in E. eapply v4_loop_text, E.
  - clear Hdot. destruct (decide (c ≠ ":"%byte)) as [|Hcc]; [done|].
    apply dec_stable in Hcc as ->.
    destruct s1 as [|d s2]; [done|]. destruct (decide (d = ":"%byte)) as [->|].
    + destruct ell; [done|]. apply ip_text_cons; [done|done|].
      apply ip_text_cons; [done|done|]. destruct s2; [done|eauto].
    + apply ip_text_cons; eauto.
Qed.

Lemma v6_finish_inv ip ell rest zone a :
  v6_finish ip ell rest zone = Ok a → rest = [] ∧ ∃ n, a = V6 n zone.
Proof. unfold v6_finish. intros H. repeat case_match; simplify_eq; eauto. Qed.

Lemma v6_body_inv s zone a : v6_body s zone = Ok a → ip_text s ∧ ∃ n, a = V6 n zone.
Proof.
  unfold v6_body. destruct (HasPrefix s gs"::") eqn:Hp; intros H; cbn beta iota in H.
  - apply bool_decide_eq_true_1 in Hp as [k ->].
    change (drop 2 (gs"::" ++ k)) with k in H. change (gs"::" ++ k) with (":"%byte :: ":"%byte :: k).
    split.
    + apply ip_text_cons; [done|done|]. apply ip_text_cons; [done|done|].
      destruct k as [|b k]; [done|].
      destruct (v6_loop 8 _ _ _) as [[[ip2 e2] r2]|] eqn:E; [|done].
      apply v6_finish_inv in H as [-> _]. by apply v6_loop_text in E.
    + destruct k as [|b k]; [naive_solver|].
      destruct (v6_loop 8 _ _ _) as [[[ip2 e2] r2]|] eqn:E; [|done].
      by apply v6_finish_inv in H as [-> ?].
  - destruct (v6_loop 8 _ _ _) as [[[ip2 e2] r2]|] eqn:E; [|done].
    apply v6_finish_inv in H as [-> ?]. by apply v6_loop_text in E.
Qed.

(** A string [net.ParseIP] accepts consists of hexadecimal digits, colons and
    dots, and does not end in a dot. *)
Lemma ParseIP_text s ip : net.ParseIP s = Some ip → ip_text s ∧ s ≠ [].
Proof.
  unfold net.ParseIP, ParseAddr. intros H.
  destruct (first_special s) as [c|] eqn:Hf; [|done].
  split; [|by intros ->].
  assert (c = "."%byte ∨ c = ":"%byte ∨ c = "%"%byte) as [-> | [-> | ->]]; [| | |done].
  { clear H. induction s as [|b t IH]; [done|]. simpl in Hf.
    repeat (case_decide; [naive_solver|]). eauto. }
  - unfold parseIPv4 in H. destruct (parseIPv4Fields s) eqn:E; [|done]. by apply v4_loop_text in E.
  - unfold parseIPv6 in H. destruct (IndexByte s "%"%byte) as [i|] eqn:Ei.
    + destruct (drop (S i) s) as [|z0 z] eqn:Ed; [done|]. cbn [res_bind] in H.
      destruct (v6_body _ _) eqn:E; [|done]. apply v6_body_inv in E as [_ [n ->]]. done.
    + cbn [res_bind] in H. destruct (v6_body _ _) eqn:E; [|done]. by apply v6_body_inv in E as [? _].
Qed.

End parse_lemmas.

(** ** Lemmas: ranges of parsed addresses *)

Section range_lemmas.
Import netip.

(** An address is within the width of its family. *)
Definition addr_ok (ip : Addr) : Prop :=
  match ip with
  | AddrZero => True
  | V4 a => 0 ≤ a < 2 ^ 32
  | V6 a _ => 0 ≤ a < 2 ^ 128
  end.

Definition octets (l : list Z) : Prop := Forall (λ v, 0 ≤ v < 256) l.

Lemma octets_value l acc k :
  octets l → 0 ≤ acc < 256 ^ k → 0 ≤ k →
  0 ≤ fold_left (λ a f, a * 256 + f) l acc < 256 ^ (k + zlen l).
Proof.
  intros Hl. revert acc k. induction Hl as [|v l Hv Hl IH]; intros acc k Ha Hk; cbn [fold_left].
  { unfold zlen. simpl. by rewrite Z.add_0_r. }
  replace (k + zlen (v :: l)) with (Z.succ k + zlen l) by (unfold zlen; cbn [length]; lia).
  apply IH; [|lia]. rewrite Z.pow_succ_r by lia. lia.
Qed.

Lemma octets_word l n : octets l → zlen l = n →
  0 ≤ fold_left (λ a f, a * 256 + f) l 0 < 2 ^ (8 * n).
Proof.
  intros Hl Hn. pose proof (octets_value l 0 0 Hl ltac:(done) ltac:(lia)) as H.
  rewrite Z.add_0_l, Hn in H. by rewrite Z.pow_mul_r by (unfold zlen in *; lia).
Qed.

Lemma v4_loop_octets s i0 dot val dl fs l :
  v4_loop s i0 dot val dl fs = Ok l →
  0 ≤ val < 256 → octets fs → (length fs ≤ 3)%nat → octets l ∧ length l = 4%nat.
Proof.
  revert i0 dot val dl fs. induction s as [|c t IH]; intros i0 dot val dl fs H Hv Hf Hlen;
    cbn [v4_loop] in H.
  { destruct (_ <? _)%nat eqn:E; [done|]. injection H as <-. bool_prop.
    split; [apply Forall_app; by rewrite Forall_singleton | rewrite length_app; simpl; lia]. }
  destruct (strconv.digit c) as [d|] eqn:Hd.
  - case_match; [done|]. case_match; [done|]. bool_prop. apply IH in H; [done| |done|done].
    unfold strconv.digit in Hd. case_match; [|done]. injection Hd as <-. bool_prop. lia.
  - case_decide; [|done]. case_match; [done|]. destruct (_ =? _)%nat eqn:E; [done|]. bool_prop.
    apply IH in H; [done|lia| |rewrite length_app; simpl; lia].
    apply Forall_app. by rewrite Forall_singleton.
Qed.

Lemma hex_group_value off acc s r :
  hex_group off acc s = Ok r → 0 ≤ acc < 2 ^ 16 → 0 ≤ r.1.1 < 2 ^ 16.
Proof.
  revert off acc. induction s as [|c t IH]; intros off acc H Ha; cbn [hex_group] in H.
  { by simplify_eq. }
  destruct (hex.value c) as [d|] eqn:Hd; [|by simplify_eq].
  case_match; [done|]. case_match; [done|]. bool_prop. apply IH in H; [done|].
  assert (0 ≤ d).
  { unfold hex.value in Hd. repeat (case_match; simplify_eq; bool_prop; try lia). }
  rewrite Z.shiftl_mul_pow2 in * by lia. lia.
Qed.

Lemma v6_loop_octets fuel s ip ell ip' ell' rest :
  v6_loop fuel s ip ell = Ok (ip', ell', rest) →
  octets ip → (length ip + 2 * fuel ≤ 16)%nat → octets ip' ∧ (length ip' ≤ 16)%nat.
Proof.
  revert s ip ell. induction fuel as [|f IH]; intros s ip ell H Hip Hlen; cbn [v6_loop] in H.
  { simplify_eq. split; [done|lia]. }
  destruct (hex_group 0 0 s) as [[[acc off] rest1]|] eqn:Hg; [|done]. cbn [res_bind] in H.
  apply hex_group_value in Hg; [|lia]. cbn [fst] in Hg. destruct (off =? 0)%nat; [done|].
  assert (octets (ip ++ [Z.shiftr acc 8; Z.land acc 0xFF])) as Hip'.
  { apply Forall_app. split; [done|]. rewrite Z.shiftr_div_pow2 by lia.
    change 0xFF with (Z.ones 8). rewrite Z.land_ones by lia.
    repeat constructor; first [apply Z.div_pos; lia | apply Z.div_lt_upper_bound; lia
                              | apply Z.mod_pos_bound; lia]. }
  assert (length (ip ++ [Z.shiftr acc 8; Z.land acc 0xFF]) = length ip + 2)%nat as Hl'
    by (rewrite length_app; simpl; lia).
  destruct rest1 as [|c s1]; [simplify_eq; split; [done|lia]|].
  case_decide.
  { case_match; [done|]. destruct (_ <? _)%nat eqn:E; [done|]. bool_prop.
    destruct (parseIPv4Fields s) as [fs|] eqn:Ef; [|done]. cbn [res_bind] in H. simplify_eq.
    apply v4_loop_octets in Ef as [Ho Hl]; [|lia|constructor|simpl; lia].
    split; [by apply Forall_app|rewrite length_app; lia]. }
  case_decide; [done|]. destruct s1 as [|d s2]; [done|]. case_decide.
  - destruct ell; [done|]. destruct s2; [simplify_eq; split; [done|lia]|].
    apply IH in H; [done|done|lia].
  - apply IH in H; [done|done|lia].
Qed.

Lemma v6_finish_ok ip ell rest zone a :
  v6_finish ip ell rest zone = Ok a → octets ip → (length ip ≤ 16)%nat → addr_ok a.
Proof.
  unfold v6_finish. intros H Hip Hl. destruct rest; [|done].
  destruct (_ <? _)%nat eqn:E; bool_prop; destruct ell as [e|]; simplify_eq; cbn [addr_ok].
  - apply (octets_word _ 16).
    + apply Forall_app. split; [by apply Forall_take|]. apply Forall_app.
      split; [apply Forall_replicate; lia|by apply Forall_drop].
    + unfold zlen. rewrite !length_app, length_take, length_drop, length_replicate. lia.
  - apply (octets_word _ 16); [done|unfold zlen; lia].
Qed.

Lemma v6_body_ok s zone a : v6_body s zone = Ok a → addr_ok a.
Proof.
  unfold v6_body. intros H.
  destruct (if HasPrefix s gs"::" then _ else _) as [ell s'].
  assert (∀ e, (let? (ip, ell', rest) := v6_loop 8 s' [] e in v6_finish ip ell' rest zone) = Ok a →
    addr_ok a) as Hgen.
  { intros e Hl. apply res_bind_Ok in Hl as ([[ip e'] rest] & Hl & Hf).
    apply v6_loop_octets in Hl as [Ho Hlen]; [|constructor|simpl; lia].
    by apply v6_finish_ok in Hf. }
  destruct ell, s'; eauto. by simplify_eq.
Qed.

Lemma ParseAddr_ok s a : ParseAddr s = Ok a → addr_ok a ∧ IsValid a = true.
Proof.
  unfold ParseAddr. destruct (first_special s) as [c|]; [|done].
  assert (parseIPv4 s = Ok a → addr_ok a ∧ IsValid a = true) as H4.
  { unfold parseIPv4. intros H. apply res_bind_Ok in H as (fs & Hf & H). simplify_eq.
    apply v4_loop_octets in Hf as [Ho Hl]; [|lia|constructor|simpl; lia].
    split; [|done]. apply (octets_word _ 4); [done|unfold zlen; lia]. }
  assert (parseIPv6 s = Ok a → addr_ok a ∧ IsValid a = true) as H6.
  { unfold parseIPv6. intros H. apply res_bind_Ok in H as ([t z] & _ & H).
    split; [by apply v6_body_ok in H | by apply v6_body_inv in H as [_ [n ->]]]. }
  intros H. destruct c; try done; auto.
Qed.

(** ** Lemmas: membership in a prefix *)

(** The meaning of a network of [bits] bits around [n]: the addresses of the same
    family, without a zone, whose leading [bits] bits are those of [n]. *)
Definition in_network (n : Addr) (bits : Z) (ip : Addr) : Prop :=
  match n, ip with
  | V4 n, V4 a => a / 2 ^ (32 - bits) = n / 2 ^ (32 - bits)
  | V6 n _, V6 a z => z = [] ∧ a / 2 ^ (128 - bits) = n / 2 ^ (128 - bits)
  | _, _ => False
  end.

Lemma mask_shiftl w b : 0 ≤ b ≤ w → mask w b = Z.shiftl (Z.ones b) (w - b).
Proof.
  intros Hb. unfold mask. rewrite Z.shiftl_mul_pow2, Z.ones_equiv by lia.
  replace w with (b + (w - b)) at 1 by lia. rewrite Z.pow_add_r by lia. lia.
Qed.

(** The masked bits of a [w]-bit word are its quotient, shifted back. *)
Lemma land_mask w b x : 0 ≤ b ≤ w → 0 ≤ x < 2 ^ w →
  Z.land x (mask w b) = Z.shiftl (Z.shiftr x (w - b)) (w - b).
Proof.
  intros Hb Hx. rewrite mask_shiftl by lia. apply Z.bits_inj'. intros i Hi.
  rewrite Z.land_spec, !Z.shiftl_spec by lia.
  destruct (Z.lt_ge_cases i (w - b)) as [Hlt|Hge].
  { rewrite !(Z.testbit_neg_r _ (i - (w - b))) by lia. apply andb_false_r. }
  rewrite Z.shiftr_spec, Z.sub_add by lia.
  destruct (Z.lt_ge_cases i w).
  - rewrite Z.ones_spec_low by lia. apply andb_true_r.
  - rewrite Z.ones_spec_high, andb_false_r by lia.
    rewrite <- (Z.mod_small x (2 ^ w)) by lia. by rewrite Z.mod_pow2_bits_high by lia.
Qed.

Lemma lxor_range w x y : 0 ≤ x < 2 ^ w → 0 ≤ y < 2 ^ w → 0 ≤ w → 0 ≤ Z.lxor x y < 2 ^ w.
Proof.
  intros Hx Hy Hw. rewrite <- (Z.mod_small x (2 ^ w)), <- (Z.mod_small y (2 ^ w)) by lia.
  rewrite <- !Z.land_ones by lia.
  assert (Z.lxor (Z.land x (Z.ones w)) (Z.land y (Z.ones w)) = Z.land (Z.lxor x y) (Z.ones w)) as ->.
  { apply Z.bits_inj'. intros i Hi. rewrite !Z.land_spec, !Z.lxor_spec, !Z.land_spec.
    by destruct (Z.testbit x i), (Z.testbit y i), (Z.testbit (Z.ones w) i). }
  rewrite Z.land_ones by lia. apply Z.mod_pos_bound. lia.
Qed.

Lemma shiftl_eq_0 x k : 0 ≤ k → Z.shiftl x k = 0 ↔ x = 0.
Proof. intros. apply Z.shiftl_eq_0_iff. lia. Qed.

Lemma shiftr_lxor_0 a n k : 0 ≤ k →
  Z.shiftr (Z.lxor a n) k = 0 ↔ a / 2 ^ k = n / 2 ^ k.
Proof.
  intros Hk. rewrite Z.shiftr_lxor, Z.lxor_eq_0_iff, !Z.shiftr_div_pow2 by lia. done.
Qed.

Lemma mask_lxor_0 w b a n : 0 ≤ b ≤ w → 0 ≤ a < 2 ^ w → 0 ≤ n < 2 ^ w →
  Z.land (Z.lxor a n) (mask w b) = 0 ↔ a / 2 ^ (w - b) = n / 2 ^ (w - b).
Proof.
  intros Hb Ha Hn. rewrite land_mask by (try apply lxor_range; lia).
  rewrite shiftl_eq_0, shiftr_lxor_0 by lia. done.
Qed.

Lemma Contains_spec n b ip :
  addr_ok n → addr_ok ip → 0 ≤ b ≤ BitLen n → IsValid n = true →
  Contains (PrefixFrom n b) ip = true ↔ in_network n b ip.
Proof.
  intros Hn Hip Hb Hv. unfold Contains, PrefixIsValid, PrefixFrom. cbn [pip bitsPlusOne].
  rewrite Hv, (proj2 (Z.leb_le 0 b)), (proj2 (Z.leb_le b _)) by lia. cbn [andb].
  rewrite (proj2 (Z.ltb_lt 0 (b + 1))) by lia. unfold Bits. cbn [bitsPlusOne negb orb].
  rewrite Z.add_simpl_r.
  destruct n as [|n|n nz]; [done|..]; destruct ip as [|a|a z]; cbn in Hn, Hip, Hb |- *;
    try (split; [by repeat destruct (bool_decide _) | done]).
  - rewrite Z.eqb_eq. apply shiftr_lxor_0. lia.
  - destruct (bool_decide_reflect (z = [])) as [->|Hz]; cbn [negb].
    + rewrite Z.eqb_eq, mask_lxor_0 by lia. tauto.
    + by split; [|intros [? _]].
Qed.

Lemma in_network_masked n b ip : 0 ≤ b ≤ BitLen n → addr_ok n →
  match n with
  | AddrZero => True
  | V4 a => in_network (V4 (Z.land a (mask 32 b))) b ip ↔ in_network n b ip
  | V6 a z => in_network (V6 (Z.land a (mask 128 b)) z) b ip ↔ in_network n b ip
  end.
Proof.
  intros Hb Hn. destruct n as [|n|n z]; [done|..]; cbn in Hb, Hn; destruct ip; cbn; try done;
    rewrite land_mask by lia;
    rewrite Z.shiftl_mul_pow2, Z.div_mul by (try apply Z.pow_nonzero; lia);
    by rewrite Z.shiftr_div_pow2 by lia.
Qed.

Lemma land_mask_range w b x : 0 ≤ b ≤ w → 0 ≤ x < 2 ^ w → 0 ≤ Z.land x (mask w b) < 2 ^ w.
Proof.
  intros Hb Hx. rewrite land_mask, Z.shiftl_mul_pow2, Z.shiftr_div_pow2 by lia.
  assert (0 < 2 ^ (w - b)) by (apply Z.pow_pos_nonneg; lia).
  pose proof (Z.mul_div_le x (2 ^ (w - b)) ltac:(lia)).
  pose proof (Z.div_pos x (2 ^ (w - b)) ltac:(lia) ltac:(lia)). nia.
Qed.

(** Masking the host bits of a prefix does not change its members. *)
Lemma Contains_Masked n b ip :
  addr_ok n → addr_ok ip → 0 ≤ b ≤ BitLen n → IsValid n = true →
  Contains (Masked (PrefixFrom n b)) ip = true ↔ in_network n b ip.
Proof.
  intros Hn Hip Hb Hv. pose proof (in_network_masked n b ip Hb Hn) as Hm.
  assert (bitsPlusOne (PrefixFrom n b) = b + 1) as Hbits.
  { cbn. by rewrite Hv, (proj2 (Z.leb_le 0 b)), (proj2 (Z.leb_le b _)) by lia. }
  unfold Masked, Bits. rewrite Hbits, Z.add_simpl_r, (proj2 (Z.ltb_ge b 0)) by lia.
  destruct n as [|n|n nz]; [done|..]; cbn in Hb, Hn; cbn [pip PrefixFrom withoutZone];
    rewrite (proj2 (Z.ltb_ge _ b)) by lia;
    pose proof (land_mask_range _ _ n Hb Hn);
    rewrite Contains_spec by (done || lia); done.
Qed.

Lemma ParsePrefix_inv s p : ParsePrefix s = Ok p →
  ∃ n b, p = PrefixFrom n b ∧ addr_ok n ∧ IsValid n = true ∧ 0 ≤ b ≤ BitLen n.
Proof.
  unfold ParsePrefix. destruct (LastIndexByte s "/"%byte) as [i|]; [|done].
  intros H. apply res_bind_Ok in H as (n & Hn & H). case_match; [done|]. cbn zeta in H.
  case_match; [done|]. apply res_bind_Ok in H as (b & _ & H).
  destruct (_ || _) eqn:E; [done|]. bool_prop. simplify_eq.
  apply ParseAddr_ok in Hn as [Hok Hv]. exists n, b. split_and!; try done.
  destruct n; cbn in *; done || lia.
Qed.

End range_lemmas.
