(* ===== verification/GoIO.v ===== *)
(** * Go's [io.Reader] as the gateway uses it, and [encoding/json] output

    A connection or a byte slice being read is the bytes that are still to come
    and the error that follows them ([io.EOF], a timeout, ...). [io.ReadFull]
    hides how the bytes are cut into reads, so nothing else is observable. *)
From S2P Require Import Prelude GoUnicode GoStrings.
Open Scope Z_scope.

Module io.

Definition EOF : error := Sentinel "io.EOF".
Definition ErrUnexpectedEOF : error := Sentinel "io.ErrUnexpectedEOF".
Definition ErrShortWrite : error := Sentinel "io.ErrShortWrite".

Record reader := { r_data : bytes; r_end : error }.

(** [bytes.NewReader]. *)
Definition bytes_reader (s : bytes) : reader := {| r_data := s; r_end := EOF |}.

(** The error [io.ReadFull] reports when [got] bytes came before the end. *)
Definition short_error (got : nat) (e : error) : error :=
  if (0 <? got)%nat && (match e with Sentinel n => String.eqb n "io.EOF" | _ => false end)
  then ErrUnexpectedEOF else e.

(** [io.ReadFull(r, buf)] with [len(buf) = n]: the bytes read, the error, the
    reader afterwards. *)
Definition ReadFull (r : reader) (n : nat) : bytes * option error * reader :=
  let got := take n (r_data r) in
  let r' := {| r_data := drop n (r_data r); r_end := r_end r |} in
  if (length got =? n)%nat then (got, None, r')
  else (got, Some (short_error (length got) (r_end r)), r').

(** [ReadByte] of a [bytes.Reader], and of the one-byte [io.ReadFull] that wraps
    a connection. *)
Definition ReadByte (r : reader) : res byte * reader :=
  match r_data r with
  | [] => (Err (r_end r), r)
  | b :: t => (Ok b, {| r_data := t; r_end := r_end r |})
  end.

(** ** Computations that read *)

Definition rd (A : Type) : Type := reader → res A * reader.

Definition rd_bind {A B} (m : rd A) (k : A → rd B) : rd B := λ r,
  match m r with
  | (Ok a, r') => k a r'
  | (Err e, r') => (Err e, r')
  end.

Definition rd_fail {A} (e : error) : rd A := λ r, (Err e, r).
Definition rd_ret {A} (a : A) : rd A := λ r, (Ok a, r).

(** The error of [m] mapped, as [fmt.Errorf("...: %w", err)] does. *)
Definition rd_wrap {A} (f : error → error) (m : rd A) : rd A := λ r,
  let '(x, r') := m r in (res_wrap f x, r').

(** [io.ReadFull] of a buffer whose contents are dropped on an error. *)
Definition rd_full (n : nat) : rd bytes := λ r,
  match ReadFull r n with
  | (got, None, r') => (Ok got, r')
  | (_, Some e, r') => (Err e, r')
  end.

Notation "'do!' p := m 'in' k" := (rd_bind m (λ x, match x with p => k end))
  (at level 10, p pattern, m at level 200, k at level 200,
   format "'[v' 'do!'  p  :=  m  'in'  '/' k ']'") : go_scope.

(** ** Lemmas *)

(** [r'] is [r] after the bytes [used] were consumed. *)
Definition consumed (r r' : reader) (used : bytes) : Prop :=
  r_data r = used ++ r_data r' ∧ r_end r' = r_end r.

Lemma consumed_refl r : consumed r r [].
Proof. done. Qed.

Lemma consumed_trans r1 r2 r3 u1 u2 :
  consumed r1 r2 u1 → consumed r2 r3 u2 → consumed r1 r3 (u1 ++ u2).
Proof. intros [H1 H2] [H3 H4]. split; [rewrite H1, H3; apply app_assoc | congruence]. Qed.

Lemma ReadFull_enough d rest e :
  ReadFull {| r_data := d ++ rest; r_end := e |} (length d) =
    (d, None, {| r_data := rest; r_end := e |}).
Proof.
  unfold ReadFull. cbn [r_data r_end]. rewrite take_app_length, drop_app_length.
  by rewrite Nat.eqb_refl.
Qed.

Lemma ReadFull_consumed r n got e r' : ReadFull r n = (got, e, r') →
  consumed r r' got ∧ (length got ≤ n)%nat ∧ (e = None → length got = n).
Proof.
  unfold ReadFull. intros H.
  assert (consumed r {| r_data := drop n (r_data r); r_end := r_end r |} (take n (r_data r)))
    as Hc by (split; [symmetry; apply take_drop | done]).
  destruct (_ =? _)%nat eqn:E; simplify_eq; bool_prop; split_and!; try done;
    rewrite ?length_take; try lia; by intros.
Qed.

Lemma rd_full_enough d rest e :
  rd_full (length d) {| r_data := d ++ rest; r_end := e |} =
    (Ok d, {| r_data := rest; r_end := e |}).
Proof. unfold rd_full. by rewrite ReadFull_enough. Qed.

End io.

Module json.

(** [encoding/json]'s escaping of one rune of a string (HTML-safe mode). *)
Definition hex4 (n : Z) : bytes :=
  hex.digit (Z.shiftr n 12) :: hex.digit (Z.land (Z.shiftr n 8) 15)
  :: hex.digit (Z.land (Z.shiftr n 4) 15) :: [hex.digit (Z.land n 15)].

Definition quote_rune (rw : Z * nat) (raw : bytes) : bytes :=
  let r := rw.1 in
  let backslash := x5c in
  if r <? 0x80 then
    if (r =? 0x22) || (r =? 0x5C) then backslash :: raw
    else if r =? 0x08 then backslash :: gs"b"
    else if r =? 0x0C then backslash :: gs"f"
    else if r =? 0x0A then backslash :: gs"n"
    else if r =? 0x0D then backslash :: gs"r"
    else if r =? 0x09 then backslash :: gs"t"
    else if (r <? 0x20) || (r =? 0x3C) || (r =? 0x3E) || (r =? 0x26)
    then backslash :: gs"u" ++ hex4 r
    else raw
  else if (r =? utf8.RuneError) && (rw.2 =? 1)%nat then backslash :: gs"ufffd"
  else if (r =? 0x2028) || (r =? 0x2029) then backslash :: gs"u" ++ hex4 r
  else raw.

Fixpoint quote_from (skip : nat) (s : bytes) : bytes :=
  match s with
  | [] => []
  | _ :: t =>
      match skip with
      | S k => quote_from k t
      | O => let rw := utf8.DecodeRune s in
             quote_rune rw (take (snd rw) s) ++ quote_from (snd rw - 1) t
      end
  end.

(** [json.Marshal] of a string and of an [int]. *)
Definition String (s : bytes) : bytes := [x22] ++ quote_from 0 s ++ [x22].
Definition Int (z : Z) : bytes := if z <? 0 then gs"-" ++ strconv.Itoa (- z) else strconv.Itoa z.

End json.
