(* ===== verification/GoJson.v ===== *)
(** * [encoding/json]: which texts are JSON

    [json.Valid] as the state machine of Go's [encoding/json/scanner.go], a step for
    each byte over a stack of the enclosing objects and arrays; and that what
    [json.Marshal] makes of strings, integers and objects of them is JSON. *)
From S2P Require Import Prelude GoUnicode GoStrings GoIO.
Open Scope Z_scope.

Module jsonscan.

(** What the scanner is inside of: an object before or after a key's colon, an array. *)
Inductive enclosing := ObjectKey | ObjectValue | ArrayValue.

Inductive state :=
| BeginValue | BeginValueOrEmpty | BeginString | BeginStringOrEmpty
| EndValue | EndTop
| InString | InStringEsc | InStringEscU (more : nat)
| Neg | Int1 | Int0 | Dot | Dot0 | Exp | ExpSign | Exp0
| Literal (rest : bytes).

Definition maxNestingDepth : Z := 10000.

(** The byte is one of these. *)
Definition one_of (c : byte) (set : bytes) : bool := existsb (Byte.eqb c) set.

Definition isSpace (c : byte) : bool := one_of c [x20; x09; x0d; x0a].
Definition isDigit (c : byte) : bool := (0x30 <=? bv c) && (bv c <=? 0x39).
Definition isHex (c : byte) : bool :=
  isDigit c || ((0x61 <=? bv c) && (bv c <=? 0x66)) || ((0x41 <=? bv c) && (bv c <=? 0x46)).

Definition push (st : state) (e : enclosing) (stack : list enclosing) : option (state * list enclosing) :=
  if 1 + zlen stack <=? maxNestingDepth then Some (st, e :: stack) else None.

Definition pop (stack : list enclosing) : state * list enclosing :=
  match stack with [] => (EndTop, []) | _ => (EndValue, stack) end.

(** [stateEndValue]: what may follow a value. *)
Definition end_value (stack : list enclosing) (c : byte) : option (state * list enclosing) :=
  match stack with
  | [] => if isSpace c then Some (EndTop, []) else None
  | e :: rest =>
      if isSpace c then Some (EndValue, stack)
      else match e with
      | ObjectKey => if one_of c gs":" then Some (BeginValue, ObjectValue :: rest) else None
      | ObjectValue =>
          if one_of c gs"," then Some (BeginString, ObjectKey :: rest)
          else if one_of c gs"}" then Some (pop rest) else None
      | ArrayValue =>
          if one_of c gs"," then Some (BeginValue, stack)
          else if one_of c gs"]" then Some (pop rest) else None
      end
  end.

Definition begin_value (stack : list enclosing) (c : byte) : option (state * list enclosing) :=
  if isSpace c then Some (BeginValue, stack)
  else if one_of c gs"{" then push BeginStringOrEmpty ObjectKey stack
  else if one_of c gs"[" then push BeginValueOrEmpty ArrayValue stack
  else if one_of c [x22] then Some (InString, stack)
  else if one_of c gs"-" then Some (Neg, stack)
  else if one_of c gs"0" then Some (Int0, stack)
  else if one_of c gs"t" then Some (Literal gs"rue", stack)
  else if one_of c gs"f" then Some (Literal gs"alse", stack)
  else if one_of c gs"n" then Some (Literal gs"ull", stack)
  else if isDigit c then Some (Int1, stack) else None.

Definition begin_string (stack : list enclosing) (c : byte) : option (state * list enclosing) :=
  if isSpace c then Some (BeginString, stack)
  else if one_of c [x22] then Some (InString, stack) else None.

(** The states inside a number: after its integer part, after its fraction. *)
Definition after_fraction (stack : list enclosing) (c : byte) : option (state * list enclosing) :=
  if one_of c gs"eE" then Some (Exp, stack) else end_value stack c.

Definition after_int (stack : list enclosing) (c : byte) : option (state * list enclosing) :=
  if one_of c gs"." then Some (Dot, stack) else after_fraction stack c.

Definition digit_to (st : state) (stack : list enclosing) (c : byte) : option (state * list enclosing) :=
  if isDigit c then Some (st, stack) else None.

Definition step (st : state) (stack : list enclosing) (c : byte) : option (state * list enclosing) :=
  match st with
  | BeginValue => begin_value stack c
  | BeginValueOrEmpty =>
      if isSpace c then Some (st, stack)
      else if one_of c gs"]" then end_value stack c else begin_value stack c
  | BeginString => begin_string stack c
  | BeginStringOrEmpty =>
      if isSpace c then Some (st, stack)
      else if one_of c gs"}" then end_value (ObjectValue :: tail stack) c
      else begin_string stack c
  | EndValue => end_value stack c
  | EndTop => if isSpace c then Some (EndTop, stack) else None
  | InString =>
      if one_of c [x22] then Some (EndValue, stack)
      else if one_of c [x5c] then Some (InStringEsc, stack)
      else if bv c <? 0x20 then None else Some (InString, stack)
  | InStringEsc =>
      if one_of c (gs"bfnrt/" ++ [x5c; x22]) then Some (InString, stack)
      else if one_of c gs"u" then Some (InStringEscU 3, stack) else None
  | InStringEscU more =>
      if isHex c then Some (match more with O => InString | S k => InStringEscU k end, stack) else None
  | Neg => if one_of c gs"0" then Some (Int0, stack) else digit_to Int1 stack c
  | Int1 => if isDigit c then Some (Int1, stack) else after_int stack c
  | Int0 => after_int stack c
  | Dot => digit_to Dot0 stack c
  | Dot0 => if isDigit c then Some (Dot0, stack) else after_fraction stack c
  | Exp => if one_of c gs"+-" then Some (ExpSign, stack) else digit_to Exp0 stack c
  | ExpSign => digit_to Exp0 stack c
  | Exp0 => if isDigit c then Some (Exp0, stack) else end_value stack c
  | Literal rest =>
      match rest with
      | d :: rest' =>
          if Byte.eqb c d then Some (match rest' with [] => EndValue | _ => Literal rest' end, stack) else None
      | [] => None
      end
  end.

Fixpoint scan (st : state) (stack : list enclosing) (s : bytes) : option (state * list enclosing) :=
  match s with
  | [] => Some (st, stack)
  | c :: t => match step st stack c with Some (st', stack') => scan st' stack' t | None => None end
  end.

(** [json.Valid]: the whole text, then the end of the input, which counts as a space. *)
Definition Valid (s : bytes) : bool :=
  match scan BeginValue [] s with
  | Some (st, stack) => match step st stack x20 with Some (EndTop, _) => true | _ => false end
  | None => false
  end.

End jsonscan.

Definition quoted_a : bytes := [x22] ++ gs"a" ++ [x22].

Example valid_object :
  jsonscan.Valid (gs"{" ++ quoted_a ++ gs": [1, -2.5e+3, true, null], " ++ quoted_a ++ gs":{}} ") = true.
Proof. reflexivity. Qed.
Example invalid_texts :
  jsonscan.Valid [] = false ∧ jsonscan.Valid gs"01" = false ∧ jsonscan.Valid gs"[1,]" = false ∧
  jsonscan.Valid gs"tru" = false ∧ jsonscan.Valid (gs"{" ++ quoted_a ++ gs"}") = false ∧
  jsonscan.Valid gs"{} {}" = false ∧ jsonscan.Valid [x22; x0a; x22] = false.
Proof. done. Qed.

(** ** Lemmas: marshalled values are JSON *)

Section marshalled.
Import jsonscan.

Lemma scan_app st stack s t :
  scan st stack (s ++ t) =
    match scan st stack s with Some (st', stack') => scan st' stack' t | None => None end.
Proof.
  revert st stack. induction s as [|c s IH]; intros st stack; [done|]. cbn.
  destruct (step st stack c) as [[st' stack']|]; [apply IH|done].
Qed.

(** A text that is a value wherever one may begin, with [depth] levels of its own. *)
Definition value (depth : Z) (v : bytes) : Prop :=
  ∀ stack, zlen stack + depth ≤ maxNestingDepth →
    ∃ st, scan BeginValue stack v = Some (st, stack) ∧
      ∀ c, one_of c gs" ,]}" = true → step st stack c = end_value stack c.

Lemma value_Valid depth v : depth ≤ maxNestingDepth → value depth v → Valid v = true.
Proof.
  intros Hd Hv. destruct (Hv []) as (st & Hs & Hc); [unfold zlen; cbn; lia|]. unfold Valid. rewrite Hs.
  by rewrite Hc.
Qed.

(** *** Strings *)

Lemma scan_plain stack s :
  Forall (λ b, 0x20 ≤ bv b ∧ bv b ≠ 0x22 ∧ bv b ≠ 0x5C) s → scan InString stack s = Some (InString, stack).
Proof.
  assert (∀ b, 0x20 ≤ bv b ∧ bv b ≠ 0x22 ∧ bv b ≠ 0x5C →
    one_of b [x22] = false ∧ one_of b [x5c] = false ∧ (bv b <? 0x20) = false) as Hb by byte_enum.
  induction 1 as [|b s H _ IH]; [done|]. destruct (Hb b H) as (E1 & E2 & E3). cbn [scan step].
  by rewrite E1, E2, E3.
Qed.

Lemma le_lor a b : 0 ≤ b → a ≤ Z.lor a b.
Proof.
  intros Hb. assert (Z.lor a b - a = Z.ldiff (Z.lor a b) a) as E.
  { apply Z.sub_nocarry_ldiff. apply Z.bits_inj'. intros i Hi.
    rewrite Z.ldiff_spec, Z.lor_spec, Z.bits_0. by destruct (Z.testbit a i). }
  assert (Z.ldiff (Z.lor a b) a = Z.ldiff b a) as E'.
  { apply Z.bits_inj'. intros i Hi. rewrite !Z.ldiff_spec, Z.lor_spec. by destruct (Z.testbit a i), (Z.testbit b i). }
  assert (0 ≤ Z.ldiff b a) by (apply Z.ldiff_nonneg; by left). lia.
Qed.

(** A rune that is not ASCII comes from bytes that are not, unless it is the error. *)
Lemma DecodeRune_high s :
  let rw := utf8.DecodeRune s in
  (∃ b t, s = b :: t ∧ rw = (bv b, 1%nat) ∧ bv b < 0x80) ∨ rw = (utf8.RuneError, 1%nat) ∨ s = [] ∨
  0x80 ≤ rw.1 ∧ Forall (λ b, 0x80 ≤ bv b) (take rw.2 s).
Proof.
  destruct s as [|b0 t]; [by do 2 right; left|]. unfold utf8.DecodeRune. cbn zeta.
  assert (∀ lo hi b, utf8.between lo hi b = true → lo ≤ bv b ≤ hi) as Hbt.
  { unfold utf8.between. intros. bool_prop. lia. }
  assert (∀ p, 0x80 ≤ utf8.accept_lo p) as Hlo by (intros p; unfold utf8.accept_lo; repeat case_match; lia).
  assert (∀ b, 0 ≤ Z.land (bv b) 0x3F) as H6 by (intros b; apply Z.land_nonneg; right; lia).
  destruct (bv b0 <? 0x80) eqn:E0; [left; exists b0, t; bool_prop; done|].
  destruct ((0xC2 <=? bv b0) && (bv b0 <=? 0xDF)) eqn:E1.
  { destruct t as [|b1 t1]; [by right; left|]. destruct (utf8.between _ _ b1) eqn:B1; [|by right; left].
    apply Hbt in B1. do 3 right. cbn [fst snd take].
    assert (0x80 ≤ Z.shiftl (Z.land (bv b0) 0x1F) 6) as H2 by (clear -E1; revert b0 E1; byte_enum).
    bool_prop. split; [|repeat constructor; lia]. etransitivity; [exact H2|apply le_lor, H6]. }
  destruct ((0xE0 <=? bv b0) && (bv b0 <=? 0xEF)) eqn:E2.
  { destruct t as [|b1 [|b2 t2]]; [by right; left..|].
    destruct (utf8.between _ _ b1 && _) eqn:B in |- *; [|by right; left]. do 3 right.
    apply andb_true_iff in B as [B1%Hbt B2%Hbt]. pose proof (Hlo (bv b0)). cbn [fst snd take].
    split; [|bool_prop; repeat constructor; lia]. pose proof (H6 b1) as H1. pose proof (H6 b2) as H2.
    destruct (decide (bv b0 = 0xE0)) as [E|E].
    - rewrite Z.lor_comm. etransitivity; [|apply le_lor, Z.shiftl_nonneg, Z.land_nonneg; right; lia].
      etransitivity; [|by apply le_lor]. rewrite E in B1. cbn in B1. clear -B1. revert b1 B1. byte_enum.
    - etransitivity; [|apply le_lor, Z.lor_nonneg; split; [by apply Z.shiftl_nonneg|done]].
      clear -E2 E. revert b0 E2 E. byte_enum. }
  destruct ((0xF0 <=? bv b0) && (bv b0 <=? 0xF4)) eqn:E3; [|by right; left].
  destruct t as [|b1 [|b2 [|b3 t3]]]; [by right; left..|].
  destruct (utf8.between _ _ b1 && _ && _) eqn:B in |- *; [|by right; left]. do 3 right.
  apply andb_true_iff in B as [[B1%Hbt B2%Hbt]%andb_true_iff B3%Hbt]. pose proof (Hlo (bv b0)).
  cbn [fst snd take]. split; [|bool_prop; repeat constructor; lia].
  pose proof (H6 b1) as H1. pose proof (H6 b2) as H2. pose proof (H6 b3) as H3.
  assert (0 ≤ Z.lor (Z.shiftl (Z.land (bv b2) 63) 6) (Z.land (bv b3) 63)) as H23
    by (apply Z.lor_nonneg; split; [by apply Z.shiftl_nonneg|done]).
  destruct (decide (bv b0 = 0xF0)) as [E|E].
  - rewrite Z.lor_comm. etransitivity; [|apply le_lor, Z.shiftl_nonneg, Z.land_nonneg; right; lia].
    etransitivity; [|by apply le_lor]. rewrite E in B1. cbn in B1. clear -B1. revert b1 B1. byte_enum.
  - etransitivity; [|apply le_lor, Z.lor_nonneg; split; [by apply Z.shiftl_nonneg|done]].
    clear -E3 E. revert b0 E3 E. byte_enum.
Qed.

Lemma scan_quote_rune stack s :
  s ≠ [] → scan InString stack (json.quote_rune (utf8.DecodeRune s) (take (utf8.DecodeRune s).2 s)) =
    Some (InString, stack).
Proof.
  intros Hne. destruct (DecodeRune_high s) as [(b & t & -> & Erw & Hb)|[Erw|[?|[Hr Hhigh]]]]; [| |done|].
  - rewrite Erw. cbn [fst snd take]. clear -Hb. destruct b; try reflexivity; cbn in Hb; lia.
  - by rewrite Erw.
  - destruct (utf8.DecodeRune s) as [r w]. cbn [fst snd] in *. unfold json.quote_rune. cbn [fst snd].
    rewrite (proj2 (Z.ltb_ge _ _)) by lia. destruct (_ && _); [done|].
    destruct (Z.eqb_spec r 0x2028) as [->|]; [done|]. destruct (Z.eqb_spec r 0x2029) as [->|]; [done|]. cbn [orb].
    apply scan_plain. eapply Forall_impl; [exact Hhigh|]. intros b ?. cbn in *. lia.
Qed.

Lemma scan_quote stack s k : scan InString stack (json.quote_from k s) = Some (InString, stack).
Proof.
  revert k. induction s as [|b t IH]; intros k; [done|]. destruct k as [|k]; [|apply IH].
  change (json.quote_from 0 (b :: t)) with (json.quote_rune (utf8.DecodeRune (b :: t))
    (take (utf8.DecodeRune (b :: t)).2 (b :: t)) ++ json.quote_from ((utf8.DecodeRune (b :: t)).2 - 1) t).
  by rewrite scan_app, scan_quote_rune.
Qed.

Lemma String_value s : value 0 (json.String s).
Proof.
  intros stack _. exists EndValue. split; [|done]. unfold json.String. cbn. by rewrite scan_app, scan_quote.
Qed.

(** *** Integers *)

Lemma itoa_from_head f n acc : 0 < n < 10 ^ Z.of_nat f →
  ∃ d t, strconv.itoa_from f n acc = bz (0x30 + d) :: t ∧ 1 ≤ d ≤ 9.
Proof.
  revert n acc. induction f as [|f IH]; intros n acc Hn; [cbn in Hn; lia|]. cbn [strconv.itoa_from].
  pose proof (Z.mod_pos_bound n 10 eq_refl). pose proof (Z.div_mod n 10).
  destruct (Z.eqb_spec (n / 10) 0) as [E|E].
  - eexists _, _. split; [reflexivity|lia].
  - apply IH. rewrite Nat2Z.inj_succ, Z.pow_succ_r in Hn by lia.
    split; [pose proof (Z.div_pos n 10); lia|]. apply Z.div_lt_upper_bound; lia.
Qed.

Lemma scan_digits stack s : forallb is_digit s = true → scan Int1 stack s = Some (Int1, stack).
Proof.
  induction s as [|b s IH]; [done|]. cbn [forallb scan step]. intros [Hb Hs]%andb_true_iff.
  change (isDigit b) with (is_digit b). rewrite Hb. by apply IH.
Qed.

Lemma scan_Itoa stack st n : st = BeginValue ∨ st = Neg → 0 ≤ n < 10 ^ 19 →
  ∃ st', scan st stack (strconv.Itoa n) = Some (st', stack) ∧ (st' = Int0 ∨ st' = Int1).
Proof.
  intros Hst Hn. destruct (decide (n = 0)) as [->|Hne].
  { exists Int0. split; [|by left]. by destruct Hst as [-> | ->]. }
  pose proof (Itoa_digits n) as Hd. unfold strconv.Itoa in *.
  destruct (itoa_from_head 19 n []) as (d & t & E & H1); [cbn; lia|]. rewrite E in *.
  exists Int1. split; [|by right]. cbn [forallb] in Hd. apply andb_true_iff in Hd as [_ Hd]. cbn [scan].
  assert (step st stack (bz (0x30 + d)) = Some (Int1, stack)) as ->.
  { assert (d ∈ [1; 2; 3; 4; 5; 6; 7; 8; 9]) as Hin by (rewrite !elem_of_cons; lia).
    destruct Hst as [-> | ->]; repeat (apply elem_of_cons in Hin as [->|Hin]; [reflexivity|]);
      by apply elem_of_nil in Hin. }
  by apply scan_digits.
Qed.

Lemma Int_value z : - 10 ^ 19 < z < 10 ^ 19 → value 0 (json.Int z).
Proof.
  intros Hz stack _. assert (∀ st, st = Int0 ∨ st = Int1 →
    ∀ c, one_of c gs" ,]}" = true → step st stack c = end_value stack c) as Hc.
  { assert (∀ c, one_of c gs" ,]}" = true →
      isDigit c = false ∧ one_of c gs"." = false ∧ one_of c gs"eE" = false) as Hd by byte_enum.
    intros st Hst c (E1 & E2 & E3)%Hd.
    destruct Hst as [-> | ->]; cbn [step]; unfold after_int, after_fraction; by rewrite ?E1, E2, E3. }
  unfold json.Int. destruct (Z.ltb_spec z 0).
  - destruct (scan_Itoa stack Neg (- z)) as (st & Hs & Hst); [by right|lia|]. exists st. split; [exact Hs|by apply Hc].
  - destruct (scan_Itoa stack BeginValue z) as (st & Hs & Hst); [by left|lia|]. exists st. split; [exact Hs|by apply Hc].
Qed.

(** *** Objects *)

Definition member (kv : bytes * bytes) : bytes := [x22] ++ kv.1 ++ [x22] ++ gs":" ++ kv.2.

Fixpoint members (ms : list (bytes * bytes)) : bytes :=
  match ms with
  | [] => []
  | [m] => member m
  | m :: rest => member m ++ gs"," ++ members rest
  end.

Definition object (ms : list (bytes * bytes)) : bytes := gs"{" ++ members ms ++ gs"}".

Definition member_ok (depth : Z) (kv : bytes * bytes) : Prop :=
  Forall (λ b, 0x20 ≤ bv b ∧ bv b ≠ 0x22 ∧ bv b ≠ 0x5C) kv.1 ∧ value depth kv.2.

(** A member whose name needs no escape, which evaluation decides for a literal name. *)
Lemma member_ok_plain d k v :
  value d v → forallb (λ b, (0x20 <=? bv b) && negb (bv b =? 0x22) && negb (bv b =? 0x5C)) k = true →
  member_ok d (k, v).
Proof.
  intros Hv Hk. split; [|done]. rewrite forallb_forall in Hk. apply Forall_forall.
  intros b Hb%list_elem_of_In. specialize (Hk b Hb). bool_prop. cbn. lia.
Qed.

Lemma scan_member depth stack m c rest :
  member_ok depth m → 1 + zlen stack + depth ≤ maxNestingDepth → one_of c gs" ,]}" = true →
  scan BeginString (ObjectKey :: stack) (member m ++ c :: rest) =
    match end_value (ObjectValue :: stack) c with Some (st', stack') => scan st' stack' rest | None => None end.
Proof.
  intros [Hk Hv] Hd Hc. unfold member. rewrite <- !app_assoc. cbn [app scan step]. cbn.
  rewrite scan_app, scan_plain by done. cbn.
  destruct (Hv (ObjectValue :: stack)) as (st & Hs & Hst); [unfold zlen in *; cbn [length]; lia|].
  rewrite scan_app, Hs. cbn [scan]. by rewrite Hst.
Qed.

Lemma scan_members depth stack ms rest :
  ms ≠ [] → Forall (member_ok depth) ms → 1 + zlen stack + depth ≤ maxNestingDepth →
  scan BeginString (ObjectKey :: stack) (members ms ++ x7d :: rest) = scan (pop stack).1 (pop stack).2 rest.
Proof.
  intros Hne Hall Hd. induction Hall as [|m ms Hm Hall IH]; [done|]. destruct ms as [|m' ms].
  - cbn [members]. rewrite (scan_member depth) by done. cbn. by destruct (pop stack).
  - change (members (m :: m' :: ms)) with (member m ++ gs"," ++ members (m' :: ms)).
    rewrite <- !app_assoc. change (gs"," ++ ?x) with (x2c :: x). rewrite (scan_member depth) by done.
    by apply IH.
Qed.

Lemma object_value depth ms :
  0 ≤ depth → ms ≠ [] → Forall (member_ok depth) ms → value (1 + depth) (object ms).
Proof.
  intros Hpos Hne Hall stack Hd. unfold object. exists (pop stack).1. split.
  - assert (scan BeginValue stack (gs"{" ++ members ms ++ gs"}") =
      scan BeginString (ObjectKey :: stack) (members ms ++ [x7d])) as ->.
    { destruct ms as [|m ms]; [done|]. assert (∃ t, members (m :: ms) = x22 :: t) as [t ->]
        by (destruct ms; by eexists).
      change (match push BeginStringOrEmpty ObjectKey stack with
        | Some (st', stack') => scan st' stack' (x22 :: t ++ [x7d]) | None => None end =
        scan BeginString (ObjectKey :: stack) (x22 :: t ++ [x7d])).
      unfold push. by rewrite (proj2 (Z.leb_le _ _)) by lia. }
    rewrite (scan_members depth) by (done || lia). cbn [scan]. by destruct stack.
  - intros c Hc. by destruct stack.
Qed.

End marshalled.
