(* ===== verification/GoJsonDecode.v ===== *)
(** * [encoding/json]: decoding an object of strings

    [json.Decoder] on a text that the scanner of GoJson.v accepts, for a struct whose
    fields are strings: reading one value after the other off a stream, unquoting of
    strings, the walk over the members of an object, and the matching of member names
    with fields. [None] is the panic Go's decoder ends
    in when the walk and the scanner disagree; that it never happens is proved here. *)
From S2P Require Import Prelude GoUnicode GoStrings GoIO GoJson.
Open Scope Z_scope.

Module jsondecode.
Import jsonscan.

(** ** Strings *)

(** [utf16.IsSurrogate] and [utf16.DecodeRune]. *)
Definition IsSurrogate (r : Z) : bool := (0xD800 <=? r) && (r <? 0xE000).
Definition DecodeSurrogates (r1 r2 : Z) : Z :=
  if (0xD800 <=? r1) && (r1 <? 0xDC00) && (0xDC00 <=? r2) && (r2 <? 0xE000)
  then Z.lor (Z.shiftl (r1 - 0xD800) 10) (r2 - 0xDC00) + 0x10000 else utf8.RuneError.

(** [getu4]: a backslash, a [u] and four hexadecimal digits. *)
Definition getu4 (s : bytes) : option Z :=
  match s with
  | b0 :: b1 :: d3 :: d2 :: d1 :: d0 :: _ =>
      if Byte.eqb b0 x5c && Byte.eqb b1 x75 then
        match hex.value d3, hex.value d2, hex.value d1, hex.value d0 with
        | Some n3, Some n2, Some n1, Some n0 => Some (((n3 * 16 + n2) * 16 + n1) * 16 + n0)
        | _, _, _, _ => None
        end
      else None
  | _ => None
  end.

Definition unescape (c : byte) : option byte :=
  if one_of c (gs"/'" ++ [x22; x5c]) then Some c
  else if one_of c gs"b" then Some x08
  else if one_of c gs"f" then Some x0c
  else if one_of c gs"n" then Some x0a
  else if one_of c gs"r" then Some x0d
  else if one_of c gs"t" then Some x09 else None.

(** One turn of [unquoteBytes]: what is written and how much is read. *)
Definition unquote_one (s : bytes) : option (bytes * nat) :=
  match s with
  | [] => None
  | c :: t =>
      if Byte.eqb c x5c then
        match t with
        | [] => None
        | e :: _ =>
            if Byte.eqb e x75 then
              match getu4 s with
              | None => None
              | Some rr =>
                  if IsSurrogate rr then
                    let dec := match getu4 (drop 6 s) with Some rr1 => DecodeSurrogates rr rr1 | None => utf8.RuneError end in
                    if dec =? utf8.RuneError then Some (utf8.EncodeRune utf8.RuneError, 6%nat)
                    else Some (utf8.EncodeRune dec, 12%nat)
                  else Some (utf8.EncodeRune rr, 6%nat)
              end
            else match unescape e with Some b => Some ([b], 2%nat) | None => None end
        end
      else if Byte.eqb c x22 || (bv c <? 0x20) then None
      else if bv c <? 0x80 then Some ([c], 1%nat)
      else let rw := utf8.DecodeRune s in Some (utf8.EncodeRune rw.1, rw.2)
  end.

(** [unquoteBytes] without the quotes; the bytes a turn reads are skipped by the counter. *)
Fixpoint unquote_from (skip : nat) (s : bytes) : option bytes :=
  match s with
  | [] => Some []
  | _ :: t =>
      match skip with
      | S k => unquote_from k t
      | O =>
          match unquote_one s with
          | Some (out, n) => match unquote_from (n - 1) t with Some r => Some (out ++ r) | None => None end
          | None => None
          end
      end
  end.
Definition unquote (raw : bytes) : option bytes := unquote_from 0 raw.

(** ** The walk *)

(** [rescanLiteral] in a string: up to the closing quote, and what follows it. *)
Fixpoint cut_string (s : bytes) : option (bytes * bytes) :=
  match s with
  | [] => None
  | c :: t =>
      if Byte.eqb c x22 then Some ([], t)
      else if Byte.eqb c x5c then
        match t with
        | [] => None
        | e :: u => match cut_string u with Some (raw, rest) => Some (c :: e :: raw, rest) | None => None end
        end
      else match cut_string t with Some (raw, rest) => Some (c :: raw, rest) | None => None end
  end.

Definition number_byte (c : byte) : bool := isDigit c || one_of c gs".eE+-".

Fixpoint drop_while (p : byte → bool) (s : bytes) : bytes :=
  match s with [] => [] | c :: t => if p c then drop_while p t else s end.

(** [skip]: on with the scanner until it has left what it is in. *)
Fixpoint skip (depth : nat) (st : state) (stack : list enclosing) (s : bytes) : option bytes :=
  match s with
  | [] => None
  | c :: t =>
      match step st stack c with
      | Some (st', stack') => if (length stack' <=? depth)%nat then Some t else skip depth st' stack' t
      | None => None
      end
  end.

(** A value as far as a string field is concerned. *)
Inductive jvalue := JNull | JString (s : bytes) | JOther.

Definition cut_value (stack : list enclosing) (s : bytes) : option (jvalue * bytes) :=
  match s with
  | [] => None
  | c :: t =>
      if Byte.eqb c x22 then
        match cut_string t with
        | Some (raw, rest) => match unquote raw with Some v => Some (JString v, rest) | None => None end
        | None => None
        end
      else if one_of c gs"{[" then
        match skip (length stack) BeginValue stack s with Some rest => Some (JOther, rest) | None => None end
      else if one_of c gs"n" then Some (JNull, drop 4 s)
      else if one_of c gs"t" then Some (JOther, drop 4 s)
      else if one_of c gs"f" then Some (JOther, drop 5 s)
      else Some (JOther, drop_while number_byte s)
  end.

Definition spaces (s : bytes) : bytes := drop_while isSpace s.

(** The next byte, which is not a space, when it is this one. *)
Definition expect (c : byte) (s : bytes) : option bytes :=
  match spaces s with b :: t => if Byte.eqb b c then Some t else None | [] => None end.

(** The loop of [object], with as many turns as the text can have members. *)
Fixpoint cut_members (turns : nat) (s : bytes) : option (list (bytes * jvalue)) :=
  match turns with
  | O => None
  | S more =>
      match expect x22 s with
      | None => None
      | Some s1 =>
          match cut_string s1 with
          | None => None
          | Some (raw, s2) =>
              match unquote raw, expect x3a s2 with
              | Some key, Some s3 =>
                  match cut_value [ObjectValue] (spaces s3) with
                  | None => None
                  | Some (v, s4) =>
                      match expect x2c s4 with
                      | Some s5 =>
                          match cut_members more s5 with Some ms => Some ((key, v) :: ms) | None => None end
                      | None => match expect x7d s4 with Some _ => Some [(key, v)] | None => None end
                      end
                  end
              | _, _ => None
              end
          end
      end
  end.

(** A text as far as a struct is concerned. *)
Inductive document := DNull | DObject (ms : list (bytes * jvalue)) | DOther.

Definition cut_document (s : bytes) : option document :=
  match spaces s with
  | [] => None
  | c :: t =>
      if one_of c gs"{" then
        match expect x7d t with
        | Some _ => Some (DObject [])
        | None => match cut_members (length t) t with Some ms => Some (DObject ms) | None => None end
        end
      else if one_of c gs"n" then Some DNull else Some DOther
  end.

(** ** Fields *)

(** [foldName]. A rune stands for the smallest rune that differs from it in case only;
    the long s and the Kelvin sign are the only ones above ASCII whose stand-in is in
    ASCII, where the names of fields are. *)
Definition fold_rune (r : Z) : Z :=
  if (0x61 <=? r) && (r <=? 0x7A) then r - 32
  else if r =? 0x17F then 0x53 else if r =? 0x212A then 0x4B else r.
Definition foldName (s : bytes) : list Z := (λ rw, fold_rune rw.1) <$> utf8.runes s.

Fixpoint field_index (names : list bytes) (key : bytes) : option nat :=
  match names with
  | [] => None
  | n :: rest => if decide (foldName n = foldName key) then Some 0%nat else S <$> field_index rest key
  end.

(** A member is stored in its field; null leaves the field alone, and a value of another
    type is an error. A name that is no field's is an error of a [strict] decoder, and
    ignored by any other. *)
Definition store_member (strict : bool) (names : list bytes) (vals : list bytes) (kv : bytes * jvalue)
    : res (list bytes) :=
  match field_index names kv.1 with
  | None => if strict then Err (Errorf "json: unknown field %q" [AStr kv.1] []) else Ok vals
  | Some i =>
      match kv.2 with
      | JNull => Ok vals
      | JString s => Ok (<[i := s]> vals)
      | JOther => Err (errors_New "json: cannot unmarshal value into Go struct field of type string")
      end
  end.

Fixpoint store_members (strict : bool) (names : list bytes) (vals : list bytes) (ms : list (bytes * jvalue))
    : res (list bytes) :=
  match ms with
  | [] => Ok vals
  | kv :: rest => let? vals := store_member strict names vals kv in store_members strict names vals rest
  end.

(** The fields of a struct with these names, from a text that is JSON. *)
Definition unmarshal (strict : bool) (names : list bytes) (s : bytes) : option (res (list bytes)) :=
  match cut_document s with
  | None => None
  | Some DNull => Some (Ok (replicate (length names) []))
  | Some DOther => Some (Err (errors_New "json: cannot unmarshal value into Go struct"))
  | Some (DObject ms) => Some (store_members strict names (replicate (length names) []) ms)
  end.

Definition decode_struct (names : list bytes) (s : bytes) : option (res (list bytes)) := unmarshal true names s.

(** ** The decoder of a stream *)

(** The reader, and whether [DisallowUnknownFields] was called. *)
Record Decoder := { d_in : io.reader; d_strict : bool }.

Definition NewDecoder (r : io.reader) : Decoder := {| d_in := r; d_strict := false |}.
Definition DisallowUnknownFields (d : Decoder) : Decoder := {| d_in := d_in d; d_strict := true |}.

(** A value that may end here: the scanner ends at a space. *)
Definition complete (st : state) (stack : list enclosing) : bool :=
  match step st stack x20 with Some (EndTop, _) => true | _ => false end.

Definition is_EOF (e : error) : bool := match e with Sentinel n => String.eqb n "io.EOF" | _ => false end.

(** [readValue]: the text of the next value and what follows it. An object or an array
    ends with its bracket; any other value ends before the first byte that cannot go on
    with it, or at the end of the input. An input that ends before any value is its end,
    one that ends within a value is an error; [e] is what reading ends with. *)
Fixpoint read_value (st : state) (stack : list enclosing) (s : bytes) (e : error) : res (bytes * bytes) :=
  match s with
  | [] =>
      if negb (is_EOF e) then Err e
      else if complete st stack then Ok ([], [])
      else match st, stack with BeginValue, [] => Err io.EOF | _, _ => Err io.ErrUnexpectedEOF end
  | c :: t =>
      match step st stack c with
      | Some (EndTop, _) => if complete st stack then Ok ([], s) else Ok ([c], t)
      | Some (st', stack') => let? (v, rest) := read_value st' stack' t e in Ok (c :: v, rest)
      | None => if complete st stack then Ok ([], s) else Err (errors_New "invalid character in JSON")
      end
  end.

(** [Decode] into a struct with these fields: the fields and the decoder after the value. *)
Definition Decode (d : Decoder) (names : list bytes) : option (res (list bytes * Decoder)) :=
  match read_value BeginValue [] (io.r_data (d_in d)) (io.r_end (d_in d)) with
  | Err e => Some (Err e)
  | Ok (text, rest) =>
      match unmarshal (d_strict d) names text with
      | None => None
      | Some (Err e) => Some (Err e)
      | Some (Ok vals) =>
          Some (Ok (vals, {| d_in := {| io.r_data := rest; io.r_end := io.r_end (d_in d) |}; d_strict := d_strict d |}))
      end
  end.

End jsondecode.

Definition quoted_text (s : bytes) : bytes := [x22] ++ s ++ [x22].

Example decode_samples :
  let names := [gs"ownerId"; gs"leaseId"] in
  let key k := quoted_text k ++ gs":" in
  jsondecode.decode_struct names (gs" {" ++ key gs"LEASEID" ++ quoted_text gs"a\u00e9\ud83d\ude00" ++ gs" , " ++
    key gs"ownerid" ++ gs" null } ") =
    Some (Ok [[]; gs"a" ++ [xc3; xa9; xf0; x9f; x98; x80]]) ∧
  jsondecode.decode_struct names gs"null" = Some (Ok [[]; []]) ∧
  (∃ e, jsondecode.decode_struct names (gs"{" ++ key gs"ownerId" ++ gs"[{}, 1.5e3, true]}") = Some (Err e)) ∧
  (∃ e, jsondecode.decode_struct names (gs"{" ++ key gs"other" ++ gs"null}") = Some (Err e)).
Proof. vm_compute. repeat split; by eexists. Qed.

(** ** Lemmas: a quoted string is unquoted *)

(** A string with every byte that is not UTF-8 replaced by the error rune. *)
Definition coerce_from (k : nat) (s : bytes) : bytes := concat ((λ rw, utf8.EncodeRune rw.1) <$> utf8.runes_from k s).
Definition coerce (s : bytes) : bytes := coerce_from 0 s.

Section quoting.
Import jsonscan jsondecode.

Lemma unquote_skip v u : unquote_from (length v) (v ++ u) = unquote_from 0 u.
Proof. induction v as [|b v IH]; [by destruct u|exact IH]. Qed.

Lemma unquote_turn s out n :
  unquote_one s = Some (out, n) → (0 < n ≤ length s)%nat →
  unquote_from 0 s = match unquote_from 0 (drop n s) with Some r => Some (out ++ r) | None => None end.
Proof.
  intros E Hn. destruct s as [|c t]; [done|]. destruct n as [|n]; [lia|]. cbn [length] in Hn.
  change (unquote_from 0 (c :: t)) with
    (match unquote_one (c :: t) with
     | Some (out, n) => match unquote_from (n - 1) t with Some r => Some (out ++ r) | None => None end
     | None => None end).
  rewrite E. cbn [drop]. replace (S n - 1)%nat with (length (take n t)) by (rewrite length_take; lia).
  rewrite <- (take_drop n t) at 2. by rewrite unquote_skip.
Qed.

(** Decoding a rune looks at its own bytes only. *)
Lemma DecodeRune_local s u :
  let rw := utf8.DecodeRune s in
  s ≠ [] → (0 < rw.2 ≤ length s)%nat ∧
  (rw ≠ (utf8.RuneError, 1%nat) → utf8.DecodeRune (take rw.2 s ++ u) = rw).
Proof.
  cbv zeta. intros Hne. destruct s as [|b0 t]; [done|]. clear Hne. unfold utf8.DecodeRune. cbv zeta.
  destruct (bv b0 <? 0x80) eqn:E0. { cbn [snd length take app]. split; [lia|]. intros _. by rewrite E0. }
  destruct (_ && (bv b0 <=? 0xDF)) eqn:E1.
  { destruct t as [|b1 t]; [by split; [cbn; lia|]|]. destruct (utf8.between _ _ b1) eqn:B; cbn [snd length take app].
    - split; [lia|]. intros _. by rewrite E0, E1, B.
    - by split; [lia|]. }
  destruct (_ && (bv b0 <=? 0xEF)) eqn:E2.
  { destruct t as [|b1 [|b2 t]]; [by split; [cbn; lia|]..|]. destruct (_ && utf8.between _ _ b2) eqn:B; cbn [snd length take app].
    - split; [lia|]. intros _. by rewrite E0, E1, E2, B.
    - by split; [lia|]. }
  destruct (_ && (bv b0 <=? 0xF4)) eqn:E3; [|by split; [cbn; lia|]].
  destruct t as [|b1 [|b2 [|b3 t]]]; [by split; [cbn; lia|]..|].
  destruct (_ && utf8.between _ _ b3) eqn:B; cbn [snd length take app].
  - split; [lia|]. intros _. by rewrite E0, E1, E2, E3, B.
  - by split; [lia|].
Qed.

(** A chunk of a quoted string: an escape, or nothing to be escaped, and then plain bytes. *)
Definition plain (b : byte) : bool := negb (Byte.eqb b x22) && negb (Byte.eqb b x5c).
Definition chunk (q : bytes) : bool :=
  match q with
  | b :: e :: v => if Byte.eqb b x5c then forallb plain v else forallb plain q
  | _ => forallb plain q
  end.

Definition cut_after (q : bytes) (r : option (bytes * bytes)) : option (bytes * bytes) :=
  match r with Some (raw, rest) => Some (q ++ raw, rest) | None => None end.

Lemma cut_plain v u : forallb plain v = true → cut_string (v ++ u) = cut_after v (cut_string u).
Proof.
  induction v as [|b v IH]; cbn [app forallb cut_string]; [by destruct (cut_string u) as [[]|]|].
  intros [[E1%negb_true_iff E2%negb_true_iff]%andb_true_iff Hv]%andb_true_iff. rewrite E1, E2, (IH Hv).
  by destruct (cut_string u) as [[]|].
Qed.

Lemma cut_chunk q u : chunk q = true → cut_string (q ++ u) = cut_after q (cut_string u).
Proof.
  destruct q as [|b [|e v]]; [by apply cut_plain..|]. unfold chunk.
  destruct (Byte.eqb b x5c) eqn:E; [|by apply cut_plain]. apply Byte.byte_dec_bl in E as ->. intros Hv.
  cbn [app cut_string]. rewrite (cut_plain v u Hv). by destruct (cut_string u) as [[]|].
Qed.

Lemma unquote_chunk q u out :
  unquote_one (q ++ u) = Some (out, length q) → q ≠ [] →
  unquote_from 0 (q ++ u) = match unquote_from 0 u with Some r => Some (out ++ r) | None => None end.
Proof.
  intros E Hq. rewrite (unquote_turn _ _ _ E); [by rewrite drop_app_length|].
  rewrite length_app. destruct q; [done|]. cbn. lia.
Qed.

Lemma quote_ascii b u :
  bv b < 0x80 →
  let q := json.quote_rune (bv b, 1%nat) [b] in
  chunk q = true ∧ q ≠ [] ∧ unquote_one (q ++ u) = Some ([b], length q).
Proof.
  intros Hb. cbv zeta. split; [revert b Hb; byte_enum|].
  split; [revert b Hb; byte_enum|]. destruct b; cbn in Hb; try lia; reflexivity.
Qed.

(** A rune of a quoted string: it is cut off with the string, and unquoted to itself. *)
Lemma quote_rune_chunk s u :
  let q := json.quote_rune (utf8.DecodeRune s) (take (utf8.DecodeRune s).2 s) in
  s ≠ [] →
  chunk q = true ∧ q ≠ [] ∧ unquote_one (q ++ u) = Some (utf8.EncodeRune (utf8.DecodeRune s).1, length q).
Proof.
  cbv zeta. intros Hne. destruct (DecodeRune_local s u Hne) as [Hlen Hloc].
  destruct (DecodeRune_high s) as [(b & t & -> & Erw & Hb)|[Erw|[?|[Hr Hhigh]]]]; [| |done|].
  - rewrite Erw. cbn [fst snd take]. rewrite EncodeRune_ascii by (split; [apply bv_range|exact Hb]).
    rewrite bz_bv. by apply quote_ascii.
  - by rewrite Erw.
  - destruct (utf8.DecodeRune s) as [r w] eqn:Erw. cbn [fst snd] in *. unfold json.quote_rune. cbn [fst snd].
    rewrite (proj2 (Z.ltb_ge _ _)) by lia.
    destruct ((r =? utf8.RuneError) && (w =? 1)%nat) eqn:Ee; [by apply andb_true_iff in Ee as [->%Z.eqb_eq _]|].
    destruct (Z.eqb_spec r 0x2028) as [->|]; [done|]. destruct (Z.eqb_spec r 0x2029) as [->|]; [done|]. cbn [orb].
    assert (∀ b, 0x80 ≤ bv b → plain b = true ∧ Byte.eqb b x22 = false ∧ Byte.eqb b x5c = false ∧
      (bv b <? 0x20) = false ∧ (bv b <? 0x80) = false) as Hb by byte_enum.
    specialize (Hloc ltac:(intros [= -> ->]; by rewrite Z.eqb_refl in Ee)).
    destruct s as [|b t]; [done|]. destruct w as [|w]; [lia|]. cbn [take app length] in *.
    apply Forall_cons in Hhigh as [Hv Hhigh]. destruct (Hb b Hv) as (E0 & E1 & E2 & E3 & E4). split_and!; [|done|].
    + assert (forallb plain (b :: take w t) = true) as Hp.
      { cbn [forallb]. rewrite E0. apply forallb_forall. intros c Hc%list_elem_of_In.
        rewrite Forall_forall in Hhigh. by apply Hb, Hhigh. }
      unfold chunk. rewrite E2, Hp. by destruct (take w t).
    + unfold unquote_one. rewrite E1, E2, E3, E4, Hloc. cbn [fst snd orb]. rewrite length_take. do 2 f_equal. lia.
Qed.

Lemma quote_read k s u :
  cut_string (json.quote_from k s ++ x22 :: u) = Some (json.quote_from k s, u) ∧
  unquote (json.quote_from k s) = Some (coerce_from k s).
Proof.
  unfold unquote, coerce_from. revert k. induction s as [|b t IH]; intros k; [done|].
  destruct k as [|k]; [|apply IH]. set (rw := utf8.DecodeRune (b :: t)).
  change (json.quote_from 0 (b :: t)) with (json.quote_rune rw (take rw.2 (b :: t)) ++ json.quote_from (rw.2 - 1) t).
  change (utf8.runes_from 0 (b :: t)) with (rw :: utf8.runes_from (rw.2 - 1) t).
  destruct (IH (rw.2 - 1)%nat) as [IH1 IH2]. rewrite fmap_cons. cbn [concat].
  destruct (quote_rune_chunk (b :: t) (json.quote_from (rw.2 - 1) t)) as (Hc & Hq & Ho); [done|].
  fold rw in Hc, Hq, Ho. split.
  - by rewrite <- app_assoc, (cut_chunk _ _ Hc), IH1.
  - by rewrite (unquote_chunk _ _ _ Ho Hq), IH2.
Qed.

End quoting.

(** ** Lemmas: valid UTF-8 is kept *)

Section kept.
Import utf8.

Lemma lor_high a b n : 0 ≤ n → 0 ≤ b < 2 ^ n → Z.lor (Z.shiftl a n) b = a * 2 ^ n + b.
Proof. intros. rewrite Z.shiftl_mul_pow2, Z.lor_comm, lor_shift_add by lia. lia. Qed.

(** The last six bits of a rune, and the others. *)
Lemma six_bits a b : 0 ≤ b < 64 → Z.shiftr (a * 64 + b) 6 = a ∧ Z.land (a * 64 + b) 0x3F = b.
Proof.
  intros Hb. rewrite Z.shiftr_div_pow2 by lia. change 0x3F with (Z.ones 6). rewrite Z.land_ones by lia.
  change (2 ^ 6) with 64. split; [by rewrite Z.div_add_l, Z.div_small by lia; lia|].
  rewrite Z.add_comm, Z.mod_add by lia. by apply Z.mod_small.
Qed.

(** The payload of a first and of a later byte. *)
Lemma lead_bits b :
  (0xC2 ≤ bv b ≤ 0xDF → Z.land (bv b) 0x1F = bv b - 0xC0) ∧ (0xE0 ≤ bv b ≤ 0xEF → Z.land (bv b) 0x0F = bv b - 0xE0) ∧
  (0xF0 ≤ bv b ≤ 0xF4 → Z.land (bv b) 0x07 = bv b - 0xF0) ∧ (0x80 ≤ bv b ≤ 0xBF → Z.land (bv b) 0x3F = bv b - 0x80).
Proof. revert b. byte_enum. Qed.

Lemma between_iff lo hi b : between lo hi b = true ↔ lo ≤ bv b ≤ hi.
Proof. unfold between. rewrite andb_true_iff, !Z.leb_le. done. Qed.

Lemma bz_is z b : z = bv b → bz z = b.
Proof. intros ->. apply bz_bv. Qed.

Lemma EncodeRune_valid r : 0 ≤ r < 0xD800 ∨ 0xE000 ≤ r ≤ 0x10FFFF →
  (0xD800 <=? r) && (r <=? 0xDFFF) || (0x10FFFF <? r) || (r <? 0) = false.
Proof.
  intros Hr. destruct (Z.leb_spec 0xD800 r), (Z.leb_spec r 0xDFFF), (Z.ltb_spec 0x10FFFF r), (Z.ltb_spec r 0); cbn; lia || done.
Qed.

(** The encoding of a rune given by its groups of six bits. *)
Lemma EncodeRune_2 a b : 2 ≤ a < 32 → 0 ≤ b < 64 → EncodeRune (a * 64 + b) = [bz (0xC0 + a); bz (0x80 + b)].
Proof.
  intros Ha Hb. unfold EncodeRune. rewrite EncodeRune_valid by lia. destruct (six_bits a b Hb) as [-> ->].
  destruct (Z.ltb_spec (a * 64 + b) 0x80); [lia|]. by destruct (Z.ltb_spec (a * 64 + b) 0x800); [|lia].
Qed.

Lemma EncodeRune_3 a b c :
  0 ≤ a < 16 → 0 ≤ b < 64 → 0 ≤ c < 64 → (a = 0 → 32 ≤ b) → (a = 13 → b < 32) →
  EncodeRune ((a * 64 + b) * 64 + c) = [bz (0xE0 + a); bz (0x80 + b); bz (0x80 + c)].
Proof.
  intros Ha Hb Hc H0 H13. unfold EncodeRune. rewrite EncodeRune_valid by lia.
  change 12 with (6 + 6). rewrite <- Z.shiftr_shiftr by lia.
  destruct (six_bits (a * 64 + b) c Hc) as [-> ->], (six_bits a b Hb) as [-> ->].
  destruct (Z.ltb_spec ((a * 64 + b) * 64 + c) 0x80); [lia|]. destruct (Z.ltb_spec ((a * 64 + b) * 64 + c) 0x800); [lia|].
  by destruct (Z.ltb_spec ((a * 64 + b) * 64 + c) 0x10000); [|lia].
Qed.

Lemma EncodeRune_4 a b c d :
  0 ≤ a ≤ 4 → 0 ≤ b < 64 → 0 ≤ c < 64 → 0 ≤ d < 64 → (a = 0 → 16 ≤ b) → (a = 4 → b < 16) →
  EncodeRune (((a * 64 + b) * 64 + c) * 64 + d) = [bz (0xF0 + a); bz (0x80 + b); bz (0x80 + c); bz (0x80 + d)].
Proof.
  intros Ha Hb Hc Hd H0 H4. unfold EncodeRune. rewrite EncodeRune_valid by lia.
  change 18 with (6 + (6 + 6)). change 12 with (6 + 6). rewrite <- !Z.shiftr_shiftr by lia.
  destruct (six_bits ((a * 64 + b) * 64 + c) d Hd) as [-> ->], (six_bits (a * 64 + b) c Hc) as [-> ->],
    (six_bits a b Hb) as [-> ->]. set (r := _ + d).
  destruct (Z.ltb_spec r 0x80); [lia|]. destruct (Z.ltb_spec r 0x800); [lia|]. by destruct (Z.ltb_spec r 0x10000); [lia|].
Qed.

(** A rune that was decoded is encoded as it was. *)
Lemma Encode_Decode s :
  s ≠ [] → DecodeRune s ≠ (RuneError, 1%nat) → EncodeRune (DecodeRune s).1 = take (DecodeRune s).2 s.
Proof.
  destruct s as [|b0 t]; [done|]. intros _. unfold DecodeRune. cbv zeta. destruct (lead_bits b0) as (L2 & L3 & L4 & _).
  assert (∀ b, 0x80 ≤ bv b ≤ 0xBF → Z.land (bv b) 0x3F = bv b - 0x80) as M by apply lead_bits.
  assert (∀ lo b, bz (lo + (bv b - lo)) = b) as Hbz by (intros; apply bz_is; lia).
  destruct (Z.ltb_spec (bv b0) 0x80) as [H0|H0].
  { intros _. cbn [fst snd take]. rewrite EncodeRune_ascii by (split; [apply bv_range|done]). by rewrite bz_bv. }
  destruct (_ && (bv b0 <=? 0xDF)) eqn:E1.
  { destruct t as [|b1 t]; [done|]. destruct (between _ _ b1) eqn:B; [|done]. intros _. cbn [fst snd take].
    apply between_iff in B. bool_prop. rewrite L2, M, lor_high by lia. by rewrite EncodeRune_2, !Hbz by lia. }
  destruct (_ && (bv b0 <=? 0xEF)) eqn:E2.
  { destruct t as [|b1 [|b2 t]]; [done..|]. destruct (_ && between _ _ b2) eqn:B in |- *; [|done]. intros _. cbn [fst snd take].
    apply andb_true_iff in B as [B1%between_iff B2%between_iff]. unfold accept_lo, accept_hi in B1. bool_prop.
    assert (0x80 ≤ bv b1 ≤ 0xBF) by (repeat case_match; lia). rewrite L3, !M by lia.
    rewrite (lor_high _ _ 6), (lor_high _ _ 12) by lia.
    change (2 ^ 12) with (64 * 64). change (2 ^ 6) with 64.
    replace (_ * (64 * 64) + _) with (((bv b0 - 0xE0) * 64 + (bv b1 - 0x80)) * 64 + (bv b2 - 0x80)) by lia.
    rewrite EncodeRune_3; [by rewrite !Hbz|..]; repeat case_match; bool_prop; lia. }
  destruct (_ && (bv b0 <=? 0xF4)) eqn:E3; [|done].
  destruct t as [|b1 [|b2 [|b3 t]]]; [done..|]. destruct (_ && between _ _ b3) eqn:B in |- *; [|done]. intros _. cbn [fst snd take].
  apply andb_true_iff in B as [[B1%between_iff B2%between_iff]%andb_true_iff B3%between_iff].
  unfold accept_lo, accept_hi in B1. bool_prop. assert (0x80 ≤ bv b1 ≤ 0xBF) by (repeat case_match; lia).
  rewrite L4, !M by lia. rewrite (lor_high _ _ 6), (lor_high _ _ 12), (lor_high _ _ 18) by lia.
  change (2 ^ 18) with (64 * 64 * 64). change (2 ^ 12) with (64 * 64). change (2 ^ 6) with 64.
  replace (_ * (64 * 64 * 64) + _) with ((((bv b0 - 0xF0) * 64 + (bv b1 - 0x80)) * 64 + (bv b2 - 0x80)) * 64 + (bv b3 - 0x80)) by lia.
  rewrite EncodeRune_4; [by rewrite !Hbz|..]; repeat case_match; bool_prop; lia.
Qed.

Lemma coerce_valid_from k s :
  forallb (λ rw, negb ((rw.1 =? RuneError) && (rw.2 =? 1)%nat)) (runes_from k s) = true → (k ≤ length s)%nat →
  coerce_from k s = drop k s.
Proof.
  unfold coerce_from. revert k. induction s as [|b t IH]; intros k Hv Hk; [by destruct k|].
  destruct k as [|k]; [|by apply IH; [done|cbn in Hk; lia]]. set (rw := DecodeRune (b :: t)).
  change (runes_from 0 (b :: t)) with (rw :: runes_from (rw.2 - 1) t) in *. cbn [forallb] in Hv.
  apply andb_true_iff in Hv as [Hrw Hv]. destruct (DecodeRune_local (b :: t) []) as [Hlen _]; [done|]. fold rw in Hlen.
  rewrite fmap_cons. cbn [concat]. rewrite IH by (done || cbn [length] in Hlen; lia).
  assert (rw ≠ (RuneError, 1%nat)) as Hne by (intros E; by rewrite E in Hrw).
  pose proof (Encode_Decode (b :: t) ltac:(done) Hne) as E. fold rw in E. rewrite E. destruct rw.2 as [|w]; [lia|].
  cbn [take drop]. rewrite Nat.sub_succ, Nat.sub_0_r. cbn [app]. by rewrite take_drop.
Qed.

Lemma coerce_valid s : Valid s = true → coerce s = s.
Proof. intros Hv. unfold coerce. rewrite coerce_valid_from; [done|done|lia]. Qed.

End kept.

(** ** Lemmas: the walk follows the scanner *)

Section agreement.
Import jsonscan jsondecode.

(** The scanner accepts the rest of a text. *)
Definition accepts (st : state) (stack : list enclosing) (s : bytes) : bool :=
  match scan st stack s with
  | Some (st', stack') => match step st' stack' x20 with Some (EndTop, _) => true | _ => false end
  | None => false
  end.

Lemma accepts_cons st stack c t :
  accepts st stack (c :: t) = true → ∃ st' stack', step st stack c = Some (st', stack') ∧ accepts st' stack' t = true.
Proof. unfold accepts. cbn [scan]. destruct (step st stack c) as [[st' stack']|]; [|done]. intros. by exists st', stack'. Qed.

(** *** Spaces *)

Lemma accepts_spaces st stack s :
  (∀ c, isSpace c = true → step st stack c = Some (st, stack)) → accepts st stack s = true →
  accepts st stack (spaces s) = true.
Proof.
  intros Hst. unfold spaces. induction s as [|c t IH]; [done|]. cbn [drop_while]. intros Ha.
  destruct (isSpace c) eqn:E; [|done]. apply IH. apply accepts_cons in Ha as (st' & stack' & Hs & Ha).
  rewrite (Hst c E) in Hs. by injection Hs as <- <-.
Qed.

Lemma spaces_head s c t : spaces s = c :: t → isSpace c = false.
Proof.
  unfold spaces. induction s as [|b s IH]; [done|]. cbn [drop_while]. destruct (isSpace b) eqn:E; [done|]. by intros [= -> ->].
Qed.

Lemma spaces_length s : (length (spaces s) ≤ length s)%nat.
Proof. unfold spaces. induction s as [|b s IH]; [done|]. cbn [drop_while]. destruct (isSpace b); cbn [length]; lia. Qed.

Lemma expect_iff c s t : expect c s = Some t ↔ spaces s = c :: t.
Proof.
  unfold expect. destruct (spaces s) as [|b u]; [done|]. destruct (Byte.eqb b c) eqn:E.
  - apply Byte.byte_dec_bl in E as ->. naive_solver.
  - split; [done|]. intros [= -> ->]. by rewrite (Byte.byte_dec_lb eq_refl) in E.
Qed.

(** *** Strings *)

(** The states inside a string; the enclosing ones play no part in them. *)
Definition in_string (st : state) : bool :=
  match st with InString | InStringEsc | InStringEscU _ => true | _ => false end.

Lemma string_step st stack c st' stack' :
  in_string st = true → step st stack c = Some (st', stack') →
  stack' = stack ∧ step st [] c = Some (st', []) ∧
  match st with
  | InString => if Byte.eqb c x22 then st' = EndValue else if Byte.eqb c x5c then st' = InStringEsc else st' = InString
  | InStringEsc => st' = InString ∨ st' = InStringEscU 3
  | _ => isHex c = true ∧ in_string st' = true ∧ st' ≠ InStringEsc
  end.
Proof.
  destruct st; try done; intros _; cbn [step]; unfold one_of; cbn [existsb]; rewrite ?orb_false_r;
    repeat case_match; intros [= <- <-]; auto.
Qed.

Lemma string_cut st stack s :
  in_string st = true → st ≠ InStringEsc → accepts st stack s = true →
  ∃ raw rest, cut_string s = Some (raw, rest) ∧ scan st [] raw = Some (InString, []) ∧
    accepts EndValue stack rest = true ∧ (length rest < length s)%nat.
Proof.
  remember (length s) as n eqn:Hn. revert st s Hn. induction (lt_wf n) as [n _ IH]. intros st s -> Hst Hne Ha.
  destruct s as [|c t]; [by destruct st|]. apply accepts_cons in Ha as (st' & stack' & Hs & Ha).
  destruct (string_step _ _ _ _ _ Hst Hs) as (-> & Hs0 & Hc). clear Hs.
  assert (∀ b, isHex b = true → Byte.eqb b x22 = false ∧ Byte.eqb b x5c = false) as Hhex by byte_enum.
  assert (Byte.eqb c x22 = false → Byte.eqb c x5c = false → in_string st' = true → st' ≠ InStringEsc →
    ∃ raw rest, cut_string (c :: t) = Some (raw, rest) ∧ scan st [] raw = Some (InString, []) ∧
      accepts EndValue stack rest = true ∧ (length rest < length (c :: t))%nat) as Hplain.
  { intros E1 E2 Hin Hesc. destruct (IH (length t)) with (st := st') (s := t) as (raw & rest & Hr & Hsc & He & Hl); [cbn; lia|done..|].
    exists (c :: raw), rest. cbn [cut_string scan]. rewrite E1, E2, Hr, Hs0. by split_and!; [..|cbn; lia]. }
  destruct st; try done; [|by destruct Hc as ([? ?]%Hhex & ? & ?); apply Hplain].
  destruct (Byte.eqb c x22) eqn:E1; [|destruct (Byte.eqb c x5c) eqn:E2; [|by subst; apply Hplain]].
  { subst st'. exists [], t. cbn [cut_string]. rewrite E1. by split_and!; [..|cbn; lia]. }
  subst st'. destruct t as [|e u]; [done|]. apply accepts_cons in Ha as (st2 & stack2 & Hs2 & Ha).
  destruct (string_step InStringEsc _ _ _ _ eq_refl Hs2) as (-> & Hs3 & Hst2).
  destruct (IH (length u)) with (st := st2) (s := u) as (raw & rest & Hr & Hsc & He & Hl);
    [cbn; lia|done|by destruct Hst2 as [-> | ->]..|done|].
  exists (c :: e :: raw), rest. cbn [cut_string scan]. rewrite E1, E2, Hr, Hs0, Hs3. by split_and!; [..|cbn; lia].
Qed.

(** What is in an accepted string can be unquoted. *)
Lemma hex_value_iff c : is_Some (hex.value c) ↔ isHex c = true.
Proof.
  assert (∀ b, bool_decide (is_Some (hex.value b)) = isHex b) as H by byte_enum. rewrite <- H. by rewrite bool_decide_eq_true.
Qed.

Lemma getu4_scan s r :
  getu4 s = Some r → (6 ≤ length s)%nat ∧ scan InString [] s = scan InString [] (drop 6 s).
Proof.
  destruct s as [|b0 [|b1 [|d3 [|d2 [|d1 [|d0 t]]]]]]; [done..|]. unfold getu4.
  destruct (Byte.eqb b0 x5c) eqn:E0; [|done]. destruct (Byte.eqb b1 x75) eqn:E1; [|done]. cbn [andb].
  apply Byte.byte_dec_bl in E0 as ->. apply Byte.byte_dec_bl in E1 as ->. intros Hv. split; [cbn; lia|].
  assert (isHex d3 = true ∧ isHex d2 = true ∧ isHex d1 = true ∧ isHex d0 = true) as (H3 & H2 & H1 & H0).
  { rewrite <- !hex_value_iff. by repeat case_match. }
  cbn. rewrite H3. cbn. rewrite H2. cbn. rewrite H1. cbn. by rewrite H0.
Qed.

Lemma scan_getu4 u :
  scan (InStringEscU 3) [] u = Some (InString, []) → is_Some (getu4 (x5c :: x75 :: u)).
Proof.
  intros Hs. unfold getu4. cbn [Byte.eqb andb].
  do 4 (destruct u as [|? u]; [done|]; cbn [scan step] in Hs; destruct (isHex _) eqn:? in Hs; [|done]).
  repeat match goal with H : isHex _ = true |- _ => apply hex_value_iff in H as [? ->] end. by eexists.
Qed.

(** After its closing quote nothing is in a string at the top. *)
Lemma scan_after_top st t : st = EndValue ∨ st = EndTop → scan st [] t ≠ Some (InString, []).
Proof.
  revert st. induction t as [|c t IH]; intros st [-> | ->]; [done..| |]; cbn [scan step end_value];
    (destruct (isSpace c); [apply IH; by right|done]).
Qed.

Lemma unquote_escape e u :
  scan InStringEsc [] (e :: u) = Some (InString, []) →
  let s := x5c :: e :: u in
  ∃ out n, unquote_one s = Some (out, n) ∧ (0 < n ≤ length s)%nat ∧ scan InString [] (drop n s) = Some (InString, []).
Proof.
  intros Hs s. destruct (Byte.eqb e x75) eqn:Ee.
  - apply Byte.byte_dec_bl in Ee as ->. destruct (scan_getu4 u Hs) as [rr Hrr].
    destruct (getu4_scan _ _ Hrr) as [Hl Hd]. fold s in Hrr, Hl, Hd. change (scan InString [] s = Some (InString, [])) in Hs.
    rewrite Hs in Hd. subst s. unfold unquote_one.
    change (Byte.eqb x5c x5c) with true. change (Byte.eqb x75 x75) with true. cbv iota. rewrite Hrr.
    assert (∀ out : bytes, ∃ out' n, Some (out, 6%nat) = Some (out', n) ∧ (0 < n ≤ length (x5c :: x75 :: u))%nat ∧
      scan InString [] (drop n (x5c :: x75 :: u)) = Some (InString, [])) as H6.
    { intros out. exists out, 6%nat. by split_and!; [|lia..|]. }
    destruct (IsSurrogate rr); [|apply H6]. destruct (getu4 (drop 6 _)) as [rr1|] eqn:E2; [|apply H6].
    case_match; [apply H6|]. destruct (getu4_scan _ _ E2) as [Hl2 Hd2]. rewrite length_drop in Hl2. rewrite drop_drop in Hd2.
    eexists _, 12%nat. split; [done|]. split; [lia|]. change (6 + 6)%nat with 12%nat in Hd2. by rewrite <- Hd2, <- Hd.
  - assert (∀ b, one_of b (gs"bfnrt/" ++ [x5c; x22]) = true → is_Some (unescape b)) as He by byte_enum.
    assert (∀ b, Byte.eqb b x75 = false → one_of b gs"u" = false) as Hu by byte_enum.
    cbn [scan step] in Hs. destruct (one_of e _) eqn:Eo in Hs.
    + destruct (He e Eo) as [b Hb]. exists [b], 2%nat. subst s. unfold unquote_one.
      change (Byte.eqb x5c x5c) with true. rewrite Ee, Hb.
      by split_and!; [|cbn; lia..|].
    + by rewrite Hu in Hs.
Qed.

Lemma scan_unquote_one s :
  s ≠ [] → scan InString [] s = Some (InString, []) →
  ∃ out n, unquote_one s = Some (out, n) ∧ (0 < n ≤ length s)%nat ∧ scan InString [] (drop n s) = Some (InString, []).
Proof.
  destruct s as [|c t]; [done|]. intros _ Hs. pose proof Hs as Hscan. cbn [scan] in Hs.
  destruct (step InString [] c) as [[st' stack']|] eqn:E; [|done].
  destruct (string_step InString _ _ _ _ eq_refl E) as (-> & _ & Hc).
  destruct (Byte.eqb c x22) eqn:E1; [subst st'; by apply scan_after_top in Hs; [|left]|].
  destruct (Byte.eqb c x5c) eqn:E2.
  { subst st'. apply Byte.byte_dec_bl in E2 as ->. destruct t as [|e u]; [done|]. by apply unquote_escape. }
  subst st'. unfold unquote_one. rewrite E1, E2. cbn [step] in E. unfold one_of in E. cbn [existsb] in E.
  rewrite !orb_false_r, E1, E2 in E. destruct (bv c <? 0x20); [done|]. cbn [orb].
  destruct (bv c <? 0x80) eqn:E8; [exists [c], 1%nat; by split_and!; [|cbn; lia..|]|].
  destruct (DecodeRune_local (c :: t) []) as [Hlen _]; [done|]. eexists _, _. split; [done|]. split; [exact Hlen|].
  destruct (DecodeRune_high (c :: t)) as [(b & ? & [= -> ->] & Erw & Hb)|[Erw|[?|[Hr Hhigh]]]]; [|by rewrite Erw|done|].
  - apply Z.ltb_ge in E8. lia.
  - rewrite <- (take_drop (utf8.DecodeRune (c :: t)).2 (c :: t)) in Hscan. rewrite scan_app, scan_plain in Hscan; [done|].
    eapply Forall_impl; [exact Hhigh|]. intros b ?. cbn in *. lia.
Qed.

Lemma scan_unquote s : scan InString [] s = Some (InString, []) → is_Some (unquote s).
Proof.
  unfold unquote. remember (length s) as n eqn:Hn. revert s Hn. induction (lt_wf n) as [n _ IH]. intros s -> Hs.
  destruct s as [|c t]; [by eexists|]. destruct (scan_unquote_one (c :: t)) as (out & n & Ho & Hn & Hd); [done..|].
  rewrite (unquote_turn _ _ _ Ho Hn). destruct (IH (length (drop n (c :: t)))) with (s := drop n (c :: t)) as [r ->];
    [rewrite length_drop; lia|done..|by eexists].
Qed.

(** *** Literals and numbers *)

Lemma literal_cut l stack s :
  l ≠ [] → accepts (Literal l) stack s = true → ∃ rest, s = l ++ rest ∧ accepts EndValue stack rest = true.
Proof.
  revert s. induction l as [|d l IH]; intros s; [done|]. intros _ Ha. destruct s as [|c t].
  { unfold accepts in Ha. cbn [scan step] in Ha. by repeat case_match. }
  apply accepts_cons in Ha as (st' & stack' & Hs & Ha). cbn [step] in Hs. destruct (Byte.eqb c d) eqn:E; [|done].
  apply Byte.byte_dec_bl in E as ->. injection Hs as <- <-. destruct l as [|d' l]; [by exists t|].
  destruct (IH t) as (rest & -> & Hr); [done..|]. by exists rest.
Qed.

Definition in_number (st : state) : bool :=
  match st with Neg | Int1 | Int0 | Dot | Dot0 | Exp | ExpSign | Exp0 => true | _ => false end.

Lemma end_value_number stack c : number_byte c = true → end_value stack c = None.
Proof.
  assert (∀ b, number_byte b = true → isSpace b = false ∧ one_of b gs":" = false ∧ one_of b gs"," = false ∧
    one_of b gs"}" = false ∧ one_of b gs"]" = false) as Hb by byte_enum.
  intros (E1 & E2 & E3 & E4 & E5)%Hb. unfold end_value. rewrite E1, E2, E3, E4, E5. by repeat case_match.
Qed.

Lemma number_step st stack c st' stack' :
  in_number st = true → step st stack c = Some (st', stack') →
  (number_byte c = true ∧ in_number st' = true ∧ stack' = stack) ∨
  (number_byte c = false ∧ step EndValue stack c = Some (st', stack')).
Proof.
  assert (∀ b, isDigit b = true ∨ one_of b gs"0" = true ∨ one_of b gs"." = true ∨ one_of b gs"eE" = true ∨ one_of b gs"+-" = true →
    number_byte b = true) as Hb by byte_enum.
  intros Hst. destruct (number_byte c) eqn:E.
  - pose proof (end_value_number stack c E) as He. intros Hs. left. split; [done|].
    destruct st; try done; cbn [step] in Hs; unfold digit_to, after_int, after_fraction in Hs; rewrite ?He in Hs;
      repeat case_match; by simplify_eq.
  - assert (¬ (isDigit c = true ∨ one_of c gs"0" = true ∨ one_of c gs"." = true ∨ one_of c gs"eE" = true ∨ one_of c gs"+-" = true))
      as Hn by (intros Hx; by rewrite (Hb c Hx) in E).
    intros Hs. right. split; [done|].
    destruct st; try done; cbn [step] in *; unfold digit_to, after_int, after_fraction in Hs;
      repeat case_match; simplify_eq; tauto.
Qed.

Lemma number_cut st stack s :
  in_number st = true → accepts st stack s = true → accepts EndValue stack (drop_while number_byte s) = true.
Proof.
  revert st. induction s as [|c t IH]; intros st Hst Ha.
  - unfold accepts in *. cbn [scan] in *. destruct (step st stack x20) as [[st' stack']|] eqn:E; [|done].
    destruct (number_step _ _ _ _ _ Hst E) as [(? & _)|(_ & Hs)]; [done|]. cbn [drop_while scan]. by rewrite Hs.
  - apply accepts_cons in Ha as (st' & stack' & Hs & Ha). cbn [drop_while].
    destruct (number_step _ _ _ _ _ Hst Hs) as [(-> & Hst' & ->)|(-> & Hs')]; [by eapply IH|].
    unfold accepts in *. cbn [scan]. by rewrite Hs'.
Qed.

(** *** Objects and arrays *)

Lemma pop_same stack st' stack' : pop stack = (st', stack') → stack' = stack ∧ st' = (pop stack).1.
Proof. by destruct stack; intros [= <- <-]. Qed.

(** A step changes what the scanner is in by one level at most; it is at the end of the
    text only when it is in nothing. *)
Lemma step_levels st e inner c st' stack' :
  st ≠ EndTop → step st (e :: inner) c = Some (st', stack') →
  (stack' = inner ∧ st' = (pop inner).1) ∨ (∃ e', (stack' = e' :: inner ∨ stack' = e' :: e :: inner) ∧ st' ≠ EndTop).
Proof.
  intros Hne Hs. destruct st; try done; cbn [step tail] in Hs;
    unfold begin_value, begin_string, digit_to, after_int, after_fraction, end_value, push in Hs;
    repeat case_match; simplify_eq;
    first [left; by apply pop_same | right; eexists; split; [by eauto|done]].
Qed.

Lemma space_within st e inner st' stack' :
  st ≠ EndTop → step st (e :: inner) x20 = Some (st', stack') → st' ≠ EndTop.
Proof.
  intros Hne. destruct st; try done; try (intros [= <- <-]; done); cbn [step]; repeat case_match; by intros [= <- <-].
Qed.

Lemma skip_cut st inner base s :
  inner ≠ [] → st ≠ EndTop → accepts st (inner ++ base) s = true →
  ∃ rest, skip (length base) st (inner ++ base) s = Some rest ∧ accepts (pop base).1 base rest = true ∧
    (length rest < length s)%nat.
Proof.
  revert st inner. induction s as [|c t IH]; intros st [|e inner] Hi Hst Ha; try done; cbn [app] in *.
  - unfold accepts in Ha. cbn [scan] in Ha. destruct (step st (e :: inner ++ base) x20) as [[st' stack']|] eqn:E; [|done].
    apply space_within in E; [|done]. by destruct st'.
  - apply accepts_cons in Ha as (st' & stack' & Hs & Ha). cbn [skip]. rewrite Hs.
    destruct (step_levels _ _ _ _ _ _ Hst Hs) as [[-> ->]|(e' & Hk & Hne)].
    + destruct inner as [|e2 inner].
      * cbn [app] in *. rewrite Nat.leb_refl. exists t. by split_and!; [..|cbn; lia].
      * rewrite (proj2 (Nat.leb_gt _ _)) by (cbn; rewrite length_app; lia).
        destruct (IH EndValue (e2 :: inner)) as (rest & ? & ? & ?); [done..|]. exists rest. by split_and!; [..|cbn; lia].
    + rewrite (proj2 (Nat.leb_gt _ _)) by (destruct Hk as [-> | ->]; cbn; rewrite length_app; lia).
      assert (∃ inner', inner' ≠ [] ∧ stack' = inner' ++ base) as (inner' & Hi' & ->).
      { destruct Hk as [-> | ->]; [by exists (e' :: inner)|by exists (e' :: e :: inner)]. }
      destruct (IH st' inner') as (rest & ? & ? & ?); [done..|]. exists rest. by split_and!; [..|cbn; lia].
Qed.

(** *** Values *)

(** The value [v] and the text after it, shorter than [s], have been cut off [s]. *)
Definition cut_ok (stack : list enclosing) (s : bytes) (cut : option (jvalue * bytes)) : Prop :=
  ∃ v rest, cut = Some (v, rest) ∧ accepts EndValue stack rest = true ∧ (length rest < length s)%nat.

Lemma literal_ok v d l stack t :
  l ≠ [] → accepts (Literal l) stack t = true → cut_ok stack (d :: t) (Some (v, drop (S (length l)) (d :: t))).
Proof.
  intros Hl Ha. destruct (literal_cut l stack t Hl Ha) as (rest & -> & Hr). exists v, rest. cbn [drop length].
  rewrite drop_app_length. split; [done|]. split; [done|]. rewrite length_app. lia.
Qed.

Lemma composite_ok c t e base :
  one_of c gs"{[" = true → accepts BeginValue (e :: base) (c :: t) = true →
  cut_ok (e :: base) (c :: t) (cut_value (e :: base) (c :: t)).
Proof.
  assert (∀ b, one_of b gs"{[" = true → b = x7b ∨ b = x5b) as Hb by byte_enum.
  intros Hc. assert (cut_value (e :: base) (c :: t) =
    match skip (length (e :: base)) BeginValue (e :: base) (c :: t) with Some rest => Some (JOther, rest) | None => None end) as ->
    by (by destruct (Hb c Hc) as [-> | ->]).
  intros (st' & stack' & Hs & Ha)%accepts_cons. cbn [skip]. rewrite Hs.
  assert (∃ x, stack' = [x] ++ e :: base ∧ st' ≠ EndTop) as (x & -> & Hne).
  { destruct (Hb c Hc) as [-> | ->]; cbn in Hs; unfold push in Hs; (case_match; [|done]); injection Hs as <- <-; by eexists. }
  rewrite (proj2 (Nat.leb_gt _ _)) by (cbn; lia).
  destruct (skip_cut st' [x] (e :: base) t) as (rest & -> & Hr & Hl); [done..|]. eexists _, rest. by split_and!; [..|cbn; lia].
Qed.

Lemma value_cut e base s :
  (∀ c t, s = c :: t → isSpace c = false) → accepts BeginValue (e :: base) s = true →
  cut_ok (e :: base) s (cut_value (e :: base) s).
Proof.
  intros Hsp Ha. destruct s as [|c t]; [done|]. specialize (Hsp c t eq_refl).
  destruct (one_of c gs"{[") eqn:Ec; [by apply composite_ok|].
  assert (∀ b, one_of b gs"{[" = false → isSpace b = false →
    b = x22 ∨ b = x6e ∨ b = x74 ∨ b = x66 ∨
    (cut_value (e :: base) (b :: t) = Some (JOther, drop_while number_byte (b :: t)) ∧
     match step BeginValue (e :: base) b with
     | Some (st', stack') => stack' = e :: base ∧ in_number st' = true ∧ number_byte b = true
     | None => True end)) as Hcases.
  { clear. intros b H1 H2. destruct b; try (cbv in H1; done); try (cbv in H2; done); first [by auto|right; right; right; right; by split]. }
  destruct (Hcases c Ec Hsp) as [-> |[-> |[-> |[-> |[-> Hnum]]]]].
  - apply accepts_cons in Ha as (st' & stack' & Hs & Ha). injection Hs as <- <-.
    destruct (string_cut InString _ t eq_refl ltac:(done) Ha) as (raw & rest & Hr & Hsc & He & Hl).
    destruct (scan_unquote raw Hsc) as [v Hv]. exists (JString v), rest. unfold cut_value.
    change (Byte.eqb x22 x22) with true. rewrite Hr, Hv. by split_and!; [..|cbn; lia].
  - apply accepts_cons in Ha as (st' & stack' & Hs & Ha). injection Hs as <- <-. by apply (literal_ok JNull x6e gs"ull").
  - apply accepts_cons in Ha as (st' & stack' & Hs & Ha). injection Hs as <- <-. by apply (literal_ok JOther x74 gs"rue").
  - apply accepts_cons in Ha as (st' & stack' & Hs & Ha). injection Hs as <- <-. by apply (literal_ok JOther x66 gs"alse").
  - apply accepts_cons in Ha as (st' & stack' & Hs & Ha). rewrite Hs in Hnum. destruct Hnum as (-> & Hst & Hb).
    eexists _, _. split; [done|]. cbn [drop_while]. rewrite Hb. split; [by eapply number_cut|].
    assert (∀ p u, (length (drop_while p u) ≤ length u)%nat) as Hl
      by (intros p u; induction u as [|b u IH]; cbn [drop_while]; [done|]; destruct (p b); cbn [length]; lia).
    specialize (Hl number_byte t). cbn [length]. lia.
Qed.

(** *** Members and documents *)

(** What the scanner takes, after spaces, is there to be taken. *)
Lemma accepts_head st stack s :
  (∀ c, isSpace c = true → step st stack c = Some (st, stack)) → accepts st stack [] = false → accepts st stack s = true →
  ∃ c t st' stack', spaces s = c :: t ∧ isSpace c = false ∧ step st stack c = Some (st', stack') ∧
    accepts st' stack' t = true ∧ (length t < length s)%nat.
Proof.
  intros Hst Hn Ha%accepts_spaces; [|done]. pose proof (spaces_length s) as Hl.
  destruct (spaces s) as [|c t] eqn:E; [by rewrite Ha in Hn|]. pose proof (spaces_head _ _ _ E) as Hc.
  apply accepts_cons in Ha as (st' & stack' & Hs & Ha). exists c, t, st', stack'. by split_and!.
Qed.

Lemma end_value_space e base c : isSpace c = true → step EndValue (e :: base) c = Some (EndValue, e :: base).
Proof. intros Hc. cbn [step end_value]. by rewrite Hc. Qed.

Lemma one_of_1 b d : one_of b [d] = true → b = d.
Proof. unfold one_of. cbn [existsb]. rewrite orb_false_r. apply Byte.byte_dec_bl. Qed.

(** A key and its colon. *)
Lemma key_cut s :
  accepts BeginString [ObjectKey] s = true →
  ∃ s1 raw s2 key s3, expect x22 s = Some s1 ∧ cut_string s1 = Some (raw, s2) ∧ unquote raw = Some key ∧
    expect x3a s2 = Some s3 ∧ accepts BeginValue [ObjectValue] s3 = true ∧ (length s3 < length s)%nat.
Proof.
  intros Ha. apply accepts_head in Ha as (c & t & st1 & stack1 & E & Hc & Hs & Ha & Hl); [|intros b Hb; cbn [step]; unfold begin_string; by rewrite Hb|done].
  cbn [step] in Hs. unfold begin_string in Hs. rewrite Hc in Hs. destruct (one_of c [x22]) eqn:Eq; [|done].
  apply one_of_1 in Eq as ->. injection Hs as <- <-.
  destruct (string_cut InString _ t eq_refl ltac:(done) Ha) as (raw & s2 & Hr & Hsc & He & Hl2).
  destruct (scan_unquote raw Hsc) as [key Hk].
  apply accepts_head in He as (c2 & s3 & st3 & stack3 & E2 & Hc2 & Hs2 & Ha2 & Hl3); [|apply end_value_space|done].
  cbn [step end_value] in Hs2. rewrite Hc2 in Hs2. destruct (one_of c2 gs":") eqn:Eq; [|done]. apply (one_of_1 _ x3a) in Eq as ->.
  injection Hs2 as <- <-. exists t, raw, s2, key, s3. rewrite !expect_iff. split_and!; try done. lia.
Qed.

Lemma members_cut turns s :
  accepts BeginString [ObjectKey] s = true → (length s ≤ turns)%nat → is_Some (cut_members turns s).
Proof.
  revert s. induction turns as [|turns IH]; intros s Ha Hl; [destruct s; [done|cbn in Hl; lia]|].
  destruct (key_cut s Ha) as (s1 & raw & s2 & key & s3 & E1 & E2 & E3 & E4 & Hv & Hl3). cbn [cut_members].
  rewrite E1, E2, E3, E4.
  destruct (value_cut ObjectValue [] (spaces s3)) as (v & s4 & -> & He & Hl4);
    [intros c t; apply spaces_head|apply accepts_spaces; [|done]; intros c Hc; cbn [step]; unfold begin_value; by rewrite Hc|].
  pose proof (spaces_length s3). apply accepts_head in He as (c & s5 & st5 & stack5 & E5 & Hc & Hs & Ha5 & Hl5);
    [|apply end_value_space|done].
  cbn [step end_value] in Hs. rewrite Hc in Hs. destruct (one_of c gs",") eqn:Eq.
  - apply (one_of_1 _ x2c) in Eq as ->. injection Hs as <- <-. rewrite (proj2 (expect_iff _ _ _) E5).
    destruct (IH s5 Ha5) as [ms ->]; [lia|]. by eexists.
  - destruct (one_of c gs"}") eqn:Eq2; [|done]. apply (one_of_1 _ x7d) in Eq2 as ->.
    destruct (expect x2c s4) as [?|] eqn:Ex; [by apply expect_iff in Ex; rewrite E5 in Ex|].
    rewrite (proj2 (expect_iff _ _ _) E5). by eexists.
Qed.

(** No text that is JSON makes the decoder panic. *)
Lemma document_cut s : Valid s = true → is_Some (cut_document s).
Proof.
  intros Ha. change (Valid s) with (accepts BeginValue [] s) in Ha. apply accepts_head in Ha
    as (c & t & st' & stack' & E & Hc & Hs & Ha & Hl); [|intros b Hb; cbn [step]; unfold begin_value; by rewrite Hb|done].
  unfold cut_document. rewrite E. destruct (one_of c gs"{") eqn:Eo; [|case_match; by eexists].
  apply (one_of_1 _ x7b) in Eo as ->. injection Hs as <- <-.
  apply accepts_head in Ha as (c2 & t2 & st2 & stack2 & E2 & Hc2 & Hs2 & Ha2 & Hl2); [|intros b Hb; cbn [step]; by rewrite Hb|done].
  destruct (expect x7d t) eqn:Ee; [by eexists|]. cbn [step] in Hs2. rewrite Hc2 in Hs2. destruct (one_of c2 gs"}") eqn:Eq.
  { apply (one_of_1 _ x7d) in Eq as ->. by rewrite (proj2 (expect_iff _ _ _) E2) in Ee. }
  assert (accepts BeginString [ObjectKey] t = true) as Hm.
  { clear -E2 Hc2 Hs2 Ha2. revert E2. unfold spaces. induction t as [|b u IH]; [done|]. cbn [drop_while].
    unfold accepts in *. cbn [scan]. destruct (isSpace b) eqn:Eb.
    - intros Eu. cbn [step]. unfold begin_string. rewrite Eb. by apply IH.
    - intros [= -> ->]. change (step BeginString [ObjectKey] c2) with (begin_string [ObjectKey] c2). by rewrite Hs2. }
  destruct (members_cut (length t) t Hm) as [ms ->]; [lia|by eexists].
Qed.

End agreement.

(** ** Lemmas: a marshalled object of strings is decoded *)

Section objects.
Import jsonscan jsondecode.

(** A byte that is neither escaped nor changed. *)
Definition safe (b : byte) : bool :=
  (0x20 <=? bv b) && (bv b <? 0x80) && negb (one_of b (gs"<>&" ++ [x22; x5c])).

Lemma quote_safe s : forallb safe s = true → json.quote_from 0 s = s ∧ coerce s = s.
Proof.
  assert (∀ b, safe b = true → bv b < 0x80 ∧ json.quote_rune (bv b, 1%nat) [b] = [b]) as Hb by byte_enum.
  unfold coerce, coerce_from. induction s as [|b t IH]; cbn [forallb]; [done|]. intros [Hs Ht]%andb_true_iff.
  destruct (Hb b Hs) as [Ha Hq]. destruct (IH Ht) as [IH1 IH2].
  assert (utf8.DecodeRune (b :: t) = (bv b, 1%nat)) as E by (apply DecodeRune_ascii, Z.ltb_lt, Ha).
  cbn [json.quote_from utf8.runes_from]. rewrite E. cbn [fst snd Nat.sub]. rewrite fmap_cons. cbn [concat fst].
  change (take 1 (b :: t)) with [b]. rewrite Hq, IH1, IH2, EncodeRune_ascii by (split; [apply bv_range|done]). by rewrite bz_bv.
Qed.

(** Members with such names and strings as values. *)
Definition string_member (m : bytes * bytes) : bytes * bytes := (m.1, json.String m.2).
Definition read_member (m : bytes * bytes) : bytes * jvalue := (m.1, JString (coerce m.2)).

Lemma expect_head c s : isSpace c = false → expect c (c :: s) = Some s.
Proof. intros Hc. apply expect_iff. unfold spaces. cbn [drop_while]. by rewrite Hc. Qed.

Lemma member_read turns m rest :
  forallb safe m.1 = true →
  cut_members (S turns) (member (string_member m) ++ rest) =
    match expect x2c rest with
    | Some s5 => match cut_members turns s5 with Some ms => Some (read_member m :: ms) | None => None end
    | None => match expect x7d rest with Some _ => Some [read_member m] | None => None end
    end.
Proof.
  intros Hk. destruct (quote_safe _ Hk) as [Hq Hc]. unfold member, string_member, json.String. cbn [fst snd cut_members].
  rewrite <- !app_assoc. cbn [app]. rewrite expect_head by done.
  destruct (quote_read 0 m.1 (gs":" ++ x22 :: json.quote_from 0 m.2 ++ x22 :: rest)) as [E1 E2].
  rewrite Hq in E1, E2. change (coerce_from 0 m.1) with (coerce m.1) in E2. rewrite Hc in E2. rewrite E1, E2.
  change (gs":" ++ ?x) with (x3a :: x). rewrite expect_head by done.
  destruct (quote_read 0 m.2 rest) as [E3 E4].
  change (spaces (x22 :: ?x)) with (x22 :: x). unfold cut_value. change (Byte.eqb x22 x22) with true. by rewrite E3, E4.
Qed.

Lemma members_read turns ms rest :
  ms ≠ [] → (length ms ≤ turns)%nat → Forall (λ m, forallb safe m.1 = true) ms →
  cut_members turns (members (string_member <$> ms) ++ x7d :: rest) = Some (read_member <$> ms).
Proof.
  intros Hne Ht Hs. revert turns Ht. induction Hs as [|m ms Hm Hs IH]; intros turns Ht; [done|].
  destruct turns as [|turns]; [cbn in Ht; lia|]. cbn [length] in Ht. destruct ms as [|m' ms].
  - change (members (string_member <$> [m])) with (member (string_member m)). by rewrite member_read.
  - change (members (string_member <$> m :: m' :: ms)) with
      (member (string_member m) ++ gs"," ++ members (string_member <$> m' :: ms)).
    rewrite <- app_assoc, member_read, <- app_assoc by done. change (gs"," ++ ?x) with (x2c :: x).
    rewrite expect_head by done. by rewrite IH by (done || lia).
Qed.

Lemma object_read ms rest :
  ms ≠ [] → Forall (λ m, forallb safe m.1 = true) ms →
  cut_document (object (string_member <$> ms) ++ rest) = Some (DObject (read_member <$> ms)).
Proof.
  intros Hne Hs. unfold object. rewrite <- !app_assoc. change (gs"{" ++ ?x) with (x7b :: x). change (gs"}" ++ ?x) with (x7d :: x).
  unfold cut_document. change (spaces (x7b :: ?x)) with (x7b :: x). change (one_of x7b gs"{") with true.
  assert (∃ t, members (string_member <$> ms) = x22 :: t) as [t Et] by (destruct ms as [|m [|m' ms]]; [done|by eexists..]).
  assert (expect x7d (members (string_member <$> ms) ++ x7d :: rest) = None) as -> by (by rewrite Et).
  cbv iota. rewrite members_read; [done|done| |done]. rewrite length_app.
  assert (∀ l, length l ≤ length (members (string_member <$> l)))%nat as Hl; [|specialize (Hl ms); lia].
  induction l as [|m [|m' l] IH]; [done|cbn; lia|].
  change (members (string_member <$> m :: m' :: l)) with (member (string_member m) ++ gs"," ++ members (string_member <$> m' :: l)).
  rewrite !length_app. cbn [length] in *. change (length gs",") with 1%nat. lia.
Qed.

(** It is JSON, too. *)
Lemma string_members_ok ms :
  Forall (λ m, forallb safe m.1 = true) ms → Forall (member_ok 0) (string_member <$> ms).
Proof.
  intros Hs. apply Forall_fmap. eapply Forall_impl; [exact Hs|]. intros m Hm. apply member_ok_plain; [apply String_value|].
  rewrite forallb_forall in *. intros b Hb. specialize (Hm b Hb). clear -Hm. revert b Hm. byte_enum.
Qed.

Lemma object_valid ms :
  ms ≠ [] → Forall (λ m, forallb safe m.1 = true) ms → jsonscan.Valid (object (string_member <$> ms)) = true.
Proof.
  intros Hne Hs. apply (value_Valid (1 + 0)); [done|]. apply object_value; [done|by destruct ms|].
  by apply string_members_ok.
Qed.

End objects.

(** ** Lemmas: values in a stream *)

Section streams.
Import jsonscan jsondecode.

(** What is read as a value is one, and nothing of the input is lost. *)
Lemma read_value_inv st stack s e v rest :
  read_value st stack s e = Ok (v, rest) → s = v ++ rest ∧ accepts st stack v = true.
Proof.
  revert st stack v. induction s as [|c t IH]; intros st stack v; cbn [read_value].
  { case_match; [done|]. case_match eqn:Ec; [by intros [= <- <-]|]. by destruct st, stack. }
  destruct (step st stack c) as [[st' stack']|] eqn:Es.
  - assert ((let? (v, rest) := read_value st' stack' t e in Ok (c :: v, rest)) = Ok (v, rest) →
      c :: t = v ++ rest ∧ accepts st stack v = true) as Hgo.
    { destruct (read_value st' stack' t e) as [[v' rest']|] eqn:Er; [|done]. intros [= <- <-].
      destruct (IH _ _ _ Er) as [-> Ha]. split; [done|]. unfold accepts. cbn [scan]. by rewrite Es. }
    destruct st'; try exact Hgo. destruct (complete st stack) eqn:Ec; intros [= <- <-]; (split; [done|]); [exact Ec|].
    unfold accepts. cbn [scan]. by rewrite Es.
  - destruct (complete st stack) eqn:Ec; [|done]. by intros [= <- <-].
Qed.

(** Only an input of spaces ends before any value. *)
Lemma read_value_EOF st stack s e e' :
  read_value st stack s e = Err e' → is_EOF e' = true →
  st = BeginValue ∧ stack = [] ∧ forallb isSpace s = true ∧ is_EOF e = true.
Proof.
  revert st stack. induction s as [|c t IH]; intros st stack; cbn [read_value].
  { destruct (is_EOF e) eqn:Ee; cbn [negb]; [|intros [= <-]; congruence].
    case_match; [done|]. destruct st; try (intros [= <-]; done). destruct stack; [done|]. by intros [= <-]. }
  destruct (step st stack c) as [[st' stack']|] eqn:Es; [|case_match; [done|]; by intros [= <-]].
  assert ((let? (v, rest) := read_value st' stack' t e in Ok (c :: v, rest)) = Err e' → is_EOF e' = true →
    st = BeginValue ∧ stack = [] ∧ forallb isSpace (c :: t) = true ∧ is_EOF e = true) as Hgo.
  { destruct (read_value st' stack' t e) as [[v' rest']|e0] eqn:Er; [done|]. intros [= ->] He.
    destruct (IH _ _ Er He) as (-> & -> & Ht & Hee). cbn [forallb]. rewrite Ht, andb_true_r.
    clear -Es Hee. destruct st; cbn [step] in Es;
      unfold begin_value, begin_string, digit_to, after_int, after_fraction, end_value, push, pop in Es;
      repeat case_match; simplify_eq; by split_and!. }
  destruct st'; try exact Hgo. by case_match.
Qed.

Lemma read_value_spaces s : forallb isSpace s = true → read_value BeginValue [] s io.EOF = Err io.EOF.
Proof.
  induction s as [|c t IH]; [done|]. cbn [forallb read_value step]. intros [Hc Ht]%andb_true_iff.
  unfold begin_value. rewrite Hc. by rewrite IH.
Qed.

(** Inside something a value goes on until the scanner has left it, whatever follows. *)
Lemma read_value_within st stack s c tail e :
  stack ≠ [] → st ≠ EndTop → isSpace c = false → scan st stack (s ++ [c]) = Some (EndTop, []) →
  read_value st stack (s ++ [c] ++ tail) e = Ok (s ++ [c], tail).
Proof.
  revert st stack. induction s as [|b s IH]; intros st stack Hk Hst Hc Hs.
  - destruct stack as [|e0 inner]; [done|]. cbn [app scan read_value] in *.
    destruct (step st (e0 :: inner) c) as [[st' stack']|] eqn:Es; [|done]. injection Hs as -> ->.
    destruct (complete st (e0 :: inner)) eqn:Ec; [|done]. exfalso. unfold complete in Ec.
    destruct (step st (e0 :: inner) x20) as [[st1 stack1]|] eqn:E1; [|done]. apply space_within in E1; [|done]. by destruct st1.
  - cbn [app scan read_value] in *. destruct stack as [|e0 inner]; [done|].
    destruct (step st (e0 :: inner) b) as [[st' stack']|] eqn:Es; [|done].
    assert (stack' ≠ [] ∧ st' ≠ EndTop) as [Hk' Hst'].
    { destruct (step_levels _ _ _ _ _ _ Hst Es) as [[-> ->]|(e' & [-> | ->] & ?)]; [|done..].
      destruct inner; [|done]. exfalso. clear -Hs Hc. cbn [pop fst] in Hs. revert Hs.
      induction s as [|d s IH]; cbn [app scan step]; [by rewrite Hc|]. destruct (isSpace d); [apply IH|done]. }
    rewrite IH by done. by destruct st'.
Qed.

(** A marshalled object is one value of a stream, whatever follows it. *)
Lemma object_next ms tail e :
  ms ≠ [] → Forall (λ m, forallb safe m.1 = true) ms →
  read_value BeginValue [] (object (string_member <$> ms) ++ tail) e = Ok (object (string_member <$> ms), tail).
Proof.
  intros Hne Hs. unfold object. rewrite <- !app_assoc. change (gs"{" ++ ?x) with (x7b :: x). change (gs"}") with [x7d].
  cbn [read_value]. change (step BeginValue [] x7b) with (Some (BeginStringOrEmpty, [ObjectKey])). cbv iota beta.
  rewrite read_value_within; [done..|].
  assert (∃ t, members (string_member <$> ms) = x22 :: t) as [t Et] by (destruct ms as [|m [|m' ms]]; [done|by eexists..]).
  assert (scan BeginStringOrEmpty [ObjectKey] (members (string_member <$> ms) ++ [x7d]) =
    scan BeginString [ObjectKey] (members (string_member <$> ms) ++ [x7d])) as -> by (by rewrite Et).
  rewrite (scan_members 0); [done|by destruct ms|by apply string_members_ok|done].
Qed.

End streams.
