(* ===== verification/HostAddr.v ===== *)
(** * Host names ([internal/hostaddr])

    [hostaddr.Normalize] turns the server address of a handshake, of a
    configured route or of a discovered service into the key under which routes
    are stored. Every other component relies on its result being canonical: the
    theorems show that the result is a fixed point of the function, which
    strings it can be, and that the spellings of one name a client can send
    (case, a trailing dot, data after a NUL byte) have one key. *)
From S2P Require Import Prelude GoUnicode GoStrings GoNet.
Import gostrings.
Open Scope Z_scope.

Module hostaddr.

Definition MaxHostBytes : nat := 253.
Definition ErrInvalid : error := Sentinel "hostaddr.ErrInvalid".

Definition label_char (c : byte) : bool :=
  (0x61 <=? bv c) && (bv c <=? 0x7A) || (0x30 <=? bv c) && (bv c <=? 0x39)
  || bool_decide (c = "-"%byte).

(** The body of the loop over the labels; [None] when the label passes. *)
Definition check_label (label : bytes) : option error :=
  if (length label =? 0)%nat then Some (Errorf "%w: empty label" [] [ErrInvalid])
  else if (63 <? length label)%nat
  then Some (Errorf "%w: label length %d exceeds 63" [AInt (zlen label)] [ErrInvalid])
  else if bool_decide (head label = Some "-"%byte) || bool_decide (last label = Some "-"%byte)
  then Some (Errorf "%w: label starts or ends with hyphen" [] [ErrInvalid])
  else match find (λ c, negb (label_char c)) label with
       | Some c => Some (Errorf "%w: unsupported character %q" [AInt (bv c)] [ErrInvalid])
       | None => None
       end.

Fixpoint check_labels (labels : list bytes) : option error :=
  match labels with
  | [] => None
  | l :: ls => match check_label l with
               | Some e => Some e
               | None => check_labels ls
               end
  end.

Definition Normalize (address : bytes) : res bytes :=
  let first := match IndexByte address x00 with
               | Some idx => take idx address
               | None => address
               end in
  let normalized := TrimSuffix (ToLower (TrimSpace first)) gs"." in
  if decide (normalized = []) then Err (Errorf "%w: empty" [] [ErrInvalid])
  else if (MaxHostBytes <? length normalized)%nat
  then Err (Errorf "%w: length %d exceeds %d" [AInt (zlen normalized); AInt 253] [ErrInvalid])
  else if negb (utf8.Valid normalized) then Err (Errorf "%w: not valid utf-8" [] [ErrInvalid])
  else
    let ipCandidate := TrimPrefix (TrimSuffix normalized gs"]") gs"[" in
    match net.ParseIP ipCandidate with
    | Some _ => Ok ipCandidate
    | None =>
        match check_labels (Split normalized "."%byte) with
        | Some e => Err e
        | None => Ok normalized
        end
    end.

(** ** Canonical host names *)

Definition dns_label (l : bytes) : Prop :=
  (1 ≤ length l ≤ 63)%nat ∧ forallb label_char l = true ∧
  head l ≠ Some "-"%byte ∧ last l ≠ Some "-"%byte.

(** The host names that may key a route: an IP literal without brackets or
    zone, or at most 253 characters of dot-separated lower-case DNS labels. *)
Definition canonical (h : bytes) : Prop :=
  (1 ≤ length h ≤ MaxHostBytes)%nat ∧ forallb no_upper h = true ∧
  (is_Some (net.ParseIP h) ∨ net.ParseIP h = None ∧ Forall dns_label (Split h "."%byte)).

End hostaddr.

(** ** Lemmas *)

Section lemmas.
Import hostaddr.

Lemma check_label_None l : check_label l = None ↔ dns_label l.
Proof.
  unfold check_label, dns_label. split.
  - intros H. destruct (length l =? 0)%nat eqn:E1; [done|].
    destruct (63 <? length l)%nat eqn:E2; [done|].
    destruct (bool_decide _ || _) eqn:E3; [done|].
    destruct (find _ l) eqn:Hf; [done|]. bool_prop. split_and!; try lia; try done.
    apply forallb_forall. intros c Hc. by apply negb_false_iff, (find_none _ _ Hf).
  - intros (Hl & Hc & Hh & Hd).
    rewrite (proj2 (Nat.eqb_neq _ _)) by lia. rewrite (proj2 (Nat.ltb_ge _ _)) by lia.
    rewrite !bool_decide_eq_false_2 by done. simpl.
    destruct (find _ l) eqn:Hf; [|done]. apply find_some in Hf as [Hin Hn].
    rewrite forallb_forall in Hc. by rewrite (Hc _ Hin) in Hn.
Qed.

Lemma check_labels_None ls : check_labels ls = None ↔ Forall dns_label ls.
Proof.
  induction ls as [|l ls IH]; simpl; [done|].
  rewrite Forall_cons, <- check_label_None, <- IH.
  destruct (check_label l); split; [done | by intros [] | by intros | by intros []].
Qed.

(** Characters of a canonical name: graphic ASCII, neither a bracket nor NUL. *)
Definition host_char (c : byte) : bool :=
  graphic c && is_ascii c && bool_decide (c ≠ "["%byte) && bool_decide (c ≠ "]"%byte)
  && bool_decide (c ≠ x00).

Lemma ip_char_host c : ip_char c = true → host_char c = true.
Proof. revert c. byte_enum. Qed.

Lemma label_char_host c : label_char c = true → host_char c = true ∧ no_upper c = true ∧ c ≠ "."%byte.
Proof. revert c. byte_enum. Qed.

Lemma forallb_impl {A} (f g : A → bool) l :
  (∀ x, f x = true → g x = true) → forallb f l = true → forallb g l = true.
Proof. intros H. rewrite !forallb_forall. eauto. Qed.

(** The characters of the labels and the dots between them. *)
Lemma Join_labels_text ls :
  Forall dns_label ls → ls ≠ [] →
  forallb (λ c, label_char c || bool_decide (c = "."%byte)) (Join ls "."%byte) = true ∧
  last (Join ls "."%byte) ≠ Some "."%byte ∧ Join ls "."%byte ≠ [].
Proof.
  intros Hls. induction Hls as [|l ls (Hlen & Hc & _) Hls IH]; [done|]. intros _.
  assert (forallb (λ c, label_char c || bool_decide (c = "."%byte)) l = true) as Hl.
  { apply (forallb_impl label_char); [|done]. by intros c ->. }
  destruct ls as [|l' ls].
  - simpl. split_and!; [done| |destruct l; simpl in *; [lia|done]]. intros [k ->]%last_Some.
    rewrite forallb_app in Hc. apply andb_true_iff in Hc as [_ Hc]. done.
  - destruct IH as (H1 & H2 & H3); [done|]. rewrite Join_cons by done. split_and!.
    + by rewrite forallb_app, Hl; simpl.
    + rewrite last_app. destruct (Join (l' :: ls) "."%byte) as [|x j]; [done|].
      change (last ("."%byte :: x :: j)) with (last (x :: j)).
      destruct (last (x :: j)) eqn:E; [done|]. by apply last_None in E.
    + by destruct l.
Qed.

Lemma canonical_text h :
  canonical h → forallb host_char h = true ∧ last h ≠ Some "."%byte ∧ h ≠ [].
Proof.
  intros (Hlen & _ & [[ip Hip] | [_ Hls]]).
  - apply ParseIP_text in Hip as [[H1 H2] H3]. split_and!; [|done|done].
    by apply (forallb_impl ip_char); [apply ip_char_host|].
  - destruct (Join_labels_text _ Hls (Split_nonempty _ _)) as (H1 & H2 & H3).
    rewrite Join_Split in *. split_and!; [|done|done].
    eapply forallb_impl; [|done]. intros c [Hc|Hc]%orb_true_iff; [by apply label_char_host|].
    bool_prop. by subst c.
Qed.

(** *** The steps of [Normalize] on text that needs no change *)

Lemma IndexByte_None s c : c ∉ s → IndexByte s c = None.
Proof.
  induction s as [|b t IH]; intros H; simpl; [done|].
  rewrite decide_False by set_solver. by rewrite IH by set_solver.
Qed.

Lemma IndexByte_app s t c : c ∉ s → IndexByte (s ++ c :: t) c = Some (length s).
Proof.
  induction s as [|b s IH]; intros H; simpl; [by rewrite decide_True|].
  rewrite decide_False by set_solver. by rewrite IH by set_solver.
Qed.

Lemma forallb_not_elem (f : byte → bool) s c : forallb f s = true → f c = false → c ∉ s.
Proof.
  intros H Hc Hin. rewrite forallb_forall in H. apply list_elem_of_In, H in Hin. congruence.
Qed.

Lemma TrimSuffix_keep s c : last s ≠ Some c → TrimSuffix s [c] = s.
Proof.
  intros H. unfold TrimSuffix, HasSuffix. rewrite bool_decide_eq_false_2; [done|].
  intros [k ->]. by rewrite last_snoc in H.
Qed.

Lemma TrimSuffix_drop s c : TrimSuffix (s ++ [c]) [c] = s.
Proof.
  unfold TrimSuffix, HasSuffix. rewrite bool_decide_eq_true_2 by by exists s.
  rewrite length_app, Nat.add_sub. by rewrite take_app_length.
Qed.

Lemma TrimPrefix_keep s c : head s ≠ Some c → TrimPrefix s [c] = s.
Proof.
  intros H. unfold TrimPrefix, HasPrefix. rewrite bool_decide_eq_false_2; [done|].
  by intros [k ->].
Qed.

Lemma host_char_strip h :
  forallb host_char h = true → TrimPrefix (TrimSuffix h gs"]") gs"[" = h.
Proof.
  intros H. assert (("]"%byte ∉ h) ∧ ("["%byte ∉ h)) as [H1 H2].
  { split; by apply (forallb_not_elem host_char). }
  change gs"]" with ["]"%byte]. change gs"[" with ["["%byte]. rewrite TrimSuffix_keep.
  - apply TrimPrefix_keep. destruct h; [done|]. simpl. set_solver.
  - intros [k ->]%last_Some. set_solver.
Qed.

(** [Normalize] on a text that lower-cases to a canonical name [h], possibly
    followed by one dot. *)
Lemma Normalize_lower s d h :
  canonical h → map ascii_lower s = h → forallb host_char s = true → d = [] ∨ d = gs"." →
  Normalize (s ++ d) = Ok h.
Proof.
  intros Hc Hs Hhc Hd. pose proof Hc as (Hlen & Hup & Hcase).
  apply canonical_text in Hc as (Hh & Hlast & Hne).
  assert (forallb host_char (s ++ d) = true) as Hsd.
  { rewrite forallb_app, Hhc. by destruct Hd as [-> | ->]. }
  unfold Normalize. rewrite IndexByte_None by (eapply forallb_not_elem; [exact Hsd|done]).
  assert (forallb graphic (s ++ d) = true ∧ forallb is_ascii (s ++ d) = true) as [Hg Ha].
  { split; eapply forallb_impl; try exact Hsd; unfold host_char; intros c ?; by bool_prop. }
  rewrite TrimSpace_all_graphic, ToLower_ascii, map_app, Hs by done.
  assert (TrimSuffix (h ++ map ascii_lower d) gs"." = h) as ->.
  { destruct Hd as [-> | ->]; simpl.
    - rewrite app_nil_r. by apply TrimSuffix_keep.
    - apply TrimSuffix_drop. }
  rewrite decide_False by done. rewrite (proj2 (Nat.ltb_ge _ _)) by lia.
  assert (forallb is_ascii h = true) as Hah.
  { eapply forallb_impl; [|exact Hh]. unfold host_char; intros c ?; by bool_prop. }
  rewrite Valid_ascii by done. cbn [negb]. rewrite host_char_strip by done.
  destruct Hcase as [[ip ->] | [-> Hls]]; [done|].
  by rewrite (proj2 (check_labels_None _) Hls).
Qed.

Lemma map_lower_fixed h : forallb no_upper h = true → map ascii_lower h = h.
Proof.
  induction h as [|b t IH]; intros H; [done|]. apply andb_true_iff in H as [Hb Ht].
  simpl. rewrite IH by done. unfold no_upper in Hb. bool_prop. unfold ascii_lower. by rewrite Hb.
Qed.

Lemma Normalize_canonical_fixed h : canonical h → Normalize h = Ok h.
Proof.
  intros Hc. rewrite <- (app_nil_r h) at 1. pose proof (canonical_text _ Hc) as (Hh & _ & _).
  apply Normalize_lower; [done| |done|by left]. apply map_lower_fixed, Hc.
Qed.

Lemma forallb_take (f : byte → bool) n s : forallb f s = true → forallb f (take n s) = true.
Proof.
  intros H. rewrite <- (take_drop n s), forallb_app in H. by apply andb_true_iff in H as [? _].
Qed.

Lemma forallb_drop (f : byte → bool) n s : forallb f s = true → forallb f (drop n s) = true.
Proof.
  intros H. rewrite <- (take_drop n s), forallb_app in H. by apply andb_true_iff in H as [_ ?].
Qed.

Lemma Normalize_canonical a h : Normalize a = Ok h → canonical h.
Proof.
  unfold Normalize.
  generalize (match IndexByte a x00 with Some idx => take idx a | None => a end) as fst.
  intros fst.
  pose proof (ToLower_out_no_upper (TrimSpace fst)) as Hup.
  set (low := ToLower _) in *. clearbody low.
  assert (forallb no_upper (TrimSuffix low gs".") = true) as Hn.
  { unfold TrimSuffix. case_match; [by apply forallb_take | done]. }
  set (n := TrimSuffix low _) in *. clearbody n. clear low Hup fst.
  case_decide as Hne; [done|]. destruct (_ <? _)%nat eqn:Hlen; [done|].
  destruct (negb _); [done|].
  bool_prop. destruct n as [|n0 n1] eqn:En; [done|]. rewrite <- En in *.
  assert (1 ≤ length n)%nat by (subst n; simpl; lia). clear En.
  destruct (net.ParseIP _) eqn:Hip;
    [intros [= <-] | destruct (check_labels _) eqn:Hc; [done|]; intros [= <-]].
  - pose proof (ParseIP_text _ _ Hip) as [_ Hne'].
    set (c := TrimPrefix _ _) in *. split; [|split; [|left; by eexists]].
    + assert (length c ≤ length n)%nat.
      { subst c. unfold TrimPrefix, TrimSuffix. repeat case_match; rewrite ?length_drop, ?length_take; lia. }
      destruct c; [done|]. simpl in *. lia.
    + subst c. unfold TrimPrefix, TrimSuffix.
      repeat case_match; auto using forallb_take, forallb_drop.
  - split_and!; [lia|lia|done|]. apply check_labels_None in Hc.
    destruct (net.ParseIP n) eqn:E; [left; by eexists | right; done].
Qed.

End lemmas.

(** ** Properties *)

Section properties.
Import hostaddr.

Lemma ascii_lower_host c : host_char (ascii_lower c) = true → host_char c = true.
Proof. revert c. byte_enum. Qed.

Lemma Normalize_cut a j : x00 ∉ a → Normalize (a ++ x00 :: j) = Normalize a.
Proof.
  intros Ha. unfold Normalize. rewrite IndexByte_app, IndexByte_None by done.
  by rewrite take_app_length.
Qed.

(** Whatever a client, a configuration file or a Kubernetes annotation
    supplies, a successful [Normalize] returns a canonical host name (an IP
    literal or lower-case DNS labels, at most 253 bytes) on which [Normalize] is
    the identity, so normalising an address twice never changes the route key. *)
Theorem Normalize_idempotent a h :
  Normalize a = Ok h → canonical h ∧ Normalize h = Ok h.
Proof. intros H%Normalize_canonical. auto using Normalize_canonical_fixed. Qed.

Lemma Normalize_idempotent_witness :
  canonical gs"hub.example.com" ∧ Normalize gs"hub.example.com" = Ok gs"hub.example.com".
Proof. apply (Normalize_idempotent (gs"  HUB.Example.COM.")). vm_compute. reflexivity. Defined.

(** All the spellings of one name that a Minecraft client can send (any mix
    of upper and lower case, a trailing dot, and the NUL-separated data that
    modded clients append to the address) normalise to the same route key. *)
Theorem Normalize_spellings h s d tail :
  canonical h → map ascii_lower s = h → (d = [] ∨ d = gs".") →
  (tail = [] ∨ ∃ j, tail = x00 :: j) →
  Normalize (s ++ d ++ tail) = Ok h.
Proof.
  intros Hc Hs Hd Ht.
  assert (forallb host_char s = true) as Hhs.
  { pose proof (canonical_text _ Hc) as (Hh & _). rewrite <- Hs in Hh.
    clear -Hh. induction s as [|c s IH]; [done|]. simpl in Hh.
    apply andb_true_iff in Hh as [Hb Ht]. simpl.
    by rewrite (ascii_lower_host _ Hb), IH. }
  rewrite app_assoc. destruct Ht as [-> | [j ->]].
  - rewrite app_nil_r. by apply Normalize_lower.
  - rewrite Normalize_cut; [by apply Normalize_lower|].
    apply (forallb_not_elem host_char); [|done].
    rewrite forallb_app, Hhs. by destruct Hd as [-> | ->].
Qed.

Lemma Normalize_spellings_witness :
  Normalize (gs"Play.Example.COM" ++ gs"." ++ x00 :: gs"FML3") = Ok gs"play.example.com".
Proof.
  apply Normalize_spellings; [|reflexivity|by right|right; eexists; reflexivity].
  apply (Normalize_canonical gs"play.example.com"). vm_compute. reflexivity.
Defined.

Lemma check_labels_ErrInvalid ls e :
  check_labels ls = Some e → errors_Is "hostaddr.ErrInvalid" e = true.
Proof.
  induction ls as [|l ls IH]; [done|]. simpl. destruct (check_label l) as [e'|] eqn:E; [|done].
  intros [= ->]. unfold check_label in E. repeat case_match; simplify_eq; reflexivity.
Qed.

(** Every rejection wraps [ErrInvalid], which the callers test for. *)
Lemma Normalize_ErrInvalid a e :
  Normalize a = Err e → errors_Is "hostaddr.ErrInvalid" e = true.
Proof.
  unfold Normalize.
  generalize (match IndexByte a x00 with Some idx => take idx a | None => a end). intros f.
  case_decide; [intros [= <-]; reflexivity|].
  destruct (_ <? _)%nat; [intros [= <-]; reflexivity|].
  destruct (negb _); [intros [= <-]; reflexivity|].
  destruct (net.ParseIP _); [done|].
  destruct (check_labels _) eqn:E; [intros [= <-] | done].
  by apply check_labels_ErrInvalid in E.
Qed.

End properties.

(** ** [host:port] pairs *)

Section hostport.
Import hostaddr.

Lemma LastIndexByte_None s c : c ∉ s → LastIndexByte s c = None.
Proof.
  induction s as [|b s IH]; cbn; [done|]. intros [Hb Hs]%not_elem_of_cons.
  rewrite IH by done. by rewrite decide_False.
Qed.

Lemma LastIndexByte_app s t c : c ∉ t → LastIndexByte (s ++ c :: t) c = Some (length s).
Proof.
  intros Ht. induction s as [|b s IH]; cbn.
  - rewrite LastIndexByte_None by done. by rewrite decide_True.
  - by rewrite IH.
Qed.

(** Characters that have a meaning in the [host:port] syntax. *)
Definition plain (s : bytes) : Prop := ("["%byte ∉ s) ∧ ("]"%byte ∉ s).

Lemma ContainsByte_false s c : ContainsByte s c = false ↔ c ∉ s.
Proof. unfold ContainsByte. by rewrite bool_decide_eq_false. Qed.

Lemma not_bracket {A} (hp : bytes) (x y : A) : head hp ≠ Some "["%byte →
  match hp with "["%byte :: _ => x | _ => y end = y.
Proof. destruct hp as [|b t]; [done|]. by destruct b. Qed.

Lemma SplitHostPort_plain host port :
  plain host → (":"%byte ∉ host) → plain port → (":"%byte ∉ port) →
  net.SplitHostPort (host ++ ":"%byte :: port) = Ok (host, port).
Proof.
  intros [Ho Hc] Hh [Po Pc] Hp. unfold net.SplitHostPort.
  rewrite LastIndexByte_app by done. cbn zeta. set (hp := host ++ ":"%byte :: port).
  assert (take (length host) hp = host) as -> by apply take_app_length.
  assert (drop (S (length host)) hp = port) as ->.
  { unfold hp. change (":"%byte :: port) with ([":"%byte] ++ port).
    rewrite app_assoc. apply drop_app_length'. rewrite length_app. cbn. lia. }
  assert (head hp ≠ Some "["%byte) as Hb.
  { unfold hp. destruct host as [|b host]; cbn; [done|]. intros [= ->]. apply Ho. by left. }
  assert (("["%byte ∉ hp) ∧ ("]"%byte ∉ hp)) as [H1 H2].
  { unfold hp. split; rewrite not_elem_of_app, not_elem_of_cons; done. }
  rewrite not_bracket by done.
  by rewrite !drop_0, !(proj2 (ContainsByte_false _ _)) by done.
Qed.

Lemma SplitHostPort_bracketed host port :
  plain host → plain port → (":"%byte ∉ port) →
  net.SplitHostPort ("["%byte :: host ++ "]"%byte :: ":"%byte :: port) = Ok (host, port).
Proof.
  intros [Ho Hc] [Po Pc] Hp. set (hp := "["%byte :: host ++ "]"%byte :: ":"%byte :: port).
  assert (LastIndexByte hp ":"%byte = Some (S (S (length host)))) as F1.
  { assert (hp = ("["%byte :: host ++ ["]"%byte]) ++ ":"%byte :: port) as ->.
    { unfold hp. cbn. by rewrite <- app_assoc. }
    rewrite LastIndexByte_app by done. cbn. rewrite length_app. cbn. do 2 f_equal. lia. }
  assert (IndexByte hp "]"%byte = Some (S (length host))) as F2.
  { unfold hp. apply (IndexByte_app ("["%byte :: host)). by rewrite not_elem_of_cons. }
  assert (length hp = S (S (S (length host + length port)))) as F3.
  { unfold hp. cbn. rewrite length_app. cbn. lia. }
  assert (drop (S (S (length host))) hp = ":"%byte :: port) as F4.
  { unfold hp. cbn [drop]. change ("]"%byte :: ":"%byte :: port) with (["]"%byte] ++ ":"%byte :: port).
    rewrite app_assoc. apply drop_app_length'. rewrite length_app. cbn. lia. }
  assert (drop (S (S (S (length host)))) hp = port) as F5.
  { replace (S (S (S (length host)))) with (S (S (length host)) + 1)%nat by lia.
    by rewrite <- drop_drop, F4. }
  assert (drop 1 (take (S (length host)) hp) = host) as F6.
  { unfold hp. cbn. apply take_app_length. }
  unfold net.SplitHostPort. rewrite F1. cbn zeta. rewrite F2, F3, F4, F5, F6.
  unfold hp at 1. cbn beta iota. rewrite (proj2 (Nat.eqb_neq _ _)), Nat.eqb_refl by lia.
  assert (ContainsByte (drop 1 hp) "["%byte = false) as ->.
  { change (drop 1 hp) with (host ++ "]"%byte :: ":"%byte :: port).
    by rewrite ContainsByte_false, not_elem_of_app, !not_elem_of_cons. }
  assert (ContainsByte (":"%byte :: port) "]"%byte = false) as ->; [|done].
  by rewrite ContainsByte_false, not_elem_of_cons.
Qed.

(** [net.SplitHostPort] undoes [net.JoinHostPort]. *)
Lemma SplitHostPort_Join host port :
  plain host → plain port → (":"%byte ∉ port) →
  net.SplitHostPort (net.JoinHostPort host port) = Ok (host, port).
Proof.
  intros Hh Hp Hc. unfold net.JoinHostPort. destruct (ContainsByte host ":"%byte) eqn:E.
  - by apply SplitHostPort_bracketed.
  - apply ContainsByte_false in E. by apply SplitHostPort_plain.
Qed.

Lemma canonical_plain h : canonical h → plain h ∧ TrimSpace h = h ∧ h ≠ [].
Proof.
  intros Hc. destruct (canonical_text h Hc) as (Hh & _ & Hne). split_and!.
  - split; (eapply forallb_not_elem; [exact Hh | done]).
  - apply TrimSpace_all_graphic. eapply forallb_impl; [|exact Hh].
    intros c Hx. unfold host_char in Hx. by bool_prop.
  - done.
Qed.

Lemma number_plain p n : strconv.Atoi p = Ok n → plain p ∧ (":"%byte ∉ p) ∧ TrimSpace p = p ∧ p ≠ [].
Proof.
  intros [Hc Hne]%Atoi_chars. split_and!.
  - split; (eapply forallb_not_elem; [exact Hc | done]).
  - eapply forallb_not_elem; [exact Hc | done].
  - apply TrimSpace_all_graphic. eapply forallb_impl; [apply number_char_graphic | exact Hc].
  - done.
Qed.

End hostport.
