(* ===== verification/McProto.v ===== *)
(** * The Minecraft protocol ([internal/mcproto])

    VarInts, length-prefixed packets, the handshake a Java client opens a
    connection with, the login-start packet and the packets the gateway writes
    itself. All integers have Go's widths: a VarInt is an [int32] whose bits wrap
    at the fifth byte. *)
From S2P Require Import Prelude GoUnicode GoStrings GoNet GoIO HostAddr.
Import gostrings io.
Open Scope Z_scope.

Module mcproto.

(** ** varint.go *)

Definition MaxVarIntBytes : nat := 5.
Definition ErrVarIntTooLong : error := Sentinel "mcproto.ErrVarIntTooLong".

(** The loop of [ReadVarInt]; [left] iterations remain, so the index is
    [5 - left]. Results: the value or the error, the raw bytes, the reader. *)
Fixpoint varint_loop (left : nat) (value : Z) (raw : bytes) (r : reader)
    : res Z * bytes * reader :=
  match left with
  | O => (Err ErrVarIntTooLong, raw, r)
  | S left' =>
      let i := Z.of_nat (MaxVarIntBytes - left) in
      match ReadByte r with
      | (Err e, r') => (Err e, raw, r')
      | (Ok b, r') =>
          let raw' := raw ++ [b] in
          let value' :=
            Z.lor value (int_wrap 32 (Z.shiftl (Z.land (bv b) 0x7F) (7 * i))) in
          if Z.land (bv b) 0x80 =? 0 then (Ok value', raw', r')
          else varint_loop left' value' raw' r'
      end
  end.

Definition ReadVarInt (r : reader) : res Z * bytes * reader :=
  varint_loop MaxVarIntBytes 0 [] r.

(** The loop of [WriteVarInt]: [uint32(value) >> 7] leaves at most 25 bits after
    the first step, so five iterations always end it (see [write_varint_fuel]). *)
Fixpoint write_varint_loop (fuel : nat) (value : Z) : bytes :=
  match fuel with
  | O => []
  | S f =>
      let temp := Z.land value 0x7F in
      let value' := int_wrap 32 (Z.shiftr (uint_wrap 32 value) 7) in
      if value' =? 0 then [bz temp]
      else bz (Z.lor temp 0x80) :: write_varint_loop f value'
  end.

Definition WriteVarInt (value : Z) : bytes := write_varint_loop 5 value.

Definition readVarIntRaw (r : reader) : res Z * bytes * reader :=
  let '(x, raw, r') := ReadVarInt r in
  (res_wrap (λ e, Errorf "read varint: %w" [] [e]) x, raw, r').

Definition readVarIntFromReader : rd Z := λ r,
  let '(x, _, r') := readVarIntRaw r in (x, r').

(** ** handshake.go *)

Definition HandshakePacketID : Z := 0.
Definition NextStateStatus : Z := 1.
Definition NextStateLogin : Z := 2.
Definition NextStateTransfer : Z := 3.

Definition ErrPacketTooLarge : error := Sentinel "mcproto.ErrPacketTooLarge".
Definition ErrMalformedHandshake : error := Sentinel "mcproto.ErrMalformedHandshake".
Definition ErrUnsupportedNextState : error := Sentinel "mcproto.ErrUnsupportedNextState".

Record Limits := { MaxPacketLength : Z; MaxServerAddressBytes : Z }.

Definition DefaultLimits : Limits :=
  {| MaxPacketLength := 2048; MaxServerAddressBytes := 255 |}.

Record Handshake := {
  ProtocolVersion : Z;
  ServerAddress : bytes;
  ServerPort : Z;
  NextState : Z
}.

Definition RouteAddress (h : Handshake) : bytes :=
  match hostaddr.Normalize (ServerAddress h) with
  | Ok normalized => normalized
  | Err _ => []
  end.

Definition readString (maxBytes : Z) : rd bytes :=
  do! length := readVarIntFromReader in
  if (length <? 0) || (maxBytes <? length)
  then rd_fail (Errorf "length %d exceeds limit %d" [AInt length; AInt maxBytes] [])
  else
    do! buf := rd_full (Z.to_nat length) in
    if negb (utf8.Valid buf) then rd_fail (errors_New "not valid utf-8")
    else rd_ret buf.

(** [binary.BigEndian.Uint16]. *)
Definition be_uint16 (s : bytes) : Z :=
  match s with
  | [h; l] => Z.lor (Z.shiftl (bv h) 8) (bv l)
  | _ => 0
  end.

Definition malformed (what : string) (e : error) : error :=
  Errorf what [] [ErrMalformedHandshake; e].

(** The body of [ParseHandshakePayload] on the reader of the payload. *)
Definition parse_handshake (maxAddress : Z) : rd Handshake :=
  do! packetID := rd_wrap (malformed "%w: packet id: %w") readVarIntFromReader in
  if negb (packetID =? HandshakePacketID)
  then rd_fail (Errorf "%w: packet id %d" [AInt packetID] [ErrMalformedHandshake])
  else
    do! protocolVersion :=
      rd_wrap (malformed "%w: protocol version: %w") readVarIntFromReader in
    do! serverAddress :=
      rd_wrap (malformed "%w: server address: %w") (readString maxAddress) in
    if decide (TrimSpace serverAddress = [])
    then rd_fail (Errorf "%w: server address is empty" [] [ErrMalformedHandshake])
    else
      match hostaddr.Normalize serverAddress with
      | Err e => rd_fail (malformed "%w: server address: %w" e)
      | Ok _ =>
          do! portRaw := rd_wrap (malformed "%w: server port: %w") (rd_full 2) in
          do! nextState :=
            rd_wrap (malformed "%w: next state: %w") readVarIntFromReader in
          if negb (nextState =? NextStateStatus) && negb (nextState =? NextStateLogin)
             && negb (nextState =? NextStateTransfer)
          then rd_fail (Errorf "%w: %d" [AInt nextState] [ErrUnsupportedNextState])
          else λ r,
            if negb (length (r_data r) =? 0)%nat
            then (Err (Errorf "%w: trailing bytes" [] [ErrMalformedHandshake]), r)
            else (Ok {| ProtocolVersion := protocolVersion;
                        ServerAddress := serverAddress;
                        ServerPort := be_uint16 portRaw;
                        NextState := nextState |}, r)
      end.

Definition ParseHandshakePayload (payload : bytes) (limits : Limits) : res Handshake :=
  let maxAddress := if MaxServerAddressBytes limits <=? 0
                    then MaxServerAddressBytes DefaultLimits
                    else MaxServerAddressBytes limits in
  fst (parse_handshake maxAddress (bytes_reader payload)).

(** Results: the handshake or the error, the raw bytes, the connection. *)
Definition ReadHandshake (r : reader) (limits : Limits) : res Handshake * bytes * reader :=
  let maxPacket := if MaxPacketLength limits <=? 0
                   then MaxPacketLength DefaultLimits else MaxPacketLength limits in
  let maxAddress := if MaxServerAddressBytes limits <=? 0
                    then MaxServerAddressBytes DefaultLimits
                    else MaxServerAddressBytes limits in
  let limits := {| MaxPacketLength := maxPacket; MaxServerAddressBytes := maxAddress |} in
  match readVarIntRaw r with
  | (Err e, lengthRaw, r1) => (Err e, lengthRaw, r1)
  | (Ok packetLength, lengthRaw, r1) =>
      if (packetLength <=? 0) || (maxPacket <? packetLength)
      then (Err ErrPacketTooLarge, lengthRaw, r1)
      else
        let n := Z.to_nat packetLength in
        match ReadFull r1 n with
        | (got, Some e, r2) =>
            (Err (Errorf "read handshake payload: %w" [] [e]),
             lengthRaw ++ got ++ replicate (n - length got) x00, r2)
        | (payload, None, r2) =>
            (ParseHandshakePayload payload limits, lengthRaw ++ payload, r2)
        end
  end.

(** ** status.go *)

Definition StatusRequestPacketID : Z := 0.
Definition StatusResponsePacketID : Z := 0.
Definition StatusPingPacketID : Z := 1.
Definition StatusPongPacketID : Z := 1.

Record StatusVersion := { Name : bytes; Protocol : Z }.
Record StatusPlayers := { Max : Z; Online : Z }.
Record StatusChatComponent := { Text : bytes }.
Record StatusResponse := {
  Version : StatusVersion;
  Players : StatusPlayers;
  Description : StatusChatComponent
}.

Definition ReadPacket (maxPacketLength : Z) : rd (Z * bytes) :=
  let max := if maxPacketLength <=? 0 then MaxPacketLength DefaultLimits
             else maxPacketLength in
  do! packetLength := readVarIntFromReader in
  if (packetLength <=? 0) || (max <? packetLength) then rd_fail ErrPacketTooLarge
  else
    do! payload := rd_wrap (λ e, Errorf "read packet payload: %w" [] [e])
                           (rd_full (Z.to_nat packetLength)) in
    match readVarIntFromReader (bytes_reader payload) with
    | (Err e, _) => rd_fail (Errorf "packet id: %w" [] [e])
    | (Ok packetID, reader) => rd_ret (packetID, r_data reader)
    end.

Definition BuildPacket (packetID : Z) (fields : list bytes) : bytes :=
  let payload := WriteVarInt packetID ++ concat fields in
  WriteVarInt (int_wrap 32 (zlen payload)) ++ payload.

(** [json.Marshal] of the response structs, in field order. *)
Definition quoted (key : string) : bytes :=
  [x22] ++ String.list_byte_of_string key ++ [x22] ++ gs":".
Definition marshal_chat (c : StatusChatComponent) : bytes :=
  gs"{" ++ quoted "text" ++ json.String (Text c) ++ gs"}".
Definition marshal_status (st : StatusResponse) : bytes :=
  gs"{" ++ quoted "version" ++
    gs"{" ++ quoted "name" ++ json.String (Name (Version st)) ++ gs"," ++
             quoted "protocol" ++ json.Int (Protocol (Version st)) ++ gs"}" ++ gs"," ++
  quoted "players" ++
    gs"{" ++ quoted "max" ++ json.Int (Max (Players st)) ++ gs"," ++
             quoted "online" ++ json.Int (Online (Players st)) ++ gs"}" ++ gs"," ++
  quoted "description" ++ marshal_chat (Description st) ++ gs"}".

Definition BuildStatusResponsePacket (st : StatusResponse) : bytes :=
  let raw := marshal_status st in
  let field := WriteVarInt (int_wrap 32 (zlen raw)) ++ raw in
  BuildPacket StatusResponsePacketID [field].

Definition BuildStatusPongPacket (payload : bytes) : bytes :=
  BuildPacket StatusPongPacketID [payload].

Definition EncodeString (value : bytes) : bytes :=
  WriteVarInt (int_wrap 32 (zlen value)) ++ value.

(** [binary.BigEndian.PutUint64(uint64(value))]. *)
Definition EncodeLong (value : Z) : bytes :=
  (λ k, bz (Z.shiftr (uint_wrap 64 value) (8 * k))) <$> [7; 6; 5; 4; 3; 2; 1; 0].

(** ** login.go *)

Definition ProtocolMinecraft1211 : Z := 767.
Definition LoginStartPacketID : Z := 0.
Definition LoginDisconnectPacketID : Z := 0.
Definition loginUsernameMaxBytes : Z := 16.
Definition loginUUIDBytes : nat := 16.

Definition ErrMalformedLoginStart : error := Sentinel "mcproto.ErrMalformedLoginStart".
Definition ErrUnsupportedLoginProtocol : error := Sentinel "mcproto.ErrUnsupportedLoginProtocol".

Definition ValidateLoginStartPayload (protocolVersion : Z) (payload : bytes) : option error :=
  if negb (protocolVersion =? ProtocolMinecraft1211)
  then Some (Errorf "%w: %d" [AInt protocolVersion] [ErrUnsupportedLoginProtocol])
  else
    match readString loginUsernameMaxBytes (bytes_reader payload) with
    | (Err e, _) => Some (Errorf "%w: username: %w" [] [ErrMalformedLoginStart; e])
    | (Ok username, reader) =>
        if decide (TrimSpace username = [])
        then Some (Errorf "%w: username is empty" [] [ErrMalformedLoginStart])
        else if negb (length (r_data reader) =? loginUUIDBytes)%nat
        then Some (Errorf "%w: uuid bytes %d" [AInt (zlen (r_data reader))] [ErrMalformedLoginStart])
        else None
    end.

Definition LoginDisconnectPacketIDForProtocol (protocolVersion : Z) : res Z :=
  if negb (protocolVersion =? ProtocolMinecraft1211)
  then Err (Errorf "%w: %d" [AInt protocolVersion] [ErrUnsupportedLoginProtocol])
  else Ok LoginDisconnectPacketID.

Definition BuildLoginDisconnectPacket (protocolVersion : Z) (message : bytes) : res bytes :=
  let? packetID := LoginDisconnectPacketIDForProtocol protocolVersion in
  let raw := marshal_chat {| Text := message |} in
  let field := WriteVarInt (int_wrap 32 (zlen raw)) ++ raw in
  Ok (BuildPacket packetID [field]).

End mcproto.

Section examples.
Import mcproto.

Example WriteVarInt_300 : WriteVarInt 300 = [xac; x02].
Proof. vm_compute. reflexivity. Qed.
Example WriteVarInt_minus_one : WriteVarInt (-1) = [xff; xff; xff; xff; x0f].
Proof. vm_compute. reflexivity. Qed.
Example ReadVarInt_minus_one :
  ReadVarInt (bytes_reader [xff; xff; xff; xff; x0f]) =
    (Ok (-1), [xff; xff; xff; xff; x0f], bytes_reader []).
Proof. vm_compute. reflexivity. Qed.
Example status_json :
  marshal_chat {| Text := gs"<a>" |} = gs"{" ++ quoted "text" ++ [x22; x5c] ++ gs"u003ca" ++ [x5c] ++ gs"u003e" ++ [x22] ++ gs"}".
Proof. vm_compute. reflexivity. Qed.

End examples.

(** ** Lemmas: VarInts *)

Section varint_lemmas.
Import mcproto.

Lemma int32_intro z : - 2147483648 ≤ z < 2147483648 → is_int 32 z.
Proof. done. Qed.

Lemma low7 b : Z.land (bv b) 0x7F = bv b mod 128.
Proof. revert b. byte_enum. Qed.

Lemma high1 b : (Z.land (bv b) 0x80 =? 0) = (bv b <? 128).
Proof. revert b. byte_enum. Qed.

Lemma write_varint_step f v :
  write_varint_loop (S f) v =
    let u := uint_wrap 32 v in
    if u / 128 =? 0 then [bz (u mod 128)] else bz (u mod 128 + 128) :: write_varint_loop f (u / 128).
Proof.
  cbn [write_varint_loop]. cbn zeta.
  pose proof (uint_wrap_range 32 v ltac:(lia)) as Hu. unfold is_uint in Hu.
  assert (Z.land v 0x7F = uint_wrap 32 v mod 128) as ->.
  { change 0x7F with (Z.ones 7). rewrite Z.land_ones by lia. unfold uint_wrap.
    symmetry. apply Z.mod_mod_divide. by exists (2 ^ 25). }
  rewrite Z.shiftr_div_pow2 by lia. change (2 ^ 7) with 128.
  assert (0 ≤ uint_wrap 32 v / 128 < 2 ^ 25).
  { split; [apply Z.div_pos; lia | apply Z.div_lt_upper_bound; lia]. }
  rewrite int_wrap_id by (try apply int32_intro; lia).
  pose proof (Z.mod_pos_bound (uint_wrap 32 v) 128 ltac:(lia)).
  rewrite (lor_shift_add _ 1 7) by lia. done.
Qed.

Lemma write_varint_nonempty f v : (0 < f)%nat → write_varint_loop f v ≠ [].
Proof. destruct f; [lia|]. rewrite write_varint_step. cbn zeta. by case_match. Qed.

(** Five iterations are enough: more fuel gives the same bytes. *)
Lemma write_varint_fuel f k v :
  0 ≤ v < 2 ^ (7 * Z.of_nat f) → v < 2 ^ 32 → (0 < f)%nat →
  write_varint_loop (f + k) v = write_varint_loop f v.
Proof.
  revert v. induction f as [|f IH]; intros v Hv Hv2 Hf; [lia|].
  rewrite Nat.add_succ_l, !write_varint_step. cbn zeta.
  rewrite uint_wrap_id by (unfold is_uint; lia).
  destruct (Z.eqb_spec (v / 128) 0) as [|Hne]; [done|]. f_equal.
  assert (2 ^ (7 * Z.of_nat (S f)) = 128 * 2 ^ (7 * Z.of_nat f)) as E.
  { replace (7 * Z.of_nat (S f)) with (7 + 7 * Z.of_nat f) by lia.
    rewrite Z.pow_add_r by lia. done. }
  assert (0 ≤ v / 128 < 2 ^ (7 * Z.of_nat f)).
  { split; [apply Z.div_pos; lia | apply Z.div_lt_upper_bound; lia]. }
  apply IH; [done|pose proof (Z.div_lt_upper_bound v 128 (2^32)); lia|].
  destruct f; [|lia]. simpl in *. lia.
Qed.

(** Or-ing the last group of bits into the accumulator wraps like adding it. *)
Lemma varint_last_group acc u i :
  0 ≤ i ≤ 4 → 0 ≤ acc < 2 ^ (7 * i) → 0 ≤ u < 128 → u < 2 ^ (32 - 7 * i) →
  Z.lor acc (int_wrap 32 (u * 2 ^ (7 * i))) = int_wrap 32 (acc + u * 2 ^ (7 * i)).
Proof.
  intros Hi Hacc Hu Hu'. destruct (Z.eq_dec i 4) as [->|Hne4].
  - change (7 * 4) with 28 in *. change (2 ^ (32 - 28)) with 16 in *.
    unfold int_wrap. change (2 ^ (32 - 1)) with (2 ^ 31). destruct (Z.lt_ge_cases u 8).
    + rewrite !Z.mod_small by lia. rewrite !Z.add_simpl_r. by apply lor_shift_add.
    + replace (u * 2 ^ 28 + 2 ^ 31) with ((u - 8) * 2 ^ 28 + 1 * 2 ^ 32) by lia.
      replace (acc + u * 2 ^ 28 + 2 ^ 31) with (acc + (u - 8) * 2 ^ 28 + 1 * 2 ^ 32) by lia.
      rewrite !Z.mod_add, !Z.mod_small by lia.
      replace ((u - 8) * 2 ^ 28 - 2 ^ 31) with ((u - 16) * 2 ^ 28) by lia.
      rewrite lor_shift_add by lia. lia.
  - assert (2 ^ (7 * i) ≤ 2 ^ 21) by (apply Z.pow_le_mono_r; lia).
    assert (0 ≤ u * 2 ^ (7 * i) < 2 ^ 28) by nia.
    rewrite !int_wrap_id by (try apply int32_intro; lia). by apply lor_shift_add; lia.
Qed.

(** One iteration of the reading loop on the byte that holds the digit [d]. *)
Lemma varint_loop_step left acc raw d (more : bool) t e :
  (left < 5)%nat → 0 ≤ d < 128 →
  varint_loop (S left) acc raw
    {| r_data := bz (d + if more then 128 else 0) :: t; r_end := e |} =
  let b := bz (d + if more then 128 else 0) in
  let value := Z.lor acc (int_wrap 32 (d * 2 ^ (7 * Z.of_nat (5 - S left)))) in
  if more then varint_loop left value (raw ++ [b]) {| r_data := t; r_end := e |}
  else (Ok value, raw ++ [b], {| r_data := t; r_end := e |}).
Proof.
  intros Hl Hd. cbn [varint_loop]. unfold ReadByte. cbn [r_data r_end].
  change (MaxVarIntBytes - S left)%nat with (5 - S left)%nat.
  rewrite high1, low7, Z.shiftl_mul_pow2 by lia. destruct more; cbn zeta.
  - rewrite !bv_bz by lia. rewrite (proj2 (Z.ltb_ge _ _)) by lia.
    replace (d + 128) with (d + 1 * 128) at 1 by lia.
    by rewrite Z.mod_add, Z.mod_small by lia.
  - rewrite !bv_bz by lia. rewrite (proj2 (Z.ltb_lt _ _)) by lia.
    rewrite Z.mod_small, Z.add_0_r by lia. done.
Qed.

Lemma varint_loop_write left u acc raw rest e :
  (0 < left ≤ 5)%nat →
  let i := Z.of_nat (5 - left) in
  0 ≤ acc < 2 ^ (7 * i) → 0 ≤ u < 2 ^ (32 - 7 * i) →
  varint_loop left acc raw {| r_data := write_varint_loop left u ++ rest; r_end := e |} =
    (Ok (int_wrap 32 (acc + u * 2 ^ (7 * i))), raw ++ write_varint_loop left u,
     {| r_data := rest; r_end := e |}).
Proof.
  revert u acc raw. induction left as [|left IH]; intros u acc raw Hl; [lia|].
  cbn zeta. set (i := Z.of_nat (5 - S left)). intros Hacc Hu.
  assert (0 ≤ i ≤ 4) as Hi by (subst i; lia).
  assert (2 ^ (32 - 7 * i) ≤ 2 ^ 32) by (apply Z.pow_le_mono_r; lia).
  rewrite write_varint_step. cbn zeta. rewrite uint_wrap_id by (unfold is_uint; lia).
  pose proof (Z.mod_pos_bound u 128 ltac:(lia)) as Hm.
  pose proof (Z.div_mod u 128 ltac:(lia)) as Hdm.
  destruct (Z.eqb_spec (u / 128) 0) as [Hz|Hnz].
  - cbn [app]. replace (u mod 128) with (u + if false then 128 else 0) by lia.
    rewrite (varint_loop_step left acc raw u false) by lia. cbn zeta. fold i.
    by rewrite varint_last_group by lia.
  - assert (i < 4).
    { destruct (Z.eq_dec i 4) as [E|]; [|lia]. exfalso. rewrite E in Hu.
      change (2 ^ (32 - 7 * 4)) with 16 in Hu. apply Hnz, Z.div_small. lia. }
    cbn [app]. rewrite (varint_loop_step left acc raw (u mod 128) true) by lia.
    cbn zeta. fold i.
    assert (0 < 2 ^ (7 * i)) by (apply Z.pow_pos_nonneg; lia).
    assert (2 ^ (7 * i) ≤ 2 ^ 21) by (apply Z.pow_le_mono_r; lia).
    assert (0 ≤ u mod 128 * 2 ^ (7 * i) < 2 ^ 28) by nia.
    rewrite int_wrap_id by (try apply int32_intro; lia). rewrite lor_shift_add by lia.
    assert (Z.of_nat (5 - left) = i + 1) as Ei by (subst i; lia).
    assert (2 ^ (7 * (i + 1)) = 128 * 2 ^ (7 * i)) as Ep.
    { replace (7 * (i + 1)) with (7 + 7 * i) by lia. rewrite Z.pow_add_r by lia. done. }
    assert (2 ^ (32 - 7 * i) = 128 * 2 ^ (32 - 7 * (i + 1))) as Eq.
    { replace (32 - 7 * i) with (7 + (32 - 7 * (i + 1))) by lia. rewrite Z.pow_add_r by lia. done. }
    rewrite IH by (rewrite ?Ei; first [lia | nia |
      split; [apply Z.div_pos; lia | apply Z.div_lt_upper_bound; lia]]).
    rewrite Ei, Ep, <- app_assoc. cbn [app]. do 3 f_equal. f_equal. nia.
Qed.

Lemma varint_loop_consumed left acc raw r x raw' r' :
  varint_loop left acc raw r = (x, raw', r') →
  ∃ used, raw' = raw ++ used ∧ consumed r r' used ∧ (length used ≤ left)%nat.
Proof.
  revert acc raw r. induction left as [|left IH]; intros acc raw r H; cbn [varint_loop] in H.
  { simplify_eq. exists []. rewrite app_nil_r. auto using consumed_refl. }
  unfold ReadByte in H. destruct r as [[|b d] e]; cbn [r_data r_end] in H.
  { simplify_eq. exists []. rewrite app_nil_r. split_and!; [done|done|simpl; lia]. }
  destruct (_ =? 0).
  - simplify_eq. exists [b]. split_and!; [done|done|simpl; lia].
  - apply IH in H as (used & -> & [H1 H2] & Hl). exists (b :: used).
    split_and!; [by rewrite <- app_assoc|split; [cbn in *; by rewrite H1|done]|simpl; lia].
Qed.

(** The bits above the sign bit of an [int32] agree with it. *)
Lemma is_int32_shiftr z : is_int 32 z ↔ Z.shiftr z 31 = 0 ∨ Z.shiftr z 31 = -1.
Proof.
  unfold is_int. change (2 ^ (32 - 1)) with (2 ^ 31).
  rewrite Z.shiftr_div_pow2 by lia.
  pose proof (Z.div_mod z (2 ^ 31) ltac:(lia)).
  pose proof (Z.mod_pos_bound z (2 ^ 31) ltac:(lia)). lia.
Qed.

Lemma is_int32_lor a b : is_int 32 a → is_int 32 b → is_int 32 (Z.lor a b).
Proof.
  rewrite !is_int32_shiftr, Z.shiftr_lor. intros [-> | ->] [-> | ->]; auto.
Qed.

Lemma varint_loop_int32 left acc raw r v raw' r' :
  is_int 32 acc → varint_loop left acc raw r = (Ok v, raw', r') → is_int 32 v.
Proof.
  revert acc raw r. induction left as [|left IH]; intros acc raw r Ha H; [done|].
  cbn [varint_loop] in H. destruct (ReadByte r) as [[b|] r1]; [|done].
  match type of H with context [Z.lor acc ?x] =>
    assert (is_int 32 (Z.lor acc x)) by (apply is_int32_lor; [done | by apply int_wrap_range]) end.
  destruct (_ =? 0); [by simplify_eq | eauto].
Qed.

Lemma readVarIntRaw_consumed r x raw r' :
  readVarIntRaw r = (x, raw, r') → consumed r r' raw ∧ (length raw ≤ 5)%nat.
Proof.
  unfold readVarIntRaw. destruct (ReadVarInt r) as [[y raw1] r1] eqn:E. intros [= <- <- <-].
  by apply varint_loop_consumed in E as (used & -> & ? & ?).
Qed.

Lemma WriteVarInt_wrap v : WriteVarInt v = WriteVarInt (uint_wrap 32 v).
Proof.
  unfold WriteVarInt. rewrite !write_varint_step. cbn zeta.
  rewrite (uint_wrap_id 32 (uint_wrap 32 v)); [done|]. by apply uint_wrap_range.
Qed.

Lemma int_wrap_uint_wrap v : is_int 32 v → int_wrap 32 (uint_wrap 32 v) = v.
Proof.
  intros H. rewrite <- (int_wrap_id 32 v) at 2 by (done || lia).
  unfold int_wrap, uint_wrap. by rewrite Z.add_mod_idemp_l by lia.
Qed.

Lemma ReadVarInt_Write v rest e : is_int 32 v →
  ReadVarInt {| r_data := WriteVarInt v ++ rest; r_end := e |} =
    (Ok v, WriteVarInt v, {| r_data := rest; r_end := e |}).
Proof.
  intros Hv. rewrite !(WriteVarInt_wrap v). unfold ReadVarInt, WriteVarInt.
  pose proof (uint_wrap_range 32 v ltac:(lia)) as Hu. unfold is_uint in Hu.
  rewrite (varint_loop_write 5) by (simpl; lia). simpl (Z.of_nat _).
  change (2 ^ (7 * 0)) with 1. rewrite Z.add_0_l, Z.mul_1_r, app_nil_l.
  by rewrite int_wrap_uint_wrap.
Qed.

Lemma readVarInt_Write v rest e : is_int 32 v →
  readVarIntFromReader {| r_data := WriteVarInt v ++ rest; r_end := e |} =
    (Ok v, {| r_data := rest; r_end := e |}).
Proof.
  intros Hv. unfold readVarIntFromReader, readVarIntRaw. by rewrite ReadVarInt_Write.
Qed.

Lemma length_write_varint f v : (length (write_varint_loop f v) ≤ f)%nat.
Proof.
  revert v. induction f as [|f IH]; intros v; [done|]. rewrite write_varint_step. cbn zeta.
  case_match; simpl; [lia|]. specialize (IH (uint_wrap 32 v / 128)). lia.
Qed.

Lemma length_WriteVarInt v : (1 ≤ length (WriteVarInt v) ≤ 5)%nat.
Proof.
  split; [|apply length_write_varint].
  destruct (WriteVarInt v) eqn:E; [|simpl; lia]. by apply write_varint_nonempty in E; [|lia].
Qed.

Lemma length_WriteVarInt_small v : 0 ≤ v < 128 → length (WriteVarInt v) = 1%nat.
Proof.
  intros Hv. unfold WriteVarInt. rewrite write_varint_step. cbn zeta.
  rewrite uint_wrap_id by (unfold is_uint; lia). rewrite Z.div_small by lia. done.
Qed.

End varint_lemmas.

(** ** Lemmas: packets and handshakes *)

Section packet_lemmas.
Import mcproto.

Lemma rd_bind_eq {A B} (m : rd A) (k : A → rd B) r a r' :
  m r = (Ok a, r') → rd_bind m k r = k a r'.
Proof. intros E. unfold rd_bind. by rewrite E. Qed.

Lemma rd_wrap_eq {A} f (m : rd A) r a r' : m r = (Ok a, r') → rd_wrap f m r = (Ok a, r').
Proof. intros E. unfold rd_wrap. by rewrite E. Qed.

Lemma rd_bind_inv {A B} (m : rd A) (k : A → rd B) r b r'' :
  rd_bind m k r = (Ok b, r'') → ∃ a r', m r = (Ok a, r') ∧ k a r' = (Ok b, r'').
Proof. unfold rd_bind. destruct (m r) as [[a|e] r'] eqn:E; [eauto | done]. Qed.

Lemma rd_wrap_inv {A} f (m : rd A) r a r' : rd_wrap f m r = (Ok a, r') → m r = (Ok a, r').
Proof. unfold rd_wrap. destruct (m r) as [[x|e] r1]; cbn; [by intros [= <- <-]|done]. Qed.

Lemma readVarInt_int32 r v r' : readVarIntFromReader r = (Ok v, r') → is_int 32 v.
Proof.
  unfold readVarIntFromReader, readVarIntRaw.
  destruct (ReadVarInt r) as [[x raw] r1] eqn:E. intros [= H <-].
  apply res_wrap_Ok in H as ->. by eapply varint_loop_int32 in E.
Qed.

(** A length that fits [int32] survives the conversion [int32(len(x))]. *)
Lemma zlen_int32 {A} (l : list A) m : zlen l ≤ m → m < 2 ^ 31 → is_int 32 (zlen l).
Proof. unfold zlen. intros. apply int32_intro. lia. Qed.

Lemma zlen_nat {A} (l : list A) : Z.to_nat (zlen l) = length l.
Proof. unfold zlen. lia. Qed.

Lemma readString_Encode m s rest e :
  zlen s ≤ m < 2 ^ 31 → utf8.Valid s = true →
  readString m {| r_data := EncodeString s ++ rest; r_end := e |} =
    (Ok s, {| r_data := rest; r_end := e |}).
Proof.
  intros [Hl Hm] Hv. unfold readString, EncodeString.
  pose proof (zlen_int32 s m Hl Hm) as Hi. rewrite int_wrap_id, <- app_assoc by (done || lia).
  erewrite rd_bind_eq by by apply readVarInt_Write. cbn beta iota.
  rewrite (proj2 (Z.ltb_ge _ _)), (proj2 (Z.ltb_ge m _)) by (unfold zlen in *; lia).
  cbn [orb]. rewrite zlen_nat. erewrite rd_bind_eq by apply rd_full_enough.
  cbn beta iota. by rewrite Hv.
Qed.

Lemma readString_inv m r s r' : readString m r = (Ok s, r') →
  zlen s ≤ m ∧ utf8.Valid s = true.
Proof.
  unfold readString. intros (n & r1 & _ & H)%rd_bind_inv. cbn beta iota in H.
  destruct (_ || _) eqn:E; [done|]. bool_prop.
  apply rd_bind_inv in H as (buf & r2 & Hb & H). cbn beta iota in H.
  destruct (utf8.Valid buf) eqn:Ev; [|done]. injection H as <- <-. split; [|done].
  unfold rd_full in Hb. destruct (ReadFull r1 _) as [[got [e|]] r3] eqn:Er; [done|].
  apply ReadFull_consumed in Er as (_ & _ & Hn). specialize (Hn eq_refl).
  simplify_eq. unfold zlen. lia.
Qed.

Lemma be_uint16_range s : is_uint 16 (be_uint16 s).
Proof.
  assert (is_uint 16 0) by done. unfold be_uint16.
  destruct s as [|h [|l []]]; try done. rewrite Z.lor_comm, Z.shiftl_mul_pow2 by lia.
  pose proof (bv_range h). pose proof (bv_range l).
  rewrite lor_shift_add by lia. unfold is_uint. lia.
Qed.

Definition port_bytes (p : Z) : bytes := [bz (Z.shiftr p 8); bz p].

Lemma be_uint16_bytes p : is_uint 16 p → be_uint16 (port_bytes p) = p.
Proof.
  unfold is_uint. intros Hp. unfold port_bytes, be_uint16.
  rewrite Z.shiftr_div_pow2 by lia.
  pose proof (Z.div_mod p 256 ltac:(lia)). pose proof (Z.mod_pos_bound p 256 ltac:(lia)).
  rewrite bv_bz by (change (2 ^ 8) with 256; split;
    [apply Z.div_pos; lia | apply Z.div_lt_upper_bound; lia]).
  rewrite byte.unsigned_of_Z. unfold byte.wrap. change (2 ^ 8) with 256.
  rewrite Z.lor_comm, Z.shiftl_mul_pow2, lor_shift_add by lia. lia.
Qed.

End packet_lemmas.

(** ** Properties *)

Section handshake_spec.
Import mcproto.

(** What a caller may rely on of a handshake that was accepted under an address
    limit: every field at its width, a known next state, an address within the
    limit that is UTF-8 and has a normal form, which is the route address. *)
Record handshake_ok (maxAddress : Z) (h : Handshake) : Prop := {
  ok_protocol : is_int 32 (ProtocolVersion h);
  ok_port : is_uint 16 (ServerPort h);
  ok_next : NextState h ∈ [NextStateStatus; NextStateLogin; NextStateTransfer];
  ok_length : zlen (ServerAddress h) ≤ maxAddress;
  ok_utf8 : utf8.Valid (ServerAddress h) = true;
  ok_blank : TrimSpace (ServerAddress h) ≠ [];
  ok_route : hostaddr.Normalize (ServerAddress h) = Ok (RouteAddress h)
}.

(** The fields of a handshake packet, after its packet id. *)
Definition handshake_fields (h : Handshake) : list bytes :=
  [WriteVarInt (ProtocolVersion h); EncodeString (ServerAddress h);
   port_bytes (ServerPort h); WriteVarInt (NextState h)].

Definition handshake_packet (h : Handshake) : bytes :=
  BuildPacket HandshakePacketID (handshake_fields h).

(** The limits [ReadHandshake] and [ParseHandshakePayload] work with. *)
Definition effective (limit default : Z) : Z := if limit <=? 0 then default else limit.
Definition max_packet (l : Limits) : Z :=
  effective (MaxPacketLength l) (MaxPacketLength DefaultLimits).
Definition max_address (l : Limits) : Z :=
  effective (MaxServerAddressBytes l) (MaxServerAddressBytes DefaultLimits).

Lemma effective_pos limit d : 0 < d → 0 < effective limit d.
Proof. unfold effective. destruct (Z.leb_spec limit 0); lia. Qed.

Lemma effective_again limit d : 0 < d → effective (effective limit d) d = effective limit d.
Proof.
  intros Hd. pose proof (effective_pos limit d Hd). unfold effective at 1.
  by rewrite (proj2 (Z.leb_gt _ _)) by lia.
Qed.

Lemma next_state_known ns :
  negb (ns =? NextStateStatus) && negb (ns =? NextStateLogin)
    && negb (ns =? NextStateTransfer) = false ↔
  ns ∈ [NextStateStatus; NextStateLogin; NextStateTransfer].
Proof.
  rewrite !elem_of_cons, elem_of_nil, !andb_false_iff, !negb_false_iff, !Z.eqb_eq. tauto.
Qed.

Lemma parse_handshake_sound m r h r' :
  parse_handshake m r = (Ok h, r') → handshake_ok m h.
Proof.
  unfold parse_handshake. intros (pid & r1 & _ & H)%rd_bind_inv. cbn beta iota in H.
  destruct (negb _); [done|].
  apply rd_bind_inv in H as (pv & r2 & Hpv%rd_wrap_inv & H). cbn beta iota in H.
  apply rd_bind_inv in H as (addr & r3 & Ha%rd_wrap_inv & H). cbn beta iota in H.
  destruct (decide _) as [|Hb]; [done|].
  destruct (hostaddr.Normalize addr) as [n|] eqn:En; [|done].
  apply rd_bind_inv in H as (port & r4 & _ & H). cbn beta iota in H.
  apply rd_bind_inv in H as (ns & r5 & Hns%rd_wrap_inv & H). cbn beta iota in H.
  destruct (_ && _) eqn:Ens in H; [done|]. apply next_state_known in Ens.
  destruct (negb _); [done|]. injection H as <- <-.
  apply readVarInt_int32 in Hpv. apply readString_inv in Ha as [Hl Hv].
  constructor; cbn [ProtocolVersion ServerAddress ServerPort NextState]; try done.
  - apply be_uint16_range.
  - unfold RouteAddress. cbn [ServerAddress]. by rewrite En.
Qed.

Lemma parse_handshake_complete m h :
  m < 2 ^ 31 → handshake_ok m h →
  parse_handshake m (bytes_reader (WriteVarInt HandshakePacketID ++ concat (handshake_fields h)))
    = (Ok h, bytes_reader []).
Proof.
  intros Hm [H1 H2 H3 H4 H5 H6 H7]. unfold parse_handshake, bytes_reader, handshake_fields.
  cbn [concat].
  erewrite rd_bind_eq by by apply rd_wrap_eq, readVarInt_Write. cbn beta iota.
  cbn [negb Z.eqb HandshakePacketID].
  erewrite rd_bind_eq by by apply rd_wrap_eq, readVarInt_Write. cbn beta iota.
  erewrite rd_bind_eq by (apply rd_wrap_eq, readString_Encode; [lia|done]). cbn beta iota.
  rewrite decide_False by done. rewrite H7.
  erewrite rd_bind_eq by apply rd_wrap_eq, (rd_full_enough (port_bytes _)). cbn beta iota.
  erewrite rd_bind_eq.
  2:{ apply rd_wrap_eq, readVarInt_Write.
      repeat (apply elem_of_cons in H3 as [->|H3]; [done|]). by apply elem_of_nil in H3. }
  cbn beta iota. apply next_state_known in H3. rewrite H3.
  cbn [r_data length Nat.eqb negb]. rewrite be_uint16_bytes by done. by destruct h.
Qed.

Lemma ReadHandshake_eq r limits :
  ReadHandshake r limits =
  match readVarIntRaw r with
  | (Err e, lengthRaw, r1) => (Err e, lengthRaw, r1)
  | (Ok packetLength, lengthRaw, r1) =>
      if (packetLength <=? 0) || (max_packet limits <? packetLength)
      then (Err ErrPacketTooLarge, lengthRaw, r1)
      else
        let n := Z.to_nat packetLength in
        match ReadFull r1 n with
        | (got, Some e, r2) =>
            (Err (Errorf "read handshake payload: %w" [] [e]),
             lengthRaw ++ got ++ replicate (n - length got) x00, r2)
        | (payload, None, r2) =>
            (fst (parse_handshake (max_address limits) (bytes_reader payload)),
             lengthRaw ++ payload, r2)
        end
  end.
Proof.
  unfold ReadHandshake, ParseHandshakePayload. cbn [MaxServerAddressBytes].
  pose proof (effective_again (MaxServerAddressBytes limits)
                (MaxServerAddressBytes DefaultLimits) ltac:(done)) as E.
  unfold effective in E. by rewrite E.
Qed.

(** What an accepted handshake was read from, and that it is well formed. *)
Lemma ReadHandshake_inv r limits h raw r' :
  ReadHandshake r limits = (Ok h, raw, r') →
  consumed r r' raw ∧ zlen raw ≤ 5 + max_packet limits ∧
  handshake_ok (max_address limits) h ∧ hostaddr.canonical (RouteAddress h).
Proof.
  rewrite ReadHandshake_eq. intros H.
  destruct (readVarIntRaw r) as [[[n|] lraw] r1] eqn:E1; [|done].
  destruct (_ || _) eqn:En; [done|]. bool_prop. cbn zeta in H.
  destruct (ReadFull r1 _) as [[p [e|]] r2] eqn:E2; [done|].
  injection H as H <- <-.
  apply readVarIntRaw_consumed in E1 as [Hc1 Hl1].
  apply ReadFull_consumed in E2 as (Hc2 & Hl2 & _).
  destruct (parse_handshake _ _) as [x r3] eqn:E3. cbn in H. subst x.
  apply parse_handshake_sound in E3 as Hok. split_and!; [|..|done|].
  - by eapply consumed_trans.
  - unfold zlen. rewrite length_app. lia.
  - eapply Normalize_canonical, ok_route, Hok.
Qed.

(** C20: a handshake that is accepted was read from exactly the bytes that are
    returned as [raw] - the bytes the gateway later replays to the backend - with
    nothing beyond the packet consumed and the packet within the limit; and it is
    well formed: a known next state, widths respected, the address within the
    limit and with a normal form, which is what the route is selected by. *)
Theorem ReadHandshake_accepts r limits h raw r' :
  ReadHandshake r limits = (Ok h, raw, r') →
  consumed r r' raw ∧ zlen raw ≤ 5 + max_packet limits ∧
  handshake_ok (max_address limits) h ∧ hostaddr.canonical (RouteAddress h).
Proof. apply ReadHandshake_inv. Qed.

Definition sample_handshake : Handshake :=
  {| ProtocolVersion := 767; ServerAddress := gs"Play.Example.com."; ServerPort := 25565;
     NextState := NextStateLogin |}.

Lemma sample_handshake_ok : handshake_ok 255 sample_handshake.
Proof.
  constructor; [done|done| |done|vm_compute; reflexivity|vm_compute; discriminate|].
  - by do 1 right; left.
  - vm_compute. reflexivity.
Defined.

Lemma ReadHandshake_accepts_witness :
  let r := {| r_data := handshake_packet sample_handshake ++ gs"next"; r_end := EOF |} in
  ReadHandshake r DefaultLimits =
    (Ok sample_handshake, handshake_packet sample_handshake, {| r_data := gs"next"; r_end := EOF |}) ∧
  hostaddr.canonical (RouteAddress sample_handshake).
Proof.
  assert (ReadHandshake {| r_data := handshake_packet sample_handshake ++ gs"next"; r_end := EOF |}
            DefaultLimits =
          (Ok sample_handshake, handshake_packet sample_handshake,
           {| r_data := gs"next"; r_end := EOF |})) as H by (vm_compute; reflexivity).
  split; [exact H|]. apply (ReadHandshake_accepts _ _ _ _ _ H).
Defined.

(** Whatever a client sends, [ReadHandshake] takes at most the length prefix
    and the packet limit from the connection, leaves the rest of the stream as it
    is, and every byte it took is at the front of the [raw] it returns. *)
Theorem ReadHandshake_bounded r limits :
  let '(x, raw, r') := ReadHandshake r limits in
  ∃ used, consumed r r' used ∧ zlen used ≤ 5 + max_packet limits ∧ used `prefix_of` raw.
Proof.
  rewrite ReadHandshake_eq. cbn zeta.
  pose proof (effective_pos (MaxPacketLength limits) 2048 ltac:(lia)) as Hpos.
  change (effective _ _) with (max_packet limits) in Hpos.
  destruct (readVarIntRaw r) as [[[n|] lraw] r1] eqn:E1;
    apply readVarIntRaw_consumed in E1 as [Hc1 Hl1];
    [|exists lraw; split_and!; [done|unfold zlen; lia|done]].
  destruct (_ || _) eqn:En; [exists lraw; split_and!; [done|unfold zlen; lia|done]|].
  bool_prop. destruct (ReadFull r1 _) as [[p [e|]] r2] eqn:E2;
    apply ReadFull_consumed in E2 as (Hc2 & Hl2 & _);
    exists (lraw ++ p); (split_and!;
      [by eapply consumed_trans | unfold zlen; rewrite length_app; lia |]).
  - rewrite app_assoc. by eexists.
  - done.
Qed.

Lemma concat_BuildPacket_length id fields m :
  zlen (WriteVarInt id ++ concat fields) ≤ m → m < 2 ^ 31 →
  int_wrap 32 (zlen (WriteVarInt id ++ concat fields)) = zlen (WriteVarInt id ++ concat fields) ∧
  0 < zlen (WriteVarInt id ++ concat fields).
Proof.
  intros Hl Hm. split.
  - apply int_wrap_id; [lia|]. by eapply zlen_int32.
  - unfold zlen. rewrite length_app. pose proof (length_WriteVarInt id). lia.
Qed.

Lemma ReadHandshake_packet limits h rest e :
  handshake_ok (max_address limits) h →
  max_address limits < 2 ^ 31 → max_packet limits < 2 ^ 31 →
  zlen (WriteVarInt HandshakePacketID ++ concat (handshake_fields h)) ≤ max_packet limits →
  ReadHandshake {| r_data := handshake_packet h ++ rest; r_end := e |} limits =
    (Ok h, handshake_packet h, {| r_data := rest; r_end := e |}).
Proof.
  intros Hok Ha Hp Hl. rewrite ReadHandshake_eq.
  destruct (concat_BuildPacket_length _ _ _ Hl Hp) as [Hw Hpos].
  unfold handshake_packet, BuildPacket. cbn zeta. rewrite Hw, <- app_assoc.
  unfold readVarIntRaw. rewrite ReadVarInt_Write by by eapply zlen_int32. cbn [res_wrap].
  rewrite (proj2 (Z.leb_gt _ _)), (proj2 (Z.ltb_ge _ _)) by lia. cbn [orb].
  rewrite zlen_nat, ReadFull_enough. by rewrite parse_handshake_complete.
Qed.

(** C18: encoding a well-formed handshake and reading it back gives the same
    handshake, whatever follows it on the connection: the raw bytes are the
    encoding and the bytes that follow stay unread. *)
Theorem handshake_roundtrip limits h rest e :
  handshake_ok (max_address limits) h →
  max_address limits < 2 ^ 31 → max_packet limits < 2 ^ 31 →
  zlen (WriteVarInt HandshakePacketID ++ concat (handshake_fields h)) ≤ max_packet limits →
  ReadHandshake {| r_data := handshake_packet h ++ rest; r_end := e |} limits =
    (Ok h, handshake_packet h, {| r_data := rest; r_end := e |}).
Proof. apply ReadHandshake_packet. Qed.

Lemma handshake_roundtrip_witness :
  ReadHandshake {| r_data := handshake_packet sample_handshake ++ gs"x"; r_end := EOF |}
    DefaultLimits = (Ok sample_handshake, handshake_packet sample_handshake,
                     {| r_data := gs"x"; r_end := EOF |}).
Proof.
  apply (handshake_roundtrip DefaultLimits sample_handshake (gs"x") EOF);
    [exact sample_handshake_ok | done | done | vm_compute; discriminate].
Defined.

End handshake_spec.

Section packet_spec.
Import mcproto.

(** A VarInt of any [int32], negative ones included, is read back as the same
    number from exactly the bytes that were written, and the rest of the stream is
    untouched. *)
Theorem VarInt_roundtrip v rest e :
  is_int 32 v →
  ReadVarInt {| r_data := WriteVarInt v ++ rest; r_end := e |} =
    (Ok v, WriteVarInt v, {| r_data := rest; r_end := e |}) ∧
  (1 ≤ length (WriteVarInt v) ≤ 5)%nat.
Proof. split; [by apply ReadVarInt_Write | apply length_WriteVarInt]. Qed.

Lemma VarInt_roundtrip_witness :
  ReadVarInt {| r_data := WriteVarInt (-25565) ++ gs"z"; r_end := EOF |} =
    (Ok (-25565), WriteVarInt (-25565), {| r_data := gs"z"; r_end := EOF |}).
Proof. apply (VarInt_roundtrip (-25565) (gs"z") EOF); done. Defined.

Lemma ReadPacket_BuildPacket id fields limit rest e :
  is_int 32 id → limit < 2 ^ 31 →
  zlen (WriteVarInt id ++ concat fields) ≤ effective limit (MaxPacketLength DefaultLimits) →
  ReadPacket limit {| r_data := BuildPacket id fields ++ rest; r_end := e |} =
    (Ok (id, concat fields), {| r_data := rest; r_end := e |}).
Proof.
  intros Hid Hlim Hl.
  assert (effective limit 2048 < 2 ^ 31) as Hm by (unfold effective; case_match; lia).
  destruct (concat_BuildPacket_length _ _ _ Hl Hm) as [Hw Hpos].
  unfold ReadPacket, BuildPacket. cbn zeta.
  change (if limit <=? 0 then _ else _) with (effective limit 2048).
  rewrite Hw, <- app_assoc.
  erewrite rd_bind_eq by (apply readVarInt_Write; by eapply zlen_int32). cbn beta iota.
  rewrite (proj2 (Z.leb_gt _ _)), (proj2 (Z.ltb_ge _ _)) by (cbn in *; lia). cbn [orb].
  rewrite zlen_nat. erewrite rd_bind_eq by apply rd_wrap_eq, rd_full_enough.
  cbn beta iota. unfold bytes_reader. by rewrite readVarInt_Write.
Qed.

(** A packet the gateway builds is read back by [ReadPacket] as the same packet
    id and the concatenation of its fields, as long as it is within the limit. *)
Theorem packet_roundtrip id fields limit rest e :
  is_int 32 id → limit < 2 ^ 31 →
  zlen (WriteVarInt id ++ concat fields) ≤ effective limit (MaxPacketLength DefaultLimits) →
  ReadPacket limit {| r_data := BuildPacket id fields ++ rest; r_end := e |} =
    (Ok (id, concat fields), {| r_data := rest; r_end := e |}).
Proof. apply ReadPacket_BuildPacket. Qed.

Lemma packet_roundtrip_witness :
  ReadPacket 64 {| r_data := BuildPacket StatusPongPacketID [EncodeLong (-2)] ++ gs"r"; r_end := EOF |} =
    (Ok (StatusPongPacketID, EncodeLong (-2)), {| r_data := gs"r"; r_end := EOF |}).
Proof.
  rewrite <- (app_nil_r (EncodeLong (-2))) at 2.
  apply (packet_roundtrip StatusPongPacketID [EncodeLong (-2)] 64 (gs"r") EOF);
    [done | done | vm_compute; discriminate].
Defined.

End packet_spec.
