(* ===== verification/SessionPool.v ===== *)
(** * Tables of session objects

    A server that keeps a session for each client shares the session objects between
    the goroutines that use them: a table refers to them by key, and a goroutine may
    hold one that has left the table. This file is the part of such a server that
    does not depend on what a session is for: the table, the heap of objects, what
    was counted as created and as closed, and the invariant. [I] is what never
    changes of a session and [key_of] the key it is stored under. *)
From S2P Require Import Prelude.
Open Scope Z_scope.

Module pool.

Section pool.
Context {I : Type} (key_of : I → bytes).

Record session := { s_id : I; s_last : Z; s_closed : bool }.

(** [created] and [counted] are the sessions the metrics counted as created and as
    closed. *)
Record Pool := {
  table : gmap bytes nat;
  heap : gmap nat session;
  next : nat;
  created : list nat;
  counted : list nat
}.

Definition empty_pool : Pool := {| table := ∅; heap := ∅; next := 0; created := []; counted := [] |}.

(** ** Operations *)

Definition set_session (p : Pool) (sid : nat) (s : session) : Pool := {|
  table := table p; heap := <[sid := s]> (heap p); next := next p; created := created p;
  counted := counted p |}.

Definition set_table (p : Pool) (m : gmap bytes nat) : Pool := {|
  table := m; heap := heap p; next := next p; created := created p; counted := counted p |}.

Definition touch (p : Pool) (sid : nat) (now : Z) : Pool :=
  match heap p !! sid with
  | Some s => set_session p sid {| s_id := s_id s; s_last := now; s_closed := s_closed s |}
  | None => p
  end.

Definition store (p : Pool) (i : I) (now : Z) : Pool := {|
  table := <[key_of i := next p]> (table p);
  heap := <[next p := {| s_id := i; s_last := now; s_closed := false |}]> (heap p);
  next := S (next p); created := created p ++ [next p]; counted := counted p |}.

Definition shut (s : session) : session := {| s_id := s_id s; s_last := s_last s; s_closed := true |}.

(** Closing happens once; whether it is counted depends on who comes first. *)
Definition close (p : Pool) (sid : nat) (metric : bool) : Pool :=
  match heap p !! sid with
  | Some s =>
      if s_closed s then p
      else let p' := set_session p sid (shut s) in
           {| table := table p'; heap := heap p'; next := next p'; created := created p';
              counted := if metric then counted p' ++ [sid] else counted p' |}
  | None => p
  end.

(** Is this the session the table holds under its key? *)
Definition is_current (p : Pool) (sid : nat) : bool :=
  match heap p !! sid with
  | Some s => bool_decide (table p !! key_of (s_id s) = Some sid)
  | None => false
  end.

Definition unlink (p : Pool) (sid : nat) : Pool :=
  match heap p !! sid with
  | Some s => set_table p (delete (key_of (s_id s)) (table p))
  | None => p
  end.

(** ** The invariant *)

Record pool_ok (p : Pool) : Prop := {
  pok_table : ∀ k sid, table p !! k = Some sid →
    ∃ s, heap p !! sid = Some s ∧ key_of (s_id s) = k ∧ s_closed s = false;
  pok_heap : ∀ sid s, heap p !! sid = Some s → (sid < next p)%nat;
  pok_created : created p = seq 0 (next p);
  pok_counted : NoDup (counted p);
  pok_counted_heap : ∀ sid, sid ∈ counted p → ∃ s, heap p !! sid = Some s ∧ s_closed s = true
}.

(** A session that is not in the table; one that is moreover still open. *)
Definition detached (p : Pool) (sid : nat) : Prop := ∀ k, table p !! k ≠ Some sid.
Definition adrift (p : Pool) (sid : nat) : Prop :=
  ∃ s, heap p !! sid = Some s ∧ s_closed s = false ∧ detached p sid.

(** How a pool changes under those who hold its sessions. *)
Record pool_grows (p p' : Pool) : Prop := {
  pg_heap : ∀ sid s, heap p !! sid = Some s → ∃ s', heap p' !! sid = Some s' ∧ s_id s' = s_id s;
  pg_table : ∀ k sid, table p' !! k = Some sid → table p !! k = Some sid ∨ heap p !! sid = None
}.

Lemma pool_grows_refl p : pool_grows p p.
Proof. constructor; [|by left]. intros sid s Hs. by exists s. Qed.

Lemma pool_grows_trans p1 p2 p3 : pool_grows p1 p2 → pool_grows p2 p3 → pool_grows p1 p3.
Proof.
  intros [H1 T1] [H2 T2]. constructor.
  - intros sid s Hs. destruct (H1 sid s Hs) as (s2 & Hs2 & E2), (H2 sid s2 Hs2) as (s3 & Hs3 & E3).
    exists s3. split; [done|congruence].
  - intros k sid Hk. destruct (T2 k sid Hk) as [?|E]; [auto|]. right.
    destruct (heap p1 !! sid) as [s|] eqn:Es; [|done]. destruct (H1 sid s Es) as (? & ? & _). congruence.
Qed.

Lemma detached_grows p p' sid :
  pool_grows p p' → is_Some (heap p !! sid) → detached p sid → detached p' sid.
Proof.
  intros [_ T] Hs Hd k Hk. destruct (T k sid Hk) as [?|E]; [by eapply Hd|]. rewrite E in Hs. by destruct Hs.
Qed.

Lemma empty_pool_ok : pool_ok empty_pool.
Proof.
  constructor; cbn [table heap next created counted empty_pool]; try done.
  - constructor.
  - by intros sid ?%elem_of_nil.
Qed.

(** Replacing a session: only a detached one may become closed. *)
Lemma set_session_ok p sid s s' :
  pool_ok p → heap p !! sid = Some s → s_id s' = s_id s →
  (s_closed s' = s_closed s ∨ s_closed s' = true ∧ detached p sid) →
  pool_ok (set_session p sid s') ∧ pool_grows p (set_session p sid s').
Proof.
  intros [Ht Hh Hc Hn Hch] Hs Hid Hcl. split; constructor; cbn [table heap next created counted set_session];
    try done.
  - intros k sid' Hk. destruct (Ht k sid' Hk) as (s0 & H0 & Hk0 & Hc0).
    destruct (decide (sid' = sid)) as [->|].
    + exists s'. rewrite lookup_insert_eq. simplify_eq. split_and!; [done|congruence|].
      destruct Hcl as [->|[_ Hd]]; [done|]. by destruct (Hd _ Hk).
    + exists s0. by rewrite lookup_insert_ne.
  - intros sid' s0 [[<- <-]|[_ ?]]%lookup_insert_Some; eauto.
  - intros sid' Hin. destruct (Hch sid' Hin) as (s0 & H0 & Hc0). destruct (decide (sid' = sid)) as [->|].
    + exists s'. rewrite lookup_insert_eq. split; [done|]. destruct Hcl as [->|[? _]]; [congruence|done].
    + exists s0. by rewrite lookup_insert_ne.
  - intros sid' s0 H0. destruct (decide (sid' = sid)) as [->|].
    + exists s'. rewrite lookup_insert_eq. simplify_eq. done.
    + exists s0. by rewrite lookup_insert_ne.
  - by left.
Qed.

Lemma touch_ok p sid now : pool_ok p → pool_ok (touch p sid now) ∧ pool_grows p (touch p sid now).
Proof.
  intros Hok. unfold touch. destruct (heap p !! sid) as [s|] eqn:E; [|by split; [|apply pool_grows_refl]].
  apply set_session_ok with s; try done. by left.
Qed.

Lemma set_table_ok p m : pool_ok p → m ⊆ table p → pool_ok (set_table p m) ∧ pool_grows p (set_table p m).
Proof.
  intros [] Hm. split; constructor; try done; cbn.
  - intros k sid Hk. by eapply pok_table0, lookup_weaken.
  - intros sid s Hs. by exists s.
  - intros k sid Hk. left. by eapply lookup_weaken.
Qed.

Lemma unlink_subseteq p sid : table (unlink p sid) ⊆ table p.
Proof. unfold unlink. destruct (heap p !! sid); [apply delete_subseteq|done]. Qed.

Lemma unlink_ok p sid : pool_ok p → pool_ok (unlink p sid) ∧ pool_grows p (unlink p sid).
Proof.
  intros Hok. unfold unlink. destruct (heap p !! sid) as [s|]; [|by split; [|apply pool_grows_refl]].
  apply set_table_ok; [done|apply delete_subseteq].
Qed.

Lemma unlink_detached p sid : pool_ok p → is_Some (heap p !! sid) → detached (unlink p sid) sid.
Proof.
  intros Hok [s Hs] k. unfold unlink. rewrite Hs. cbn. intros [Hne Hk]%lookup_delete_Some.
  destruct (pok_table _ Hok k sid Hk) as (s' & ? & <- & _). congruence.
Qed.

Lemma not_current_detached p sid s :
  pool_ok p → heap p !! sid = Some s → is_current p sid = false → detached p sid.
Proof.
  intros Hok Hs. unfold is_current. rewrite Hs. intros Hc%bool_decide_eq_false_1 k Hk.
  destruct (pok_table _ Hok k sid Hk) as (s' & ? & <- & _). congruence.
Qed.

Lemma close_ok p sid metric :
  pool_ok p → detached p sid → pool_ok (close p sid metric) ∧ pool_grows p (close p sid metric).
Proof.
  intros Hok Hd. unfold close. destruct (heap p !! sid) as [s|] eqn:Es; [|by split; [|apply pool_grows_refl]].
  destruct (s_closed s) eqn:Ec; [by split; [|apply pool_grows_refl]|]. cbn zeta.
  destruct (set_session_ok p sid s (shut s) Hok Es) as [Hok' Hg]; [done|by right|].
  assert (sid ∉ counted p) as Hnot.
  { intros Hin. destruct (pok_counted_heap _ Hok sid Hin) as (s0 & ? & ?). congruence. }
  destruct Hok', Hg. split; constructor; cbn [table heap next created counted set_session] in *; try done.
  - destruct metric; [|done]. apply NoDup_app. split_and!; [done| |apply NoDup_singleton].
    by intros x Hx ->%list_elem_of_singleton.
  - intros sid' Hin. destruct metric; [|by apply pok_counted_heap0].
    apply elem_of_app in Hin as [?| ->%list_elem_of_singleton]; [by apply pok_counted_heap0|].
    exists (shut s). by rewrite lookup_insert_eq.
Qed.

Lemma store_ok p i now :
  pool_ok p → table p !! key_of i = None → pool_ok (store p i now) ∧ pool_grows p (store p i now).
Proof.
  intros [Ht Hh Hc Hn Hch] Hk.
  assert (heap p !! next p = None) as Hfresh.
  { destruct (heap p !! next p) as [s0|] eqn:E; [|done]. apply Hh in E. lia. }
  assert (∀ s sid s0, heap p !! sid = Some s0 → <[next p := s]> (heap p) !! sid = Some s0) as Hold.
  { intros s sid s0 H0. rewrite lookup_insert_ne; [done|congruence]. }
  split; constructor; cbn [table heap next created counted store]; try done.
  - intros k sid [[<- <-]|[_ H]]%lookup_insert_Some.
    + eexists. by rewrite lookup_insert_eq.
    + destruct (Ht k sid H) as (s0 & ? & ? & ?). exists s0. auto.
  - intros sid s0 [[<- _]|[_ ?%Hh]]%lookup_insert_Some; lia.
  - rewrite Hc. symmetry. apply (seq_S (next p) 0).
  - intros sid Hin. destruct (Hch sid Hin) as (s0 & ? & ?). exists s0. auto.
  - intros sid s0 H0. exists s0. auto.
  - intros k sid [[<- <-]|[_ H]]%lookup_insert_Some; [by right | by left].
Qed.

(** ** Sessions adrift *)

Lemma adrift_touch p sid now sid' : adrift (touch p sid now) sid' → adrift p sid'.
Proof.
  unfold touch. destruct (heap p !! sid) as [s|] eqn:E; [|done]. intros (s' & Hs' & Hc & Hd). cbn in *.
  apply lookup_insert_Some in Hs' as [[<- <-]|[_ Hs']]; [by exists s | by exists s'].
Qed.

Lemma adrift_close p sid metric sid' : adrift (close p sid metric) sid' → adrift p sid' ∧ sid' ≠ sid.
Proof.
  unfold close. destruct (heap p !! sid) as [s|] eqn:E.
  - destruct (s_closed s) eqn:Ec.
    + intros Ha. split; [done|]. intros ->. destruct Ha as (? & ? & ? & _). congruence.
    + intros (s' & Hs' & Hc & Hd). cbn in *. apply lookup_insert_Some in Hs' as [[<- <-]|[? Hs']]; [done|].
      split; [by exists s'|done].
  - intros Ha. split; [done|]. intros ->. destruct Ha as (? & ? & _). congruence.
Qed.

Lemma adrift_unlink p sid sid' : pool_ok p → is_current p sid = true →
  adrift (unlink p sid) sid' → adrift p sid' ∨ sid' = sid.
Proof.
  intros Hok Hcur. unfold unlink, is_current in *. destruct (heap p !! sid) as [s|] eqn:Es; [|done].
  apply bool_decide_eq_true_1 in Hcur. intros (s' & Hs' & Hc & Hd). cbn in *.
  destruct (decide (sid' = sid)) as [|Hne]; [by right|left]. exists s'. split_and!; [done..|]. intros k Hk.
  destruct (decide (k = key_of (s_id s))) as [->|]; [congruence|]. apply (Hd k). cbn.
  by rewrite lookup_delete_ne.
Qed.

Lemma adrift_store p i now sid : pool_ok p → table p !! key_of i = None →
  adrift (store p i now) sid → adrift p sid.
Proof.
  intros Hok Hk (s' & Hs' & Hc & Hd). cbn in *. apply lookup_insert_Some in Hs' as [[<- _]|[? Hs']].
  - destruct (Hd (key_of i)). cbn. apply lookup_insert_eq.
  - exists s'. split_and!; [done..|]. intros k Hk'. apply (Hd k). cbn. rewrite lookup_insert_ne; [done|].
    intros <-. congruence.
Qed.

(** ** The gauge *)

Lemma gauge_ok p : pool_ok p → (length (counted p) + size (table p) ≤ length (created p))%nat.
Proof.
  intros [Ht Hh Hc Hn Hch]. rewrite Hc, length_seq. set (l := (map_to_list (table p)).*2).
  assert (length l = size (table p)) as <- by (unfold l; by rewrite length_fmap, length_map_to_list).
  assert (∀ sid, sid ∈ l → ∃ k, table p !! k = Some sid) as Htab.
  { intros sid ([k sid'] & -> & Hin%elem_of_map_to_list)%list_elem_of_fmap. by exists k. }
  rewrite <- length_app, <- (length_seq (next p) 0). apply submseteq_length, NoDup_submseteq.
  - apply NoDup_app. split_and!; [done| |].
    + intros sid (s & Hs & Hcl)%Hch (k & Hk)%Htab. destruct (Ht k sid Hk) as (s' & ? & _ & ?). congruence.
    + apply NoDup_fmap_2_strong; [|apply NoDup_map_to_list].
      intros [k1 sid1] [k2 sid2] H1%elem_of_map_to_list H2%elem_of_map_to_list E. cbn in E. subst sid2.
      destruct (Ht _ _ H1) as (s1 & ? & <- & _), (Ht _ _ H2) as (s2 & ? & <- & _). congruence.
  - intros sid [(s & Hs%Hh & _)%Hch|(k & Hk)%Htab]%elem_of_app.
    + apply elem_of_seq. lia.
    + destruct (Ht k sid Hk) as (s & Hs%Hh & _). apply elem_of_seq. lia.
Qed.

End pool.

Arguments session : clear implicits.
Arguments Pool : clear implicits.

End pool.
