(* ===== verification/UdpRelay.v ===== *)
(** * The UDP relay ([internal/udprelay])

    Datagrams of a client go to a backend through a session of the client's own, and
    the backend's datagrams come back through it. Where a session leads is decided by
    a resolver, an interface with two implementations ([router.go]). As in the voice
    chat runtime, operations are chains of tasks, one for each critical section, and
    all interleavings are the runs of [step]. *)
From S2P Require Import Prelude GoStrings GoNet SessionPool.
Open Scope Z_scope.

Module udprelay.

(** ** Backends and resolvers *)

Record BackendSelection := { bs_Name : bytes; bs_Addr : option net.UDPAddr }.

(** [interface BackendResolver], asked with the client's address and first payload. *)
Class BackendResolver (R : Type) := {
  ResolveBackend : R → bytes → bytes → res BackendSelection;
  DefaultBackend : R → option net.UDPAddr
}.

Definition validateBackendAddr (addr : net.UDPAddr) : option error :=
  match net.ua_IP addr with
  | None => Some (errors_New "resolved address is empty")
  | Some ip =>
      if net.IsUnspecified ip then Some (errors_New "resolved address must not be unspecified")
      else if net.IsMulticast ip then Some (errors_New "resolved address must not be multicast")
      else if net.IsIPv4bcast ip then Some (errors_New "resolved address must not be broadcast")
      else None
  end.

Section resolvers.
(** [net.ResolveUDPAddr]. *)
Context (resolveUDP : bytes → res net.UDPAddr).

Definition resolveBackend (backend : bytes) : res net.UDPAddr :=
  match resolveUDP backend with
  | Err e => Err (Errorf "resolve UDP backend address %q: %w" [AStr backend] [e])
  | Ok addr =>
      match validateBackendAddr addr with
      | Some e => Err (Errorf "invalid UDP backend address %q: %w" [AStr backend] [e])
      | None => Ok addr
      end
  end.

Record staticBackendResolver := { sr_backend : net.UDPAddr }.

Definition NewStaticBackendResolver (backend : bytes) : res staticBackendResolver :=
  let? addr := resolveBackend backend in Ok {| sr_backend := addr |}.

Record NamedBackendRoute := { nr_Name : bytes; nr_Backend : bytes }.

Record namedBackendResolver := {
  nb_defaultBackend : net.UDPAddr;
  nb_routes : gmap bytes net.UDPAddr
}.

Fixpoint resolve_routes (routes : list NamedBackendRoute) (m : gmap bytes net.UDPAddr)
    : res (gmap bytes net.UDPAddr) :=
  match routes with
  | [] => Ok m
  | route :: rest =>
      match m !! nr_Name route with
      | Some _ => Err (Errorf "duplicate UDP backend route %q" [AStr (nr_Name route)] [])
      | None =>
          match resolveBackend (nr_Backend route) with
          | Err e => Err (Errorf "route %q: %w" [AStr (nr_Name route)] [e])
          | Ok addr => resolve_routes rest (<[nr_Name route := addr]> m)
          end
      end
  end.

Definition NewNamedBackendResolver (defaultBackend : bytes) (routes : list NamedBackendRoute)
    : res namedBackendResolver :=
  let? defaultAddr := resolveBackend defaultBackend in
  let? resolved := resolve_routes routes ∅ in
  Ok {| nb_defaultBackend := defaultAddr; nb_routes := resolved |}.

End resolvers.

(** The two [ResolveBackend] methods; a resolver that was made has its default backend,
    and neither looks at the client or the datagram. *)
Definition static_ResolveBackend (r : staticBackendResolver) (client payload : bytes) : res BackendSelection :=
  Ok {| bs_Name := gs"default"; bs_Addr := Some (sr_backend r) |}.

Definition named_ResolveBackend (r : namedBackendResolver) (client payload : bytes) : res BackendSelection :=
  Ok {| bs_Name := gs"default"; bs_Addr := Some (nb_defaultBackend r) |}.

#[export] Instance static_resolver : BackendResolver staticBackendResolver := {|
  ResolveBackend := static_ResolveBackend; DefaultBackend r := Some (sr_backend r) |}.

#[export] Instance named_resolver : BackendResolver namedBackendResolver := {|
  ResolveBackend := named_ResolveBackend; DefaultBackend r := Some (nb_defaultBackend r) |}.

(** What the relay relies on: a resolver only selects unicast addresses. *)
Class ResolverLaws {R} `{BackendResolver R} (resolver : R) : Prop :=
  selects_valid : ∀ client payload sel addr,
    ResolveBackend resolver client payload = Ok sel → bs_Addr sel = Some addr →
    validateBackendAddr addr = None.

(** ** The relay *)

Record Config := {
  Listen : bytes;
  Backend : bytes;
  IdleTimeout : Z;
  BackendDialTimeout : Z;
  MaxSessions : Z;
  MaxPacketSize : Z
}.

(** A session is between a client, by the text of its address, and a backend. *)
Record ident := { i_client : bytes; i_backend : net.UDPAddr }.

Inductive close_reason := IdleTimeoutReached | BackendError | Shutdown.
Inductive loss := SessionLimit | WriteError | ReadError.

(** What the outside sees: a datagram received from a client, sent to a backend, or
    dropped; one of a backend sent to a client, or dropped; a session closed. *)
Inductive event :=
| Received (client payload : bytes)
| Sent (client : bytes) (backend : net.UDPAddr) (payload : bytes)
| Lost (client payload : bytes) (why : loss)
| Replied (client payload : bytes)
| ReplyLost (why : loss) (n : Z)
| Unread (n : Z)
| SessionClosed (sid : nat) (reason : close_reason).

(** [fresh] are the open connections that were dialled for a session that is not stored
    yet, by number; [dials] is how many were dialled. *)
Record Relay := {
  cfg : Config;
  closed : bool;
  sessions : pool.Pool ident;
  fresh : gset nat;
  dials : nat;
  log : list event
}.

Inductive task :=
| TPacket (client payload : bytes)
| TDial (client payload : bytes) (backend : net.UDPAddr)
| TStore (c : nat) (client payload : bytes) (backend : net.UDPAddr)
| TWrite (sid : nat) (payload : bytes)
| TRead (sid : nat) (got : res bytes)
| TReply (sid : nat) (payload : bytes)
| TCloseSession (sid : nat) (reason : close_reason)
| TClose (sid : nat) (reason : close_reason)
| TCloseQuiet (sid : nat)
| TIdle (sid : nat) (now : Z).

(** The clock, and the error of a dial or write. *)
Record oracle := { o_now : Z; o_err : option error }.

Definition emit (r : Relay) (es : list event) : Relay := {|
  cfg := cfg r; closed := closed r; sessions := sessions r; fresh := fresh r; dials := dials r; log := log r ++ es |}.

Definition set_pool (r : Relay) (p : pool.Pool ident) : Relay := {|
  cfg := cfg r; closed := closed r; sessions := p; fresh := fresh r; dials := dials r; log := log r |}.

Definition set_fresh (r : Relay) (cs : gset nat) (n : nat) : Relay := {|
  cfg := cfg r; closed := closed r; sessions := sessions r; fresh := cs; dials := n; log := log r |}.

Definition table_size (r : Relay) : Z := Z.of_nat (size (pool.table (sessions r))).

Section relay.
Context {R : Type} `{BackendResolver R} (resolver : R).

Definition drop_packet (r : Relay) (client payload : bytes) (why : loss) : Relay * list task :=
  (emit r [Lost client payload why], []).

(** [sessionForClient] up to the dial. *)
Definition sessionForClient (r : Relay) (client payload : bytes) : Relay * list task :=
  if closed r then drop_packet r client payload WriteError
  else match pool.table (sessions r) !! client with
  | Some sid => (r, [TWrite sid payload])
  | None =>
      if MaxSessions (cfg r) <=? table_size r then drop_packet r client payload SessionLimit
      else match ResolveBackend resolver client payload with
      | Err _ => drop_packet r client payload WriteError
      | Ok sel =>
          match bs_Addr sel with
          | None => drop_packet r client payload WriteError
          | Some addr => (r, [TDial client payload addr])
          end
      end
  end.

(** The dial. *)
Definition dialSession (r : Relay) (o : oracle) (client payload : bytes) (backend : net.UDPAddr)
    : Relay * list task :=
  match o_err o with
  | Some _ => drop_packet r client payload WriteError
  | None => (set_fresh r ({[dials r]} ∪ fresh r) (S (dials r)), [TStore (dials r) client payload backend])
  end.

(** [closeWithoutMetric] of a session nobody else has seen closes its connection. *)
Definition closeFresh (r : Relay) (c : nat) : Relay := set_fresh r (fresh r ∖ {[c]}) (dials r).

(** After the dial: the session with its connection [c] is stored, or the connection is
    closed again. *)
Definition storeSession (r : Relay) (o : oracle) (c : nat) (client payload : bytes) (backend : net.UDPAddr)
    : Relay * list task :=
  if closed r then drop_packet (closeFresh r c) client payload WriteError
  else match pool.table (sessions r) !! client with
  | Some existing => (closeFresh r c, [TWrite existing payload])
  | None =>
      if MaxSessions (cfg r) <=? table_size r then drop_packet (closeFresh r c) client payload SessionLimit
      else
        (* the connection now belongs to the session *)
        let r := set_fresh r (fresh r ∖ {[c]}) (dials r) in
        (set_pool r (pool.store i_client (sessions r)
                       {| i_client := client; i_backend := backend |} (o_now o)),
         [TWrite (pool.next (sessions r)) payload])
  end.

(** The rest of [forwardToBackend]; a closed connection takes nothing. *)
Definition writeBackend (r : Relay) (o : oracle) (sid : nat) (payload : bytes) : Relay * list task :=
  match pool.heap (sessions r) !! sid with
  | None => (r, [])
  | Some s =>
      let i := pool.s_id s in
      let r := set_pool r (pool.touch (sessions r) sid (o_now o)) in
      match (if pool.s_closed s then Some (Sentinel "net.ErrClosed") else o_err o) with
      | Some _ => (emit r [Lost (i_client i) payload WriteError], [TCloseSession sid BackendError])
      | None => (emit r [Sent (i_client i) (i_backend i) payload], [])
      end
  end.

Definition sessionIsCurrent (r : Relay) (sid : nat) : bool :=
  negb (closed r) && pool.is_current i_client (sessions r) sid.

(** One turn of [readBackend]. *)
Definition readBackend (r : Relay) (sid : nat) (got : res bytes) : Relay * list task :=
  match pool.heap (sessions r) !! sid with
  | None => (r, [])
  | Some s =>
      match got with
      | Err _ =>
          if pool.s_closed s || closed r then (r, [])
          else (emit r [ReplyLost ReadError 0], [TCloseSession sid BackendError])
      | Ok payload =>
          if MaxPacketSize (cfg r) <? zlen payload then (emit r [ReplyLost ReadError (zlen payload)], [])
          else if negb (sessionIsCurrent r sid) then (r, [])
          else (r, [TReply sid payload])
      end
  end.

Definition reply (r : Relay) (o : oracle) (sid : nat) (payload : bytes) : Relay * list task :=
  match pool.heap (sessions r) !! sid with
  | None => (r, [])
  | Some s =>
      match o_err o with
      | Some e =>
          let r := emit r [ReplyLost WriteError (zlen payload)] in
          if closed r || errors_Is "net.ErrClosed" e then (r, []) else (r, [TCloseSession sid BackendError])
      | None =>
          (emit (set_pool r (pool.touch (sessions r) sid (o_now o)))
             [Replied (i_client (pool.s_id s)) payload], [])
      end
  end.

Definition closeSession (r : Relay) (sid : nat) (reason : close_reason) : Relay * list task :=
  if pool.is_current i_client (sessions r) sid
  then (set_pool r (pool.unlink i_client (sessions r) sid), [TClose sid reason])
  else (r, [TCloseQuiet sid]).

(** [close]: counted, and once. *)
Definition close (r : Relay) (sid : nat) (reason : close_reason) : Relay :=
  match pool.heap (sessions r) !! sid with
  | Some s => if pool.s_closed s then r
              else emit (set_pool r (pool.close (sessions r) sid true)) [SessionClosed sid reason]
  | None => r
  end.

(** One session of the expiry loop's snapshot. *)
Definition idle_check (r : Relay) (sid : nat) (now : Z) : Relay * list task :=
  match pool.heap (sessions r) !! sid with
  | Some s => if IdleTimeout (cfg r) <=? now - pool.s_last s
              then (r, [TCloseSession sid IdleTimeoutReached]) else (r, [])
  | None => (r, [])
  end.

Definition snapshotSessions (r : Relay) : list nat := (map_to_list (pool.table (sessions r))).*2.

Definition Close (r : Relay) : Relay * list task :=
  if closed r then (r, [])
  else ({| cfg := cfg r; closed := true; sessions := pool.set_table (sessions r) ∅; fresh := fresh r; dials := dials r;
           log := log r |},
        (λ sid, TClose sid Shutdown) <$> snapshotSessions r).

Definition run_task (r : Relay) (o : oracle) (t : task) : Relay * list task :=
  match t with
  | TPacket client payload => sessionForClient r client payload
  | TDial client payload backend => dialSession r o client payload backend
  | TStore c client payload backend => storeSession r o c client payload backend
  | TWrite sid payload => writeBackend r o sid payload
  | TRead sid got => readBackend r sid got
  | TReply sid payload => reply r o sid payload
  | TCloseSession sid reason => closeSession r sid reason
  | TClose sid reason => (close r sid reason, [])
  | TCloseQuiet sid => (set_pool r (pool.close (sessions r) sid false), [])
  | TIdle sid now => idle_check r sid now
  end.

(** [New]: [listenAddr] is the result of [net.ResolveUDPAddr] on the listen address,
    [chosen] the configured resolver or the result of [NewStaticBackendResolver], and
    [listener] the result of [net.ListenUDP]. *)
Definition New (listenAddr : option error) (chosen : res R) (listener : option error) (c : Config)
    : res (Relay * R) :=
  if IdleTimeout c <=? 0 then Err (errors_New "idle timeout must be positive")
  else if BackendDialTimeout c <=? 0 then Err (errors_New "backend dial timeout must be positive")
  else if MaxSessions c <=? 0 then Err (errors_New "max sessions must be positive")
  else if MaxPacketSize c <=? 0 then Err (errors_New "max packet size must be positive")
  else match listenAddr with
  | Some e => Err (Errorf "resolve UDP listen address %q: %w" [AStr (Listen c)] [e])
  | None =>
      let? resolver := chosen in
      match listener with
      | Some e => Err (Errorf "listen UDP %q: %w" [AStr (Listen c)] [e])
      | None => Ok ({| cfg := c; closed := false; sessions := pool.empty_pool; fresh := ∅; dials := 0; log := [] |}, resolver)
      end
  end.

(** A datagram arrives and fits the buffer; one does not; the listener fails; a
    backend's datagram or error arrives; the ticker fires; the relay is closed; or a
    task under way moves. *)
Inductive step : Relay * list task → Relay * list task → Prop :=
| step_datagram r ts client payload :
    zlen payload ≤ MaxPacketSize (cfg r) →
    step (r, ts) (emit r [Received client payload], TPacket client payload :: ts)
| step_oversized r ts n : MaxPacketSize (cfg r) < n → step (r, ts) (emit r [Unread n], ts)
| step_listener_error r ts : step (r, ts) (emit r [Unread 0], ts)
| step_backend r ts sid s got :
    pool.heap (sessions r) !! sid = Some s → step (r, ts) (r, TRead sid got :: ts)
| step_tick r ts now :
    step (r, ts) (r, ((λ sid, TIdle sid now) <$> snapshotSessions r) ++ ts)
| step_close r ts r' ts' : Close r = (r', ts') → step (r, ts) (r', ts' ++ ts)
| step_task r o t before after r' ts' :
    run_task r o t = (r', ts') → step (r, before ++ t :: after) (r', before ++ ts' ++ after).

Inductive reachable : Relay * list task → Prop :=
| reach_new listenAddr chosen listener c r :
    New listenAddr chosen listener c = Ok (r, resolver) → reachable (r, [])
| reach_step st st' : reachable st → step st st' → reachable st'.

End relay.

Definition cleanupInterval (idleTimeout : Z) : Z :=
  let interval := Z.quot idleTimeout 2 in
  if interval <? 10000000 then 10000000 else if 1000000000 <? interval then 1000000000 else interval.

End udprelay.

(** ** Lemmas: the invariant of all runs *)

Section invariant.
Import udprelay.
Context {R : Type} `{BackendResolver R} (resolver : R).

(** The resolver selected this backend for a datagram the client had sent. *)
Definition chosen (l : list event) (client : bytes) (backend : net.UDPAddr) : Prop :=
  ∃ payload sel, Received client payload ∈ l ∧ ResolveBackend resolver client payload = Ok sel ∧
    bs_Addr sel = Some backend.

Definition event_ok (l : list event) (e : event) : Prop :=
  match e with
  | Sent client backend _ => chosen l client backend
  | Replied client _ => ∃ backend, chosen l client backend
  | _ => True
  end.

Record state_ok (r : Relay) : Prop := {
  ok_pool : pool.pool_ok i_client (sessions r);
  ok_size : table_size r ≤ MaxSessions (cfg r);
  ok_max : 0 < MaxSessions (cfg r);
  ok_heap : ∀ sid s, pool.heap (sessions r) !! sid = Some s →
    chosen (log r) (i_client (pool.s_id s)) (i_backend (pool.s_id s));
  ok_log : Forall (event_ok (log r)) (log r)
}.

Definition held (r : Relay) (sid : nat) : Prop := is_Some (pool.heap (sessions r) !! sid).

Definition task_ok (r : Relay) (t : task) : Prop :=
  match t with
  | TPacket client payload => Received client payload ∈ log r
  | TDial client _ backend | TStore _ client _ backend => chosen (log r) client backend
  | TWrite sid _ | TRead sid _ | TReply sid _ | TCloseSession sid _ | TIdle sid _ => held r sid
  | TClose sid _ | TCloseQuiet sid => held r sid ∧ pool.detached (sessions r) sid
  end.

Record grows (r r' : Relay) : Prop := {
  gr_cfg : cfg r' = cfg r;
  gr_pool : pool.pool_grows (sessions r) (sessions r');
  gr_log : ∃ es, log r' = log r ++ es
}.

(** The datagrams that were received, that are settled (sent or lost), and the one a
    task still has to deliver. *)
Definition received (l : list event) : list (bytes * bytes) :=
  omap (λ e, match e with Received c p => Some (c, p) | _ => None end) l.
Definition settled (l : list event) : list (bytes * bytes) :=
  omap (λ e, match e with Sent c _ p | Lost c p _ => Some (c, p) | _ => None end) l.
Definition pending (r : Relay) (t : task) : option (bytes * bytes) :=
  match t with
  | TPacket c p | TDial c p _ | TStore _ c p _ => Some (c, p)
  | TWrite sid p => s ← pool.heap (sessions r) !! sid; Some (i_client (pool.s_id s), p)
  | _ => None
  end.

(** What an operation that is responsible for the datagrams [before] does: it keeps the
    invariant, and each of those datagrams is settled or the duty of a new task. *)
Record good (r : Relay) (before : list (bytes * bytes)) (out : Relay * list task) : Prop := {
  good_state : state_ok out.1;
  good_grows : grows r out.1;
  good_tasks : Forall (task_ok out.1) out.2;
  good_duty : ∃ es, log out.1 = log r ++ es ∧ received es = [] ∧
    settled es ++ omap (pending out.1) out.2 ≡ₚ before
}.

Lemma chosen_mono l es client backend : chosen l client backend → chosen (l ++ es) client backend.
Proof. intros (p & sel & Hin & ?). exists p, sel. rewrite elem_of_app. tauto. Qed.

Lemma event_ok_mono l es e : event_ok l e → event_ok (l ++ es) e.
Proof. destruct e; try done; cbn; [apply chosen_mono|]. intros [b Hb]. exists b. by apply chosen_mono. Qed.

Lemma held_grows r r' sid : grows r r' → held r sid → held r' sid.
Proof. intros [_ [Hh _] _] [s Hs]. destruct (Hh sid s Hs) as (s' & ? & _). by exists s'. Qed.

Lemma relay_task_ok_grows r r' t : grows r r' → task_ok r t → task_ok r' t.
Proof.
  intros Hg. pose proof (held_grows r r') as Hh. destruct (gr_log _ _ Hg) as [es E].
  destruct t; cbn [task_ok]; rewrite ?E; try (by eauto).
  - rewrite elem_of_app. by left.
  - apply chosen_mono.
  - apply chosen_mono.
  - intros [Hs Hd]. split; [by eauto|]. by eapply pool.detached_grows; [apply gr_pool| |].
  - intros [Hs Hd]. split; [by eauto|]. by eapply pool.detached_grows; [apply gr_pool| |].
Qed.

Lemma pending_grows r r' t : grows r r' → task_ok r t → pending r' t = pending r t.
Proof.
  intros Hg. destruct t; try done. cbn. intros [s Hs]. rewrite Hs.
  destruct (pool.pg_heap _ _ (gr_pool _ _ Hg) sid s Hs) as (s' & -> & E). cbn. by rewrite E.
Qed.

(** The one way states change: the pool and the log grow. *)
Lemma good_update r before r' ts' es :
  state_ok r → cfg r' = cfg r → log r' = log r ++ es →
  pool.pool_ok i_client (sessions r') ∧ pool.pool_grows (sessions r) (sessions r') →
  table_size r' ≤ MaxSessions (cfg r) →
  (∀ sid s, pool.heap (sessions r) !! sid = None → pool.heap (sessions r') !! sid = Some s →
     chosen (log r) (i_client (pool.s_id s)) (i_backend (pool.s_id s))) →
  Forall (event_ok (log r)) es → Forall (task_ok r') ts' → received es = [] →
  settled es ++ omap (pending r') ts' ≡ₚ before →
  good r before (r', ts').
Proof.
  intros Hok Hc Hl [Hp Hpg] Hsz Hnew Hes Hts Hrec Hset. constructor; cbn [fst snd]; try done.
  - constructor; try done; [by rewrite Hc|rewrite Hc; apply (ok_max _ Hok)| |].
    + intros sid s Hs. rewrite Hl. apply chosen_mono.
      destruct (pool.heap (sessions r) !! sid) as [s0|] eqn:E; [|by eapply Hnew].
      destruct (pool.pg_heap _ _ Hpg sid s0 E) as (s1 & Hs1 & Eid). rewrite Hs in Hs1. injection Hs1 as <-.
      rewrite Eid. by apply (ok_heap _ Hok sid).
    + rewrite Hl. apply Forall_app. split; (eapply Forall_impl; [|apply event_ok_mono]); [apply (ok_log _ Hok)|done].
  - constructor; [done|done|by exists es].
  - by exists es.
Qed.

Lemma good_pool r before p es ts' :
  state_ok r → pool.pool_ok i_client p ∧ pool.pool_grows (sessions r) p →
  pool.table p ⊆ pool.table (sessions r) →
  (∀ sid, pool.heap (sessions r) !! sid = None → pool.heap p !! sid = None) →
  Forall (event_ok (log r)) es → Forall (task_ok (emit (set_pool r p) es)) ts' → received es = [] →
  settled es ++ omap (pending (emit (set_pool r p) es)) ts' ≡ₚ before →
  good r before (emit (set_pool r p) es, ts').
Proof.
  intros Hok Hp Hsub Hnew Hes Hts Hrec Hset. eapply good_update; try done.
  - etransitivity; [|apply (ok_size _ Hok)]. unfold table_size. cbn. apply Nat2Z.inj_le, map_subseteq_size, Hsub.
  - intros sid s Hn Hs. cbn in Hs. by rewrite (Hnew sid Hn) in Hs.
Qed.

Lemma set_pool_same r : set_pool r (sessions r) = r.
Proof. by destruct r. Qed.
Lemma emit_nil r : emit r [] = r.
Proof. destruct r. unfold emit. cbn. by rewrite app_nil_r. Qed.

Lemma good_emit r before es ts' :
  state_ok r → Forall (event_ok (log r)) es → Forall (task_ok (emit r es)) ts' → received es = [] →
  settled es ++ omap (pending (emit r es)) ts' ≡ₚ before → good r before (emit r es, ts').
Proof.
  intros Hok. pose proof (good_pool r before (sessions r) es ts' Hok) as Hg. rewrite set_pool_same in Hg.
  intros. apply Hg; try done. split; [apply (ok_pool _ Hok)|apply pool.pool_grows_refl].
Qed.

Lemma good_tasks_only r before ts' :
  state_ok r → Forall (task_ok r) ts' → omap (pending r) ts' ≡ₚ before → good r before (r, ts').
Proof.
  intros Hok. pose proof (good_emit r before [] ts' Hok) as Hg. rewrite emit_nil in Hg. intros. by apply Hg.
Qed.

Lemma good_drop r client payload why : state_ok r → good r [(client, payload)] (drop_packet r client payload why).
Proof. intros. unfold drop_packet. apply good_emit; try done. by repeat constructor. Qed.

Lemma table_held r k sid : state_ok r → pool.table (sessions r) !! k = Some sid →
  ∃ s, pool.heap (sessions r) !! sid = Some s ∧ i_client (pool.s_id s) = k.
Proof. intros Hok Hk. destruct (pool.pok_table _ _ (ok_pool _ Hok) k sid Hk) as (s & ? & ? & _). by exists s. Qed.

(** A packet handed to the session the table has for its client. *)
Lemma good_existing r client payload sid :
  state_ok r → pool.table (sessions r) !! client = Some sid →
  good r [(client, payload)] (r, [TWrite sid payload]).
Proof.
  intros Hok (s & Hs & <-)%table_held; [|done]. apply good_tasks_only; [done| |].
  - constructor; [by exists s|constructor].
  - cbn. by rewrite Hs.
Qed.

Lemma sessionForClient_good r client payload :
  state_ok r → Received client payload ∈ log r →
  good r [(client, payload)] (sessionForClient resolver r client payload).
Proof.
  intros Hok Hin. unfold sessionForClient. destruct (closed r); [by apply good_drop|].
  destruct (pool.table _ !! client) as [sid|] eqn:Ek; [by apply good_existing|].
  destruct (_ <=? _); [by apply good_drop|].
  destruct (ResolveBackend resolver client payload) as [sel|] eqn:Er; [|by apply good_drop].
  destruct (bs_Addr sel) as [addr|] eqn:Ea; [|by apply good_drop].
  apply good_tasks_only; [done| |done]. constructor; [|constructor]. by exists payload, sel.
Qed.

(** Connections that are dialled and closed concern no clause of the invariant. *)
Lemma fresh_ok r cs n : state_ok r → state_ok (set_fresh r cs n).
Proof. intros []. by constructor. Qed.

Lemma good_fresh r cs n before out : good (set_fresh r cs n) before out → good r before out.
Proof. intros [Hs [Hc Hp Hl] Ht Hd]. by constructor. Qed.

Lemma dialSession_good r o client payload backend :
  state_ok r → chosen (log r) client backend →
  good r [(client, payload)] (dialSession r o client payload backend).
Proof.
  intros Hok Hch. unfold dialSession. destruct (o_err o); [by apply good_drop|].
  eapply good_fresh, good_tasks_only; [by apply fresh_ok| |done]. by constructor.
Qed.

Lemma storeSession_good r o c client payload backend :
  state_ok r → chosen (log r) client backend →
  good r [(client, payload)] (storeSession r o c client payload backend).
Proof.
  intros Hok Hch. unfold storeSession, closeFresh. pose proof (fresh_ok r (fresh r ∖ {[c]}) (dials r) Hok) as Hok'.
  destruct (closed r); [by eapply good_fresh, good_drop|].
  destruct (pool.table _ !! client) as [sid|] eqn:Ek; [by eapply good_fresh, good_existing|].
  destruct (_ <=? _) eqn:Esz; [by eapply good_fresh, good_drop|]. apply Z.leb_gt in Esz. cbn zeta.
  eapply good_fresh. cbn [set_fresh sessions].
  set (i := {| i_client := client; i_backend := backend |}).
  pose proof (pool.store_ok i_client (sessions r) i (o_now o) (ok_pool _ Hok) Ek) as Hst.
  rewrite <- (emit_nil (set_pool _ _)). eapply good_update; try done; cbn [emit set_pool set_fresh sessions].
  - unfold table_size in *. cbn. rewrite map_size_insert_None by done. lia.
  - intros sid s Hn. cbn. intros [[_ <-]|[_ ?]]%lookup_insert_Some; [done|congruence].
  - constructor; [|constructor]. eexists. cbn. apply lookup_insert_eq.
  - cbn. by rewrite lookup_insert_eq.
Qed.

Lemma touch_same (p : pool.Pool ident) sid now :
  pool.table (pool.touch p sid now) = pool.table p ∧
  ∀ sid', pool.heap p !! sid' = None → pool.heap (pool.touch p sid now) !! sid' = None.
Proof.
  unfold pool.touch. destruct (pool.heap p !! sid) as [s|] eqn:E; [|done]. split; [done|]. cbn. intros sid' Hn.
  rewrite lookup_insert_ne; [done|congruence].
Qed.

Lemma good_touch r before sid now es ts' :
  state_ok r → Forall (event_ok (log r)) es →
  Forall (task_ok (emit (set_pool r (pool.touch (sessions r) sid now)) es)) ts' → received es = [] →
  settled es ++ omap (pending (emit (set_pool r (pool.touch (sessions r) sid now)) es)) ts' ≡ₚ before →
  good r before (emit (set_pool r (pool.touch (sessions r) sid now)) es, ts').
Proof.
  intros Hok. destruct (touch_same (sessions r) sid now) as [Et Eh]. intros.
  apply good_pool; try done; [apply pool.touch_ok, (ok_pool _ Hok)|by rewrite Et].
Qed.

Lemma relay_writeBackend_good r o sid payload :
  state_ok r → held r sid →
  good r (option_list (pending r (TWrite sid payload))) (writeBackend r o sid payload).
Proof.
  intros Hok [s Hs]. unfold writeBackend. cbn [pending]. rewrite Hs. cbn [mbind option_bind option_list].
  destruct (if pool.s_closed s then _ else _).
  - apply good_touch; try done; [by repeat constructor|].
    constructor; [|constructor]. cbn. unfold pool.touch. rewrite Hs. eexists. apply lookup_insert_eq.
  - apply good_touch; try done. constructor; [|constructor]. apply (ok_heap _ Hok _ _ Hs).
Qed.

Lemma relay_readBackend_good r sid got : state_ok r → held r sid → good r [] (readBackend r sid got).
Proof.
  intros Hok Hh. unfold readBackend. destruct (pool.heap _ !! sid) as [s|]; [|by apply good_tasks_only].
  destruct got as [payload|e].
  - destruct (_ <? _); [apply good_emit; try done; by repeat constructor|].
    destruct (negb _); apply good_tasks_only; try done. by repeat constructor.
  - destruct (_ || _); [by apply good_tasks_only|]. apply good_emit; try done; by repeat constructor.
Qed.

Lemma relay_reply_good r o sid payload : state_ok r → held r sid → good r [] (reply r o sid payload).
Proof.
  intros Hok Hh. unfold reply. destruct (pool.heap _ !! sid) as [s|] eqn:Es; [|by apply good_tasks_only].
  destruct (o_err o) as [e|].
  - destruct (_ || _); apply good_emit; try done; by repeat constructor.
  - apply good_touch; try done. constructor; [|constructor]. eexists. apply (ok_heap _ Hok _ _ Es).
Qed.

Lemma relay_closeSession_good r sid reason : state_ok r → held r sid → good r [] (closeSession r sid reason).
Proof.
  intros Hok Hh. unfold closeSession. destruct (pool.is_current _ _ sid) eqn:Ec.
  - rewrite <- (emit_nil (set_pool _ _)). apply good_pool; try done.
    + apply pool.unlink_ok, (ok_pool _ Hok).
    + apply pool.unlink_subseteq.
    + intros sid' Hn. unfold pool.unlink. by destruct (pool.heap (sessions r) !! sid).
    + constructor; [|constructor]. split; cbn [emit set_pool sessions].
      * destruct Hh as [s Hs]. exists s. cbn. unfold pool.unlink. by rewrite Hs.
      * by apply pool.unlink_detached; [apply (ok_pool _ Hok)|].
  - apply good_tasks_only; try done. constructor; [|constructor]. split; [done|].
    destruct Hh as [s Hs]. by eapply pool.not_current_detached; [apply (ok_pool _ Hok)| |].
Qed.

Lemma close_same (p : pool.Pool ident) sid metric :
  pool.table (pool.close p sid metric) = pool.table p ∧
  ∀ sid', pool.heap p !! sid' = None → pool.heap (pool.close p sid metric) !! sid' = None.
Proof.
  unfold pool.close. destruct (pool.heap p !! sid) as [s|] eqn:E; [|done].
  destruct (pool.s_closed s); [done|]. split; [done|]. cbn. intros sid' Hn. rewrite lookup_insert_ne; [done|congruence].
Qed.

Lemma good_close r sid metric es :
  state_ok r → pool.detached (sessions r) sid → Forall (event_ok (log r)) es → received es = [] → settled es = [] →
  good r [] (emit (set_pool r (pool.close (sessions r) sid metric)) es, []).
Proof.
  intros Hok Hd ?? Hset. destruct (close_same (sessions r) sid metric) as [Et Eh].
  apply good_pool; try done; [by apply pool.close_ok; [apply (ok_pool _ Hok)|]|by rewrite Et|by rewrite Hset].
Qed.

Lemma relay_run_task_good r o t :
  state_ok r → task_ok r t → good r (option_list (pending r t)) (run_task resolver r o t).
Proof.
  intros Hok Ht. destruct t as [c p|c p b|k c p b|sid p|sid got|sid p|sid reason|sid reason|sid|sid now]; cbn [run_task].
  - by apply sessionForClient_good.
  - by apply dialSession_good.
  - by apply storeSession_good.
  - by apply relay_writeBackend_good.
  - by apply relay_readBackend_good.
  - by apply relay_reply_good.
  - by apply relay_closeSession_good.
  - destruct Ht as [_ Hd]. unfold close. destruct (pool.heap _ !! sid) as [s|]; [|by apply good_tasks_only].
    destruct (pool.s_closed s); [by apply good_tasks_only|]. apply good_close; try done. by repeat constructor.
  - destruct Ht as [_ Hd]. rewrite <- (emit_nil (set_pool _ _)). by apply good_close.
  - unfold idle_check. destruct (pool.heap _ !! sid) as [s|] eqn:Es; [|by apply good_tasks_only].
    destruct (_ <=? _); apply good_tasks_only; try done. by repeat constructor.
Qed.

(** The invariant of runs, for the tasks under way in any order. *)
Definition inv (st : Relay * list task) : Prop :=
  state_ok st.1 ∧ Forall (task_ok st.1) st.2 ∧
  received (log st.1) ≡ₚ settled (log st.1) ++ omap (pending st.1) st.2.

Lemma inv_perm r ts ts' : ts ≡ₚ ts' → inv (r, ts) → inv (r, ts').
Proof.
  intros Hp (? & Hts & Hc). unfold inv. cbn [fst snd] in *. split_and!; [done| |].
  - rewrite Forall_forall in *. intros t Ht. apply Hts. by rewrite Hp.
  - etransitivity; [exact Hc|]. by apply Permutation_app_head, (omap_Permutation (pending r) _ _ Hp).
Qed.

Lemma pendings_grow r r' ts :
  grows r r' → Forall (task_ok r) ts → Forall (task_ok r') ts ∧ omap (pending r') ts = omap (pending r) ts.
Proof.
  intros Hg. induction 1 as [|t ts Ht _ [IH1 IH2]]; [done|]. split.
  - constructor; [by eapply relay_task_ok_grows|done].
  - cbn. by rewrite (pending_grows r r' t), IH2.
Qed.

(** An operation that takes over the duty of one task. *)
Lemma inv_good r t rest out :
  inv (r, t :: rest) → good r (option_list (pending r t)) out → inv (out.1, out.2 ++ rest).
Proof.
  intros (Hok & Hts & Hcons) [Hok' Hg Hnew (es & El & Erec & Eset)]. cbn [fst snd] in *.
  apply Forall_cons in Hts as [_ Hrest]. destruct (pendings_grow r out.1 rest Hg Hrest) as [Hrest' Ep].
  split_and!; cbn [fst snd]; [done|by apply Forall_app|].
  rewrite El. unfold received, settled in *. rewrite !omap_app, Erec, app_nil_r, Ep, Hcons. cbn.
  rewrite <- app_assoc, (app_assoc _ (omap _ out.2)), Eset. by destruct (pending r t).
Qed.

(** One that has no datagram to deliver. *)
Lemma inv_new r ts out : inv (r, ts) → good r [] out → inv (out.1, out.2 ++ ts).
Proof.
  intros (Hok & Hts & Hcons) [Hok' Hg Hnew (es & El & Erec & Eset)]. cbn [fst snd] in *.
  destruct (pendings_grow r out.1 ts Hg Hts) as [Hts' Ep].
  split_and!; cbn [fst snd]; [done|by apply Forall_app|].
  rewrite El. unfold received, settled in *. rewrite !omap_app, Erec, app_nil_r, Ep, Hcons.
  by rewrite <- app_assoc, (app_assoc _ (omap _ out.2)), Eset.
Qed.

Lemma snapshot_held r sid : state_ok r → sid ∈ snapshotSessions r → held r sid.
Proof.
  intros Hok ([k sid'] & -> & Hin%elem_of_map_to_list)%list_elem_of_fmap.
  destruct (table_held r k sid' Hok Hin) as (s & ? & _). by exists s.
Qed.

Lemma omap_none {A B} (f : A → option B) l : Forall (λ x, f x = None) l → omap f l = [].
Proof. induction 1 as [|x l Hx _ IH]; [done|]. cbn. by rewrite Hx. Qed.

Lemma relay_Close_good r : state_ok r → good r [] (Close r).
Proof.
  intros Hok. unfold Close. destruct (closed r); [by apply good_tasks_only|].
  assert (pool.table (pool.set_table (sessions r) ∅) = (∅ : gmap bytes nat)) as Et by done.
  apply (good_update r [] _ _ []); try done; cbn [sessions log].
  - by rewrite app_nil_r.
  - apply pool.set_table_ok; [apply (ok_pool _ Hok)|apply map_empty_subseteq].
  - unfold table_size. cbn. rewrite map_size_empty. pose proof (ok_max _ Hok). lia.
  - intros sid s Hn Hs. cbn in Hs. congruence.
  - apply Forall_fmap, Forall_forall. intros sid Hin. split; [exact (snapshot_held r sid Hok Hin)|]. by intros k.
  - cbn. rewrite omap_none; [done|]. by apply Forall_fmap, Forall_forall.
Qed.

Lemma inv_receive r ts client payload :
  inv (r, ts) → inv (emit r [Received client payload], TPacket client payload :: ts).
Proof.
  intros (Hok & Hts & Hcons). cbn [fst snd] in *.
  assert (grows r (emit r [Received client payload])) as Hg.
  { constructor; [done|apply pool.pool_grows_refl|by eexists]. }
  destruct (pendings_grow _ _ ts Hg Hts) as [Hts' Ep]. split_and!; cbn [fst snd].
  - destruct Hok as [? ? ? Hh Hl]. constructor; cbn [emit sessions cfg log]; try done.
    + intros sid s Hs. by apply chosen_mono, (Hh sid).
    + apply Forall_app. split; [|by repeat constructor]. eapply Forall_impl; [exact Hl|apply event_ok_mono].
  - constructor; [|done]. cbn. apply elem_of_app. right. left.
  - cbn [emit log]. unfold received, settled in *. rewrite !omap_app. cbn. rewrite Ep, Hcons, app_nil_r.
    rewrite <- app_assoc. apply Permutation_app_head. apply Permutation_app_comm.
Qed.

Lemma relay_step_inv st st' : inv st → step resolver st st' → inv st'.
Proof.
  intros Hi Hs. destruct Hs as [r ts client payload|r ts n|r ts|r ts sid s got Es|r ts now|r ts r' ts' E
    |r o t before after r' ts' E].
  - by apply inv_receive.
  - apply (inv_new r ts (emit r [Unread n], []) Hi), good_emit; try done; [apply Hi|by repeat constructor].
  - apply (inv_new r ts (emit r [Unread 0], []) Hi), good_emit; try done; [apply Hi|by repeat constructor].
  - apply (inv_new r ts (r, [TRead sid got]) Hi), good_tasks_only; [apply Hi| |done].
    constructor; [by exists s|constructor].
  - apply (inv_new r ts (r, _) Hi), good_tasks_only; [apply Hi| |].
    + apply Forall_fmap, Forall_forall. intros sid Hin. eapply snapshot_held; [apply Hi|exact Hin].
    + rewrite omap_none; [done|]. by apply Forall_fmap, Forall_forall.
  - pose proof (inv_new r ts (Close r) Hi) as Hn. rewrite E in Hn. apply Hn. rewrite <- E. apply relay_Close_good, Hi.
  - apply (inv_perm r _ (t :: before ++ after)) in Hi; [|by rewrite Permutation_middle].
    assert (good r (option_list (pending r t)) (r', ts')) as Hg.
    { rewrite <- E. apply relay_run_task_good; [apply Hi|]. destruct Hi as (_ & Ht & _). by apply Forall_cons in Ht as [? _]. }
    apply (inv_perm r' (ts' ++ before ++ after)); [by rewrite Permutation_app_swap_app|].
    by apply (inv_good r t (before ++ after) (r', ts')).
Qed.

Lemma relay_New_inv listenAddr chosen listener c r res :
  New listenAddr chosen listener c = Ok (r, res : R) →
  r = {| cfg := c; closed := false; sessions := pool.empty_pool; fresh := ∅; dials := 0; log := [] |} ∧
  0 < IdleTimeout c ∧ 0 < MaxSessions c ∧ 0 < MaxPacketSize c.
Proof.
  unfold New. intros E. destruct (_ <=? _) eqn:E1; [done|]. destruct (_ <=? _) eqn:E2 in E; [done|].
  destruct (_ <=? _) eqn:E3 in E; [done|]. destruct (_ <=? _) eqn:E4 in E; [done|].
  destruct listenAddr; [done|]. destruct chosen; [|done]. destruct listener; [done|]. cbn in E. simplify_eq.
  split; [done|lia].
Qed.

Lemma relay_reachable_inv st : reachable resolver st → inv st.
Proof.
  induction 1 as [la ch li c r E|st st' _ IH Hs]; [|by eapply relay_step_inv].
  apply relay_New_inv in E as (-> & _ & Hm & _). split_and!; cbn; [|constructor|done].
  constructor; cbn; [apply pool.empty_pool_ok|unfold table_size; cbn; rewrite map_size_empty; lia|done|done|constructor].
Qed.

(** *** Sessions adrift, and progress *)

Definition closes (t : task) (sid : nat) : Prop :=
  match t with TClose sid' _ | TCloseQuiet sid' => sid' = sid | _ => False end.

(** Whoever takes a session out of the table is about to close it. *)
Definition covered (r : Relay) (out : Relay * list task) : Prop :=
  ∀ sid, pool.adrift (sessions out.1) sid → pool.adrift (sessions r) sid ∨ Exists (λ t, closes t sid) out.2.

Lemma relay_run_task_covered r o t : state_ok r → covered r (run_task resolver r o t).
Proof.
  intros Hok sid. destruct t; cbn [run_task].
  - unfold sessionForClient, drop_packet. repeat case_match; by left.
  - unfold dialSession, drop_packet. repeat case_match; by left.
  - unfold storeSession, drop_packet. repeat case_match; cbn; try by left.
    intros Ha. left. eapply (pool.adrift_store i_client); [apply (ok_pool _ Hok)| |exact Ha]. done.
  - unfold writeBackend. repeat case_match; cbn; try (by left); intros ?%pool.adrift_touch; by left.
  - unfold readBackend. repeat case_match; by left.
  - unfold reply. repeat case_match; cbn; try (by left); intros ?%pool.adrift_touch; by left.
  - unfold closeSession. destruct (pool.is_current _ _ sid0) eqn:Ec; [|by left]. cbn.
    intros [?| ->]%pool.adrift_unlink; [by left|right; by left|apply (ok_pool _ Hok)|done].
  - unfold close. repeat case_match; cbn; try (by left). intros [? _]%pool.adrift_close; by left.
  - cbn. intros [? _]%pool.adrift_close; by left.
  - unfold idle_check. repeat case_match; by left.
Qed.

Lemma relay_closes_run r o t sid : closes t sid → ¬ pool.adrift (sessions (run_task resolver r o t).1) sid.
Proof.
  destruct t; cbn [closes]; try done; intros ->; cbn [run_task].
  - unfold close. destruct (pool.heap _ !! sid) as [s|] eqn:E; [destruct (pool.s_closed s) eqn:Ec|]; cbn.
    + intros (s' & ? & ? & _). congruence.
    + by intros [_ ?]%pool.adrift_close.
    + intros (s' & ? & _). congruence.
  - cbn. by intros [_ ?]%pool.adrift_close.
Qed.

Definition no_leak (st : Relay * list task) : Prop :=
  ∀ sid, pool.adrift (sessions st.1) sid → Exists (λ t, closes t sid) st.2.

Lemma relay_step_no_leak st st' : inv st → no_leak st → step resolver st st' → no_leak st'.
Proof.
  intros Hi Hn Hs. destruct Hs as [r ts client payload|r ts n|r ts|r ts sid s got Es|r ts now|r ts r' ts' E
    |r o t before after r' ts' E]; intros sid' Ha; cbn [fst snd emit sessions] in *; rewrite ?Exists_cons, ?Exists_app;
    try (by right; apply Hn); try (by apply Hn).
  - unfold Close in E. destruct (closed r); simplify_eq; [right; by apply Hn|].
    destruct Ha as (s & Hs & Hc & _). cbn in Hs. destruct (decide (sid' ∈ snapshotSessions r)) as [Hin|Hno].
    + left. apply Exists_exists. exists (TClose sid' Shutdown). split; [|done]. apply list_elem_of_fmap. by exists sid'.
    + right. apply (Hn sid'). exists s. split_and!; [done..|]. intros k Hk. apply Hno, list_elem_of_fmap.
      exists (k, sid'). by rewrite elem_of_map_to_list.
  - pose proof (relay_run_task_covered r o t (proj1 Hi) sid') as Hc. rewrite E in Hc. cbn in Hc.
    destruct (Hc Ha) as [Ha'|?]; [|tauto]. pose proof (Hn sid' Ha') as Hex. cbn in Hex.
    rewrite Exists_app, Exists_cons in Hex. destruct Hex as [?|[Ht|?]]; [tauto| |tauto].
    exfalso. apply (relay_closes_run r o t sid' Ht). by rewrite E.
Qed.

Lemma relay_reachable_no_leak st : reachable resolver st → no_leak st.
Proof.
  induction 1 as [la ch li c r E|st st' Hr IH Hs]; [|by eapply relay_step_no_leak; [apply relay_reachable_inv| |]].
  apply relay_New_inv in E as (-> & _). intros sid (s & Hs & _). done.
Qed.

(** *** Connections dialled for a session that is not stored *)

Definition stores (t : task) (c : nat) : Prop := match t with TStore c' _ _ _ => c' = c | _ => False end.

Definition no_fresh_leak (st : Relay * list task) : Prop :=
  ∀ c, c ∈ fresh st.1 → Exists (λ t, stores t c) st.2.

Lemma relay_run_task_fresh r o t c :
  c ∈ fresh (run_task resolver r o t).1 →
  (c ∈ fresh r ∧ ¬ stores t c) ∨ Exists (λ t', stores t' c) (run_task resolver r o t).2.
Proof.
  destruct t as [cl p|cl p b|k cl p b|sid p|sid got|sid p|sid reason|sid reason|sid|sid now]; cbn [run_task stores].
  - unfold sessionForClient, drop_packet. repeat case_match; cbn; by auto.
  - unfold dialSession, drop_packet. repeat case_match; cbn; [by auto|].
    intros [->%elem_of_singleton|?]%elem_of_union; [right; apply Exists_cons; by left|left; split; [done|intros []]].
  - unfold storeSession, drop_packet, closeFresh. repeat case_match; cbn; intros [? Hne]%elem_of_difference; left;
      (split; [done|]); intros ->; by apply Hne, elem_of_singleton.
  - unfold writeBackend. repeat case_match; cbn; by auto.
  - unfold readBackend. repeat case_match; cbn; by auto.
  - unfold reply. repeat case_match; cbn; by auto.
  - unfold closeSession. repeat case_match; cbn; by auto.
  - unfold close. repeat case_match; cbn; by auto.
  - cbn. by auto.
  - unfold idle_check. repeat case_match; cbn; by auto.
Qed.

Lemma relay_reachable_no_fresh_leak st : reachable resolver st → no_fresh_leak st.
Proof.
  induction 1 as [la ch li cf r E|st st' _ IH Hs].
  { apply relay_New_inv in E as (-> & _). intros c. cbn. by rewrite elem_of_empty. }
  destruct Hs as [r ts client payload|r ts n|r ts|r ts sid s got Es|r ts now|r ts r' ts' E
    |r o t before after r' ts' E]; intros c Hc; cbn [fst snd emit fresh] in *; rewrite ?Exists_cons, ?Exists_app;
    try (by right; apply IH); try (by apply IH).
  - right. apply IH. unfold Close in E. destruct (closed r); by injection E as <- _.
  - pose proof (relay_run_task_fresh r o t c) as Hf. rewrite E in Hf. destruct (Hf Hc) as [[Hin Hno]|?]; [|tauto].
    pose proof (IH c Hin) as Hex. cbn in Hex. rewrite Exists_app, Exists_cons in Hex. tauto.
Qed.

End invariant.

(** ** Lemmas: the resolvers keep their promise, and tasks finish *)

Section resolvers_ok.
Import udprelay.
Context (resolveUDP : bytes → res net.UDPAddr).

Lemma resolveBackend_valid backend addr :
  resolveBackend resolveUDP backend = Ok addr → validateBackendAddr addr = None.
Proof. unfold resolveBackend. intros E. repeat case_match; by simplify_eq. Qed.

Lemma static_laws backend r :
  NewStaticBackendResolver resolveUDP backend = Ok r → ResolverLaws r.
Proof.
  unfold NewStaticBackendResolver. destruct (resolveBackend _ _) as [addr|] eqn:E; [|done]. cbn.
  intros [= <-] client payload sel b [= <-] [= <-]. by eapply resolveBackend_valid.
Qed.

Lemma named_laws backend routes r :
  NewNamedBackendResolver resolveUDP backend routes = Ok r → ResolverLaws r.
Proof.
  unfold NewNamedBackendResolver. destruct (resolveBackend _ _) as [addr|] eqn:E; [|done]. cbn.
  destruct (resolve_routes _ _ _); [|done]. intros [= <-] client payload sel b [= <-] [= <-].
  by eapply resolveBackend_valid.
Qed.

(** The routes of a named resolver are the given ones, each resolved, and no name is
    given twice. *)
Lemma resolve_routes_spec routes m m' :
  resolve_routes resolveUDP routes m = Ok m' →
  m ⊆ m' ∧ NoDup (nr_Name <$> routes) ∧
  Forall (λ rt, m !! nr_Name rt = None ∧ ∃ addr, resolveBackend resolveUDP (nr_Backend rt) = Ok addr ∧
                m' !! nr_Name rt = Some addr) routes.
Proof.
  revert m. induction routes as [|rt rest IH]; intros m E; cbn in E.
  - simplify_eq. split_and!; [done|constructor..].
  - destruct (m !! nr_Name rt) as [|] eqn:En; [done|].
    destruct (resolveBackend _ _) as [addr|] eqn:Er; [|done].
    destruct (IH _ E) as (Hsub & Hnd & Hall).
    assert (m ⊆ <[nr_Name rt := addr]> m) as Hins by by apply insert_subseteq.
    split_and!; [by etransitivity| |].
    + constructor; [|done]. intros (rt' & Eq & Hin)%list_elem_of_fmap. rewrite Forall_forall in Hall.
      destruct (Hall rt' Hin) as [Hn _]. rewrite <- Eq, lookup_insert_eq in Hn. done.
    + constructor.
      * split; [done|]. exists addr. split; [done|]. eapply lookup_weaken; [|exact Hsub]. apply lookup_insert_eq.
      * eapply Forall_impl; [exact Hall|]. intros rt' [Hn ?]. split; [|done].
        by apply lookup_insert_None in Hn as [? _].
Qed.

End resolvers_ok.

Section draining.
Import udprelay.
Context {R : Type} `{BackendResolver R} (resolver : R).

(** A step of a task that is under way. *)
Inductive task_step : Relay * list task → Relay * list task → Prop :=
| task_step_intro r o t before after r' ts' :
    run_task resolver r o t = (r', ts') → task_step (r, before ++ t :: after) (r', before ++ ts' ++ after).

Definition weight (t : task) : nat :=
  match t with
  | TClose _ _ | TCloseQuiet _ => 1
  | TCloseSession _ _ => 2
  | TWrite _ _ | TReply _ _ | TIdle _ _ => 3
  | TStore _ _ _ _ | TRead _ _ => 4
  | TDial _ _ _ => 5
  | TPacket _ _ => 6
  end.

Lemma run_task_lighter r o t : (sum_list_with weight (run_task resolver r o t).2 < weight t)%nat.
Proof.
  destruct t; cbn [run_task weight]; unfold sessionForClient, dialSession, storeSession, writeBackend, readBackend, reply,
    closeSession, idle_check, drop_packet; repeat case_match; cbn; lia.
Qed.

Lemma relay_task_step_acc st : Acc (flip task_step) st.
Proof.
  destruct st as [r ts]. remember (sum_list_with weight ts) as n eqn:En. revert r ts En.
  induction n as [n IH] using lt_wf_ind. intros r ts ->. constructor. intros [r' ts'] Hs. unfold flip in Hs.
  inversion Hs as [r0 o t before after r1 new E]; subst. eapply IH; [|reflexivity].
  pose proof (run_task_lighter r o t) as Hl. rewrite E in Hl. cbn [snd] in Hl.
  rewrite !sum_list_with_app. cbn [sum_list_with]. lia.
Qed.

End draining.

(** ** Properties *)

Section properties.
Import udprelay.
Context {R : Type} `{BackendResolver R} (resolver : R).

(** C9: no datagram is lost silently or sent twice: in every run of the relay, whatever
    datagrams, failures, timers and shutdown interleave, the datagrams received from
    clients are exactly - with multiplicity - those sent to a backend, those counted
    as lost, and those a task is still working on. *)
Theorem datagrams_settled_once r ts :
  reachable resolver (r, ts) → received (log r) ≡ₚ settled (log r) ++ omap (pending r) ts.
Proof. intros Hr. by apply relay_reachable_inv in Hr as (_ & _ & ?). Qed.

(** C32: what is sent to a backend was received from that client, and goes to an address
    the resolver selected for one of the client's datagrams, which is a unicast
    address; what is sent to a client goes to one that sent a datagram before. *)
Theorem datagrams_go_where_resolved r ts `{!ResolverLaws resolver} :
  reachable resolver (r, ts) →
  (∀ client backend payload, Sent client backend payload ∈ log r →
     Received client payload ∈ log r ∧ chosen resolver (log r) client backend ∧
     validateBackendAddr backend = None) ∧
  (∀ client payload, Replied client payload ∈ log r → ∃ first, Received client first ∈ log r).
Proof.
  intros (Hok & _ & Hcons)%relay_reachable_inv. cbn [fst snd] in *. pose proof (ok_log _ _ Hok) as Hl.
  rewrite Forall_forall in Hl. split.
  - intros client backend payload Hin. pose proof (Hl _ Hin) as Hch. cbn in Hch. split_and!; [|done|].
    + assert ((client, payload) ∈ received (log r)) as Hrec.
      { rewrite Hcons. apply elem_of_app. left. apply list_elem_of_omap. by eexists; split; [exact Hin|]. }
      apply list_elem_of_omap in Hrec as (e & He & Ee). destruct e; by simplify_eq.
    + destruct Hch as (p & sel & _ & Hsel & Ha). by eapply selects_valid.
  - intros client payload Hin. destruct (Hl _ Hin) as (b & p & sel & ? & _). by exists p.
Qed.

(** C31: the relay's session table: it never holds more than the limit; every session in
    it is open and the only one of its client; the sessions counted as created less
    those counted as closed are never fewer than it holds; and when nothing is under
    way, no connection to a backend is open that is not in it, be it of a session that was
    stored or of one that was not. *)
Theorem relay_sessions_ok r ts :
  reachable resolver (r, ts) →
  table_size r ≤ MaxSessions (cfg r) ∧
  (∀ client sid, pool.table (sessions r) !! client = Some sid →
     ∃ s, pool.heap (sessions r) !! sid = Some s ∧ i_client (pool.s_id s) = client ∧ pool.s_closed s = false) ∧
  (length (pool.counted (sessions r)) + size (pool.table (sessions r)) ≤ length (pool.created (sessions r)))%nat ∧
  (ts = [] → fresh r = ∅ ∧
     ∀ sid s, pool.heap (sessions r) !! sid = Some s → pool.s_closed s = false →
       pool.table (sessions r) !! i_client (pool.s_id s) = Some sid).
Proof.
  intros Hr. pose proof (relay_reachable_no_leak _ _ Hr) as Hn. pose proof (relay_reachable_no_fresh_leak _ _ Hr) as Hf.
  apply relay_reachable_inv in Hr as (Hok & _). cbn [fst] in Hok.
  pose proof (ok_pool _ _ Hok) as Hp. split_and!; [apply (ok_size _ _ Hok)|apply (pool.pok_table _ _ Hp)| |].
  - by eapply pool.gauge_ok.
  - intros ->. split; [apply set_eq; intros c; split; [by intros []%Hf%Exists_nil|set_solver]|].
    intros sid s Hs Hc. destruct (pool.is_current i_client (sessions r) sid) eqn:Ec.
    + unfold pool.is_current in Ec. rewrite Hs in Ec. by apply bool_decide_eq_true_1 in Ec.
    + exfalso. assert (pool.adrift (sessions r) sid) as []%Hn%Exists_nil. exists s. split_and!; [done..|].
      by eapply pool.not_current_detached.
Qed.

(** Whatever state the relay is in and whatever the clock and the network answer,
    the work under way comes to an end: there is no infinite sequence of task steps,
    and as long as a task is left one can be taken. *)
Theorem relay_tasks_finish r ts :
  Acc (flip (task_step resolver)) (r, ts) ∧ (ts ≠ [] → ∃ st, task_step resolver (r, ts) st).
Proof.
  split; [apply relay_task_step_acc|]. destruct ts as [|t ts]; [done|]. intros _.
  destruct (run_task resolver r {| o_now := 0; o_err := None |} t) as [r' ts'] eqn:E.
  eexists. exact (task_step_intro resolver r _ t [] ts r' ts' E).
Qed.

(** Building a named resolver succeeds only with distinct route names, and then
    every route leads to the unicast address its backend resolved to, as does the
    default one, which is the one [ResolveBackend] selects. *)
Theorem named_resolver_exact (resolveUDP : bytes → res net.UDPAddr) backend routes r :
  NewNamedBackendResolver resolveUDP backend routes = Ok r →
  NoDup (nr_Name <$> routes) ∧
  Forall (λ rt, ∃ addr, nb_routes r !! nr_Name rt = Some addr ∧
                  resolveUDP (nr_Backend rt) = Ok addr ∧ validateBackendAddr addr = None) routes ∧
  ∀ client payload, ∃ addr, ResolveBackend r client payload =
      Ok {| bs_Name := gs"default"; bs_Addr := Some addr |} ∧
    resolveUDP backend = Ok addr ∧ validateBackendAddr addr = None.
Proof.
  unfold NewNamedBackendResolver. intros E.
  assert (∀ b a, resolveBackend resolveUDP b = Ok a → resolveUDP b = Ok a ∧ validateBackendAddr a = None)
    as Hr by (unfold resolveBackend; intros b a Ha; repeat case_match; by simplify_eq).
  destruct (resolveBackend resolveUDP backend) as [addr|] eqn:Ed; [|done]. cbn in E.
  destruct (resolve_routes _ _ _) as [m|] eqn:Em; [|done]. cbn in E. injection E as <-.
  apply resolve_routes_spec in Em as (_ & Hnd & Hall). split_and!; [done| |].
  - eapply Forall_impl; [exact Hall|]. intros rt (_ & a & Ha & Hm). exists a. split; [exact Hm|]. by apply Hr.
  - intros client payload. exists addr. split; [done|]. by apply Hr.
Qed.

End properties.

(** ** Concrete runs and witnesses *)

Section runs.
Import udprelay.

(** A run written down: inputs, and which of the tasks under way moves next. *)
Inductive command :=
| CDatagram (client payload : bytes)
| CBackend (sid : nat) (got : res bytes)
| CTask (i : nat) (o : oracle).

Definition relay_exec1 {R} `{BackendResolver R} (resolver : R) (st : Relay * list task) (c : command)
    : option (Relay * list task) :=
  let '(r, ts) := st in
  match c with
  | CDatagram client payload =>
      if zlen payload <=? MaxPacketSize (cfg r)
      then Some (emit r [Received client payload], TPacket client payload :: ts) else None
  | CBackend sid got =>
      match pool.heap (sessions r) !! sid with Some _ => Some (r, TRead sid got :: ts) | None => None end
  | CTask i o =>
      match ts !! i with
      | Some t => let '(r', ts') := run_task resolver r o t in Some (r', take i ts ++ ts' ++ drop (S i) ts)
      | None => None
      end
  end.

Fixpoint relay_exec {R} `{BackendResolver R} (resolver : R) (st : Relay * list task) (cs : list command)
    : option (Relay * list task) :=
  match cs with
  | [] => Some st
  | c :: cs' => st' ← relay_exec1 resolver st c; relay_exec resolver st' cs'
  end.

Lemma relay_exec_reachable {R} `{BackendResolver R} (resolver : R) st cs st' :
  reachable resolver st → relay_exec resolver st cs = Some st' → reachable resolver st'.
Proof.
  revert st. induction cs as [|c cs IH]; intros st Hr E; cbn in E; [by simplify_eq|].
  destruct (relay_exec1 resolver st c) as [st1|] eqn:E1; [|done]. cbn in E. eapply IH; [|exact E].
  eapply reach_step; [exact Hr|]. destruct st as [r ts], c as [client payload|sid got|i o]; cbn in E1.
  - destruct (_ <=? _) eqn:El; [|done]. simplify_eq. apply step_datagram. by apply Z.leb_le.
  - destruct (pool.heap (sessions r) !! sid) as [s|] eqn:Es; [|done]. simplify_eq. by eapply step_backend.
  - destruct (ts !! i) as [t|] eqn:Et; [|done]. destruct (run_task resolver r o t) as [r' ts'] eqn:Er. simplify_eq.
    rewrite <- (take_drop_middle ts i t Et) at 1. by eapply step_task.
Qed.

Definition sample_addr : net.UDPAddr :=
  {| net.ua_IP := Some 0xFFFF0A000001; net.ua_Port := 19132; net.ua_Zone := [] |}.
Definition sample_resolver : staticBackendResolver := {| sr_backend := sample_addr |}.

#[local] Instance sample_resolver_laws : ResolverLaws sample_resolver.
Proof. apply (static_laws (λ _, Ok sample_addr) gs"bedrock:19132"). reflexivity. Qed.

Definition sample_relay : Relay := {|
  cfg := {| Listen := gs":19132"; Backend := gs"bedrock:19132"; IdleTimeout := 1000; BackendDialTimeout := 1;
            MaxSessions := 1; MaxPacketSize := 1500 |};
  closed := false; sessions := pool.empty_pool; fresh := ∅; dials := 0; log := [] |}.

(** A datagram goes through, one of a second client finds the table full, and the
    backend answers the first client. *)
Definition sample_commands : list command :=
  let fine now := {| o_now := now; o_err := None |} in
  [CDatagram gs"192.0.2.1:5000" gs"hello"; CTask 0 (fine 1); CTask 0 (fine 1); CTask 0 (fine 1); CTask 0 (fine 1);
   CDatagram gs"192.0.2.2:5000" gs"hi"; CTask 0 (fine 2);
   CBackend 0 (Ok gs"welcome"); CTask 0 (fine 3); CTask 0 (fine 3)].

Definition sample_log : list event :=
  [Received gs"192.0.2.1:5000" gs"hello"; Sent gs"192.0.2.1:5000" sample_addr gs"hello";
   Received gs"192.0.2.2:5000" gs"hi"; Lost gs"192.0.2.2:5000" gs"hi" SessionLimit;
   Replied gs"192.0.2.1:5000" gs"welcome"].

#[local] Instance addr_eq_dec : EqDecision net.UDPAddr.
Proof. solve_decision. Defined.
#[local] Instance loss_eq_dec : EqDecision loss.
Proof. solve_decision. Defined.
#[local] Instance reason_eq_dec : EqDecision close_reason.
Proof. solve_decision. Defined.
#[local] Instance event_eq_dec : EqDecision event.
Proof. solve_decision. Defined.

(** A state the commands lead to. *)
Lemma relay_run_to cs (P : Relay * list task → bool) :
  match relay_exec sample_resolver (sample_relay, []) cs with Some st => P st | None => false end = true →
  ∃ st, reachable sample_resolver st ∧ P st = true.
Proof.
  intros H. destruct (relay_exec sample_resolver (sample_relay, []) cs) as [st|] eqn:E; [|done].
  exists st. split; [|done]. eapply relay_exec_reachable, E.
  apply (reach_new _ None (Ok sample_resolver) None (cfg sample_relay)). reflexivity.
Qed.

Lemma sample_relay_run :
  ∃ r, reachable sample_resolver (r, []) ∧ log r = sample_log ∧ table_size r = 1 ∧
    ∃ s, pool.heap (sessions r) !! 0%nat = Some s ∧ pool.s_closed s = false ∧
         i_client (pool.s_id s) = gs"192.0.2.1:5000".
Proof.
  destruct (relay_run_to sample_commands (λ st, match st.2 with [] => true | _ => false end
    && bool_decide (log st.1 = sample_log) && (table_size st.1 =? 1)
    && match pool.heap (sessions st.1) !! 0%nat with
       | Some s => negb (pool.s_closed s) && bool_decide (i_client (pool.s_id s) = gs"192.0.2.1:5000")
       | None => false end)) as ([r ts] & Hr & H); [vm_compute; reflexivity|].
  rewrite !andb_true_iff, bool_decide_eq_true, Z.eqb_eq in H. cbn [fst snd] in H. destruct H as [[[Hts ?] ?] Hs].
  destruct ts; [|done]. exists r. split_and!; [done..|].
  destruct (pool.heap (sessions r) !! 0%nat) as [s|]; [|done]. exists s.
  by rewrite andb_true_iff, bool_decide_eq_true, negb_true_iff in Hs.
Qed.

Lemma datagrams_settled_once_witness :
  ∃ r, log r = sample_log ∧ received (log r) ≡ₚ settled (log r) ++ omap (pending r) [].
Proof.
  destruct sample_relay_run as (r & Hr & Hl & _). exists r. split; [exact Hl|].
  exact (datagrams_settled_once sample_resolver r [] Hr).
Defined.

Lemma datagrams_go_where_resolved_witness :
  ∃ r, log r = sample_log ∧ validateBackendAddr sample_addr = None ∧
    ∃ first, Received gs"192.0.2.1:5000" first ∈ log r.
Proof.
  destruct sample_relay_run as (r & Hr & Hl & _). exists r. split; [exact Hl|].
  destruct (datagrams_go_where_resolved sample_resolver r [] Hr) as [Hs Hb]. split.
  - apply (Hs gs"192.0.2.1:5000" sample_addr gs"hello"). rewrite Hl. right. left.
  - apply (Hb _ gs"welcome"). rewrite Hl. do 4 right. left.
Defined.

Lemma relay_sessions_ok_witness :
  ∃ r, table_size r = 1 ∧ table_size r ≤ MaxSessions (cfg r) ∧
    pool.table (sessions r) !! (gs"192.0.2.1:5000" : bytes) = Some 0%nat.
Proof.
  destruct sample_relay_run as (r & Hr & _ & Hsz & s & Hs & Hc & Hcl). exists r. split; [exact Hsz|].
  destruct (relay_sessions_ok sample_resolver r [] Hr) as (Hm & _ & _ & Hq). split; [exact Hm|].
  rewrite <- Hcl. exact (proj2 (Hq eq_refl) 0%nat s Hs Hc).
Defined.

Lemma named_resolver_exact_witness :
  ∃ r, NewNamedBackendResolver (λ _, Ok sample_addr) gs"bedrock:19132"
         [{| nr_Name := gs"lobby"; nr_Backend := gs"lobby:19132" |}] = Ok r ∧
    validateBackendAddr sample_addr = None.
Proof.
  eexists. split; [reflexivity|].
  destruct (named_resolver_exact (λ _, Ok sample_addr) gs"bedrock:19132"
    [{| nr_Name := gs"lobby"; nr_Backend := gs"lobby:19132" |}] _ eq_refl) as (_ & _ & Hd).
  destruct (Hd [] []) as (addr & _ & [= <-] & Hv). exact Hv.
Defined.

End runs.
