(* ===== verification/VoicePacket.v ===== *)
(** * Voice chat datagrams and player identifiers ([internal/voicechat], [udp.go])

    What the gateway sees of a Simple Voice Chat datagram - a magic byte, the
    player's UUID, a length and an encrypted payload - and the textual form of a
    UUID as the registration API has it in its paths. *)
From S2P Require Import Prelude GoUnicode GoStrings GoIO HostAddr McProto.
Import gostrings io.
Open Scope Z_scope.

Module voicechat.

Definition MagicByte : byte := xff.
Definition uuidSize : nat := 16.
Definition maxVarIntBytes : nat := 5.

Definition ErrPacketTooShort : error := Sentinel "voicechat.ErrPacketTooShort".
Definition ErrInvalidMagic : error := Sentinel "voicechat.ErrInvalidMagic".
Definition ErrInvalidLength : error := Sentinel "voicechat.ErrInvalidLength".
Definition ErrTruncatedPacket : error := Sentinel "voicechat.ErrTruncatedPacket".
Definition ErrTrailingBytes : error := Sentinel "voicechat.ErrTrailingBytes".

(** [type UUID [16]byte]: sixteen bytes (see [is_uuid]). *)
Definition UUID : Type := bytes.
Definition is_uuid (u : UUID) : Prop := length u = uuidSize.

(** [UUID.String]: [dst[lo:hi]] of [hex.Encode]. *)
Definition uuid_part (u : UUID) (lo hi : nat) : bytes := hex.Encode (take (hi - lo) (drop lo u)).

Definition UUID_String (u : UUID) : bytes :=
  uuid_part u 0 4 ++ gs"-" ++ uuid_part u 4 6 ++ gs"-" ++ uuid_part u 6 8 ++ gs"-"
  ++ uuid_part u 8 10 ++ gs"-" ++ uuid_part u 10 16.

Record ClientPacket := { PlayerUUID : UUID; EncryptedPayload : bytes }.

(** The loop of [readVarInt]; [left] iterations remain, the index is [5 - left]. *)
Fixpoint varint_from (left : nat) (value : Z) (data : bytes) : res (Z * nat) :=
  match left with
  | O => Err ErrInvalidLength
  | S left' =>
      let i := (maxVarIntBytes - left)%nat in
      match data with
      | [] => Err ErrTruncatedPacket
      | b :: t =>
          let value' :=
            Z.lor value (int_wrap 32 (Z.shiftl (Z.land (bv b) 0x7F) (7 * Z.of_nat i))) in
          if Z.land (bv b) 0x80 =? 0 then
            if value' <? 0 then Err ErrInvalidLength else Ok (value', (i + 1)%nat)
          else varint_from left' value' t
      end
  end.

Definition readVarInt (data : bytes) : res (Z * nat) := varint_from maxVarIntBytes 0 data.

Definition ParseClientPacket (packet : bytes) : res ClientPacket :=
  match packet with
  | [] => Err ErrPacketTooShort
  | magic :: _ =>
      if negb (bool_decide (magic = MagicByte)) then Err ErrInvalidMagic
      else if (length packet <? 1 + uuidSize + 1)%nat then Err ErrPacketTooShort
      else
        let playerUUID := take uuidSize (drop 1 packet) in
        let payloadOffset := (1 + uuidSize)%nat in
        let? (payloadLen, varIntLen) := readVarInt (drop payloadOffset packet) in
        let payloadOffset := (payloadOffset + varIntLen)%nat in
        if payloadLen <? 0 then Err ErrInvalidLength
        else if zlen packet - Z.of_nat payloadOffset <? payloadLen then Err ErrTruncatedPacket
        else if payloadLen <? zlen packet - Z.of_nat payloadOffset then Err ErrTrailingBytes
        else Ok {| PlayerUUID := playerUUID;
                   EncryptedPayload := take (Z.to_nat payloadLen) (drop payloadOffset packet) |}
  end.

Definition ParseUUID (s : bytes) : res UUID :=
  let cleaned := RemoveByte s "-"%byte in
  if negb (length cleaned =? uuidSize * 2)%nat then Err (errors_New "invalid UUID length")
  else res_wrap (λ e, Errorf "invalid UUID: %w" [] [e]) (hex.Decode cleaned).

(** [parseRegistrationPath] of runtime.go. *)
Definition registration_prefix : bytes := gs"/v1/voicechat/registrations/".

Definition parseRegistrationPath (path : bytes) : option (UUID * bytes) :=
  if negb (HasPrefix path registration_prefix) then None
  else
    let parts := Split (TrimPrefix path registration_prefix) "/"%byte in
    match parts with
    | [first] | [first; _] =>
        match ParseUUID first with
        | Err _ => None
        | Ok uuid =>
            if negb (bool_decide (UUID_String uuid = first)) then None
            else Some (uuid, match parts with [_; action] => action | _ => [] end)
        end
    | _ => None
    end.

End voicechat.

(** ** Lemmas *)

Section lemmas.
Import voicechat.

(** The length prefix is read as [mcproto] reads a VarInt. *)
Lemma varint_from_loop left value raw data v raw' r' :
  (left ≤ 5)%nat → length raw = (5 - left)%nat →
  mcproto.varint_loop left value raw (bytes_reader data) = (Ok v, raw', r') → 0 ≤ v →
  varint_from left value data = Ok (v, length raw').
Proof.
  revert value raw data. induction left as [|left IH]; intros value raw data Hl Hr H Hv; [done|].
  cbn [mcproto.varint_loop varint_from] in *. unfold bytes_reader, ReadByte in H.
  destruct data as [|b t]; cbn [r_data r_end] in H; [done|]. cbn zeta in H.
  change (mcproto.MaxVarIntBytes) with 5%nat in H. change maxVarIntBytes with 5%nat.
  destruct (Z.land (bv b) 0x80 =? 0).
  - injection H as <- <- <-. rewrite (proj2 (Z.ltb_ge _ _)) by done.
    rewrite length_app, Hr. done.
  - apply (IH _ (raw ++ [b])); [lia| |exact H|done]. rewrite length_app. cbn. lia.
Qed.

Lemma readVarInt_WriteVarInt v rest : 0 ≤ v < 2 ^ 31 →
  readVarInt (mcproto.WriteVarInt v ++ rest) = Ok (v, length (mcproto.WriteVarInt v)).
Proof.
  intros Hv. eapply (varint_from_loop 5 0 []); [done|done| |lia].
  apply (ReadVarInt_Write v rest EOF). apply int32_intro. lia.
Qed.

Lemma varint_from_bounds left value data v n :
  (left ≤ 5)%nat → varint_from left value data = Ok (v, n) →
  0 ≤ v ∧ (n ≤ 5)%nat ∧ (5 - left < n ≤ 5 - left + length data)%nat.
Proof.
  revert value data. induction left as [|left IH]; intros value data Hl H; [done|].
  cbn [varint_from] in H. change maxVarIntBytes with 5%nat in H.
  destruct data as [|b t]; [done|]. destruct (_ =? 0).
  - destruct (_ <? 0) eqn:E; [done|]. apply Z.ltb_ge in E.
    assert (0 ≤ v) by (injection H as <- _; exact E). injection H as _ <-. cbn [length]. lia.
  - apply IH in H; [|lia]. cbn [length]. lia.
Qed.

Lemma readVarInt_bounds data v n : readVarInt data = Ok (v, n) →
  0 ≤ v ∧ (1 ≤ n ≤ 5)%nat ∧ (n ≤ length data)%nat.
Proof.
  intros H. apply (varint_from_bounds 5 0) in H as (Hv & Hn & Hd); [|lia].
  rewrite Nat.sub_diag in Hd. lia.
Qed.

(** Hexadecimal digits. *)
Lemma hex_byte b :
  hex.value (hex.digit (Z.shiftr (bv b) 4)) = Some (Z.shiftr (bv b) 4) ∧
  hex.value (hex.digit (Z.land (bv b) 0x0F)) = Some (Z.land (bv b) 0x0F) ∧
  bz (Z.lor (Z.shiftl (Z.shiftr (bv b) 4) 4) (Z.land (bv b) 0x0F)) = b ∧
  (hex.digit (Z.shiftr (bv b) 4) ≠ "-"%byte) ∧ (hex.digit (Z.land (bv b) 0x0F) ≠ "-"%byte) ∧
  (hex.digit (Z.shiftr (bv b) 4) ≠ "/"%byte) ∧ (hex.digit (Z.land (bv b) 0x0F) ≠ "/"%byte).
Proof. revert b. byte_enum. Qed.

Lemma Encode_cons b s :
  hex.Encode (b :: s) = hex.digit (Z.shiftr (bv b) 4) :: hex.digit (Z.land (bv b) 0x0F) :: hex.Encode s.
Proof. done. Qed.

Lemma Decode_Encode s : hex.Decode (hex.Encode s) = Ok s.
Proof.
  induction s as [|b s IH]; [done|]. destruct (hex_byte b) as (E1 & E2 & E3 & _).
  rewrite Encode_cons. cbn [hex.Decode]. rewrite E1, E2, IH. cbn [res_bind]. by rewrite E3.
Qed.

Lemma length_Encode s : length (hex.Encode s) = (2 * length s)%nat.
Proof. induction s as [|b s IH]; [done|]. rewrite Encode_cons. cbn [length]. lia. Qed.

Lemma Decode_length s d : hex.Decode s = Ok d → length s = (2 * length d)%nat.
Proof.
  revert d. induction s as [s IH] using (induction_ltof1 _ (@length byte)); intros d H.
  destruct s as [|h [|l t]]; cbn [hex.Decode] in H; [by simplify_eq|done|].
  destruct (hex.value h), (hex.value l); try done.
  destruct (hex.Decode t) as [r|] eqn:E; cbn [res_bind] in H; [|done]. injection H as <-.
  apply IH in E; [cbn [length]; lia|]. unfold ltof. cbn. lia.
Qed.

Lemma Encode_chars s : (("-"%byte ∉ hex.Encode s)) ∧ ("/"%byte ∉ hex.Encode s).
Proof.
  induction s as [|b s [IH1 IH2]]; [by split; intros ?%elem_of_nil|].
  destruct (hex_byte b) as (_ & _ & _ & ? & ? & ? & ?). rewrite Encode_cons.
  by rewrite !not_elem_of_cons.
Qed.

Lemma RemoveByte_app s t c : RemoveByte (s ++ t) c = RemoveByte s c ++ RemoveByte t c.
Proof. apply filter_app. Qed.

Lemma RemoveByte_id s c : c ∉ s → RemoveByte s c = s.
Proof.
  intros Hn. unfold RemoveByte. induction s as [|b s IH]; [done|].
  apply not_elem_of_cons in Hn as [? ?]. rewrite filter_cons_True, IH by congruence. done.
Qed.

Lemma Encode_app s t : hex.Encode (s ++ t) = hex.Encode s ++ hex.Encode t.
Proof. unfold hex.Encode. by rewrite map_app, concat_app. Qed.

Lemma UUID_parts u : is_uuid u → u =
  take 4 (drop 0 u) ++ take 2 (drop 4 u) ++ take 2 (drop 6 u) ++ take 2 (drop 8 u) ++ take 6 (drop 10 u).
Proof.
  unfold is_uuid, uuidSize. intros Hu. rewrite (firstn_all2 (n := 6)) by (rewrite length_drop; lia).
  rewrite drop_0. pose proof (take_drop 2 (drop 8 u)) as H8. pose proof (take_drop 2 (drop 6 u)) as H6.
  pose proof (take_drop 2 (drop 4 u)) as H4. rewrite drop_drop in H4, H6, H8. cbn [Nat.add] in *.
  rewrite H8, H6, H4. by rewrite take_drop.
Qed.

Lemma RemoveByte_String u : is_uuid u → RemoveByte (UUID_String u) "-"%byte = hex.Encode u.
Proof.
  intros Hu. rewrite (UUID_parts u Hu) at 2. unfold UUID_String, uuid_part.
  rewrite !RemoveByte_app, !Encode_app, !(RemoveByte_id (hex.Encode _)) by apply Encode_chars. done.
Qed.

Lemma ParseUUID_String u : is_uuid u → ParseUUID (UUID_String u) = Ok u.
Proof.
  intros Hu. unfold ParseUUID. rewrite RemoveByte_String, length_Encode, Decode_Encode by done.
  by rewrite Hu.
Qed.

Lemma ParseUUID_uuid s u : ParseUUID s = Ok u → is_uuid u.
Proof.
  unfold ParseUUID. destruct (negb _) eqn:E; [done|]. intros H%res_wrap_Ok.
  apply Decode_length in H. apply negb_false_iff, Nat.eqb_eq in E. unfold is_uuid, uuidSize in *. lia.
Qed.

Lemma length_String u : is_uuid u → length (UUID_String u) = 36%nat.
Proof.
  unfold is_uuid, uuidSize. intros Hu. unfold UUID_String, uuid_part.
  rewrite !length_app, !length_Encode, !length_take, !length_drop, Hu. done.
Qed.

Lemma String_no_slash u : "/"%byte ∉ UUID_String u.
Proof.
  unfold UUID_String, uuid_part.
  rewrite !not_elem_of_app. split_and!; try apply Encode_chars; by apply (bool_decide_unpack _).
Qed.

End lemmas.

(** ** Properties *)

Section properties.
Import voicechat.

Lemma ParseClientPacket_eq p u payload :
  ParseClientPacket p = Ok {| PlayerUUID := u; EncryptedPayload := payload |} ↔
  ∃ prefix, p = MagicByte :: u ++ prefix ++ payload ∧ is_uuid u ∧ prefix ≠ [] ∧
    readVarInt (prefix ++ payload) = Ok (zlen payload, length prefix).
Proof.
  split.
  - destruct p as [|m t]; [done|]. cbn [ParseClientPacket].
    destruct (bool_decide_reflect (m = MagicByte)) as [->|]; [|done]. cbn [negb].
    destruct (_ <? _)%nat eqn:El; [done|]. apply Nat.ltb_ge in El. cbn [length] in El. unfold uuidSize in El.
    change (drop (1 + uuidSize) (MagicByte :: t)) with (drop 16 t).
    destruct (readVarInt (drop 16 t)) as [[v n]|] eqn:Er; cbn [res_bind]; [|done].
    pose proof (readVarInt_bounds _ _ _ Er) as (Hv & Hn & Hln). rewrite length_drop in Hln.
    assert (drop (1 + uuidSize + n) (MagicByte :: t) = drop n (drop 16 t)) as -> by by rewrite drop_drop.
    assert (drop 1 (MagicByte :: t) = t) as -> by apply drop_0.
    repeat case_match; try done. bool_prop. intros [= <- <-]. unfold uuidSize in *.
    exists (take n (drop 16 t)).
    rewrite (firstn_all2 (n := Z.to_nat v)) by (rewrite !length_drop; unfold zlen in *; cbn [length] in *; lia).
    rewrite !take_drop. split; [done|]. split; [unfold is_uuid, uuidSize; rewrite length_take; lia|].
    rewrite Er, length_take, !length_drop. split.
    + intros E%(f_equal length). rewrite length_take, length_drop in E. cbn in E. lia.
    + f_equal. f_equal; [|lia]. unfold zlen in *. rewrite !length_drop. cbn [length] in *. lia.
  - intros (prefix & -> & Hu & Hp & Hr). cbn [ParseClientPacket]. rewrite bool_decide_true by done. cbn [negb].
    unfold is_uuid, uuidSize in Hu. assert (length prefix ≠ 0%nat) by by destruct prefix.
    rewrite (proj2 (Nat.ltb_ge _ _)) by (cbn [length]; rewrite !length_app; unfold uuidSize; lia).
    change (drop (1 + uuidSize) (MagicByte :: ?x)) with (drop 16 x).
    rewrite (drop_app_length' u) by done. rewrite Hr. cbn [res_bind].
    assert (zlen (MagicByte :: u ++ prefix ++ payload) - Z.of_nat (1 + uuidSize + length prefix) = zlen payload)
      as -> by (unfold zlen, uuidSize; cbn [length]; rewrite !length_app; lia).
    rewrite !Z.ltb_irrefl. rewrite (proj2 (Z.ltb_ge _ _)) by (unfold zlen; lia).
    unfold uuidSize. change (drop 1 (MagicByte :: ?x)) with x. rewrite take_app_length' by done.
    change (drop (1 + 16 + length prefix) (MagicByte :: ?x)) with (drop (16 + length prefix) x).
    rewrite <- drop_drop, (drop_app_length' u), drop_app_length by done.
    unfold zlen. by rewrite Nat2Z.id, firstn_all.
Qed.

Lemma ParseClientPacket_inv p u payload :
  ParseClientPacket p = Ok {| PlayerUUID := u; EncryptedPayload := payload |} →
  ∃ prefix, p = MagicByte :: u ++ prefix ++ payload ∧ is_uuid u ∧ prefix ≠ [].
Proof. intros (prefix & ? & ? & ? & _)%ParseClientPacket_eq. by exists prefix. Qed.

(** A voice packet is accepted exactly when it is the magic byte, a UUID, a length
    prefix of one to five bytes, and a payload of that length, with nothing after
    it; the identifier and the payload are those bytes. *)
Theorem ParseClientPacket_exact p u payload :
  ParseClientPacket p = Ok {| PlayerUUID := u; EncryptedPayload := payload |} ↔
  ∃ prefix, p = MagicByte :: u ++ prefix ++ payload ∧ is_uuid u ∧ prefix ≠ [] ∧
    readVarInt (prefix ++ payload) = Ok (zlen payload, length prefix).
Proof. apply ParseClientPacket_eq. Qed.

(** Every UUID has exactly one path of the registration API: the path with its
    canonical text is understood as that UUID, and no other spelling is. *)
Theorem registration_paths_canonical path u action :
  is_uuid u →
  parseRegistrationPath path = Some (u, action) ↔
  ("/"%byte ∉ action) ∧
  (path = registration_prefix ++ UUID_String u ++ "/"%byte :: action ∨
   action = [] ∧ path = registration_prefix ++ UUID_String u).
Proof.
  intros Hu. unfold parseRegistrationPath, HasPrefix, TrimPrefix, HasPrefix. split.
  - case_bool_decide as Hp; cbn [negb]; [|done]. destruct Hp as [rest ->]. rewrite drop_app_length.
    pose proof (Join_Split rest "/"%byte) as Hj. pose proof (Split_pieces rest "/"%byte) as Hs.
    destruct (Split rest "/"%byte) as [|first [|a []]]; try done.
    + destruct (ParseUUID first) as [v|]; [|done]. case_bool_decide as E; cbn [negb]; [|done].
      intros [= <- <-]. cbn in Hj. subst. split; [by intros ?%elem_of_nil|]. by right.
    + destruct (ParseUUID first) as [v|]; [|done]. case_bool_decide as E; cbn [negb]; [|done].
      intros [= <- <-]. cbn in Hj. subst. split; [|by left].
      by apply Forall_cons in Hs as [_ [? _]%Forall_cons].
  - intros [Ha [->|[-> ->]]]; rewrite bool_decide_true by (by eexists); cbn [negb]; rewrite drop_app_length.
    + rewrite Split_app, Split_single, ParseUUID_String by (done || apply String_no_slash).
      by rewrite bool_decide_true.
    + rewrite Split_single, ParseUUID_String by (done || apply String_no_slash). by rewrite bool_decide_true.
Qed.

Definition sample_uuid : UUID := gs"0123456789abcdef".

Lemma registration_paths_canonical_witness :
  parseRegistrationPath gs"/v1/voicechat/registrations/30313233-3435-3637-3839-616263646566/refresh" =
    Some (sample_uuid, gs"refresh").
Proof.
  apply (registration_paths_canonical _ sample_uuid (gs"refresh") eq_refl). split.
  - apply (bool_decide_unpack _). vm_compute. exact I.
  - left. vm_compute. reflexivity.
Defined.

End properties.
