(* ===== verification/VoiceChat.v ===== *)
(** * Voice chat registrations and sessions ([internal/voicechat], [runtime.go])

    A backend registers the players it hosts with its token; a voice packet is
    forwarded to the backend of its player's registration through a session, one
    for each player and client address. The runtime is shared by the packet loop,
    the HTTP handlers, one reader for each session and the expiry loop, under one
    mutex that is released between the steps of an operation. An operation is
    therefore a chain of tasks, each of them one critical section: a task is run
    on the state and leaves the tasks that continue it. All interleavings of all
    operations are the runs of [step].

    Sessions are objects: the table holds references, and a session that left the
    table may still be in the hands of a task. The log is what the outside sees:
    the datagrams sent and the metrics recorded, in the order in which it happens.
    A recorder is always present. *)
From S2P Require Import Prelude GoUnicode GoStrings GoNet GoIO HostAddr McProto VoicePacket.
Import gostrings.
Open Scope Z_scope.

Module voice.
Import voicechat.

(** ** Data *)

Record Config := {
  Listen : bytes;
  RegistrationListen : bytes;
  RegistrationTTL : Z;
  RequestTimeout : Z;
  MaxRegistrations : Z;
  IdleTimeout : Z;
  BackendDialTimeout : Z;
  MaxSessions : Z;
  MaxPacketSize : Z
}.

Record registration := {
  rg_PlayerUUID : UUID;
  rg_BackendID : bytes;
  rg_OwnerID : bytes;
  rg_LeaseID : bytes;
  rg_Generation : Z;
  rg_ExpiresAt : Z
}.

(** A session; a client address is its text, and [ds_backend] the address its connection
    was dialled to. Closing happens once, so [ds_closed] is also whether [closeOnce] was
    used. *)
Record dynamicSession := {
  ds_key : bytes;
  ds_playerUUID : UUID;
  ds_clientAddr : bytes;
  ds_backendID : bytes;
  ds_backend : net.UDPAddr;
  ds_leaseID : bytes;
  ds_generation : Z;
  ds_lastActivity : Z;
  ds_closed : bool
}.

Inductive close_reason :=
| IdleTimeoutReached | BackendError | Shutdown | Reassigned | RegistrationExpired | Unregistered.

Inductive packet_direction := ClientToBackend | BackendToClient.

Inductive packet_result :=
| Forwarded | DroppedUnknownSession | DroppedExpiredRegistration | DroppedMalformed
| DroppedSessionLimit | DroppedReadError | DroppedWriteError.

Inductive registration_result :=
| Created | Replaced | Refreshed | Deleted | Expired | AuthFailed | Malformed | Limit | StaleLease | Failed.

(** What the outside sees. [Granted] marks the moment a registration is stored. *)
Inductive event :=
| Granted (u : UUID) (backendID leaseID : bytes) (generation : Z)
| ToBackend (sid : nat) (backend : net.UDPAddr) (payload : bytes)
| ToClient (addr payload : bytes)
| SessionCreated (sid : nat)
| SessionClosed (sid : nat) (reason : close_reason)
| RegistrationsSet (n : Z)
| RegistrationEvent (r : registration_result)
| BackendSwitch
| Packet (d : packet_direction) (r : packet_result) (n : Z).

(** [sessions] holds references into [heap]; [next] is the next fresh one. [fresh] are the
    open connections that were dialled for a session that is not stored yet, by number;
    [dials] is how many were dialled. *)
Record Runtime := {
  cfg : Config;
  closed : bool;
  registrations : gmap UUID registration;
  sessions : gmap bytes nat;
  heap : gmap nat dynamicSession;
  next : nat;
  fresh : gset nat;
  dials : nat;
  backends : gmap bytes net.UDPAddr;
  tokens : list (bytes * bytes);
  log : list event
}.

(** What is left of an operation. *)
Inductive task :=
| TPacket (addr payload : bytes)
| TSession (u : UUID) (addr : bytes) (reg : registration) (payload : bytes)
| TLimit (u : UUID) (addr : bytes) (reg : registration) (payload : bytes)
| TDial (u : UUID) (addr : bytes) (reg : registration) (backend : net.UDPAddr) (payload : bytes)
| TStore (c : nat) (u : UUID) (addr : bytes) (reg : registration) (backend : net.UDPAddr) (payload : bytes)
| TWrite (sid : nat) (payload : bytes)
| TRead (sid : nat) (got : res bytes)
| TReply (sid : nat) (payload : bytes)
| TCloseSession (sid : nat) (reason : close_reason)
| TClose (sid : nat) (reason : close_reason)
| TCloseQuiet (sid : nat)
| TCloseUUID (u : UUID) (reason : close_reason)
| TIdleScan
| TIdle (sid : nat).

(** What a task finds out from outside: the clock, and the error of its dial or
    write. *)
Record oracle := { o_now : Z; o_err : option error }.

(** ** Updates *)

Definition emit (r : Runtime) (es : list event) : Runtime := {|
  cfg := cfg r; closed := closed r; registrations := registrations r; sessions := sessions r;
  heap := heap r; next := next r; fresh := fresh r; dials := dials r; backends := backends r; tokens := tokens r; log := log r ++ es |}.

Definition set_registrations (r : Runtime) (m : gmap UUID registration) : Runtime := {|
  cfg := cfg r; closed := closed r; registrations := m; sessions := sessions r;
  heap := heap r; next := next r; fresh := fresh r; dials := dials r; backends := backends r; tokens := tokens r; log := log r |}.

Definition set_sessions (r : Runtime) (m : gmap bytes nat) : Runtime := {|
  cfg := cfg r; closed := closed r; registrations := registrations r; sessions := m;
  heap := heap r; next := next r; fresh := fresh r; dials := dials r; backends := backends r; tokens := tokens r; log := log r |}.

Definition set_heap (r : Runtime) (h : gmap nat dynamicSession) (n : nat) : Runtime := {|
  cfg := cfg r; closed := closed r; registrations := registrations r; sessions := sessions r;
  heap := h; next := n; fresh := fresh r; dials := dials r; backends := backends r; tokens := tokens r; log := log r |}.

Definition set_fresh (r : Runtime) (cs : gset nat) (n : nat) : Runtime := {|
  cfg := cfg r; closed := closed r; registrations := registrations r; sessions := sessions r;
  heap := heap r; next := next r; fresh := cs; dials := n; backends := backends r; tokens := tokens r; log := log r |}.

Definition touched (s : dynamicSession) (now : Z) : dynamicSession := {|
  ds_key := ds_key s; ds_playerUUID := ds_playerUUID s; ds_clientAddr := ds_clientAddr s;
  ds_backendID := ds_backendID s; ds_backend := ds_backend s; ds_leaseID := ds_leaseID s; ds_generation := ds_generation s;
  ds_lastActivity := now; ds_closed := ds_closed s |}.

Definition shut (s : dynamicSession) : dynamicSession := {|
  ds_key := ds_key s; ds_playerUUID := ds_playerUUID s; ds_clientAddr := ds_clientAddr s;
  ds_backendID := ds_backendID s; ds_backend := ds_backend s; ds_leaseID := ds_leaseID s; ds_generation := ds_generation s;
  ds_lastActivity := ds_lastActivity s; ds_closed := true |}.

Definition touch (r : Runtime) (sid : nat) (now : Z) : Runtime :=
  match heap r !! sid with
  | Some s => set_heap r (<[sid := touched s now]> (heap r)) (next r)
  | None => r
  end.

(** [close] and [closeWithoutMetric]. *)
Definition close (r : Runtime) (sid : nat) (reason : close_reason) : Runtime :=
  match heap r !! sid with
  | Some s => if ds_closed s then r
              else emit (set_heap r (<[sid := shut s]> (heap r)) (next r)) [SessionClosed sid reason]
  | None => r
  end.

Definition closeWithoutMetric (r : Runtime) (sid : nat) : Runtime :=
  match heap r !! sid with
  | Some s => if ds_closed s then r else set_heap r (<[sid := shut s]> (heap r)) (next r)
  | None => r
  end.

(** ** Packets from clients *)

Definition dynamicSessionKey (u : UUID) (addr : bytes) : bytes := UUID_String u ++ gs"|" ++ addr.

Definition errUnknownRegistration : error := Sentinel "voicechat.errUnknownRegistration".
Definition errExpiredRegistration : error := Sentinel "voicechat.errExpiredRegistration".

Definition lookupRegistration (r : Runtime) (now : Z) (u : UUID) : res registration * Runtime :=
  match registrations r !! u with
  | None => (Err errUnknownRegistration, r)
  | Some reg =>
      if rg_ExpiresAt reg <? now then
        let m := delete u (registrations r) in
        (Err errExpiredRegistration,
         emit (set_registrations r m) [RegistrationsSet (Z.of_nat (size m)); RegistrationEvent Expired])
      else (Ok reg, r)
  end.

Definition dropped (r : Runtime) (res : packet_result) (payload : bytes) : Runtime * list task :=
  (emit r [Packet ClientToBackend res (zlen payload)], []).

(** [forwardClientPacket] up to the lookup of the registration. *)
Definition forwardClientPacket (r : Runtime) (now : Z) (addr payload : bytes) : Runtime * list task :=
  match ParseClientPacket payload with
  | Err _ => dropped r DroppedMalformed payload
  | Ok packet =>
      match lookupRegistration r now (PlayerUUID packet) with
      | (Err e, r) =>
          dropped r (if errors_Is "voicechat.errExpiredRegistration" e
                     then DroppedExpiredRegistration else DroppedUnknownSession) payload
      | (Ok reg, r) => (r, [TSession (PlayerUUID packet) addr reg payload])
      end
  end.

(** [sessionFor], first critical section: an existing session is used if it belongs
    to the same lease, else it is dropped from the table and closed. *)
Definition sessionFor_existing (r : Runtime) (u : UUID) (addr : bytes) (reg : registration)
    (payload : bytes) : Runtime * list task :=
  let key := dynamicSessionKey u addr in
  if closed r then dropped r DroppedWriteError payload
  else match sessions r !! key with
  | Some sid =>
      match heap r !! sid with
      | Some s =>
          if bool_decide (ds_backendID s = rg_BackendID reg) && bool_decide (ds_leaseID s = rg_LeaseID reg)
             && (ds_generation s =? rg_Generation reg)
          then (r, [TWrite sid payload])
          else (set_sessions r (delete key (sessions r)),
                [TClose sid Reassigned; TLimit u addr reg payload])
      | None => (r, [])
      end
  | None => (r, [TLimit u addr reg payload])
  end.

(** Second critical section: the limit and the backend. *)
Definition sessionFor_limit (r : Runtime) (u : UUID) (addr : bytes) (reg : registration)
    (payload : bytes) : Runtime * list task :=
  if MaxSessions (cfg r) <=? Z.of_nat (size (sessions r)) then dropped r DroppedSessionLimit payload
  else match backends r !! rg_BackendID reg with
  | None => dropped r DroppedWriteError payload
  | Some backend => (r, [TDial u addr reg backend payload])
  end.

(** The dial of the backend's address. *)
Definition sessionFor_dial (r : Runtime) (o : oracle) (u : UUID) (addr : bytes) (reg : registration)
    (backend : net.UDPAddr) (payload : bytes) : Runtime * list task :=
  match o_err o with
  | Some _ => dropped r DroppedWriteError payload
  | None => (set_fresh r ({[dials r]} ∪ fresh r) (S (dials r)), [TStore (dials r) u addr reg backend payload])
  end.

(** [closeWithoutMetric] of a session nobody else has seen closes its connection. *)
Definition closeFresh (r : Runtime) (c : nat) : Runtime := set_fresh r (fresh r ∖ {[c]}) (dials r).

(** Third critical section: the session, with its connection [c], is stored unless the
    runtime was closed, somebody else stored one, or the limit was reached meanwhile;
    then the connection is closed. *)
Definition sessionFor_store (r : Runtime) (o : oracle) (c : nat) (u : UUID) (addr : bytes) (reg : registration)
    (backend : net.UDPAddr) (payload : bytes) : Runtime * list task :=
  let key := dynamicSessionKey u addr in
  if closed r then dropped (closeFresh r c) DroppedWriteError payload
  else match sessions r !! key with
  | Some existing => (closeFresh r c, [TWrite existing payload])
  | None =>
      if MaxSessions (cfg r) <=? Z.of_nat (size (sessions r))
      then dropped (closeFresh r c) DroppedSessionLimit payload
      else
        let sid := next r in
        let s := {| ds_key := key; ds_playerUUID := u; ds_clientAddr := addr;
                    ds_backendID := rg_BackendID reg; ds_backend := backend; ds_leaseID := rg_LeaseID reg;
                    ds_generation := rg_Generation reg; ds_lastActivity := o_now o;
                    ds_closed := false |} in
        (* the connection now belongs to the session *)
        let r := set_fresh r (fresh r ∖ {[c]}) (dials r) in
        (emit (set_heap (set_sessions r (<[key := sid]> (sessions r)))
                        (<[sid := s]> (heap r)) (S sid)) [SessionCreated sid],
         [TWrite sid payload])
  end.

(** The rest of [forwardClientPacket]. A closed connection takes nothing. *)
Definition writeBackend (r : Runtime) (o : oracle) (sid : nat) (payload : bytes) : Runtime * list task :=
  match heap r !! sid with
  | None => (r, [])
  | Some s =>
      let r := touch r sid (o_now o) in
      match (if ds_closed s then Some (Sentinel "net.ErrClosed") else o_err o) with
      | Some _ => (emit r [Packet ClientToBackend DroppedWriteError (zlen payload)],
                   [TCloseSession sid BackendError])
      | None => (emit r [ToBackend sid (ds_backend s) payload; Packet ClientToBackend Forwarded (zlen payload)], [])
      end
  end.

(** ** Packets from backends *)

Definition sessionIsCurrent (r : Runtime) (sid : nat) : bool :=
  match heap r !! sid with
  | Some s => negb (closed r) && bool_decide (sessions r !! ds_key s = Some sid)
  | None => false
  end.

(** One turn of [readBackend] up to the check that the session is current. *)
Definition readBackend (r : Runtime) (sid : nat) (got : res bytes) : Runtime * list task :=
  match heap r !! sid with
  | None => (r, [])
  | Some s =>
      match got with
      | Err _ =>
          if ds_closed s || closed r then (r, [])
          else (emit r [Packet BackendToClient DroppedReadError 0], [TCloseSession sid BackendError])
      | Ok payload =>
          if MaxPacketSize (cfg r) <? zlen payload
          then (emit r [Packet BackendToClient DroppedMalformed (zlen payload)], [])
          else if negb (sessionIsCurrent r sid) then (r, [])
          else (r, [TReply sid payload])
      end
  end.

(** The write to the client. *)
Definition reply (r : Runtime) (o : oracle) (sid : nat) (payload : bytes) : Runtime * list task :=
  match heap r !! sid with
  | None => (r, [])
  | Some s =>
      match o_err o with
      | Some e =>
          let r := emit r [Packet BackendToClient DroppedWriteError (zlen payload)] in
          if closed r || errors_Is "net.ErrClosed" e then (r, []) else (r, [TCloseSession sid BackendError])
      | None =>
          (emit (touch r sid (o_now o))
             [ToClient (ds_clientAddr s) payload; Packet BackendToClient Forwarded (zlen payload)], [])
      end
  end.

(** ** Closing and expiry *)

Definition closeSession (r : Runtime) (sid : nat) (reason : close_reason) : Runtime * list task :=
  match heap r !! sid with
  | None => (r, [])
  | Some s =>
      if bool_decide (sessions r !! ds_key s = Some sid)
      then (set_sessions r (delete (ds_key s) (sessions r)), [TClose sid reason])
      else (r, [TCloseQuiet sid])
  end.

(** The sessions of a player. *)
Definition of_player (r : Runtime) (u : UUID) (sid : nat) : Prop :=
  match heap r !! sid with Some s => ds_playerUUID s = u | None => False end.

#[export] Instance of_player_dec r u sid : Decision (of_player r u sid).
Proof. unfold of_player. destruct (heap r !! sid); apply _. Defined.

Definition closeSessionsForUUID (r : Runtime) (u : UUID) (reason : close_reason) : Runtime * list task :=
  let gone := filter (λ kv, of_player r u kv.2) (sessions r) in
  (set_sessions r (filter (λ kv, ¬ of_player r u kv.2) (sessions r)),
   (λ kv, TClose kv.2 reason) <$> map_to_list gone).

Definition expireRegistrations (r : Runtime) (now : Z) : Runtime * list task :=
  let expired := filter (λ kv, rg_ExpiresAt kv.2 < now) (registrations r) in
  let m := filter (λ kv, ¬ rg_ExpiresAt kv.2 < now) (registrations r) in
  if decide (expired = ∅) then (r, [])
  else
    (emit (set_registrations r m)
       (RegistrationsSet (Z.of_nat (size m)) :: replicate (size expired) (RegistrationEvent Expired)),
     (λ kv, TCloseUUID kv.1 RegistrationExpired) <$> map_to_list expired).

(** [snapshotSessions], then each of them in turn. *)
Definition idle_scan (r : Runtime) : Runtime * list task :=
  (r, (λ kv, TIdle kv.2) <$> map_to_list (sessions r)).

Definition idle_check (r : Runtime) (now : Z) (sid : nat) : Runtime * list task :=
  match heap r !! sid with
  | Some s => if IdleTimeout (cfg r) <=? now - ds_lastActivity s
              then (r, [TCloseSession sid IdleTimeoutReached]) else (r, [])
  | None => (r, [])
  end.

Definition Close (r : Runtime) : Runtime * list task :=
  if closed r then (r, [])
  else
    ({| cfg := cfg r; closed := true; registrations := ∅; sessions := ∅; heap := heap r; next := next r;
        fresh := fresh r; dials := dials r; backends := backends r; tokens := tokens r; log := log r ++ [RegistrationsSet 0] |},
     (λ kv, TClose kv.2 Shutdown) <$> map_to_list (sessions r)).

Definition run_task (r : Runtime) (o : oracle) (t : task) : Runtime * list task :=
  match t with
  | TPacket addr payload => forwardClientPacket r (o_now o) addr payload
  | TSession u addr reg payload => sessionFor_existing r u addr reg payload
  | TLimit u addr reg payload => sessionFor_limit r u addr reg payload
  | TDial u addr reg backend payload => sessionFor_dial r o u addr reg backend payload
  | TStore c u addr reg backend payload => sessionFor_store r o c u addr reg backend payload
  | TWrite sid payload => writeBackend r o sid payload
  | TRead sid got => readBackend r sid got
  | TReply sid payload => reply r o sid payload
  | TCloseSession sid reason => closeSession r sid reason
  | TClose sid reason => (close r sid reason, [])
  | TCloseQuiet sid => (closeWithoutMetric r sid, [])
  | TCloseUUID u reason => closeSessionsForUUID r u reason
  | TIdleScan => idle_scan r
  | TIdle sid => idle_check r (o_now o) sid
  end.

(** ** The registration API *)

(** A request: its method, path and [Authorization] header, and what [decodeJSON]
    makes of its body for a [putRegistrationRequest] (the owner) and for a
    [leaseRequest] (the owner and the lease). *)
Inductive method := PUT | POST | DELETE | OtherMethod.

Record request := {
  rq_method : method;
  rq_path : bytes;
  rq_authorization : bytes;
  rq_put : res bytes;
  rq_lease : res (bytes * bytes)
}.

(** The status, and the registration in the body. *)
Record response := { rs_status : Z; rs_registration : option registration }.

Definition status (n : Z) : response := {| rs_status := n; rs_registration := None |}.

Definition authenticate (r : Runtime) (auth : bytes) : option bytes :=
  let prefix := gs"Bearer " in
  if negb (HasPrefix auth prefix) then None
  else
    let token := TrimSpace (TrimPrefix auth prefix) in
    fst <$> head (filter (λ candidate, candidate.2 = token) (tokens r)).

Definition answer (r : Runtime) (code : Z) (res : registration_result) : response * Runtime * list task :=
  (status code, emit r [RegistrationEvent res], []).

(** [now] is the clock, [lease] what [newLeaseID] returned. *)
Definition handlePutRegistration (r : Runtime) (now : Z) (lease : res bytes) (rq : request)
    (backendID : bytes) (u : UUID) : response * Runtime * list task :=
  match rq_put rq with
  | Err _ => answer r 400 Malformed
  | Ok owner =>
      if decide (TrimSpace owner = []) then answer r 400 Malformed
      else match lease with
      | Err _ => answer r 500 Failed
      | Ok leaseID =>
          if closed r then answer r 503 Failed
          else
            let store gen switched rest :=
              let reg := {| rg_PlayerUUID := u; rg_BackendID := backendID; rg_OwnerID := owner;
                            rg_LeaseID := leaseID; rg_Generation := gen;
                            rg_ExpiresAt := now + RegistrationTTL (cfg r) |} in
              let m := <[u := reg]> (registrations r) in
              ({| rs_status := 200; rs_registration := Some reg |},
               emit (set_registrations r m)
                 ([Granted u backendID leaseID gen; RegistrationsSet (Z.of_nat (size m))] ++ switched),
               rest) in
            match registrations r !! u with
            | Some existing =>
                store (uint_wrap 64 (rg_Generation existing + 1))
                  (RegistrationEvent Replaced
                   :: if bool_decide (rg_BackendID existing = backendID) then [] else [BackendSwitch])
                  [TCloseUUID u Reassigned]
            | None =>
                if MaxRegistrations (cfg r) <=? Z.of_nat (size (registrations r)) then answer r 429 Limit
                else store 1 [RegistrationEvent Created] []
            end
      end
  end.

(** The registration a refresh or delete request may act on: its holder's. *)
Definition held (r : Runtime) (rq : request) (backendID : bytes) (u : UUID) : option (option registration) :=
  match rq_lease rq with
  | Err _ => None
  | Ok (owner, lease) =>
      if decide (TrimSpace owner = []) then None
      else if decide (TrimSpace lease = []) then None
      else Some (match registrations r !! u with
        | Some reg => if bool_decide (rg_BackendID reg = backendID) && bool_decide (rg_OwnerID reg = owner)
                         && bool_decide (rg_LeaseID reg = lease) then Some reg else None
        | None => None
        end)
  end.

Definition handleRefreshRegistration (r : Runtime) (now : Z) (rq : request) (backendID : bytes) (u : UUID)
    : response * Runtime * list task :=
  match held r rq backendID u with
  | None => answer r 400 Malformed
  | Some None => answer r 409 StaleLease
  | Some (Some reg) =>
      let reg := {| rg_PlayerUUID := rg_PlayerUUID reg; rg_BackendID := rg_BackendID reg;
                    rg_OwnerID := rg_OwnerID reg; rg_LeaseID := rg_LeaseID reg;
                    rg_Generation := rg_Generation reg; rg_ExpiresAt := now + RegistrationTTL (cfg r) |} in
      ({| rs_status := 200; rs_registration := Some reg |},
       emit (set_registrations r (<[u := reg]> (registrations r))) [RegistrationEvent Refreshed], [])
  end.

Definition handleDeleteRegistration (r : Runtime) (rq : request) (backendID : bytes) (u : UUID)
    : response * Runtime * list task :=
  match held r rq backendID u with
  | None => answer r 400 Malformed
  | Some None => answer r 204 StaleLease
  | Some (Some _) =>
      let m := delete u (registrations r) in
      (status 204, emit (set_registrations r m) [RegistrationsSet (Z.of_nat (size m)); RegistrationEvent Deleted],
       [TCloseUUID u Unregistered])
  end.

Definition handleRegistration (r : Runtime) (now : Z) (lease : res bytes) (rq : request)
    : response * Runtime * list task :=
  match authenticate r (rq_authorization rq) with
  | None => answer r 401 AuthFailed
  | Some backendID =>
      match parseRegistrationPath (rq_path rq) with
      | None => answer r 404 Malformed
      | Some (u, action) =>
          match rq_method rq with
          | PUT => if decide (action = []) then handlePutRegistration r now lease rq backendID u
                   else answer r 405 Malformed
          | POST => if decide (action = gs"refresh") then handleRefreshRegistration r now rq backendID u
                    else answer r 405 Malformed
          | DELETE => if decide (action = []) then handleDeleteRegistration r rq backendID u
                      else answer r 405 Malformed
          | OtherMethod => answer r 405 Malformed
          end
      end
  end.

(** ** Starting *)

Definition validateBackendAddr (addr : net.UDPAddr) : option error :=
  match net.ua_IP addr with
  | None => Some (errors_New "resolved address is empty")
  | Some ip =>
      if net.IsUnspecified ip then Some (errors_New "resolved address must not be unspecified")
      else if net.IsMulticast ip then Some (errors_New "resolved address must not be multicast")
      else if net.IsIPv4bcast ip then Some (errors_New "resolved address must not be broadcast")
      else None
  end.

Definition check_config (c : Config) (n : nat) : option error :=
  if RegistrationTTL c <=? 0 then Some (errors_New "registration TTL must be positive")
  else if RequestTimeout c <=? 0 then Some (errors_New "request timeout must be positive")
  else if MaxRegistrations c <=? 0 then Some (errors_New "max registrations must be positive")
  else if IdleTimeout c <=? 0 then Some (errors_New "idle timeout must be positive")
  else if BackendDialTimeout c <=? 0 then Some (errors_New "backend dial timeout must be positive")
  else if MaxSessions c <=? 0 then Some (errors_New "max sessions must be positive")
  else if MaxPacketSize c <=? 0 then Some (errors_New "max packet size must be positive")
  else if (n =? 0)%nat then Some (errors_New "at least one voicechat backend is required")
  else None.

(** The loop over the configured backends - an identifier, a UDP address and a
    token - in the order in which the map is visited. *)
Fixpoint add_backends (resolve : bytes → res net.UDPAddr) (bs : list (bytes * (bytes * bytes)))
    (m : gmap bytes net.UDPAddr) (ts : list (bytes * bytes))
    : res (gmap bytes net.UDPAddr * list (bytes * bytes)) :=
  match bs with
  | [] => Ok (m, ts)
  | (id, (udp, token)) :: rest =>
      match resolve udp with
      | Err e => Err (Errorf "resolve voicechat backend %q: %w" [AStr id] [e])
      | Ok addr =>
          match validateBackendAddr addr with
          | Some e => Err (Errorf "invalid voicechat backend %q: %w" [AStr id] [e])
          | None => add_backends resolve rest (<[id := addr]> m) (ts ++ [(id, token)])
          end
      end
  end.

(** [NewRuntime]; [listen] is the error of [net.ListenUDP], if any. *)
Definition NewRuntime (resolve : bytes → res net.UDPAddr) (listen : option error) (c : Config)
    (bs : list (bytes * (bytes * bytes))) : res Runtime :=
  match check_config c (length bs), resolve (Listen c), listen with
  | Some e, _, _ => Err e
  | None, Err e, _ => Err (Errorf "resolve voicechat listen address %q: %w" [AStr (Listen c)] [e])
  | None, Ok _, Some e => Err (Errorf "listen voicechat UDP %q: %w" [AStr (Listen c)] [e])
  | None, Ok _, None =>
      let? (m, ts) := add_backends resolve bs ∅ [] in
      Ok {| cfg := c; closed := false; registrations := ∅; sessions := ∅; heap := ∅; next := 0;
            fresh := ∅; dials := 0; backends := m; tokens := ts; log := [] |}
  end.

Definition minDuration (a b : Z) : Z := if a <? b then a else b.

Definition cleanupInterval (timeout : Z) : Z :=
  let interval := Z.quot timeout 2 in
  if interval <? 10000000 then 10000000 else if 1000000000 <? interval then 1000000000 else interval.

(** ** Runs *)

(** A datagram arrives ([serveUDP] drops one that does not fit its buffer); a request
    is served; a backend's datagram or error arrives at the reader of a session; the
    ticker of the expiry loop fires; the runtime is closed; or a task that is under
    way takes its next step. *)
Inductive step : Runtime * list task → Runtime * list task → Prop :=
| step_datagram r ts addr payload :
    zlen payload ≤ MaxPacketSize (cfg r) → step (r, ts) (r, TPacket addr payload :: ts)
| step_oversized r ts n :
    MaxPacketSize (cfg r) < n → step (r, ts) (emit r [Packet ClientToBackend DroppedMalformed n], ts)
| step_udp_error r ts : step (r, ts) (emit r [Packet ClientToBackend DroppedReadError 0], ts)
| step_request r ts now lease rq rs r' ts' :
    handleRegistration r now lease rq = (rs, r', ts') → step (r, ts) (r', ts' ++ ts)
| step_backend r ts sid s got :
    heap r !! sid = Some s → step (r, ts) (r, TRead sid got :: ts)
| step_tick r ts now r' ts' :
    expireRegistrations r now = (r', ts') → step (r, ts) (r', ts' ++ TIdleScan :: ts)
| step_close r ts r' ts' : Close r = (r', ts') → step (r, ts) (r', ts' ++ ts)
| step_task r o t before after r' ts' :
    run_task r o t = (r', ts') → step (r, before ++ t :: after) (r', before ++ ts' ++ after).

Inductive reachable (resolve : bytes → res net.UDPAddr) : Runtime * list task → Prop :=
| reach_new listen c bs r : NewRuntime resolve listen c bs = Ok r → reachable resolve (r, [])
| reach_step st st' : reachable resolve st → step st st' → reachable resolve st'.

End voice.

(** ** The invariant *)

Section invariant.
Import voicechat voice.

Definition granted (r : Runtime) (u : UUID) (b l : bytes) (g : Z) : Prop := Granted u b l g ∈ log r.

(** The player a packet is from. *)
Definition carries (payload : bytes) (u : UUID) : Prop :=
  ∃ packet, ParseClientPacket payload = Ok packet ∧ PlayerUUID packet = u.

Definition created_sids (l : list event) : list nat :=
  omap (λ e, match e with SessionCreated sid => Some sid | _ => None end) l.
Definition closed_sids (l : list event) : list nat :=
  omap (λ e, match e with SessionClosed sid _ => Some sid | _ => None end) l.

Record state_ok (r : Runtime) : Prop := {
  ok_regs : ∀ u reg, registrations r !! u = Some reg →
    rg_PlayerUUID reg = u ∧ granted r u (rg_BackendID reg) (rg_LeaseID reg) (rg_Generation reg);
  ok_table : ∀ k sid, sessions r !! k = Some sid →
    ∃ s, heap r !! sid = Some s ∧ ds_key s = k ∧ ds_closed s = false;
  ok_heap : ∀ sid s, heap r !! sid = Some s →
    (sid < next r)%nat ∧ ds_key s = dynamicSessionKey (ds_playerUUID s) (ds_clientAddr s) ∧
    is_uuid (ds_playerUUID s) ∧ granted r (ds_playerUUID s) (ds_backendID s) (ds_leaseID s) (ds_generation s) ∧
    backends r !! ds_backendID s = Some (ds_backend s);
  ok_regs_size : Z.of_nat (size (registrations r)) ≤ MaxRegistrations (cfg r);
  ok_sess_size : Z.of_nat (size (sessions r)) ≤ MaxSessions (cfg r);
  ok_granted : ∀ u b l g, granted r u b l g → is_Some (backends r !! b);
  ok_tokens : ∀ b t, (b, t) ∈ tokens r → is_Some (backends r !! b);
  ok_to_backend : ∀ sid a p, ToBackend sid a p ∈ log r →
    ∃ s, heap r !! sid = Some s ∧ carries p (ds_playerUUID s) ∧ ds_backend s = a;
  ok_to_client : ∀ a p, ToClient a p ∈ log r → ∃ sid s, heap r !! sid = Some s ∧ ds_clientAddr s = a;
  ok_created : created_sids (log r) = seq 0 (next r);
  ok_closed : NoDup (closed_sids (log r));
  ok_closed_heap : ∀ sid, sid ∈ closed_sids (log r) → ∃ s, heap r !! sid = Some s ∧ ds_closed s = true
}.

(** A session is not in the table. *)
Definition detached (r : Runtime) (sid : nat) : Prop := ∀ k, sessions r !! k ≠ Some sid.

Definition task_ok (r : Runtime) (t : task) : Prop :=
  match t with
  | TPacket _ _ | TCloseUUID _ _ | TIdleScan => True
  | TSession u _ reg payload | TLimit u _ reg payload =>
      granted r u (rg_BackendID reg) (rg_LeaseID reg) (rg_Generation reg) ∧ carries payload u
  | TDial u _ reg backend payload | TStore _ u _ reg backend payload =>
      (granted r u (rg_BackendID reg) (rg_LeaseID reg) (rg_Generation reg) ∧ carries payload u) ∧
      backends r !! rg_BackendID reg = Some backend
  | TWrite sid payload => ∃ s, heap r !! sid = Some s ∧ carries payload (ds_playerUUID s)
  | TRead sid _ | TReply sid _ | TCloseSession sid _ | TIdle sid => is_Some (heap r !! sid)
  | TClose sid _ | TCloseQuiet sid => is_Some (heap r !! sid) ∧ detached r sid
  end.

(** What never changes of a session. *)
Definition same_session (s s' : dynamicSession) : Prop :=
  ds_key s' = ds_key s ∧ ds_playerUUID s' = ds_playerUUID s ∧ ds_clientAddr s' = ds_clientAddr s ∧
  ds_backendID s' = ds_backendID s ∧ ds_backend s' = ds_backend s ∧ ds_leaseID s' = ds_leaseID s ∧ ds_generation s' = ds_generation s.

(** How the state may change under the tasks that are under way. *)
Record grows (r r' : Runtime) : Prop := {
  gr_cfg : cfg r' = cfg r;
  gr_backends : backends r' = backends r;
  gr_log : log r `prefix_of` log r';
  gr_heap : ∀ sid s, heap r !! sid = Some s → ∃ s', heap r' !! sid = Some s' ∧ same_session s s';
  gr_table : ∀ k sid, sessions r' !! k = Some sid → sessions r !! k = Some sid ∨ heap r !! sid = None
}.

Lemma grows_refl r : grows r r.
Proof. constructor; try done; [|by left]. intros sid s H. exists s. by repeat split. Qed.

Lemma grows_trans r1 r2 r3 : grows r1 r2 → grows r2 r3 → grows r1 r3.
Proof.
  intros [] []. constructor; [congruence|congruence|by etrans| |].
  - intros sid s Hs. destruct (gr_heap0 sid s Hs) as (s2 & H2 & E2).
    destruct (gr_heap1 sid s2 H2) as (s3 & H3 & E3). exists s3. split; [done|].
    unfold same_session in *. intuition congruence.
  - intros k sid Hk. destruct (gr_table1 k sid Hk) as [H2|H2]; [by apply gr_table0|].
    right. destruct (heap r1 !! sid) as [s|] eqn:E; [|done].
    destruct (gr_heap0 sid s E) as (s2 & ? & _). congruence.
Qed.

Lemma granted_grows r r' u b l g : grows r r' → granted r u b l g → granted r' u b l g.
Proof. intros [] Hg. unfold granted in *. destruct gr_log0 as [k ->]. apply elem_of_app. by left. Qed.

Lemma heap_grows r r' sid : grows r r' → is_Some (heap r !! sid) → is_Some (heap r' !! sid).
Proof. intros [] [s Hs]. destruct (gr_heap0 sid s Hs) as (s' & ? & _). by eexists. Qed.

Lemma task_ok_grows r r' t : grows r r' → task_ok r t → task_ok r' t.
Proof.
  intros Hg. assert (∀ sid, is_Some (heap r !! sid) ∧ detached r sid →
    is_Some (heap r' !! sid) ∧ detached r' sid) as Hd.
  { intros sid [Hs Hd]. split; [by eapply heap_grows|]. intros k Hk.
    destruct (gr_table _ _ Hg k sid Hk) as [?|E]; [by eapply Hd|]. rewrite E in Hs. by destruct Hs. }
  destruct t; cbn [task_ok]; eauto using heap_grows;
    try (intros [? ?]; split; [by eapply granted_grows|done]);
    try (rewrite (gr_backends _ _ Hg); intros [[? ?] ?]; split; [split; [by eapply granted_grows|done]|done]).
  intros (s & Hs & Hc). destruct (gr_heap _ _ Hg _ _ Hs) as (s' & Hs' & (_ & E & _)). exists s'. by rewrite E.
Qed.

(** ** Preservation by the updates the operations are made of *)

(** A member of a list that is written out. *)
Ltac elem_cases :=
  match goal with
  | H : _ ∈ _ :: _ |- _ => apply elem_of_cons in H as [H|H]; [try discriminate H|]
  | H : _ ∈ [] |- _ => by apply elem_of_nil in H
  end.

(** Events that no clause of the invariant is about. *)
Definition plain_event (e : event) : Prop :=
  match e with
  | RegistrationsSet _ | RegistrationEvent _ | BackendSwitch | Packet _ _ _ => True
  | _ => False
  end.

Lemma omap_plain {A} (f : event → option A) es :
  (∀ e, plain_event e → f e = None) → Forall plain_event es → omap f es = [].
Proof. intros Hf. induction 1 as [|e es He _ IH]; [done|]. cbn. by rewrite Hf. Qed.

Lemma emit_grows r es : grows r (emit r es).
Proof.
  constructor; try done; [by exists es| |by left]. intros sid s Hs. exists s. by repeat split.
Qed.

Lemma elem_of_log r es e : e ∈ log (emit r es) ↔ e ∈ log r ∨ e ∈ es.
Proof. apply elem_of_app. Qed.

(** Emitting events: those the invariant is about need what it says of them. *)
Lemma emit_ok r es :
  state_ok r →
  (∀ u b l g, Granted u b l g ∈ es → is_Some (backends r !! b)) →
  (∀ sid a p, ToBackend sid a p ∈ es →
     ∃ s, heap r !! sid = Some s ∧ carries p (ds_playerUUID s) ∧ ds_backend s = a) →
  (∀ a p, ToClient a p ∈ es → ∃ sid s, heap r !! sid = Some s ∧ ds_clientAddr s = a) →
  created_sids es = [] → closed_sids es = [] →
  state_ok (emit r es).
Proof.
  intros [] Hg Hb Hc E1 E2. constructor; cbn [emit registrations sessions heap next cfg backends tokens log];
    try done.
  - intros u reg H. destruct (ok_regs0 u reg H). split; [done|]. apply elem_of_log. by left.
  - intros sid s H. destruct (ok_heap0 sid s H) as (? & ? & ? & ? & ?). split_and!; [done..| |done].
    apply elem_of_log. by left.
  - intros u b l g [H|H]%elem_of_log; [by eapply ok_granted0 | by eapply Hg].
  - intros sid a p [H|H]%elem_of_app; eauto.
  - intros a p [H|H]%elem_of_app; eauto.
  - unfold created_sids in *. by rewrite omap_app, E1, app_nil_r.
  - unfold closed_sids in *. by rewrite omap_app, E2, app_nil_r.
  - intros sid. unfold closed_sids in *. rewrite omap_app, E2, app_nil_r. apply ok_closed_heap0.
Qed.

Lemma emit_plain_ok r es : state_ok r → Forall plain_event es → state_ok (emit r es).
Proof.
  intros Hok Hes. rewrite Forall_forall in Hes. apply emit_ok; try done;
    try (intros; match goal with H : _ ∈ es |- _ => by apply Hes in H end);
    apply omap_plain; try (by intros []); by apply Forall_forall.
Qed.

Lemma set_registrations_ok r m :
  state_ok r →
  (∀ u reg, m !! u = Some reg →
     rg_PlayerUUID reg = u ∧ granted r u (rg_BackendID reg) (rg_LeaseID reg) (rg_Generation reg)) →
  Z.of_nat (size m) ≤ MaxRegistrations (cfg r) →
  state_ok (set_registrations r m).
Proof. intros [] Hm Hs. by constructor. Qed.

Lemma set_registrations_grows r m : grows r (set_registrations r m).
Proof. constructor; try done; [|by left]. intros sid s Hs. exists s. by repeat split. Qed.

Lemma set_sessions_ok r m : state_ok r → m ⊆ sessions r → state_ok (set_sessions r m).
Proof.
  intros [] Hm. constructor; try done; cbn [set_sessions sessions cfg heap].
  - intros k sid Hk. apply ok_table0. by eapply lookup_weaken.
  - apply map_subseteq_size in Hm. lia.
Qed.

Lemma set_sessions_grows r m : m ⊆ sessions r → grows r (set_sessions r m).
Proof.
  intros Hm. constructor; try done.
  - intros sid s Hs. exists s. by repeat split.
  - intros k sid Hk. left. by eapply lookup_weaken.
Qed.

(** Replacing a session by one that is the same but for its clock and for having been
    closed, which only a detached one may be. *)
Lemma replace_ok r sid s s' :
  state_ok r → heap r !! sid = Some s → same_session s s' →
  (ds_closed s' = ds_closed s ∨ ds_closed s' = true ∧ detached r sid) →
  state_ok (set_heap r (<[sid := s']> (heap r)) (next r)) ∧
  grows r (set_heap r (<[sid := s']> (heap r)) (next r)).
Proof.
  intros [] Hs Hsame Hcl. destruct Hsame as (E1 & E2 & E3 & E4 & E7 & E5 & E6). split; constructor;
    cbn [set_heap registrations sessions heap next cfg backends tokens log]; try done.
  - intros k sid' Hk. destruct (decide (sid' = sid)) as [->|Hne].
    + destruct (ok_table0 k sid Hk) as (s0 & H0 & Hkey & Hc0). exists s'. rewrite lookup_insert_eq.
      simplify_eq. split_and!; [done|congruence|]. destruct Hcl as [->|[_ Hd]]; [done|]. by destruct (Hd _ Hk).
    + rewrite lookup_insert_ne by done. by apply ok_table0.
  - intros sid' s0 H0. apply lookup_insert_Some in H0 as [[<- <-]|[_ H0]]; [|by apply ok_heap0].
    destruct (ok_heap0 sid s Hs) as (? & ? & ? & ? & ?). unfold granted in *. cbn.
    rewrite E1, E2, E3, E4, E5, E6, E7. done.
  - intros sid' a p Hp. destruct (ok_to_backend0 sid' a p Hp) as (s0 & H0 & Hc).
    destruct (decide (sid' = sid)) as [->|].
    + exists s'. rewrite lookup_insert_eq, E2, E7. simplify_eq. done.
    + exists s0. by rewrite lookup_insert_ne.
  - intros a p Hp. destruct (ok_to_client0 a p Hp) as (sid' & s0 & H0 & Ha).
    destruct (decide (sid' = sid)) as [->|].
    + exists sid, s'. rewrite lookup_insert_eq. simplify_eq. split; [done|]. congruence.
    + exists sid', s0. by rewrite lookup_insert_ne.
  - intros sid' Hin. destruct (ok_closed_heap0 sid' Hin) as (s0 & H0 & Hc0).
    destruct (decide (sid' = sid)) as [->|].
    + exists s'. rewrite lookup_insert_eq. split; [done|]. destruct Hcl as [->|[? _]]; [congruence|done].
    + exists s0. by rewrite lookup_insert_ne.
  - intros sid' s0 H0. destruct (decide (sid' = sid)) as [->|].
    + exists s'. rewrite lookup_insert_eq. simplify_eq. by repeat split.
    + exists s0. rewrite lookup_insert_ne by done. by repeat split.
  - by left.
Qed.

(** ** Preservation by the operations *)

(** The outcome of an operation on [r]: the state is well formed, it has grown, and
    the tasks that are left are in order. *)
Definition good (r : Runtime) (out : Runtime * list task) : Prop :=
  state_ok out.1 ∧ grows r out.1 ∧ Forall (task_ok out.1) out.2.

Lemma good_plain r es ts :
  state_ok r → Forall plain_event es → Forall (task_ok r) ts → good r (emit r es, ts).
Proof.
  intros Hok Hes Hts. split_and!; cbn; [by apply emit_plain_ok | apply emit_grows |].
  eapply Forall_impl; [exact Hts|]. intros t. apply task_ok_grows, emit_grows.
Qed.

Lemma good_same r ts : state_ok r → Forall (task_ok r) ts → good r (r, ts).
Proof. intros. split_and!; [done | apply grows_refl | done]. Qed.

Lemma good_trans r r' out : grows r r' → good r' out → good r out.
Proof. intros Hg (? & ? & ?). split_and!; [done | by eapply grows_trans | done]. Qed.

Lemma dropped_good r res payload : state_ok r → good r (dropped r res payload).
Proof. intros. by apply good_plain; [|repeat constructor|]. Qed.

(** Forgetting registrations. *)
Lemma forget_good r m es ts :
  state_ok r → m ⊆ registrations r → Forall plain_event es → Forall (task_ok r) ts →
  good r (emit (set_registrations r m) es, ts).
Proof.
  intros Hok Hm Hes Hts. assert (state_ok (set_registrations r m)) as Hok'.
  { apply set_registrations_ok; [done| |].
    - intros u reg Hu. apply (ok_regs _ Hok). by eapply lookup_weaken.
    - apply map_subseteq_size in Hm. pose proof (ok_regs_size _ Hok). lia. }
  eapply good_trans; [apply set_registrations_grows|]. apply good_plain; [done..|].
  eapply Forall_impl; [exact Hts|]. intros t. apply task_ok_grows, set_registrations_grows.
Qed.

Lemma forwardClientPacket_good r now addr payload :
  state_ok r → good r (forwardClientPacket r now addr payload).
Proof.
  intros Hok. unfold forwardClientPacket. destruct (ParseClientPacket payload) as [p|] eqn:Ep; [|by apply dropped_good].
  unfold lookupRegistration. destruct (registrations r !! PlayerUUID p) as [reg|] eqn:Er;
    [|by apply dropped_good].
  destruct (rg_ExpiresAt reg <? now).
  - set (m := delete _ _). eapply (good_trans _ (emit (set_registrations r m) _)).
    + eapply grows_trans; [apply set_registrations_grows | apply emit_grows].
    + apply dropped_good. apply forget_good with (ts := []); [done|apply delete_subseteq| |done].
      by repeat constructor.
  - apply good_same; [done|]. apply Forall_singleton. split; [by apply (ok_regs _ Hok)|]. by exists p.
Qed.

Lemma removed_detached r k sid s :
  state_ok r → sessions r !! k = Some sid → heap r !! sid = Some s →
  detached (set_sessions r (delete k (sessions r))) sid.
Proof.
  intros Hok Hk Hs k' Hk'. cbn in Hk'. apply lookup_delete_Some in Hk' as [Hne Hk'].
  destruct (ok_table _ Hok k sid Hk) as (s1 & ? & <- & _), (ok_table _ Hok k' sid Hk') as (s2 & ? & <- & _).
  congruence.
Qed.

Lemma unlink_good r k sid s ts :
  state_ok r → sessions r !! k = Some sid → heap r !! sid = Some s →
  Forall (λ t, task_ok r t ∨ ∃ reason, t = TClose sid reason) ts →
  good r (set_sessions r (delete k (sessions r)), ts).
Proof.
  intros Hok Hk Hs Hts. assert (delete k (sessions r) ⊆ sessions r) as Hsub by apply delete_subseteq.
  split_and!; cbn; [by apply set_sessions_ok | by apply set_sessions_grows|].
  eapply Forall_impl; [exact Hts|]. intros t [Ht|[reason ->]].
  - by eapply task_ok_grows, Ht; apply set_sessions_grows.
  - split; [by eexists | by eapply removed_detached].
Qed.

Lemma carries_uuid payload u : carries payload u → is_uuid u.
Proof.
  intros ([u' q] & Hp & <-). apply ParseClientPacket_inv in Hp as (prefix & _ & Hu & _). done.
Qed.

Lemma dynamicSessionKey_inj u addr u' addr' :
  is_uuid u → is_uuid u' → dynamicSessionKey u addr = dynamicSessionKey u' addr' → u = u' ∧ addr = addr'.
Proof.
  unfold dynamicSessionKey. intros Hu Hu' E. apply app_inj_1 in E as [E1 E2]; [|by rewrite !length_String].
  apply app_inj_1 in E2 as [_ E2]; [|done]. split; [|done]. apply ParseUUID_String in Hu, Hu'. congruence.
Qed.

(** The session in the table under the key of a packet is of the packet's player. *)
Lemma table_carries r u addr sid payload :
  state_ok r → carries payload u → sessions r !! dynamicSessionKey u addr = Some sid →
  task_ok r (TWrite sid payload).
Proof.
  intros Hok Hc Hk. destruct (ok_table _ Hok _ _ Hk) as (s & Hs & Ekey & _). exists s. split; [done|].
  destruct (ok_heap _ Hok sid s Hs) as (_ & E & Hu & _). rewrite E in Ekey.
  apply dynamicSessionKey_inj in Ekey as [-> _]; eauto using carries_uuid.
Qed.

Lemma sessionFor_existing_good r u addr reg payload :
  state_ok r → task_ok r (TSession u addr reg payload) →
  good r (sessionFor_existing r u addr reg payload).
Proof.
  intros Hok Ht. pose proof (proj2 Ht) as Hc. unfold sessionFor_existing. destruct (closed r); [by apply dropped_good|].
  destruct (sessions r !! _) as [sid|] eqn:Ek; [|apply good_same; [done|by apply Forall_singleton]].
  destruct (heap r !! sid) as [s|] eqn:Es; [|by apply good_same].
  destruct (_ && _); [apply good_same; [done|apply Forall_singleton; by eapply table_carries]|].
  eapply unlink_good; [done|exact Ek|exact Es|]. constructor; [right; by eexists|].
  apply Forall_singleton. by left.
Qed.

Lemma sessionFor_limit_good r u addr reg payload :
  state_ok r → task_ok r (TLimit u addr reg payload) → good r (sessionFor_limit r u addr reg payload).
Proof.
  intros Hok Ht. unfold sessionFor_limit. destruct (_ <=? _); [by apply dropped_good|].
  destruct (backends r !! _) eqn:Eb; [|by apply dropped_good]. apply good_same; [done|by apply Forall_singleton].
Qed.

(** Connections that are dialled and closed concern no clause of the invariant. *)
Lemma set_fresh_good r cs n ts : state_ok r → Forall (task_ok r) ts → good r (set_fresh r cs n, ts).
Proof.
  intros Hok Hts. assert (grows r (set_fresh r cs n)) as Hg.
  { constructor; try done; [|by left]. intros sid s Hs. exists s. by repeat split. }
  split_and!; [by destruct Hok; constructor|exact Hg|]. eapply Forall_impl; [exact Hts|]. intros t. by apply task_ok_grows.
Qed.

Lemma sessionFor_dial_good r o u addr reg backend payload :
  state_ok r → task_ok r (TDial u addr reg backend payload) → good r (sessionFor_dial r o u addr reg backend payload).
Proof.
  intros Hok Ht. unfold sessionFor_dial. destruct (o_err o); [by apply dropped_good|].
  apply set_fresh_good; [done|]. by apply Forall_singleton.
Qed.

(** Storing a fresh session. *)
Lemma store_good r key s payload :
  state_ok r → sessions r !! key = None → Z.of_nat (size (sessions r)) < MaxSessions (cfg r) →
  ds_key s = key → key = dynamicSessionKey (ds_playerUUID s) (ds_clientAddr s) → ds_closed s = false →
  granted r (ds_playerUUID s) (ds_backendID s) (ds_leaseID s) (ds_generation s) →
  backends r !! ds_backendID s = Some (ds_backend s) → carries payload (ds_playerUUID s) →
  good r (emit (set_heap (set_sessions r (<[key := next r]> (sessions r)))
                         (<[next r := s]> (heap r)) (S (next r))) [SessionCreated (next r)],
          [TWrite (next r) payload]).
Proof.
  intros [] Hk Hsz Ekey Ek2 Hcl Hg Hba Hcar.
  assert (heap r !! next r = None) as Hfresh.
  { destruct (heap r !! next r) as [s0|] eqn:E; [|done]. apply ok_heap0 in E as [? _]. lia. }
  assert (∀ sid s0, heap r !! sid = Some s0 → <[next r := s]> (heap r) !! sid = Some s0) as Hold.
  { intros sid s0 H0. rewrite lookup_insert_ne; [done|congruence]. }
  assert (∀ e, e ∈ log r → e ∈ log r ++ [SessionCreated (next r)]) as Hlog by (intros; apply elem_of_app; by left).
  split_and!; [constructor|constructor|]; cbn; try done.
  - intros u reg H. destruct (ok_regs0 u reg H). split; [done|]. by apply Hlog.
  - intros k sid H. apply lookup_insert_Some in H as [[<- <-]|[_ H]].
    + exists s. by rewrite lookup_insert_eq.
    + destruct (ok_table0 k sid H) as (s0 & H0 & ? & ?). exists s0. split_and!; auto.
  - intros sid s0 H. apply lookup_insert_Some in H as [[<- <-]|[_ H]].
    + split_and!; [lia|exact (eq_trans Ekey Ek2)|by eapply carries_uuid|by apply Hlog|done].
    + destruct (ok_heap0 sid s0 H) as (? & ? & ? & ? & ?). split_and!; [lia|done|done|by apply Hlog|done].
  - rewrite map_size_insert_None by done. lia.
  - intros u b l g [H|H]%elem_of_app; [by eapply ok_granted0|]. by apply list_elem_of_singleton in H.
  - intros sid a p [H|H]%elem_of_app; [|by apply list_elem_of_singleton in H].
    destruct (ok_to_backend0 sid a p H) as (s0 & H0 & Hc0). exists s0. by split; [apply Hold|].
  - intros a p [H|H]%elem_of_app; [|by apply list_elem_of_singleton in H].
    destruct (ok_to_client0 a p H) as (sid & s0 & H0 & Ha). exists sid, s0. by split; [apply Hold|].
  - unfold created_sids in *. rewrite omap_app, ok_created0.
    symmetry. apply (seq_S (next r) 0).
  - unfold closed_sids in *. rewrite omap_app. cbn. by rewrite app_nil_r.
  - intros sid. unfold closed_sids in *. rewrite omap_app. cbn. rewrite app_nil_r. intros H.
    destruct (ok_closed_heap0 sid H) as (s0 & H0 & ?). exists s0. by split; [apply Hold|].
  - by eexists.
  - intros sid s0 H0. exists s0. split; [by apply Hold|]. by repeat split.
  - intros k sid H. apply lookup_insert_Some in H as [[<- <-]|[_ H]]; [by right | by left].
  - apply Forall_singleton. exists s. cbn. by rewrite lookup_insert_eq.
Qed.

Lemma sessionFor_store_good r o c u addr reg backend payload :
  state_ok r → task_ok r (TStore c u addr reg backend payload) →
  good r (sessionFor_store r o c u addr reg backend payload).
Proof.
  intros Hok Ht. unfold sessionFor_store, closeFresh.
  destruct (set_fresh_good r (fresh r ∖ {[c]}) (dials r) [TStore c u addr reg backend payload] Hok)
    as (Hok' & Hg & [[Hgr Hc] Hb]%Forall_singleton); [by apply Forall_singleton|]. cbn [fst snd] in *.
  destruct (closed r); [eapply good_trans; [exact Hg|by apply dropped_good]|].
  destruct (sessions r !! _) as [sid|] eqn:Ek.
  { eapply good_trans; [exact Hg|]. apply good_same; [done|]. apply Forall_singleton. by eapply table_carries. }
  destruct (_ <=? _) eqn:El; [eapply good_trans; [exact Hg|by apply dropped_good]|]. apply Z.leb_gt in El.
  eapply good_trans; [exact Hg|]. by apply (store_good (set_fresh r _ _)).
Qed.

Lemma touch_good r sid now s :
  state_ok r → heap r !! sid = Some s → state_ok (touch r sid now) ∧ grows r (touch r sid now).
Proof.
  intros Hok Hs. unfold touch. rewrite Hs. apply replace_ok with s; try done. by left.
Qed.

Lemma writeBackend_good r o sid payload :
  state_ok r → task_ok r (TWrite sid payload) → good r (writeBackend r o sid payload).
Proof.
  intros Hok (s & Es & Hc). unfold writeBackend. rewrite Es.
  destruct (touch_good r sid (o_now o) s Hok Es) as [Hok' Hg].
  assert (is_Some (heap (touch r sid (o_now o)) !! sid)) as Hsome by (eapply heap_grows; [done|by eexists]).
  eapply good_trans; [exact Hg|]. destruct (if ds_closed s then _ else _).
  - apply good_plain; [done|by repeat constructor|by apply Forall_singleton].
  - split_and!; cbn [fst snd]; [|apply emit_grows|done].
    apply emit_ok; try done; intros; repeat elem_cases; simplify_eq.
    destruct (gr_heap _ _ Hg sid s Es) as (s' & ? & (_ & E & _ & _ & E2 & _)). exists s'. by rewrite E, E2.
Qed.

Lemma readBackend_good r sid got : state_ok r → good r (readBackend r sid got).
Proof.
  intros Hok. unfold readBackend. destruct (heap r !! sid) as [s|] eqn:Es; [|by apply good_same].
  assert (is_Some (heap r !! sid)) as Hsome by by eexists.
  repeat case_match; first [by apply good_same | apply good_plain; [done|by repeat constructor|] |
    apply good_same; [done|]]; try done; by apply Forall_singleton.
Qed.

Lemma reply_good r o sid payload : state_ok r → good r (reply r o sid payload).
Proof.
  intros Hok. unfold reply. destruct (heap r !! sid) as [s|] eqn:Es; [|by apply good_same].
  destruct (o_err o) as [e|].
  - destruct (_ || _); (apply good_plain; [done|by repeat constructor|]); [done|].
    apply Forall_singleton. by eexists.
  - destruct (touch_good r sid (o_now o) s Hok Es) as [Hok' Hg]. eapply good_trans; [exact Hg|].
    split_and!; cbn [fst snd]; [|apply emit_grows|done].
    apply emit_ok; try done; intros; repeat elem_cases; simplify_eq.
    destruct (gr_heap _ _ Hg sid s Es) as (s' & ? & Hs'). exists sid, s'. split; [done|]. apply Hs'.
Qed.

Lemma closeSession_good r sid reason : state_ok r → good r (closeSession r sid reason).
Proof.
  intros Hok. unfold closeSession. destruct (heap r !! sid) as [s|] eqn:Es; [|by apply good_same].
  case_bool_decide as Ek.
  - eapply unlink_good; [done|exact Ek|exact Es|]. apply Forall_singleton. right. by eexists.
  - apply good_same; [done|]. apply Forall_singleton. split; [by eexists|]. intros k Hk.
    destruct (ok_table _ Hok k sid Hk) as (s' & ? & <- & _). congruence.
Qed.

Lemma close_good r sid reason :
  state_ok r → detached r sid → good r (close r sid reason, []).
Proof.
  intros Hok Hd. unfold close. destruct (heap r !! sid) as [s|] eqn:Es; [|by apply good_same].
  destruct (ds_closed s) eqn:Ec; [by apply good_same|].
  destruct (replace_ok r sid s (shut s) Hok Es) as [Hok' Hg]; [done|by right|].
  eapply good_trans; [exact Hg|]. split_and!; cbn [fst snd]; [|apply emit_grows|done].
  assert (sid ∉ closed_sids (log r)) as Hnot.
  { intros Hin. destruct (ok_closed_heap _ Hok sid Hin) as (s0 & ? & ?). congruence. }
  destruct Hok'. assert (∀ e, e ∈ log r → e ∈ log r ++ [SessionClosed sid reason]) as Hlog
    by (intros; apply elem_of_app; by left).
  constructor; cbn [emit registrations sessions heap next cfg backends tokens log set_heap] in *; try done.
  - intros u reg H. destruct (ok_regs0 u reg H). split; [done|]. by apply Hlog.
  - intros sid' s0 H. destruct (ok_heap0 sid' s0 H) as (? & ? & ? & ? & ?). split_and!; [done..| |done]. by apply Hlog.
  - intros u b l g [H|H]%elem_of_app; [by eapply ok_granted0|]. repeat elem_cases.
  - intros sid' a p [H|H]%elem_of_app; [by eapply ok_to_backend0|]. repeat elem_cases.
  - intros a p [H|H]%elem_of_app; [by eapply ok_to_client0|]. repeat elem_cases.
  - unfold created_sids in *. rewrite omap_app. cbn. by rewrite app_nil_r.
  - unfold closed_sids in *. rewrite omap_app. apply NoDup_app. split_and!; [done| |apply NoDup_singleton].
    intros x Hx [->|[]%elem_of_nil]%elem_of_cons. done.
  - intros sid'. unfold closed_sids in *. rewrite omap_app. intros [H|H]%elem_of_app; [by apply ok_closed_heap0|].
    cbn in H. apply list_elem_of_singleton in H as ->. exists (shut s). by rewrite lookup_insert_eq.
Qed.

Lemma closeWithoutMetric_good r sid :
  state_ok r → detached r sid → good r (closeWithoutMetric r sid, []).
Proof.
  intros Hok Hd. unfold closeWithoutMetric. destruct (heap r !! sid) as [s|] eqn:Es; [|by apply good_same].
  destruct (ds_closed s); [by apply good_same|].
  destruct (replace_ok r sid s (shut s) Hok Es) as [Hok' Hg]; [done|by right|]. by split_and!.
Qed.

Lemma closeSessionsForUUID_good r u reason : state_ok r → good r (closeSessionsForUUID r u reason).
Proof.
  intros Hok. unfold closeSessionsForUUID. set (m := filter _ (sessions r)).
  assert (m ⊆ sessions r) as Hsub by apply map_filter_subseteq.
  split_and!; cbn; [by apply set_sessions_ok | by apply set_sessions_grows |].
  apply Forall_fmap, Forall_forall. intros [k sid] Hin%elem_of_map_to_list. cbn.
  apply map_lookup_filter_Some in Hin as [Hk Hp]. cbn in Hp.
  destruct (ok_table _ Hok k sid Hk) as (s & Hs & _). split; [by eexists|]. intros k' Hk'. cbn in Hk'.
  apply map_lookup_filter_Some in Hk' as [_ Hn]. by apply Hn.
Qed.

Lemma expireRegistrations_good r now : state_ok r → good r (expireRegistrations r now).
Proof.
  intros Hok. unfold expireRegistrations. case_decide; [by apply good_same|].
  apply forget_good; [done|apply map_filter_subseteq| |].
  - constructor; [done|]. by apply Forall_replicate.
  - apply Forall_fmap, Forall_forall. by intros [].
Qed.

Lemma table_tasks_good r (f : nat → task) :
  state_ok r → (∀ sid, is_Some (heap r !! sid) → task_ok r (f sid)) →
  Forall (task_ok r) ((λ kv, f kv.2) <$> map_to_list (sessions r)).
Proof.
  intros Hok Hf. apply Forall_fmap, Forall_forall. intros [k sid] Hin%elem_of_map_to_list. cbn. apply Hf.
  destruct (ok_table _ Hok k sid Hin) as (s & ? & _). by eexists.
Qed.

Lemma idle_check_good r now sid : state_ok r → good r (idle_check r now sid).
Proof.
  intros Hok. unfold idle_check. destruct (heap r !! sid) as [s|] eqn:Es; [|by apply good_same].
  destruct (_ <=? _); apply good_same; try done. apply Forall_singleton. by eexists.
Qed.

Lemma Close_good r : state_ok r → good r (Close r).
Proof.
  intros Hok. unfold Close. destruct (closed r); [by apply good_same|].
  set (r' := {| cfg := cfg r; closed := true; registrations := ∅; sessions := ∅; heap := heap r;
    next := next r; fresh := fresh r; dials := dials r; backends := backends r; tokens := tokens r; log := log r |}).
  assert (state_ok r') as Hok'.
  { pose proof (ok_regs_size _ Hok). pose proof (ok_sess_size _ Hok). destruct Hok.
    constructor; cbn [registrations sessions heap next cfg backends tokens log r'];
      try (intros *; by rewrite lookup_empty); try (rewrite map_size_empty; lia); done. }
  assert (grows r r') as Hg.
  { constructor; cbn [sessions heap cfg backends log r']; try done.
    intros sid s Hs. exists s. by repeat split. }
  eapply good_trans; [exact Hg|]. apply (good_plain r'); [done|by repeat constructor|].
  apply Forall_fmap, Forall_forall. intros [k sid] Hin%elem_of_map_to_list. cbn.
  destruct (ok_table _ Hok k sid Hin) as (s & ? & _). split; [by eexists|]. intros k' Hk'.
  by rewrite (lookup_empty k' : sessions r' !! k' = None) in Hk'.
Qed.

Lemma run_task_good r o t : state_ok r → task_ok r t → good r (run_task r o t).
Proof.
  intros Hok Ht. destruct t; cbn [run_task];
    auto using forwardClientPacket_good, sessionFor_existing_good, sessionFor_limit_good,
      sessionFor_dial_good, sessionFor_store_good, writeBackend_good, readBackend_good, reply_good, closeSession_good,
      closeSessionsForUUID_good, idle_check_good.
  - apply close_good; [done|apply Ht].
  - apply closeWithoutMetric_good; [done|apply Ht].
  - apply good_same; [done|]. by apply table_tasks_good.
Qed.

(** ** Requests *)

Lemma authenticate_token r auth b : authenticate r auth = Some b →
  ∃ rest, auth = gs"Bearer " ++ rest ∧ (b, TrimSpace rest) ∈ tokens r.
Proof.
  unfold authenticate, TrimPrefix, HasPrefix. case_bool_decide as Hp; cbn [negb]; [|done].
  destruct Hp as [rest ->]. rewrite drop_app_length.
  destruct (filter _ (tokens r)) as [|[b' t] l] eqn:E; [done|]. cbn. intros [= <-]. exists rest. split; [done|].
  assert ((b', t) ∈ filter (λ c, c.2 = TrimSpace rest) (tokens r)) as Hin by (rewrite E; left).
  by apply list_elem_of_filter in Hin as [<- Hin].
Qed.

Definition request_good (r : Runtime) (out : response * Runtime * list task) : Prop :=
  good r (out.1.2, out.2).

Lemma answer_good r code res : state_ok r → request_good r (answer r code res).
Proof. intros. by apply good_plain; [|repeat constructor|]. Qed.

(** Storing a registration. *)
Lemma grant_good r u reg es ts :
  state_ok r → rg_PlayerUUID reg = u → is_Some (backends r !! rg_BackendID reg) →
  Z.of_nat (size (<[u := reg]> (registrations r))) ≤ MaxRegistrations (cfg r) →
  Forall plain_event es → Forall (task_ok r) ts →
  good r (emit (set_registrations r (<[u := reg]> (registrations r)))
            (Granted u (rg_BackendID reg) (rg_LeaseID reg) (rg_Generation reg) :: es), ts).
Proof.
  intros Hok Hu Hb Hsz Hes Hts. set (e := Granted _ _ _ _). set (m := <[u := reg]> _).
  assert (state_ok (emit r [e])) as Hok1.
  { apply emit_ok; try done; intros; repeat elem_cases; unfold e in *; by simplify_eq. }
  assert (state_ok (set_registrations (emit r [e]) m)) as Hok2.
  { apply set_registrations_ok; [done| |done]. intros u' reg' H. apply lookup_insert_Some in H as [[<- <-]|[_ H]].
    - split; [done|]. apply elem_of_log. right. apply list_elem_of_here.
    - apply (ok_regs _ Hok1 u' reg'). done. }
  assert (good (set_registrations (emit r [e]) m) (emit (set_registrations (emit r [e]) m) es, ts)) as Hg.
  { apply good_plain; [done..|]. eapply Forall_impl; [exact Hts|]. intros t Ht.
    eapply task_ok_grows, task_ok_grows, Ht; [apply set_registrations_grows | apply emit_grows]. }
  assert (emit (set_registrations (emit r [e]) m) es = emit (set_registrations r m) (e :: es)) as <-.
  { unfold emit, set_registrations. cbn. by rewrite <- app_assoc. }
  eapply good_trans, Hg. eapply grows_trans; [apply emit_grows | apply set_registrations_grows].
Qed.

Lemma handlePutRegistration_good r now lease rq b u :
  state_ok r → is_Some (backends r !! b) → request_good r (handlePutRegistration r now lease rq b u).
Proof.
  intros Hok Hb. unfold handlePutRegistration.
  destruct (rq_put rq) as [owner|]; [|by apply answer_good].
  case_decide; [by apply answer_good|]. destruct lease as [leaseID|]; [|by apply answer_good].
  destruct (closed r); [by apply answer_good|]. pose proof (ok_regs_size _ Hok).
  destruct (registrations r !! u) as [reg|] eqn:Er.
  - unfold request_good. cbn [fst snd]. apply grant_good; try done; cbn [rg_BackendID].
    + rewrite map_size_insert_Some by by eexists. done.
    + constructor; [done|]. constructor; [done|]. by case_bool_decide; repeat constructor.
    + by repeat constructor.
  - destruct (_ <=? _) eqn:El; [by apply answer_good|]. apply Z.leb_gt in El.
    unfold request_good. cbn [fst snd]. apply grant_good; try done; cbn [rg_BackendID].
    + rewrite map_size_insert_None by done. lia.
    + by repeat constructor.
Qed.

Lemma held_inv r rq b u reg : held r rq b u = Some (Some reg) →
  registrations r !! u = Some reg ∧ rg_BackendID reg = b ∧
  rq_lease rq = Ok (rg_OwnerID reg, rg_LeaseID reg).
Proof.
  unfold held. destruct (rq_lease rq) as [[owner lease]|]; [|done]. repeat case_decide; try done.
  destruct (registrations r !! u) as [reg'|]; [|done].
  destruct (_ && _) eqn:E; [|done]. rewrite !andb_true_iff, !bool_decide_eq_true in E.
  destruct E as [[<- <-] <-]. by intros [= <-].
Qed.

Lemma handleRefreshRegistration_good r now rq b u :
  state_ok r → request_good r (handleRefreshRegistration r now rq b u).
Proof.
  intros Hok. unfold handleRefreshRegistration.
  destruct (held r rq b u) as [[reg|]|] eqn:E; [|by apply answer_good..].
  apply held_inv in E as (Er & _ & _). unfold request_good. cbn [fst snd].
  set (reg' := {| rg_PlayerUUID := _ |}). set (m := <[u := reg']> _).
  assert (state_ok (set_registrations r m)) as Hok'.
  { apply set_registrations_ok; [done| |].
    - intros u' reg0 H. apply lookup_insert_Some in H as [[<- <-]|[_ H]]; [|by apply (ok_regs _ Hok)].
      apply (ok_regs _ Hok u reg Er).
    - unfold m. rewrite map_size_insert_Some by by eexists. apply (ok_regs_size _ Hok). }
  eapply good_trans; [apply set_registrations_grows|]. by apply good_plain; [|repeat constructor|].
Qed.

Lemma handleDeleteRegistration_good r rq b u :
  state_ok r → request_good r (handleDeleteRegistration r rq b u).
Proof.
  intros Hok. unfold handleDeleteRegistration.
  destruct (held r rq b u) as [[reg|]|] eqn:E; [|by apply answer_good..].
  unfold request_good. cbn [fst snd].
  apply forget_good; [done|apply delete_subseteq|by repeat constructor|by repeat constructor].
Qed.

Lemma handleRegistration_good r now lease rq :
  state_ok r → request_good r (handleRegistration r now lease rq).
Proof.
  intros Hok. unfold handleRegistration.
  destruct (authenticate r _) as [b|] eqn:Ea; [|by apply answer_good].
  apply authenticate_token in Ea as (rest & _ & Hin). apply (ok_tokens _ Hok) in Hin.
  destruct (parseRegistrationPath _) as [[u action]|]; [|by apply answer_good].
  destruct (rq_method rq); repeat case_decide;
    auto using answer_good, handlePutRegistration_good, handleRefreshRegistration_good,
      handleDeleteRegistration_good.
Qed.

(** ** Reachable states *)

Lemma add_backends_tokens resolve bs m ts m' ts' :
  add_backends resolve bs m ts = Ok (m', ts') →
  (∀ b t, (b, t) ∈ ts → is_Some (m !! b)) → ∀ b t, (b, t) ∈ ts' → is_Some (m' !! b).
Proof.
  revert m ts. induction bs as [|[id [udp token]] bs IH]; intros m ts H Hts; cbn [add_backends] in H.
  { by injection H as <- <-. }
  destruct (resolve udp) as [addr|]; [|done]. destruct (validateBackendAddr addr); [done|].
  eapply IH; [exact H|]. intros b t [Hin|Hin]%elem_of_app.
  - destruct (decide (b = id)) as [->|]; [rewrite lookup_insert_eq; by eexists|].
    rewrite lookup_insert_ne by done. eauto.
  - apply list_elem_of_singleton in Hin as [= -> ->]. rewrite lookup_insert_eq. by eexists.
Qed.

Lemma NewRuntime_ok resolve listen c bs r : NewRuntime resolve listen c bs = Ok r → state_ok r.
Proof.
  unfold NewRuntime. destruct (check_config c _) eqn:Ec; [done|]. destruct (resolve (Listen c)); [|done].
  destruct listen; [done|].
  destruct (add_backends _ _ _ _) as [[m ts]|] eqn:Ea; cbn [res_bind]; [|done]. intros [= <-].
  assert (0 < MaxRegistrations c ∧ 0 < MaxSessions c) as [].
  { unfold check_config in Ec. repeat case_match; try discriminate. bool_prop. lia. }
  constructor; cbn [registrations sessions heap next cfg backends tokens log];
    try (intros *; by rewrite lookup_empty); try (by intros * ?%elem_of_nil);
    try (rewrite map_size_empty; lia); try done; try constructor.
  eapply add_backends_tokens; [exact Ea|]. by intros * ?%elem_of_nil.
Qed.

Definition inv (st : Runtime * list task) : Prop := state_ok st.1 ∧ Forall (task_ok st.1) st.2.

Lemma good_inv r r' ts ts' before after :
  good r (r', ts') → Forall (task_ok r) before → Forall (task_ok r) after →
  ts = before ++ ts' ++ after → inv (r', ts).
Proof.
  intros (Hok & Hg & Hts) Hb Ha ->. split; [done|]. cbn in *.
  rewrite !Forall_app. split_and!; [|done|]; (eapply Forall_impl; [eassumption|]);
    intros t; by apply task_ok_grows.
Qed.

Lemma step_inv_voice st st' : inv st → step st st' → inv st'.
Proof.
  intros [Hok Hts] Hs. destruct Hs as [r ts addr payload Hl|r ts n Hn|r ts|r ts now lease rq rs r' ts' E
    |r ts sid s got Es|r ts now r' ts' E|r ts r' ts' E|r o t before after r' ts' E]; cbn [fst snd] in *.
  - split; [done|]. by constructor.
  - apply (good_inv r _ _ [] [] ts); [|done..]. by apply good_plain; [|repeat constructor|].
  - apply (good_inv r _ _ [] [] ts); [|done..]. by apply good_plain; [|repeat constructor|].
  - apply (good_inv r _ _ ts' [] ts); [|done..]. pose proof (handleRegistration_good r now lease rq Hok) as Hg.
    unfold request_good in Hg. by rewrite E in Hg.
  - split; [done|]. constructor; [by eexists|done].
  - apply (good_inv r _ _ ts' [] (TIdleScan :: ts)); [|done|by constructor|done]. rewrite <- E.
    by apply expireRegistrations_good.
  - apply (good_inv r _ _ ts' [] ts); [|done..]. rewrite <- E. by apply Close_good.
  - apply Forall_app in Hts as [Hb [Ht Ha]%Forall_cons].
    apply (good_inv r _ _ ts' before after); [|done..]. rewrite <- E. by apply run_task_good.
Qed.

Lemma reachable_inv resolve st : reachable resolve st → inv st.
Proof.
  induction 1 as [listen c bs r H|st st' _ IH Hs]; [|by eapply step_inv_voice].
  split; [by eapply NewRuntime_ok | constructor].
Qed.

End invariant.
