(* ===== verification/VoiceSafety.v ===== *)
(** * What the voice chat runtime guarantees

    Properties of every run of [VoiceChat]: who may register players, where packets
    go, the bounds of its tables, that operations drain and leave no connection
    open that the table does not know; and two runs that show what goes wrong: the
    session gauge, and a session that outlives its registration. *)
From S2P Require Import Prelude GoUnicode GoStrings GoNet GoIO HostAddr McProto VoicePacket VoiceChat.
Import gostrings.
Open Scope Z_scope.

(** ** What the properties speak of *)

Section vocabulary.
Import voicechat voice.

(** The request carries the token of this backend. *)
Definition bears_token (r : Runtime) (rq : request) (b : bytes) : Prop :=
  ∃ rest, rq_authorization rq = gs"Bearer " ++ rest ∧ (b, TrimSpace rest) ∈ tokens r.

(** The request bears the token of a backend and names the player, and either registers
    the player with that backend or comes from the holder of the registration. *)
Definition authorised (r : Runtime) (now : Z) (rq : request) (r' : Runtime) (ts' : list task) (u : UUID) : Prop :=
  ∃ b action,
    bears_token r rq b ∧
    parseRegistrationPath (rq_path rq) = Some (u, action) ∧
    ((rq_method rq = PUT ∧ ∃ reg, registrations r' !! u = Some reg ∧ rg_BackendID reg = b ∧
        rg_ExpiresAt reg = now + RegistrationTTL (cfg r) ∧
        (registrations r !! u = None ∨ TCloseUUID u Reassigned ∈ ts')) ∨
     (∃ reg, registrations r !! u = Some reg ∧ rg_BackendID reg = b ∧
        rq_lease rq = Ok (rg_OwnerID reg, rg_LeaseID reg))).

End vocabulary.

(** ** Lemmas: sessions that left the table *)

Section adrift.
Import voicechat voice.

(** An open session that is not in the table. *)
Definition adrift (r : Runtime) (sid : nat) : Prop :=
  ∃ s, heap r !! sid = Some s ∧ ds_closed s = false ∧ detached r sid.

Definition closes (t : task) (sid : nat) : Prop :=
  match t with TClose sid' _ | TCloseQuiet sid' => sid' = sid | _ => False end.

#[local] Instance closes_dec t sid : Decision (closes t sid).
Proof. destruct t; cbn [closes]; apply _. Defined.

(** Whoever takes a session out of the table is about to close it. *)
Definition covered (r : Runtime) (out : Runtime * list task) : Prop :=
  ∀ sid, adrift out.1 sid → adrift r sid ∨ Exists (λ t, closes t sid) out.2.

Lemma covered_same r r' ts :
  (∀ k sid, sessions r !! k = Some sid → sessions r' !! k = Some sid) →
  (∀ sid s', heap r' !! sid = Some s' → ds_closed s' = false →
     (∃ s, heap r !! sid = Some s ∧ ds_closed s = false) ∨ ¬ detached r' sid) →
  covered r (r', ts).
Proof.
  intros Ht Hh sid (s' & Hs' & Hc & Hd). left. destruct (Hh sid s' Hs' Hc) as [(s & ? & ?)|?]; [|done].
  exists s. split_and!; [done..|]. intros k Hk. by eapply Hd, Ht.
Qed.

Lemma covered_emit r es ts : covered r (emit r es, ts).
Proof. apply covered_same; [done|]. intros sid s' ? ?. left. by exists s'. Qed.

Lemma covered_regs r m es ts : covered r (emit (set_registrations r m) es, ts).
Proof. apply covered_same; [done|]. intros sid s' ? ?. left. by exists s'. Qed.

Lemma covered_fresh r cs n ts : covered r (set_fresh r cs n, ts).
Proof. apply covered_same; [done|]. intros sid s' ? ?. left. by exists s'. Qed.

Lemma covered_fresh_emit r cs n es ts : covered r (emit (set_fresh r cs n) es, ts).
Proof. apply covered_same; [done|]. intros sid s' ? ?. left. by exists s'. Qed.

Lemma covered_refl r ts : covered r (r, ts).
Proof. intros sid ?. by left. Qed.

(** Taking out a set of sessions that are all about to be closed. *)
Lemma covered_unlink r m ts :
  (∀ k sid, sessions r !! k = Some sid → m !! k = Some sid ∨ Exists (λ t, closes t sid) ts) →
  covered r (set_sessions r m, ts).
Proof.
  intros Hm sid (s & Hs & Hc & Hd). cbn in *.
  destruct (decide (Exists (λ t, closes t sid) ts)) as [|Hn]; [by right|left].
  exists s. split_and!; [done..|]. intros k Hk. destruct (Hm k sid Hk); [by eapply Hd|done].
Qed.

Lemma heap_touch r sid now sid' s' :
  heap (touch r sid now) !! sid' = Some s' →
  ∃ s, heap r !! sid' = Some s ∧ ds_closed s' = ds_closed s.
Proof.
  unfold touch. destruct (heap r !! sid) as [s|] eqn:E; [|by eexists]. cbn.
  intros [[<- <-]|[_ ?]]%lookup_insert_Some; by eexists.
Qed.

Lemma sessions_touch r sid now : sessions (touch r sid now) = sessions r.
Proof. unfold touch. by destruct (heap r !! sid). Qed.

Lemma covered_touch r sid now es ts : covered r (emit (touch r sid now) es, ts).
Proof.
  apply covered_same.
  - cbn [emit sessions]. by rewrite sessions_touch.
  - intros sid' s' Hs' Hc. left. destruct (heap_touch r sid now sid' s' Hs') as (s & ? & E). exists s.
    by rewrite <- E.
Qed.

Lemma covered_shut r sid s es ts :
  heap r !! sid = Some s → covered r (emit (set_heap r (<[sid := shut s]> (heap r)) (next r)) es, ts).
Proof.
  intros Hs. apply covered_same; [done|]. cbn. intros sid' s' [[<- <-]|[_ ?]]%lookup_insert_Some Hc; [done|].
  left. by exists s'.
Qed.

Lemma run_task_covered r o t : covered r (run_task r o t).
Proof.
  destruct t as [addr payload|u addr reg payload|u addr reg payload|u addr reg ba payload|c u addr reg ba payload
    |sid payload|sid got
    |sid payload|sid reason|sid reason|sid|u reason| |sid]; cbn [run_task].
  - unfold forwardClientPacket, dropped, lookupRegistration.
    repeat case_match; simplify_eq; try apply covered_emit; try apply covered_refl.
    apply covered_same; [done|]. intros sid s' ? ?. left. by exists s'.
  - unfold sessionFor_existing, dropped. destruct (closed r); [apply covered_emit|].
    destruct (sessions r !! _) as [sid0|] eqn:Ek; [|apply covered_refl].
    repeat case_match; try apply covered_refl.
    apply covered_unlink. intros k sid Hk. destruct (decide (k = dynamicSessionKey u addr)) as [->|].
    + right. apply Exists_cons. left. rewrite Ek in Hk. by injection Hk.
    + left. by rewrite lookup_delete_ne.
  - unfold sessionFor_limit, dropped. repeat case_match; apply covered_emit || apply covered_refl.
  - unfold sessionFor_dial, dropped. destruct (o_err o); [apply covered_emit|apply covered_fresh].
  - unfold sessionFor_store, dropped, closeFresh. destruct (closed r); [apply covered_fresh_emit|].
    destruct (sessions r !! _) as [sid0|] eqn:Ek; [apply covered_fresh|].
    destruct (_ <=? _); [apply covered_fresh_emit|].
    apply covered_same; cbn [emit set_heap set_sessions set_fresh sessions heap].
    + intros k sid Hk. rewrite lookup_insert_ne; [done|]. intros <-. by rewrite Ek in Hk.
    + intros sid s' [[<- <-]|[_ ?]]%lookup_insert_Some Hc; [|left; by eexists]. right. intros Hd.
      eapply Hd. cbn. apply lookup_insert_eq.
  - unfold writeBackend. repeat case_match; try apply covered_refl; apply covered_touch.
  - unfold readBackend. repeat case_match; apply covered_emit || apply covered_refl.
  - unfold reply. repeat case_match; try apply covered_refl; apply covered_emit || apply covered_touch.
  - unfold closeSession. destruct (heap r !! sid) as [s|]; [|apply covered_refl].
    case_bool_decide as Ek; [|apply covered_refl].
    apply covered_unlink. intros k sid' Hk. destruct (decide (k = ds_key s)) as [->|].
    + right. apply Exists_cons. left. rewrite Ek in Hk. by injection Hk.
    + left. by rewrite lookup_delete_ne.
  - unfold close. repeat case_match; try apply covered_refl. by apply covered_shut.
  - unfold closeWithoutMetric. repeat case_match; try apply covered_refl.
    apply covered_same; [done|]. cbn. intros sid' s' [[<- <-]|[_ ?]]%lookup_insert_Some Hc; [done|].
    left. by exists s'.
  - apply covered_unlink. intros k sid Hk. destruct (decide (of_player r u sid)) as [Hp|Hp].
    + right. apply Exists_exists. exists (TClose sid reason). split; [|done].
      apply list_elem_of_fmap. exists (k, sid). split; [done|]. apply elem_of_map_to_list.
      by apply map_lookup_filter_Some.
    + left. by apply map_lookup_filter_Some.
  - apply covered_refl.
  - unfold idle_check. repeat case_match; apply covered_refl.
Qed.

(** After a session's close task, it is closed. *)
Lemma closes_run r o t sid : closes t sid → ¬ adrift (run_task r o t).1 sid.
Proof.
  intros Hc (s & Hs & Hcl & _). destruct t; cbn in Hc; try done; subst; cbn in Hs.
  - unfold close in Hs. destruct (heap r !! sid) as [s0|] eqn:E; [|congruence].
    destruct (ds_closed s0) eqn:E0; [congruence|]. cbn in Hs. rewrite lookup_insert_eq in Hs. by injection Hs as <-.
  - unfold closeWithoutMetric in Hs. destruct (heap r !! sid) as [s0|] eqn:E; [|congruence].
    destruct (ds_closed s0) eqn:E0; [congruence|]. cbn in Hs. rewrite lookup_insert_eq in Hs. by injection Hs as <-.
Qed.

Lemma handleRegistration_covered r now lease rq :
  covered r ((handleRegistration r now lease rq).1.2, (handleRegistration r now lease rq).2).
Proof.
  unfold handleRegistration, handlePutRegistration, handleRefreshRegistration, handleDeleteRegistration, answer.
  repeat case_match; simplify_eq; cbn [fst snd]; apply covered_emit || apply covered_regs.
Qed.

(** Every session that is adrift has a task that will close it. *)
Definition no_leak (st : Runtime * list task) : Prop :=
  ∀ sid, adrift st.1 sid → Exists (λ t, closes t sid) st.2.

Lemma no_leak_new r r' ts ts' : no_leak (r, ts) → covered r (r', ts') → no_leak (r', ts' ++ ts).
Proof.
  intros Hn Hc sid Ha. apply Exists_app. destruct (Hc sid Ha) as [Ha'|?]; [right; by apply Hn | by left].
Qed.

Lemma step_no_leak st st' : no_leak st → step st st' → no_leak st'.
Proof.
  intros Hn Hs. destruct Hs as [r ts addr payload Hl|r ts n Hl|r ts|r ts now lease rq rs r' ts' E
    |r ts sid s got Es|r ts now r' ts' E|r ts r' ts' E|r o t before after r' ts' E].
  - apply (no_leak_new r r ts [_]); [done|apply covered_refl].
  - apply (no_leak_new r _ ts []); [done|apply covered_emit].
  - apply (no_leak_new r _ ts []); [done|apply covered_emit].
  - apply (no_leak_new r _ ts ts'); [done|]. pose proof (handleRegistration_covered r now lease rq) as Hc.
    by rewrite E in Hc.
  - apply (no_leak_new r r ts [_]); [done|apply covered_refl].
  - apply (no_leak_new r _ (TIdleScan :: ts) ts').
    + intros sid Ha. apply Exists_cons. right. by apply Hn.
    + unfold expireRegistrations in E. case_decide; simplify_eq; [apply covered_refl|apply covered_regs].
  - apply (no_leak_new r _ ts ts'); [done|]. unfold Close in E.
    destruct (closed r); simplify_eq; [apply covered_refl|]. intros sid (s & Hs & Hcl & _). cbn in Hs.
    destruct (decide (Exists (λ t, closes t sid) ((λ kv, TClose kv.2 Shutdown) <$> map_to_list (sessions r))))
      as [|Hno]; [by right|left].
    exists s. split_and!; [done..|]. intros k Hk. apply Hno, Exists_exists. exists (TClose sid Shutdown).
    split; [|done]. apply list_elem_of_fmap. exists (k, sid). by rewrite elem_of_map_to_list.
  - intros sid Ha. cbn [fst snd] in *. pose proof (run_task_covered r o t sid) as Hc. rewrite E in Hc.
    rewrite !Exists_app. destruct (Hc Ha) as [Ha'|?]; [|tauto].
    pose proof (Hn sid Ha') as Hex. cbn in Hex. rewrite Exists_app, Exists_cons in Hex.
    destruct Hex as [?|[Ht|?]]; [tauto| |tauto]. exfalso. apply (closes_run r o t sid Ht). by rewrite E.
Qed.

Lemma reachable_no_leak resolve st : reachable resolve st → no_leak st.
Proof.
  induction 1 as [listen c bs r H|st st' _ IH Hs]; [|by eapply step_no_leak].
  intros sid (s & Hs & _). unfold NewRuntime in H. repeat case_match; try done.
  destruct (add_backends _ _ _ _) as [[m ts]|]; [|done]. cbn in H. injection H as <-. done.
Qed.

(** ** Connections that were dialled for a session that is not stored *)

Definition stores (t : task) (c : nat) : Prop :=
  match t with TStore c' _ _ _ _ _ => c' = c | _ => False end.

(** Whoever has dialled is about to store the session or to close its connection. *)
Definition no_fresh_leak (st : Runtime * list task) : Prop :=
  ∀ c, c ∈ fresh st.1 → Exists (λ t, stores t c) st.2.

Lemma fresh_touch r sid now : fresh (touch r sid now) = fresh r.
Proof. unfold touch. by destruct (heap r !! sid). Qed.

(** A task adds to the fresh connections only what it is going to store, and when it
    stores takes one away. *)
Lemma run_task_fresh r o t c :
  c ∈ fresh (run_task r o t).1 →
  (c ∈ fresh r ∧ ¬ stores t c) ∨ Exists (λ t', stores t' c) (run_task r o t).2.
Proof.
  destruct t as [addr payload|u addr reg payload|u addr reg payload|u addr reg ba payload|c' u addr reg ba payload
    |sid payload|sid got|sid payload|sid reason|sid reason|sid|u reason| |sid]; cbn [run_task stores].
  - unfold forwardClientPacket, dropped, lookupRegistration. repeat case_match; simplify_eq; cbn; by auto.
  - unfold sessionFor_existing, dropped. repeat case_match; cbn; by auto.
  - unfold sessionFor_limit, dropped. repeat case_match; cbn; by auto.
  - unfold sessionFor_dial, dropped. repeat case_match; cbn; [by auto|].
    intros [->%elem_of_singleton|?]%elem_of_union; [right; apply Exists_cons; by left|left; split; [done|intros []]].
  - unfold sessionFor_store, dropped, closeFresh. repeat case_match; cbn; intros [? Hne]%elem_of_difference; left;
      (split; [done|]); intros ->; by apply Hne, elem_of_singleton.
  - unfold writeBackend. repeat case_match; cbn; rewrite ?fresh_touch; by auto.
  - unfold readBackend. repeat case_match; cbn; by auto.
  - unfold reply. repeat case_match; cbn; rewrite ?fresh_touch; by auto.
  - unfold closeSession. repeat case_match; cbn; by auto.
  - unfold close. repeat case_match; cbn; by auto.
  - unfold closeWithoutMetric. repeat case_match; cbn; by auto.
  - cbn. by auto.
  - cbn. by auto.
  - unfold idle_check. repeat case_match; cbn; by auto.
Qed.

Lemma handleRegistration_fresh r now lease rq : fresh (handleRegistration r now lease rq).1.2 = fresh r.
Proof.
  unfold handleRegistration, handlePutRegistration, handleRefreshRegistration, handleDeleteRegistration, answer.
  repeat case_match; simplify_eq; done.
Qed.

Lemma step_no_fresh_leak st st' : no_fresh_leak st → step st st' → no_fresh_leak st'.
Proof.
  intros Hn Hs. assert (∀ r r' ts ts', no_fresh_leak (r, ts) → fresh r' = fresh r → no_fresh_leak (r', ts' ++ ts)) as Hnew.
  { intros r r' ts ts' H E c. cbn. rewrite E. intros Hc. apply Exists_app. right. by apply H. }
  destruct Hs as [r ts addr payload Hl|r ts n Hl|r ts|r ts now lease rq rs r' ts' E
    |r ts sid s got Es|r ts now r' ts' E|r ts r' ts' E|r o t before after r' ts' E].
  - by apply (Hnew r r ts [_]).
  - by apply (Hnew r _ ts []).
  - by apply (Hnew r _ ts []).
  - apply (Hnew r _ ts ts'); [done|]. pose proof (handleRegistration_fresh r now lease rq) as H. by rewrite E in H.
  - by apply (Hnew r r ts [_]).
  - apply (Hnew r _ (TIdleScan :: ts) ts').
    + intros c Hc. apply Exists_cons. right. by apply Hn.
    + unfold expireRegistrations in E. case_decide; by simplify_eq.
  - apply (Hnew r _ ts ts'); [done|]. unfold Close in E. destruct (closed r); by simplify_eq.
  - intros c Hc. cbn [fst snd] in *. pose proof (run_task_fresh r o t c) as Hf. rewrite E in Hf.
    rewrite !Exists_app. destruct (Hf Hc) as [[Hin Hno]|?]; [|tauto].
    pose proof (Hn c Hin) as Hex. cbn in Hex. rewrite Exists_app, Exists_cons in Hex. tauto.
Qed.

Lemma reachable_no_fresh_leak resolve st : reachable resolve st → no_fresh_leak st.
Proof.
  induction 1 as [listen c bs r H|st st' _ IH Hs]; [|by eapply step_no_fresh_leak].
  unfold NewRuntime in H. repeat case_match; try done.
  destruct (add_backends _ _ _ _) as [[m ts]|]; [|done]. cbn in H. injection H as <-.
  intros x. cbn. by rewrite elem_of_empty.
Qed.

End adrift.

(** ** Lemmas: operations drain *)

Section draining.
Import voicechat voice.

(** A step of a task that is under way. *)
Inductive task_step : Runtime * list task → Runtime * list task → Prop :=
| task_step_intro r o t before after r' ts' :
    run_task r o t = (r', ts') → task_step (r, before ++ t :: after) (r', before ++ ts' ++ after).

(** How far a packet is from its session: only these tasks add to the table. *)
Definition stage (t : task) : nat :=
  match t with 
    TPacket _ _ => 5 | TSession _ _ _ _ => 4 | TLimit _ _ _ _ => 3 | TDial _ _ _ _ _ => 2 | TStore _ _ _ _ _ _ => 1
  | _ => 0
  end.

(** What the other tasks have left to do, when the table has [n] sessions. *)
Definition effort (n : nat) (t : task) : nat :=
  match t with
  | TPacket _ _ | TSession _ _ _ _ | TLimit _ _ _ _ | TDial _ _ _ _ _ | TStore _ _ _ _ _ _ => 0
  | TClose _ _ | TCloseQuiet _ => 1
  | TCloseSession _ _ => 2
  | TWrite _ _ | TReply _ _ | TIdle _ => 3
  | TRead _ _ => 4
  | TCloseUUID _ _ => S n
  | TIdleScan => S (3 * n)
  end.

Definition stages (ts : list task) : nat := sum_list_with stage ts.
Definition efforts (n : nat) (ts : list task) : nat := sum_list_with (effort n) ts.

Lemma efforts_mono n n' ts : (n' ≤ n)%nat → (efforts n' ts ≤ efforts n ts)%nat.
Proof.
  intros Hn. unfold efforts. induction ts as [|t ts IH]; [done|]. cbn [sum_list_with].
  assert (effort n' t ≤ effort n t)%nat by (destruct t; cbn [effort]; lia). lia.
Qed.

Lemma sum_const {A} (f : A → nat) c l : (∀ x, x ∈ l → f x = c) → sum_list_with f l = (c * length l)%nat.
Proof.
  induction l as [|x l IH]; intros Hf; [cbn; lia|]. cbn [sum_list_with length].
  rewrite (Hf x), IH by (try left; intros; apply Hf; by right). lia.
Qed.

(** A packet comes closer to its session; any other task leaves less to do, and does
    not add to the table. *)
Lemma run_task_less r o t r' ts' :
  run_task r o t = (r', ts') →
  (stages ts' < stage t)%nat ∨
  stages ts' = 0%nat ∧ (size (sessions r') ≤ size (sessions r))%nat ∧
  (efforts (size (sessions r')) ts' < effort (size (sessions r)) t)%nat.
Proof.
  destruct t as [addr payload|u addr reg payload|u addr reg payload|u addr reg ba payload|c u addr reg ba payload
    |sid payload|sid got
    |sid payload|sid reason|sid reason|sid|u reason| |sid]; cbn [run_task stage effort].
  - unfold forwardClientPacket, dropped. repeat case_match; intros; simplify_eq; left; cbn; lia.
  - unfold sessionFor_existing, dropped. repeat case_match; intros; simplify_eq; left; cbn; lia.
  - unfold sessionFor_limit, dropped. repeat case_match; intros; simplify_eq; left; cbn; lia.
  - unfold sessionFor_dial, dropped. repeat case_match; intros; simplify_eq; left; cbn; lia.
  - unfold sessionFor_store, dropped. repeat case_match; intros; simplify_eq; left; cbn; lia.
  - intros E. right. unfold writeBackend in E. destruct (heap r !! sid); [|simplify_eq; cbn; lia].
    pose proof (sessions_touch r sid (o_now o)) as Et.
    destruct (if ds_closed d then _ else _); simplify_eq; cbn; rewrite Et; lia.
  - unfold readBackend. repeat case_match; intros; simplify_eq; right; cbn; lia.
  - unfold reply. destruct (heap r !! sid); [|intros; simplify_eq; right; cbn; lia].
    pose proof (sessions_touch r sid (o_now o)) as Et.
    repeat case_match; intros; simplify_eq; right; cbn; rewrite ?Et; lia.
  - unfold closeSession. repeat case_match; intros; simplify_eq; right; cbn; try lia.
    split_and!; [done| |lia]. apply map_subseteq_size, delete_subseteq.
  - intros; simplify_eq. right. unfold close. repeat case_match; cbn; lia.
  - intros; simplify_eq. right. unfold closeWithoutMetric. repeat case_match; cbn; lia.
  - intros; simplify_eq. right. unfold closeSessionsForUUID in *. simplify_eq. unfold stages, efforts.
    set (gone := filter _ _). set (l := _ <$> map_to_list gone).
    assert (∀ x, x ∈ l → ∃ k, x = TClose k reason) as Hl.
    { intros x ((k & y) & -> & _)%list_elem_of_fmap. by eexists. }
    rewrite (sum_const stage 0 l) by (by intros x [k ->]%Hl).
    rewrite (sum_const _ 1 l) by (by intros x [k ->]%Hl). unfold l. rewrite length_fmap, length_map_to_list.
    assert (size gone ≤ size (sessions r))%nat by apply map_subseteq_size, map_filter_subseteq.
    split_and!; [lia| |lia]. cbn. apply map_subseteq_size, map_filter_subseteq.
  - unfold idle_scan. intros; simplify_eq. right. unfold stages, efforts. set (l := _ <$> _).
    assert (∀ x, x ∈ l → ∃ k, x = TIdle k) as Hl.
    { intros x ((k & y) & -> & _)%list_elem_of_fmap. by eexists. }
    rewrite (sum_const stage 0 l) by (by intros x [k ->]%Hl).
    rewrite (sum_const _ 3 l) by (by intros x [k ->]%Hl). unfold l. rewrite length_fmap, length_map_to_list. lia.
  - unfold idle_check. repeat case_match; intros; simplify_eq; right; cbn; lia.
Qed.

Lemma task_step_acc st : Acc (flip task_step) st.
Proof.
  destruct st as [r ts]. remember (stages ts) as a eqn:Ea. revert r ts Ea.
  induction a as [a IHa] using lt_wf_ind. intros r ts ->.
  remember (efforts (size (sessions r)) ts) as b eqn:Eb. revert r ts IHa Eb.
  induction b as [b IHb] using lt_wf_ind. intros r ts IHa ->. constructor. intros [r' ts'] Hs. unfold flip in Hs.
  inversion Hs as [r0 o t before after r1 new E]; subst.
  assert (∀ f, sum_list_with f (before ++ new ++ after) =
    (sum_list_with f before + (sum_list_with f new + sum_list_with f after))%nat) as Hsum
    by (intros f; by rewrite !sum_list_with_app).
  assert (∀ f, sum_list_with f (before ++ t :: after) =
    (sum_list_with f before + (f t + sum_list_with f after))%nat) as Hsum0
    by (intros f; by rewrite sum_list_with_app).
  destruct (run_task_less _ _ _ _ _ E) as [Hlt|(H0 & Hsz & Hlt)].
  - eapply IHa; [|done]. unfold stages in *. rewrite Hsum, Hsum0. lia.
  - assert (stages (before ++ new ++ after) ≤ stages (before ++ t :: after))%nat as Hle.
    { unfold stages in *. rewrite Hsum, Hsum0. lia. }
    eapply IHb; [| |reflexivity].
    + unfold efforts in *. rewrite Hsum, Hsum0.
      pose proof (efforts_mono _ _ before Hsz). pose proof (efforts_mono _ _ after Hsz). unfold efforts in *. lia.
    + intros m Hm r2 ts2 E2. eapply IHa; [|exact E2]. lia.
Qed.

End draining.

(** ** Properties *)

Section properties.
Import voicechat voice.
Context (resolve : bytes → res net.UDPAddr).

(** A session that may be written to at this address: its player was registered by its
    backend, under the lease and generation the session has, and the address is the one
    that backend is configured with. *)
Definition leads_to (r : Runtime) (s : dynamicSession) (a : net.UDPAddr) : Prop :=
  Granted (ds_playerUUID s) (ds_backendID s) (ds_leaseID s) (ds_generation s) ∈ log r ∧
  backends r !! ds_backendID s = Some a.

(** C7: whatever packets, requests, timers and failures interleave, a voice packet is
    sent to an address only through a session of the player whose identifier the packet
    carries, that player was registered by the backend of the session, and the address is
    the one that backend is configured with. *)
Theorem packets_follow_registrations r ts sid a p :
  reachable resolve (r, ts) → ToBackend sid a p ∈ log r →
  ∃ s, heap r !! sid = Some s ∧ carries p (ds_playerUUID s) ∧
    leads_to r s a.
Proof.
  intros [Hok _]%reachable_inv Hin. cbn in Hok. destruct (ok_to_backend _ Hok sid a p Hin) as (s & Hs & Hc & <-).
  destruct (ok_heap _ Hok sid s Hs) as (_ & _ & _ & Hg & Hb). by exists s.
Qed.

(** The tables stay within their limits, and every session in the table is open
    and stored under its own player and client address, in every interleaving. *)
Theorem voice_tables_ok r ts :
  reachable resolve (r, ts) →
  Z.of_nat (size (registrations r)) ≤ MaxRegistrations (cfg r) ∧
  Z.of_nat (size (sessions r)) ≤ MaxSessions (cfg r) ∧
  (∀ k sid, sessions r !! k = Some sid →
     ∃ s, heap r !! sid = Some s ∧ ds_closed s = false ∧
          k = dynamicSessionKey (ds_playerUUID s) (ds_clientAddr s)) ∧
  (∀ u reg, registrations r !! u = Some reg → rg_PlayerUUID reg = u).
Proof.
  intros [Hok _]%reachable_inv. cbn in Hok.
  split_and!; [apply (ok_regs_size _ Hok) | apply (ok_sess_size _ Hok) | |].
  - intros k sid Hk. destruct (ok_table _ Hok k sid Hk) as (s & Hs & <- & Hc). exists s.
    destruct (ok_heap _ Hok sid s Hs) as (_ & E & _). split_and!; [done..|exact E].
  - intros u reg Hu. by apply (ok_regs _ Hok) in Hu as [? _].
Qed.

(** C30: no connection to a backend is left behind: a session that is open but no longer
    in the table has a task that is about to close it, and a connection that was dialled
    for a session that is not stored yet has a task that is about to store or close it; so
    when no operation is under way there is none of either, and every open session is found
    under its key. *)
Theorem no_connection_left r ts :
  reachable resolve (r, ts) →
  (∀ sid, adrift r sid → Exists (λ t, closes t sid) ts) ∧
  (∀ c, c ∈ fresh r → Exists (λ t, stores t c) ts) ∧
  (ts = [] → fresh r = ∅ ∧
     ∀ sid s, heap r !! sid = Some s → ds_closed s = false → sessions r !! ds_key s = Some sid).
Proof.
  intros Hr. pose proof (reachable_no_leak _ _ Hr) as Hn. pose proof (reachable_no_fresh_leak _ _ Hr) as Hf.
  pose proof (reachable_inv _ _ Hr) as [Hok _]. cbn in Hok. split; [exact Hn|]. split; [exact Hf|]. intros ->. split.
  - apply set_eq. intros c. split; [|set_solver]. by intros []%Hf%Exists_nil.
  - intros sid s Hs Hc.
    destruct (decide (sessions r !! ds_key s = Some sid)) as [|Hne]; [done|exfalso].
    assert (adrift r sid) as []%Hn%Exists_nil. exists s. split_and!; [done..|]. intros k Hk.
    destruct (ok_table _ Hok k sid Hk) as (s' & ? & <- & _). congruence.
Qed.

(** Operations always finish: whatever the state and the tasks under way, and
    whatever the clock and the network answer, there is no infinite sequence of
    task steps, and as long as a task is left one can be taken. *)
Theorem operations_drain r ts :
  Acc (flip task_step) (r, ts) ∧ (ts ≠ [] → ∃ st, task_step (r, ts) st).
Proof.
  split; [apply task_step_acc|]. destruct ts as [|t ts]; [done|]. intros _.
  destruct (run_task r {| o_now := 0; o_err := None |} t) as [r' ts'] eqn:E.
  eexists. exact (task_step_intro r _ t [] ts r' ts' E).
Qed.

(** A PUT is refused, or stores a registration of its backend. *)
Lemma handlePut_stored r now lease rq b v rs r' ts' :
  handlePutRegistration r now lease rq b v = (rs, r', ts') →
  (∃ code res, answer r code res = (rs, r', ts')) ∨
  ∃ reg, registrations r' = <[v := reg]> (registrations r) ∧ rg_BackendID reg = b ∧
    rg_ExpiresAt reg = now + RegistrationTTL (cfg r) ∧
    (registrations r !! v = None ∨ TCloseUUID v Reassigned ∈ ts').
Proof.
  unfold handlePutRegistration. intros E.
  destruct (rq_put rq) as [owner|]; [|left; by eexists _, _].
  destruct (decide (TrimSpace owner = [])); [left; by eexists _, _|].
  destruct lease as [leaseID|]; [|left; by eexists _, _]. destruct (closed r); [left; by eexists _, _|].
  destruct (registrations r !! v) as [old|].
  - right. injection E as _ <- <-. eexists. split_and!; [done..|]. right. left.
  - destruct (_ <=? _); [left; by eexists _, _|]. right. injection E as _ <- <-.
    eexists. split_and!; [done..|]. by left.
Qed.

(** A request that changes a registration is authorised for it. *)
Lemma request_changes_registration r now lease rq rs r' ts' u :
  handleRegistration r now lease rq = (rs, r', ts') →
  registrations r' !! u ≠ registrations r !! u →
  authorised r now rq r' ts' u.
Proof.
  intros E Hne. unfold authorised. unfold handleRegistration in E.
  assert (∀ code res, answer r code res = (rs, r', ts') → False) as Hans
    by (unfold answer; intros * [= _ <- _]; by apply Hne).
  destruct (authenticate r _) as [b|] eqn:Ea; [|by destruct (Hans _ _ E)].
  apply authenticate_token in Ea as (rest & Hauth & Hin).
  destruct (parseRegistrationPath _) as [[v action]|] eqn:Ep; [|by destruct (Hans _ _ E)].
  assert ((∀ w, w ≠ v → registrations r' !! w = registrations r !! w) → v = u) as Hv.
  { intros Hw. destruct (decide (v = u)) as [|Huv]; [done|]. by rewrite Hw in Hne. }
  exists b, action. split; [by exists rest|].
  destruct (rq_method rq) eqn:Em; [| | |by destruct (Hans _ _ E)]; case_decide; try (by destruct (Hans _ _ E)).
  - destruct (handlePut_stored _ _ _ _ _ _ _ _ _ E) as [(code & res & Hno)|(reg & Er & Hb & Hx & Hts)];
      [by destruct (Hans _ _ Hno)|].
    assert (v = u) as -> by (apply Hv; intros; rewrite Er; by rewrite lookup_insert_ne).
    split; [done|]. left. split; [done|]. exists reg. by rewrite Er, lookup_insert_eq.
  - unfold handleRefreshRegistration in E. destruct (held r rq b v) as [[reg|]|] eqn:Eh;
      try (by destruct (Hans _ _ E)). simplify_eq/=. assert (v = u) as -> by (apply Hv; intros; cbn; by rewrite lookup_insert_ne).
    split; [done|]. right. exists reg. by apply held_inv in Eh as (? & ? & ?).
  - unfold handleDeleteRegistration in E. destruct (held r rq b v) as [[reg|]|] eqn:Eh;
      try (by destruct (Hans _ _ E)). simplify_eq/=. assert (v = u) as -> by (apply Hv; intros; cbn; by rewrite lookup_delete_ne).
    split; [done|]. right. exists reg. by apply held_inv in Eh as (? & ? & ?).
Qed.

Lemma run_task_registrations r o t :
  (∃ addr payload, t = TPacket addr payload) ∨ registrations (run_task r o t).1 = registrations r.
Proof.
  destruct t as [addr payload|u addr reg payload|u addr reg payload|u addr reg ba payload|c' u addr reg ba payload
    |sid payload|sid got|sid payload|sid reason|sid reason|sid|u reason| |sid]; cbn [run_task]; [by eauto|right..].
  - unfold sessionFor_existing, dropped. by repeat case_match.
  - unfold sessionFor_limit, dropped. by repeat case_match.
  - unfold sessionFor_dial, dropped. by repeat case_match.
  - unfold sessionFor_store, dropped, closeFresh. by repeat case_match.
  - unfold writeBackend, touch. by repeat case_match.
  - unfold readBackend. by repeat case_match.
  - unfold reply, touch. by repeat case_match.
  - unfold closeSession. by repeat case_match.
  - unfold close. by repeat case_match.
  - unfold closeWithoutMetric. by repeat case_match.
  - done.
  - done.
  - unfold idle_check. by repeat case_match.
Qed.

Lemma expire_changes r now r' ts' u :
  expireRegistrations r now = (r', ts') → registrations r' !! u ≠ registrations r !! u →
  ∃ reg, registrations r !! u = Some reg ∧ rg_ExpiresAt reg < now ∧ registrations r' !! u = None.
Proof.
  unfold expireRegistrations. case_decide; intros [= <- _] Hne; [done|]. cbn in *.
  destruct (registrations r !! u) as [reg|] eqn:E.
  - destruct (decide (rg_ExpiresAt reg < now)) as [Hlt|Hge].
    + exists reg. split_and!; [done..|]. apply map_lookup_filter_None. right. intros reg' E'. cbn.
      rewrite E in E'. injection E' as <-. intros Hn; by apply Hn.
    + destruct Hne. by apply map_lookup_filter_Some.
  - destruct Hne. apply map_lookup_filter_None. by left.
Qed.

Lemma packet_changes r now addr payload u :
  registrations (forwardClientPacket r now addr payload).1 !! u ≠ registrations r !! u →
  carries payload u ∧ ∃ reg, registrations r !! u = Some reg ∧ rg_ExpiresAt reg < now ∧
    registrations (forwardClientPacket r now addr payload).1 !! u = None.
Proof.
  unfold forwardClientPacket, lookupRegistration, dropped.
  destruct (ParseClientPacket payload) as [pk|] eqn:Ep; [|done].
  destruct (registrations r !! PlayerUUID pk) as [reg|] eqn:Er; [|done].
  destruct (rg_ExpiresAt reg <? now) eqn:Ex; [|done]. cbn. intros Hne.
  destruct (decide (PlayerUUID pk = u)) as [<-|Hu]; [|by rewrite lookup_delete_ne in Hne].
  split; [by exists pk|]. exists reg. split_and!; [done|lia|]. apply lookup_delete_eq.
Qed.

(** C28: a registration changes in three ways only, in every step of every interleaving.
    By a request that bears the token of a backend and names the player: a PUT, which
    registers the player with that backend and sees to it that the sessions of a
    registration it replaces are closed, or a refresh or delete by the backend, owner and
    lease that hold it. By its expiry: it is deleted, by the expiry loop or by a packet of
    the player, at a time after the one it was granted until. By [Close], with all others. *)
Theorem registrations_need_token st st' u :
  step st st' → registrations st'.1 !! u ≠ registrations st.1 !! u →
  (∃ now lease rq rs ts', handleRegistration st.1 now lease rq = (rs, st'.1, ts') ∧
     st'.2 = ts' ++ st.2 ∧ authorised st.1 now rq st'.1 ts' u) ∨
  (∃ now reg, registrations st.1 !! u = Some reg ∧ rg_ExpiresAt reg < now ∧ registrations st'.1 !! u = None ∧
     (st'.1 = (expireRegistrations st.1 now).1 ∨
      ∃ addr payload, carries payload u ∧ st'.1 = (forwardClientPacket st.1 now addr payload).1)) ∨
  (closed st.1 = false ∧ closed st'.1 = true ∧ registrations st'.1 = ∅).
Proof.
  intros Hs Hne. destruct Hs as [r ts addr payload Hl|r ts n Hl|r ts|r ts now lease rq rs r' ts' E
    |r ts sid s got Es|r ts now r' ts' E|r ts r' ts' E|r o t before after r' ts' E]; cbn [fst snd] in *; try done.
  - left. exists now, lease, rq, rs, ts'. split_and!; [done..|]. by eapply request_changes_registration.
  - right; left. destruct (expire_changes _ _ _ _ _ E Hne) as (reg & ? & ? & ?). exists now, reg.
    split_and!; [done..|]. left. by rewrite E.
  - right; right. unfold Close in E. destruct (closed r); simplify_eq; done.
  - right; left. destruct (run_task_registrations r o t) as [(addr & payload & ->)|Hr]; [|by rewrite E in Hr; cbn in Hr; rewrite Hr in Hne].
    cbn [run_task] in E. pose proof (packet_changes r (o_now o) addr payload u) as Hp. rewrite E in Hp.
    destruct (Hp Hne) as (Hc & reg & ? & ? & ?). exists (o_now o), reg. split_and!; [done..|]. right.
    exists addr, payload. by rewrite E.
Qed.

(** The session gauge - sessions counted as created less those counted as closed -
    is never below the number of sessions in the table. *)
Theorem gauge_never_below r ts :
  reachable resolve (r, ts) →
  (length (closed_sids (log r)) + size (sessions r) ≤ length (created_sids (log r)))%nat.
Proof.
  intros [Hok _]%reachable_inv. cbn in Hok. rewrite (ok_created _ Hok), length_seq.
  set (table := (map_to_list (sessions r)).*2).
  assert (length table = size (sessions r)) as <-.
  { unfold table. by rewrite length_fmap, length_map_to_list. }
  assert (∀ sid, sid ∈ table → ∃ k, sessions r !! k = Some sid) as Htab.
  { intros sid ([k sid'] & -> & Hin%elem_of_map_to_list)%list_elem_of_fmap. by exists k. }
  rewrite <- length_app, <- (length_seq (next r) 0). apply submseteq_length, NoDup_submseteq.
  - apply NoDup_app. split_and!; [apply (ok_closed _ Hok)| |].
    + intros sid (s & Hs & Hc)%(ok_closed_heap _ Hok) (k & Hk)%Htab.
      destruct (ok_table _ Hok k sid Hk) as (s' & ? & _ & ?). congruence.
    + unfold table. apply NoDup_fmap_2_strong; [|apply NoDup_map_to_list].
      intros [k1 sid1] [k2 sid2] H1%elem_of_map_to_list H2%elem_of_map_to_list E. cbn in E. subst sid2.
      destruct (ok_table _ Hok _ _ H1) as (s1 & ? & <- & _), (ok_table _ Hok _ _ H2) as (s2 & ? & <- & _). congruence.
  - intros sid [(s & Hs & _)%(ok_closed_heap _ Hok)|(k & Hk)%Htab]%elem_of_app.
    + apply elem_of_seq. destruct (ok_heap _ Hok sid s Hs). lia.
    + destruct (ok_table _ Hok k sid Hk) as (s & Hs & _). apply elem_of_seq. destruct (ok_heap _ Hok sid s Hs). lia.
Qed.

(** A backend whose token has white space around it can never authenticate, since
    the token of a request is trimmed before it is compared: nothing it sends is
    taken for it. *)
Theorem padded_token_never_authenticates r auth b :
  (∀ t, (b, t) ∈ tokens r → TrimSpace t ≠ t) → authenticate r auth ≠ Some b.
Proof. intros Hp (rest & _ & Hin)%authenticate_token. apply (Hp _ Hin), TrimSpace_idemp. Qed.

End properties.

(** ** Concrete runs *)

Section runs.
Import voicechat voice.

(** A run written down: inputs, and which of the tasks under way moves next. *)
Inductive command :=
| CRequest (now : Z) (lease : res bytes) (rq : request)
| CDatagram (addr payload : bytes)
| CBackend (sid : nat) (got : res bytes)
| CTick (now : Z)
| CTask (i : nat) (o : oracle).

Definition exec1 (st : Runtime * list task) (c : command) : option (Runtime * list task) :=
  let '(r, ts) := st in
  match c with
  | CRequest now lease rq => let '(_, r', ts') := handleRegistration r now lease rq in Some (r', ts' ++ ts)
  | CDatagram addr payload =>
      if zlen payload <=? MaxPacketSize (cfg r) then Some (r, TPacket addr payload :: ts) else None
  | CBackend sid got => match heap r !! sid with Some _ => Some (r, TRead sid got :: ts) | None => None end
  | CTick now => let '(r', ts') := expireRegistrations r now in Some (r', ts' ++ TIdleScan :: ts)
  | CTask i o =>
      match ts !! i with
      | Some t => let '(r', ts') := run_task r o t in Some (r', take i ts ++ ts' ++ drop (S i) ts)
      | None => None
      end
  end.

Fixpoint exec (st : Runtime * list task) (cs : list command) : option (Runtime * list task) :=
  match cs with
  | [] => Some st
  | c :: cs' => st' ← exec1 st c; exec st' cs'
  end.

Lemma exec1_step st c st' : exec1 st c = Some st' → step st st'.
Proof.
  destruct st as [r ts], c as [now lease rq|addr payload|sid got|now|i o]; cbn [exec1].
  - destruct (handleRegistration r now lease rq) as [[rs r'] ts'] eqn:E. intros [= <-]. by eapply step_request.
  - destruct (_ <=? _) eqn:E; [|done]. intros [= <-]. apply step_datagram. by apply Z.leb_le.
  - destruct (heap r !! sid) as [s|] eqn:E; [|done]. intros [= <-]. by eapply step_backend.
  - destruct (expireRegistrations r now) as [r' ts'] eqn:E. intros [= <-]. by eapply step_tick.
  - destruct (ts !! i) as [t|] eqn:E; [|done]. destruct (run_task r o t) as [r' ts'] eqn:Er. intros [= <-].
    rewrite <- (take_drop_middle ts i t E) at 1. by eapply step_task.
Qed.

Lemma exec_reachable resolve st cs st' :
  reachable resolve st → exec st cs = Some st' → reachable resolve st'.
Proof.
  revert st. induction cs as [|c cs IH]; intros st Hr H; cbn in H; [by simplify_eq|].
  destruct (exec1 st c) as [st1|] eqn:E; [|done]. cbn in H. eapply IH; [|exact H].
  eapply reach_step; [exact Hr|]. by eapply exec1_step.
Qed.

#[local] Instance UDPAddr_eq_dec : EqDecision net.UDPAddr.
Proof. solve_decision. Defined.

(** One backend, reachable at 10.0.0.1:24454. *)
Definition sample_address : net.UDPAddr :=
  {| net.ua_IP := Some 0xFFFF0A000001; net.ua_Port := 24454; net.ua_Zone := [] |}.
Definition sample_resolve (_ : bytes) : res net.UDPAddr := Ok sample_address.

Definition sample_voice_config : Config := {|
  Listen := gs":24454"; RegistrationListen := gs"127.0.0.1:8080"; RegistrationTTL := 100; RequestTimeout := 1; MaxRegistrations := 2; IdleTimeout := 1000;
  BackendDialTimeout := 1; MaxSessions := 2; MaxPacketSize := 1500 |}.

Definition sample_runtime : Runtime := {|
  cfg := sample_voice_config; closed := false; registrations := ∅; sessions := ∅; heap := ∅; next := 0; fresh := ∅; dials := 0;
  backends := {[ gs"survival" := sample_address ]};
  tokens := [(gs"survival", gs"secret")]; log := [] |}.

Lemma sample_runtime_reachable : reachable sample_resolve (sample_runtime, []).
Proof. apply (reach_new _ None sample_voice_config [(gs"survival", (gs"voice:24454", gs"secret"))]). reflexivity. Qed.

Definition sample_path : bytes := registration_prefix ++ UUID_String sample_uuid.

Definition sample_put : request := {|
  rq_method := PUT; rq_path := sample_path; rq_authorization := gs"Bearer secret";
  rq_put := Ok gs"node-1"; rq_lease := Err (errors_New "not a lease") |}.

Definition sample_delete : request := {|
  rq_method := DELETE; rq_path := sample_path; rq_authorization := gs"Bearer secret";
  rq_put := Err (errors_New "not a put"); rq_lease := Ok (gs"node-1", gs"lease-1") |}.

Definition sample_packet : bytes := MagicByte :: sample_uuid ++ [x01; x2a].

Definition fine (now : Z) : oracle := {| o_now := now; o_err := None |}.

(** The player is registered and a first packet goes through. *)
Definition talk : list command :=
  [CRequest 0 (Ok gs"lease-1") sample_put; CDatagram gs"192.0.2.1:5000" sample_packet;
   CTask 0 (fine 1); CTask 0 (fine 1); CTask 0 (fine 1); CTask 0 (fine 1); CTask 0 (fine 1); CTask 0 (fine 1)].

(** The player's reader fails just as the registration is deleted. *)
Definition talk_and_race : list command :=
  talk ++ [CBackend 0 (Err (errors_New "connection refused")); CTask 0 (fine 2);
           CRequest 2 (Ok gs"unused") sample_delete; CTask 0 (fine 2);
           CTask 1 (fine 2); CTask 1 (fine 2); CTask 0 (fine 2)].

(** The registration runs out and the next packet finds that out. *)
Definition talk_and_expire : list command :=
  talk ++ [CDatagram gs"192.0.2.1:5000" sample_packet; CTask 0 (fine 101); CTick 102; CTask 0 (fine 102);
           CTask 0 (fine 102); CBackend 0 (Ok gs"voice"); CTask 0 (fine 103); CTask 0 (fine 103)].

(** A state the commands lead to. *)
Lemma run_to cs (P : Runtime * list task → bool) :
  match exec (sample_runtime, []) cs with Some st => P st | None => false end = true →
  ∃ st, reachable sample_resolve st ∧ P st = true.
Proof.
  intros H. destruct (exec (sample_runtime, []) cs) as [st|] eqn:E; [|done]. exists st. split; [|done].
  eapply exec_reachable, E. apply sample_runtime_reachable.
Qed.

(** The session gauge can drift: there is a run after which nothing is under way
    and no session exists, but one session was counted as created and none as
    closed. The reader's [closeSession] finds the session gone from the table and
    closes it without a metric before the task that removed it does. *)
Theorem session_gauge_drifts :
  ∃ r, reachable sample_resolve (r, []) ∧ sessions r = ∅ ∧
    created_sids (log r) = [0%nat] ∧ closed_sids (log r) = [].
Proof.
  destruct (run_to talk_and_race (λ st, match st.2 with [] => true | _ => false end && bool_decide (sessions st.1 = ∅)
    && bool_decide (created_sids (log st.1) = [0%nat]) && bool_decide (closed_sids (log st.1) = [])))
    as ([r ts] & Hr & H); [vm_compute; reflexivity|].
  rewrite !andb_true_iff, !bool_decide_eq_true in H. cbn in H. destruct H as [[[Hts ?] ?] ?].
  destruct ts; [|done]. by exists r.
Qed.

(** A session can outlive its registration: there is a run in which a registration
    expires, a packet is refused because of it and the expiry loop has passed, and
    the session is still there and carries the backend's voice to the client. The
    lookup that finds a registration expired deletes it without closing the
    player's sessions, and the expiry loop then no longer sees it. *)
Theorem session_outlives_registration :
  ∃ r, reachable sample_resolve (r, []) ∧ registrations r = ∅ ∧ size (sessions r) = 1%nat ∧
    Packet ClientToBackend DroppedExpiredRegistration (zlen sample_packet) ∈ log r ∧
    ToClient gs"192.0.2.1:5000" gs"voice" ∈ log r.
Proof.
  destruct (run_to talk_and_expire (λ st, match st.2 with [] => true | _ => false end
    && bool_decide (size (registrations st.1) = 0%nat) && bool_decide (size (sessions st.1) = 1%nat)
    && existsb (λ e, match e with Packet ClientToBackend DroppedExpiredRegistration n => n =? zlen sample_packet
                     | _ => false end) (log st.1)
    && existsb (λ e, match e with ToClient a p => bool_decide (a = gs"192.0.2.1:5000") && bool_decide (p = gs"voice")
                     | _ => false end) (log st.1))) as ([r ts] & Hr & H); [vm_compute; reflexivity|].
  rewrite !andb_true_iff, !bool_decide_eq_true, !existsb_exists in H. cbn [fst snd] in H.
  destruct H as [[[[Hts Hreg] ?] (e1 & Hin1 & He1)] (e2 & Hin2 & He2)]. destruct ts; [|done].
  exists r. split_and!; [done|by apply map_size_empty_inv|done|..].
  - destruct e1 as [| | | | | | | |[] [] n]; try done. apply Z.eqb_eq in He1 as ->. by apply list_elem_of_In.
  - destruct e2; try done. apply andb_true_iff in He2 as [->%bool_decide_eq_true_1 ->%bool_decide_eq_true_1].
    by apply list_elem_of_In.
Qed.

(** ** Witnesses *)

(** After [talk] one session exists and one packet went to its backend. *)
Lemma talked :
  ∃ r, reachable sample_resolve (r, []) ∧ ToBackend 0 sample_address sample_packet ∈ log r ∧
    ∃ s, heap r !! 0%nat = Some s ∧ ds_closed s = false.
Proof.
  destruct (run_to talk (λ st, match st.2 with [] => true | _ => false end
    && existsb (λ e, match e with ToBackend sid a p => (sid =? 0)%nat && bool_decide (a = sample_address) && bool_decide (p = sample_packet)
                     | _ => false end) (log st.1)
    && match heap st.1 !! 0%nat with Some s => negb (ds_closed s) | None => false end))
    as ([r ts] & Hr & H); [vm_compute; reflexivity|].
  rewrite !andb_true_iff, existsb_exists in H. cbn [fst snd] in H. destruct H as [[Hts (e & Hin & He)] Hs].
  destruct ts; [|done]. exists r. split; [done|]. split.
  - destruct e; try done. apply andb_true_iff in He as [[->%Nat.eqb_eq ->%bool_decide_eq_true_1]%andb_true_iff
      ->%bool_decide_eq_true_1].
    by apply list_elem_of_In.
  - destruct (heap r !! 0%nat) as [s|]; [|done]. exists s. split; [done|]. by apply negb_true_iff.
Qed.

Lemma packets_follow_registrations_witness :
  ∃ r s, reachable sample_resolve (r, []) ∧ heap r !! 0%nat = Some s ∧
    backends r !! ds_backendID s = Some sample_address.
Proof.
  destruct talked as (r & Hr & Hin & _).
  destruct (packets_follow_registrations sample_resolve r [] 0 sample_address sample_packet Hr Hin) as (s & Hs & _ & _ & Hb).
  exists r, s. split; [exact Hr|]. split; [exact Hs | exact Hb].
Defined.

Lemma voice_tables_ok_witness :
  ∃ r, reachable sample_resolve (r, []) ∧ Z.of_nat (size (sessions r)) ≤ MaxSessions (cfg r).
Proof.
  destruct talked as (r & Hr & _). exists r. split; [exact Hr|].
  apply (voice_tables_ok sample_resolve r [] Hr).
Defined.

Lemma no_connection_left_witness :
  ∃ r s, heap r !! 0%nat = Some s ∧ sessions r !! ds_key s = Some 0%nat.
Proof.
  destruct talked as (r & Hr & _ & s & Hs & Hc). exists r, s. split; [exact Hs|].
  destruct (no_connection_left sample_resolve r [] Hr) as (_ & _ & Hq). exact (proj2 (Hq eq_refl) 0%nat s Hs Hc).
Defined.

Lemma registrations_need_token_witness :
  ∃ r' ts', step (sample_runtime, []) (r', ts') ∧
    ∃ now rq, authorised sample_runtime now rq r' ts' sample_uuid.
Proof.
  destruct (handleRegistration sample_runtime 0 (Ok gs"lease-1") sample_put) as [[rs r'] ts'] eqn:E.
  exists r', (ts' ++ []). assert (step (sample_runtime, []) (r', ts' ++ [])) as Hs by (by eapply step_request).
  split; [exact Hs|].
  destruct (registrations_need_token (sample_runtime, []) (r', ts' ++ []) sample_uuid Hs)
    as [(now & lease & rq & rs' & new & _ & Hts & Ha)|[(now & reg & Hr & _)|(_ & Hc & _)]].
  - assert (match registrations (handleRegistration sample_runtime 0 (Ok gs"lease-1") sample_put).1.2 !! sample_uuid
            with Some _ => true | None => false end = true) as H by (vm_compute; reflexivity).
    rewrite E in H. cbn [fst snd] in *. intros Heq. by rewrite Heq in H.
  - exists now, rq. cbn in Hts. rewrite Hts, app_nil_r. exact Ha.
  - cbn [fst] in Hr. assert (registrations sample_runtime !! sample_uuid = None) as Hno by (vm_compute; reflexivity).
    rewrite Hno in Hr. discriminate.
  - assert (closed (handleRegistration sample_runtime 0 (Ok gs"lease-1") sample_put).1.2 = false) as Hno
      by (vm_compute; reflexivity).
    rewrite E in Hno. cbn [fst snd] in *. rewrite Hno in Hc. discriminate.
Defined.

Lemma gauge_never_below_witness :
  ∃ r, reachable sample_resolve (r, []) ∧
    (length (closed_sids (log r)) + size (sessions r) ≤ length (created_sids (log r)))%nat.
Proof.
  destruct talked as (r & Hr & _). exists r. split; [exact Hr|].
  exact (gauge_never_below sample_resolve r [] Hr).
Defined.

Definition padded_runtime : Runtime := {|
  cfg := sample_voice_config; closed := false; registrations := ∅; sessions := ∅; heap := ∅; next := 0; fresh := ∅; dials := 0;
  backends := ∅; tokens := [(gs"survival", gs"secret ")]; log := [] |}.

Lemma padded_token_never_authenticates_witness :
  authenticate padded_runtime gs"Bearer secret " ≠ Some gs"survival".
Proof.
  apply (padded_token_never_authenticates padded_runtime). intros t Ht.
  apply list_elem_of_singleton in Ht. injection Ht as ->. vm_compute. discriminate.
Defined.

End runs.
