(* ===== verification/VoiceServe.v ===== *)
(** * The life of the voice chat runtime ([internal/voicechat], [Serve] and [Close])

    [Serve] starts three goroutines - the registration API, the packet loop and the
    expiry loop -, and the packet loop starts a reader for every session; all are counted
    by one wait group. The first two report on a channel of capacity two, [Serve] waits
    for the first report or for the end of its context, closes the runtime and waits for
    all. A goroutine ends by itself only when what it blocks on is closed: the API when the
    HTTP server is, the packet loop when the UDP listener is, the expiry loop when the
    channel of the runtime is or the context is done, and a reader when the connection of
    its session is. [Close] does the four. What the goroutines do with packets and
    registrations is VoiceChat.v; here only their starts and ends matter. *)
From S2P Require Import Prelude GoIO.
Open Scope Z_scope.

Module voiceserve.

(** [Serve]: in its [select]; in [Close], with what it will return; in [wg.Wait];
    returned. *)
Inductive phase := Selecting | InClose (e : option error) | Waiting (e : option error) | Returned (e : option error).

(** The packet loop: reading; with a packet; ended. *)
Inductive loop := Reading | Forwarding | LoopEnded.

(** What [Close] has to do after it has marked the runtime as closed and taken the
    session table. *)
Inductive action := CloseChannel | CloseListener | CloseControl | CloseSession (i : nat).
#[export] Instance action_dec : EqDecision action.
Proof. solve_decision. Defined.

(** [closing] is [None] until [Close] is called, then what is left of it: [closed] is set
    together with the first of it. [sessions] is the session table, [conns] the open
    backend connections, [unlinked] the sessions an operation has taken out of the table
    and is about to close. [control], [udp], [expiry] and [readers] are the goroutines. *)
Record state := {
  serve : phase;
  cancelled : bool;
  closing : option (list action);
  closeCh : bool;
  listener : bool;
  api : bool;
  sessions : list nat;
  unlinked : list nat;
  conns : gset nat;
  control : bool;
  udp : loop;
  expiry : bool;
  readers : list nat;
  wg : Z;
  errCh : list (option error)
}.

Definition isClosed (s : state) : bool := match closing s with None => false | Some _ => true end.

(** [Serve] up to its [select]: a listener that cannot be bound closes the runtime. *)
Definition Serve (listen : option error) (address : bytes) : res state :=
  match listen with
  | Some e => Err (Errorf "listen voicechat registration API %q: %w" [AStr address] [e])
  | None => Ok {| serve := Selecting; cancelled := false; closing := None; closeCh := true; listener := true; api := true;
                  sessions := []; unlinked := []; conns := ∅; control := true; udp := Reading; expiry := true;
                  readers := []; wg := 3; errCh := [] |}
  end.

(** What the goroutine of the registration API reports when [http.Server.Serve] ends. *)
Definition control_report (e : error) : option error :=
  if errors_Is "http.ErrServerClosed" e then None else Some e.

Definition set_serve (s : state) (p : phase) (ch : list (option error)) : state := {|
  serve := p; cancelled := cancelled s; closing := closing s; closeCh := closeCh s; listener := listener s; api := api s;
  sessions := sessions s; unlinked := unlinked s; conns := conns s; control := control s; udp := udp s;
  expiry := expiry s; readers := readers s; wg := wg s; errCh := ch |}.

(** The goroutines and their counter, with a report. *)
Definition set_run (s : state) (c : bool) (u : loop) (ex : bool) (rs : list nat) (w : Z) (ch : list (option error)) : state := {|
  serve := serve s; cancelled := cancelled s; closing := closing s; closeCh := closeCh s; listener := listener s; api := api s;
  sessions := sessions s; unlinked := unlinked s; conns := conns s; control := c; udp := u; expiry := ex;
  readers := rs; wg := w; errCh := ch |}.

Definition set_tables (s : state) (table un : list nat) (cs : gset nat) : state := {|
  serve := serve s; cancelled := cancelled s; closing := closing s; closeCh := closeCh s; listener := listener s; api := api s;
  sessions := table; unlinked := un; conns := cs; control := control s; udp := udp s; expiry := expiry s;
  readers := readers s; wg := wg s; errCh := errCh s |}.

(** The first part of [Close], under the lock: the runtime is closed, the sessions are
    taken out of their table, and what is left to do is fixed. A second call does nothing. *)
Definition Close (s : state) : state :=
  match closing s with
  | Some _ => s
  | None => {|
      serve := serve s; cancelled := cancelled s;
      closing := Some ([CloseChannel; CloseListener; CloseControl] ++ (CloseSession <$> sessions s));
      closeCh := closeCh s; listener := listener s; api := api s; sessions := []; unlinked := unlinked s;
      conns := conns s; control := control s; udp := udp s; expiry := expiry s; readers := readers s; wg := wg s;
      errCh := errCh s |}
  end.

(** One action of [Close], with what is left after it. *)
Definition perform (a : action) (l : list action) (s : state) : state := {|
  serve := serve s; cancelled := cancelled s; closing := Some l;
  closeCh := match a with CloseChannel => false | _ => closeCh s end;
  listener := match a with CloseListener => false | _ => listener s end;
  api := match a with CloseControl => false | _ => api s end;
  sessions := sessions s; unlinked := unlinked s;
  conns := match a with CloseSession i => conns s ∖ {[i]} | _ => conns s end;
  control := control s; udp := udp s; expiry := expiry s; readers := readers s; wg := wg s; errCh := errCh s |}.

(** What the runtime does by itself. [Serve] leaves its [select] on a cancelled context
    or a report and closes, waits until [Close] - its own or that of another caller, for
    which [closeOnce] makes it wait - is through, and returns when the wait group is at
    zero; a packet is forwarded, perhaps through a session stored while the runtime was
    not closed, whose reader is counted and started with it; an operation closes the
    session it unlinked; and each goroutine ends when its resource is closed. *)
Inductive own : state → state → Prop :=
| step_done s : serve s = Selecting → cancelled s = true → own s (set_serve (Close s) (InClose None) (errCh s))
| step_report s e ch : serve s = Selecting → errCh s = e :: ch → own s (set_serve (Close s) (InClose e) ch)
| step_perform s a l : closing s = Some (a :: l) → own s (perform a l s)
| step_wait s e : serve s = InClose e → closing s = Some [] → own s (set_serve s (Waiting e) (errCh s))
| step_return s e : serve s = Waiting e → wg s = 0 → own s (set_serve s (Returned e) (errCh s))
| step_forwarded s :
    udp s = Forwarding → own s (set_run s (control s) Reading (expiry s) (readers s) (wg s) (errCh s))
| step_store s i :
    udp s = Forwarding → isClosed s = false → i ∉ conns s → i ∉ sessions s → i ∉ readers s → i ∉ unlinked s →
    own s (set_run (set_tables s (i :: sessions s) (unlinked s) ({[i]} ∪ conns s))
             (control s) Reading (expiry s) (i :: readers s) (wg s + 1) (errCh s))
| step_unlinked s i l :
    unlinked s = i :: l → own s (set_tables s (sessions s) l (conns s ∖ {[i]}))
| step_api_closed s :
    control s = true → api s = false →
    own s (set_run s false (udp s) (expiry s) (readers s) (wg s - 1)
             (errCh s ++ [control_report (Sentinel "http.ErrServerClosed")]))
| step_udp_closed s :
    udp s = Reading → listener s = false →
    own s (set_run s (control s) LoopEnded (expiry s) (readers s) (wg s - 1) (errCh s ++ [None]))
| step_expiry s :
    expiry s = true → closeCh s = false ∨ cancelled s = true →
    own s (set_run s (control s) (udp s) false (readers s) (wg s - 1) (errCh s))
| step_reader s l1 i l2 :
    readers s = l1 ++ i :: l2 → i ∉ conns s →
    own s (set_run s (control s) (udp s) (expiry s) (l1 ++ l2) (wg s - 1) (errCh s)).

(** What happens to it: the context is cancelled; [Close] is called from outside; the
    registration API fails though it is not closed; a packet arrives; a read from the
    open listener fails, which ends the loop when the runtime is closed or the context
    cancelled; an operation unlinks a session; the reader of an open session fails and
    closes it, or finds that it is not current any more. *)
Inductive env : state → state → Prop :=
| step_cancel s :
    env s {| serve := serve s; cancelled := true; closing := closing s; closeCh := closeCh s; listener := listener s;
             api := api s; sessions := sessions s; unlinked := unlinked s; conns := conns s; control := control s;
             udp := udp s; expiry := expiry s; readers := readers s; wg := wg s; errCh := errCh s |}
| step_close s : env s (Close s)
| step_api_failed s e :
    control s = true → api s = true → errors_Is "http.ErrServerClosed" e = false →
    env s (set_run s false (udp s) (expiry s) (readers s) (wg s - 1) (errCh s ++ [control_report e]))
| step_packet s :
    udp s = Reading → listener s = true → env s (set_run s (control s) Forwarding (expiry s) (readers s) (wg s) (errCh s))
| step_udp_failed s :
    udp s = Reading → listener s = true → isClosed s || cancelled s = true →
    env s (set_run s (control s) LoopEnded (expiry s) (readers s) (wg s - 1) (errCh s ++ [None]))
| step_unlink s l1 i l2 :
    sessions s = l1 ++ i :: l2 → env s (set_tables s (l1 ++ l2) (i :: unlinked s) (conns s))
| step_reader_failed s l1 i l2 :
    readers s = l1 ++ i :: l2 →
    env s (set_run (set_tables s (filter (.≠ i) (sessions s)) (unlinked s) (conns s ∖ {[i]}))
             (control s) (udp s) (expiry s) (l1 ++ l2) (wg s - 1) (errCh s))
| step_reader_stale s l1 i l2 :
    readers s = l1 ++ i :: l2 → i ∉ sessions s →
    env s (set_run s (control s) (udp s) (expiry s) (l1 ++ l2) (wg s - 1) (errCh s)).

Definition step (s s' : state) : Prop := own s s' ∨ env s s'.

End voiceserve.

(** ** Lemmas *)

Section lemmas.
Import voiceserve.

Definition ended (s : state) : nat :=
  (if control s then 0 else 1) + match udp s with LoopEnded => 1 | _ => 0 end.

(** The wait group counts the goroutines; the channel holds the reports not yet received;
    a connection that a reader blocks on is one somebody will close; what [Close] has not
    closed it has still to close; and how far [Serve] is. *)
Record inv (s : state) : Prop := {
  inv_wg : wg s = (if control s then 1 else 0) + match udp s with LoopEnded => 0 | _ => 1 end +
                  (if expiry s then 1 else 0) + Z.of_nat (length (readers s));
  inv_reports : match serve s with Selecting => length (errCh s) = ended s | _ => (length (errCh s) ≤ ended s)%nat end;
  inv_readers : ∀ i, i ∈ readers s → i ∈ conns s →
    i ∈ sessions s ∨ i ∈ unlinked s ∨ ∃ l, closing s = Some l ∧ CloseSession i ∈ l;
  inv_closing : ∀ l, closing s = Some l →
    sessions s = [] ∧ (CloseChannel ∈ l ∨ closeCh s = false) ∧ (CloseListener ∈ l ∨ listener s = false) ∧
    (CloseControl ∈ l ∨ api s = false);
  inv_phase : match serve s with
              | Selecting => True
              | InClose _ => isClosed s = true
              | Waiting _ => closing s = Some []
              | Returned _ => closing s = Some [] ∧ wg s = 0
              end
}.

Lemma Serve_inv listen address s : Serve listen address = Ok s → inv s.
Proof. destruct listen; [done|]. intros [= <-]. split; cbn; done || set_solver. Qed.

Lemma Close_closed s : isClosed (Close s) = true.
Proof. unfold isClosed, Close. by destruct (closing s) eqn:E; [rewrite E|]. Qed.

(** A first [Close] keeps the invariant. *)
Lemma Close_inv s : inv s → inv (Close s).
Proof.
  unfold Close. destruct (closing s) as [l|] eqn:E; [done|]. intros [Hw Hr Hc Hl Hp]. split; cbn; try done.
  - intros i Hi Hc'. destruct (Hc i Hi Hc') as [Hs|[Hs|(l & Hl' & _)]]; [|by auto|congruence].
    right; right. eexists. split; [done|]. do 3 right. by apply list_elem_of_fmap_2.
  - intros l [= <-]. set_solver.
  - unfold isClosed in *. rewrite E in Hp. destruct (serve s); naive_solver.
Qed.

(** [Serve] leaves its [select], with the report it got. *)
Lemma select_inv s e ch :
  inv s → serve s = Selecting → (length ch ≤ ended s)%nat → inv (set_serve (Close s) (InClose e) ch).
Proof.
  intros Hi Hp Hch. pose proof (Close_inv s Hi) as [Hw Hr Hc Hl _].
  split; cbn; [exact Hw| |exact Hc|exact Hl|apply Close_closed].
  unfold ended, Close in *. by destruct (closing s).
Qed.

(** An action of [Close] is done. *)
Lemma perform_inv s a l : inv s → closing s = Some (a :: l) → inv (perform a l s).
Proof.
  intros [Hw Hr Hc Hl Hp] E. destruct (Hl _ E) as (Hse & H1 & H2 & H3). split; cbn; try done.
  - intros i Hi Hin. assert (i ∈ conns s ∧ a ≠ CloseSession i) as [Hic Ha] by (destruct a; set_solver).
    destruct (Hc i Hi Hic) as [?|[?|(l' & E' & Hin')]]; [by auto..|]. right; right. exists l. split; [done|].
    rewrite E in E'. injection E' as <-. apply elem_of_cons in Hin' as [<-|?]; [done|done].
  - intros l' [= <-]. rewrite !elem_of_cons in *. destruct a; naive_solver.
  - unfold isClosed in *. cbn. rewrite E in Hp. destruct (serve s); naive_solver.
Qed.

(** The reader of session [i] has ended. *)
Lemma reader_inv s l1 i l2 table cs :
  inv s → readers s = l1 ++ i :: l2 → (∀ j, j ∈ cs → j ∈ conns s) →
  (∀ j, j ∈ sessions s → j ∈ cs → j ∈ table) → table ⊆ sessions s →
  inv (set_run (set_tables s table (unlinked s) cs) (control s) (udp s) (expiry s) (l1 ++ l2) (wg s - 1) (errCh s)).
Proof.
  intros [Hw Hr Hc Hl Hp] E Hcs Ht Ht'. rewrite E, length_app in Hw. cbn in Hw. split; cbn; try done.
  - rewrite length_app. lia.
  - intros j Hj Hjc. assert (j ∈ readers s) as Hj' by (rewrite E; rewrite elem_of_app, elem_of_cons in *; tauto).
    destruct (Hc j Hj' (Hcs j Hjc)) as [?|[?|?]]; auto.
  - intros l Hl'. destruct (Hl l Hl') as (Hse & ?). split; [|done]. rewrite Hse in Ht'.
    by apply list_nil_subseteq.
  - destruct (serve s); try done. destruct Hp as [? Hp]. split; [done|].
    destruct (control s), (udp s), (expiry s); lia.
Qed.

(** A goroutine other than a reader, or the packet loop, goes on. *)
Ltac moved :=
  split; unfold ended in *; cbn in *; rewrite ?length_app; cbn; try done; try lia;
    match goal with |- match serve ?s with _ => _ end => destruct (serve s) end; try done; try lia;
    match goal with H : _ ∧ _ |- _ => destruct H end; (split; first [done|lia|repeat case_match; lia]).

Lemma own_inv s s' : own s s' → inv s → inv s'.
Proof.
  intros Hs Hi. pose proof Hi as [Hw Hr Hc Hl Hp]. unfold ended in *. destruct Hs as
    [s Hse Hca|s e ch Hse Ech|s a l E|s e Hse E|s e Hse Hw0|s Hu|s i Hu Hcl N1 N2 N3 N4|s i l E|s Hc1 Ha|s Hu Hli|s He Hx
    |s l1 i l2 E Hn].
  - apply select_inv; [done..|]. rewrite Hse in Hr. unfold ended. lia.
  - apply select_inv; [done..|]. rewrite Hse, Ech in Hr. cbn in Hr. unfold ended. lia.
  - by apply perform_inv.
  - split; cbn; try done. rewrite Hse in Hr. done.
  - split; cbn; try done; rewrite Hse in *; done.
  - rewrite Hu in *. moved.
  - unfold isClosed in Hcl. split; cbn -[elem_of]; rewrite ?Hu in *.
    + lia.
    + unfold ended. cbn. by rewrite ?Hu in *.
    + intros j Hj Hjc. apply elem_of_cons in Hj as [->|Hj]; [left; by left|]. assert (j ≠ i) by congruence.
      destruct (Hc j Hj) as [?|[?|?]]; [set_solver| |by auto..]. left. by right.
    + intros l Hl'. by rewrite Hl' in Hcl.
    + unfold isClosed in *. cbn. destruct (closing s); [done|]. destruct (serve s); naive_solver.
  - split; cbn; try done. intros j Hj Hjc. destruct (Hc j Hj) as [?|[Hin|?]]; [set_solver|by auto| |by auto].
    rewrite E in Hin. apply elem_of_cons in Hin as [->|?]; [set_solver|by auto].
  - rewrite Hc1 in *. moved.
  - rewrite Hu in *. moved.
  - rewrite He in *. moved.
  - pose proof (reader_inv s l1 i l2 (sessions s) (conns s) Hi E) as H. destruct s. by apply H.
Qed.

Lemma env_inv s s' : env s s' → inv s → inv s'.
Proof.
  intros Hs Hi. pose proof Hi as [Hw Hr Hc Hl Hp]. unfold ended in *. destruct Hs as
    [s|s|s e Hc1 Ha He|s Hu Hli|s Hu Hli Hx|s l1 i l2 E|s l1 i l2 E|s l1 i l2 E Hn].
  - by split.
  - by apply Close_inv.
  - rewrite Hc1 in *. moved.
  - rewrite Hu in *. moved.
  - rewrite Hu in *. moved.
  - split; cbn -[elem_of]; try done.
    + intros j Hj Hjc. destruct (Hc j Hj Hjc) as [Hin|[?|?]]; [|right; left; by right|by auto].
      rewrite E in Hin. apply elem_of_app in Hin as [?|[->|?]%elem_of_cons].
      * left. apply elem_of_app. by left.
      * right; left. by left.
      * left. apply elem_of_app. by right.
    + intros l Hl'. destruct (Hl l Hl') as (Hse & ?). split; [|done]. rewrite E in Hse. by destruct l1.
  - apply (reader_inv s l1 i l2); [done..| | |].
    + set_solver.
    + intros j Hj Hjc. apply list_elem_of_filter. split; [set_solver|done].
    + intros j Hj. by apply list_elem_of_filter in Hj as [_ Hj].
  - pose proof (reader_inv s l1 i l2 (sessions s) (conns s) Hi E) as H. destruct s. by apply H.
Qed.

Lemma runs_inv listen address s0 s : Serve listen address = Ok s0 → rtc step s0 s → inv s.
Proof.
  intros Hi%Serve_inv Hs. induction Hs as [|s0 s1 s2 [H1|H1] _ IH]; [done|..]; eapply IH.
  - by eapply own_inv.
  - by eapply env_inv.
Qed.

(** How many steps of its own the runtime has left, were nothing to happen to it. *)
Definition distance (s : state) : nat :=
  match serve s with Selecting => 3 | InClose _ => 2 | Waiting _ => 1 | Returned _ => 0 end +
  match closing s with None => 4 + length (sessions s) | Some l => length l end +
  match udp s with Forwarding => 4 | Reading => 1 | LoopEnded => 0 end +
  (if control s then 1 else 0) + (if expiry s then 1 else 0) + length (unlinked s) + length (readers s).

Lemma Close_distance s e ch : serve s = Selecting → (distance (set_serve (Close s) (InClose e) ch) < distance s)%nat.
Proof.
  intros Hse. unfold distance, Close. rewrite Hse. cbn.
  destruct (closing s) as [l|] eqn:E; cbn; rewrite ?E; [lia|]. rewrite length_fmap. lia.
Qed.

Lemma own_closer s s' : own s s' → (distance s' < distance s)%nat.
Proof.
  intros Hs. destruct Hs as [s Hse Hca|s e ch Hse Ech|s a l E|s e Hse E|s e Hse Hw0|s Hu|s i Hu Hcl N1 N2 N3 N4|s i l E
    |s Hc1 Ha|s Hu Hli|s He Hx|s l1 i l2 E Hn]; try by apply Close_distance.
  all: unfold distance, isClosed in *; cbn; try (rewrite E; cbn); try rewrite Hse; try rewrite Hu; try rewrite Hc1;
    try rewrite He; rewrite ?length_app; cbn; try lia.
  destruct (closing s); [done|]. lia.
Qed.

(** Once [Close] has begun, what stands still has ended: every resource is closed, so
    that no goroutine is left that waits for one. *)
Lemma closing_progress s l :
  inv s → closing s = Some l → (∀ s', ¬ own s s') → ∃ e, serve s = Returned e.
Proof.
  intros [Hw Hr Hc Hl Hp] E Hno. destruct (Hl l E) as (Hse & H1 & H2 & H3).
  destruct l as [|a l]; [|by destruct (Hno _ (step_perform s a l E))].
  destruct H1 as [?%elem_of_nil|H1]; [done|]. destruct H2 as [?%elem_of_nil|H2]; [done|].
  destruct H3 as [?%elem_of_nil|H3]; [done|].
  assert (control s = false) as Hco by (destruct (control s) eqn:?; [by destruct (Hno _ (step_api_closed s ltac:(done) H3))|done]).
  assert (udp s = LoopEnded) as Hu.
  { destruct (udp s) eqn:Hu; [by destruct (Hno _ (step_udp_closed s Hu H2))|by destruct (Hno _ (step_forwarded s Hu))|done]. }
  assert (expiry s = false) as Hex.
  { destruct (expiry s) eqn:Hex; [by destruct (Hno _ (step_expiry s Hex (or_introl H1)))|done]. }
  assert (unlinked s = []) as Hun.
  { destruct (unlinked s) as [|i un] eqn:Hun; [done|by destruct (Hno _ (step_unlinked s i un Hun))]. }
  assert (readers s = []) as Hre.
  { destruct (readers s) as [|i rs] eqn:Hre; [done|]. exfalso. apply (Hno _ (step_reader s [] i rs Hre ltac:(
      intros Hin; destruct (Hc i ltac:(by left) Hin) as [Hs|[Hs|(l & El & Hs)]];
      [rewrite Hse in Hs|rewrite Hun in Hs|rewrite E in El; injection El as <-]; by apply elem_of_nil in Hs))). }
  rewrite Hco, Hu, Hex, Hre in Hw. unfold ended in Hr. rewrite Hco, Hu in Hr.
  destruct (serve s) as [|e|e|e] eqn:Hs; [..|by exists e]; exfalso.
  - destruct (errCh s) as [|e ch] eqn:Ech; [done|]. by apply (Hno _ (step_report s e ch Hs Ech)).
  - by apply (Hno _ (step_wait s e Hs E)).
  - by apply (Hno _ (step_return s e Hs Hw)).
Qed.

End lemmas.

(** ** Properties *)

Section properties.
Import voiceserve.

(** C36: The voice chat runtime stops as a whole. However its goroutines interleave with
    packets, failures, cancellation and [Close], a report never finds the channel full, so
    that no goroutine is stuck on it; when [Serve] has returned, [Close] is through and
    neither the registration API, nor the packet loop, nor the expiry loop, nor a reader
    runs; what the runtime does by itself cannot go on for ever; and when the context is
    cancelled, a goroutine has reported or [Close] has been called, it comes to a halt only
    when [Serve] has returned, where a goroutine ends by itself only if the listener, the
    HTTP server, the channel or the connection it waits for is closed. *)
Theorem voice_runtime_stops listen address s0 s :
  Serve listen address = Ok s0 → rtc step s0 s →
  (length (errCh s) ≤ 2)%nat ∧
  (∀ e, serve s = Returned e →
     closing s = Some [] ∧ control s = false ∧ udp s = LoopEnded ∧ expiry s = false ∧ readers s = []) ∧
  Acc (flip own) s ∧
  (cancelled s = true ∨ errCh s ≠ [] ∨ isClosed s = true → (∀ s', ¬ own s s') → ∃ e, serve s = Returned e).
Proof.
  intros H0 Hs. pose proof (runs_inv _ _ _ _ H0 Hs) as Hi. pose proof Hi as [Hw Hr _ _ Hp]. split_and!.
  - assert (ended s ≤ 2)%nat by (unfold ended; destruct (control s), (udp s); cbn; lia). destruct (serve s); lia.
  - intros e He. rewrite He in Hp. destruct Hp as [Hcl Hw0]. rewrite Hw0 in Hw. split; [done|].
    destruct (control s), (udp s), (expiry s), (readers s); cbn in Hw; split_and!; done || lia.
  - clear. induction s as [s IH] using (induction_ltof1 _ distance). constructor. intros s' Hs'.
    by apply IH, own_closer.
  - intros Hwhy Hno. unfold isClosed in *. destruct (closing s) as [l|] eqn:E; [by eapply closing_progress|].
    destruct (serve s) as [|e|e|e] eqn:Hse; [|done|done|by destruct Hp]. exfalso.
    destruct Hwhy as [Hca|[Hch|?]]; [by apply (Hno _ (step_done s Hse Hca))| |done].
    destruct (errCh s) as [|e ch] eqn:Ech; [done|]. by apply (Hno _ (step_report s e ch Hse Ech)).
Qed.

End properties.

(** ** Witnesses *)

Section witnesses.
Import voiceserve.

(** A step of the sample run, with the state it leads to computed. *)
Ltac ran t := eapply rtc_l; [t|cbn -[union difference singleton empty errors_New]].

Lemma sample_stops :
  ∃ s0 s, Serve None gs":8080" = Ok s0 ∧ rtc step s0 s ∧ serve s = Returned (Some (errors_New "accept failed")).
Proof.
  eexists. eexists. split; [reflexivity|]. split.
  - ran ltac:(right; by apply step_packet). ran ltac:(left; apply (step_store _ 0); (done || set_solver)).
    ran ltac:(right; by apply (step_api_failed _ (errors_New "accept failed"))). ran ltac:(left; by apply step_report).
    do 4 (ran ltac:(left; by apply step_perform)). ran ltac:(left; by apply step_wait).
    ran ltac:(left; by apply step_udp_closed). ran ltac:(left; apply step_expiry; by auto).
    ran ltac:(left; apply (step_reader _ [] 0 []); [done|set_solver]).
    ran ltac:(left; by apply (step_return _ (Some (errors_New "accept failed")))). apply rtc_refl.
  - reflexivity.
Qed.

(** A session is served, then the registration API fails and everything ends. *)
Lemma voice_runtime_stops_witness :
  ∃ s0 s e, Serve None gs":8080" = Ok s0 ∧ rtc step s0 s ∧ serve s = Returned (Some e) ∧ readers s = [].
Proof.
  destruct sample_stops as (s0 & s & H0 & Hs & Hr).
  exists s0, s, (errors_New "accept failed"). split; [exact H0|]. split; [exact Hs|]. split; [exact Hr|].
  destruct (voice_runtime_stops None gs":8080" s0 s H0 Hs) as (_ & H & _).
  destruct (H _ Hr) as (_ & _ & _ & _ & Hn). exact Hn.
Defined.

End witnesses.
