(* ===== verification/VoiceHttp.v ===== *)
(** * The bodies of the registration API ([internal/voicechat])

    VoiceChat.v has the handlers of the registration API in terms of what [decodeJSON]
    makes of a request. Here are the bodies themselves: the limit on a request's body, its
    decoding into the two request structs, the identifier of a lease, and the body of a
    response. Reading from the connection and the text of a time of day are inputs. *)
From S2P Require Import Prelude GoUnicode GoStrings GoNet GoIO GoJson GoJsonDecode HostAddr McProto VoicePacket VoiceChat.
From S2P Require Import VoiceSafety.
Import gostrings io.
Open Scope Z_scope.

Module voicehttp.
Import jsondecode voicechat voice.

(** The fields of [putRegistrationRequest], [leaseRequest] and [registrationResponse]. *)
Definition putRegistrationRequest : list bytes := [gs"ownerId"].
Definition leaseRequest : list bytes := [gs"ownerId"; gs"leaseId"].
Definition registrationResponse : list bytes := [gs"backendId"; gs"leaseId"; gs"expiresAt"].

(** [http.MaxBytesReader]: after this many bytes reading fails instead of going on. *)
Definition maxBody : Z := 4096.

Definition MaxBytesReader (n : Z) (r : reader) : reader :=
  if n <? zlen (r_data r)
  then {| r_data := take (Z.to_nat n) (r_data r); r_end := errors_New "http: request body too large" |}
  else r.

(** [decodeJSON] for a struct with these fields. [None] would be a panic of the decoder. *)
Definition decodeJSON (fields : list bytes) (r : reader) : option (res (list bytes)) :=
  let dec := DisallowUnknownFields (NewDecoder r) in
  match Decode dec fields with
  | None => None
  | Some (Err e) => Some (Err e)
  | Some (Ok (vals, dec)) =>
      match Decode dec [] with
      | None => None
      | Some (Err e) => if is_EOF e then Some (Ok vals) else Some (Err (errors_New "multiple JSON values"))
      | Some (Ok _) => Some (Err (errors_New "multiple JSON values"))
      end
  end.

(** A panic of a handler ends its request only; there is none. *)
Definition decoded {A} (read : list bytes → option A) (r : option (res (list bytes))) : res A :=
  match r with
  | Some (Ok vals) => match read vals with Some a => Ok a | None => Err (Sentinel "panic") end
  | Some (Err e) => Err e
  | None => Err (Sentinel "panic")
  end.

Definition owner_of (vals : list bytes) : option bytes :=
  match vals with [owner] => Some owner | _ => None end.
Definition lease_of (vals : list bytes) : option (bytes * bytes) :=
  match vals with [owner; lease] => Some (owner, lease) | _ => None end.

(** The request a handler sees; [body] is what the connection gives. *)
Definition http_request (m : method) (path auth : bytes) (body : reader) : request := {|
  rq_method := m; rq_path := path; rq_authorization := auth;
  rq_put := decoded owner_of (decodeJSON putRegistrationRequest (MaxBytesReader maxBody body));
  rq_lease := decoded lease_of (decodeJSON leaseRequest (MaxBytesReader maxBody body)) |}.

(** [rand] is what reading sixteen random bytes gave. *)
Definition newLeaseID (rand : res bytes) : res bytes := let? b := rand in Ok (hex.Encode b).

(** [expires] is the text of the registration's expiry. *)
Definition writeRegistrationResponse (reg : registration) (expires : bytes) : bytes :=
  object (string_member <$> [(gs"backendId", rg_BackendID reg); (gs"leaseId", rg_LeaseID reg); (gs"expiresAt", expires)]) ++ [x0a].

(** One request and its response: the status, and the body when it has a registration. *)
Definition serve (r : Runtime) (now : Z) (rand : res bytes) (expires : bytes) (rq : request)
    : Z * option bytes * Runtime * list task :=
  let '(rs, r', ts) := handleRegistration r now (newLeaseID rand) rq in
  (rs_status rs, (λ reg, writeRegistrationResponse reg expires) <$> rs_registration rs, r', ts).

(** ** Clients *)

(** The bodies [json.Marshal] makes of the request structs. *)
Definition put_body (owner : bytes) : bytes := object (string_member <$> [(gs"ownerId", owner)]).
Definition lease_body (owner lease : bytes) : bytes :=
  object (string_member <$> [(gs"ownerId", owner); (gs"leaseId", lease)]).

End voicehttp.

(** ** Lemmas *)

Section lemmas.
Import jsondecode voicechat voice voicehttp.

Lemma hex_safe b : forallb safe (hex.Encode b) = true ∧ forallb graphic (hex.Encode b) = true.
Proof.
  assert (∀ c, let d := [hex.digit (Z.shiftr (bv c) 4); hex.digit (Z.land (bv c) 0x0F)] in
    forallb safe d = true ∧ forallb graphic d = true) as Hd by byte_enum.
  unfold hex.Encode. induction b as [|c b [IH1 IH2]]; [done|]. destruct (Hd c) as [H1 H2].
  change (concat (map ?f (c :: b))) with (f c ++ concat (map f b)). rewrite !forallb_app. by rewrite H1, H2, IH1, IH2.
Qed.

Lemma hex_length b : length (hex.Encode b) = (2 * length b)%nat.
Proof.
  unfold hex.Encode. induction b as [|c b IH]; [done|].
  change (concat (map ?f (c :: b))) with (f c ++ concat (map f b)). rewrite length_app, IH. cbn [length]. lia.
Qed.

(** *** Storing the members *)

(** What the members give for a field, in their order. *)
Definition given (f : bytes) (ms : list (bytes * bytes)) : list bytes :=
  (λ m, coerce m.2) <$> filter (λ m, foldName m.1 = foldName f) ms.

Lemma given_cons f m ms :
  given f (m :: ms) = if decide (foldName m.1 = foldName f) then coerce m.2 :: given f ms else given f ms.
Proof. unfold given. rewrite filter_cons. by case_decide. Qed.

Lemma field_index_Some names key i :
  field_index names key = Some i → ∃ f, names !! i = Some f ∧ foldName f = foldName key.
Proof.
  revert i. induction names as [|n names IH]; intros i; cbn [field_index]; [done|].
  case_decide as E; [intros [= <-]; by exists n|]. destruct (field_index names key) as [k|]; [|done].
  intros [= <-]. by apply IH.
Qed.

Lemma field_index_known names key : is_Some (field_index names key) ↔ foldName key ∈ foldName <$> names.
Proof.
  induction names as [|n names IH]; cbn [field_index]; [rewrite elem_of_nil; by split; [intros []|]|].
  rewrite fmap_cons, elem_of_cons. case_decide as E; [by split; [left|eexists]|].
  rewrite fmap_is_Some, IH. split; [by right|]. intros [?|?]; [congruence|done].
Qed.

Lemma zip_with_nth {A B C} (f : A → B → C) l k i :
  zip_with f l k !! i = (x ← l !! i; y ← k !! i; Some (f x y)).
Proof. apply lookup_zip_with. Qed.

(** One member goes to its field, and to no other. *)
Lemma store_one names m ms vals i :
  NoDup (foldName <$> names) → field_index names m.1 = Some i →
  zip_with (λ f old, default old (last (given f ms))) names (<[i := coerce m.2]> vals) =
  zip_with (λ f old, default old (last (given f (m :: ms)))) names vals.
Proof.
  intros Hnd Hi. destruct (field_index_Some _ _ _ Hi) as (f & Hf & Ef). apply list_eq. intros j. rewrite !zip_with_nth.
  destruct (names !! j) as [g|] eqn:Eg; cbn -[given]; [|done]. rewrite given_cons.
  destruct (decide (i = j)) as [->|Hne].
  - rewrite Hf in Eg. injection Eg as <-. rewrite decide_True, last_cons by done.
    destruct (decide (j < length vals)%nat) as [Hl|Hl].
    + rewrite list_lookup_insert_eq by done. apply lookup_lt_is_Some in Hl as [old ->]. cbn -[given]. by destruct (last _).
    + rewrite !lookup_ge_None_2 by (rewrite ?length_insert; lia). done.
  - rewrite list_lookup_insert_ne by done. rewrite decide_False; [done|]. intros E. apply Hne.
    eapply (NoDup_lookup _ _ _ (foldName f)); [exact Hnd|by rewrite list_lookup_fmap, Hf|].
    rewrite list_lookup_fmap, Eg. cbn. by rewrite Ef, E.
Qed.

Lemma store_string_members names ms vals vals' :
  NoDup (foldName <$> names) → length vals = length names →
  store_members true names vals (read_member <$> ms) = Ok vals' ↔
    Forall (λ m, foldName m.1 ∈ foldName <$> names) ms ∧
    vals' = zip_with (λ f old, default old (last (given f ms))) names vals.
Proof.
  intros Hnd. revert vals. induction ms as [|m ms IH]; intros vals Hl.
  { cbn [fmap list_fmap store_members]. assert (zip_with (λ f old, default old (last (given f []))) names vals = vals) as ->.
    { clear -Hl. revert vals Hl. induction names as [|n names IH]; intros [|v vals] Hl; try done.
      cbn. f_equal. apply IH. by injection Hl. }
    split; [intros [= <-]; by split|by intros [_ ->]]. }
  rewrite fmap_cons, Forall_cons. cbn [store_members]. unfold store_member. cbn [fst snd read_member].
  destruct (field_index names m.1) as [i|] eqn:Ei.
  - cbn [res_bind]. rewrite IH by by rewrite length_insert. rewrite store_one by done. rewrite <- field_index_known, Ei.
    split; [intros []; split_and!; eauto|]. by intros [[_ ?] ?].
  - split; [done|]. intros [[Hk _] _]. apply field_index_known in Hk as [? Hk]. congruence.
Qed.

Lemma store_members_length strict names vals ms vals' :
  store_members strict names vals ms = Ok vals' → length vals' = length vals.
Proof.
  revert vals. induction ms as [|[k v] ms IH]; intros vals; cbn [store_members]; [by intros [= <-]|].
  unfold store_member. cbn [fst snd]. destruct (field_index names k); [destruct v|destruct strict]; try done; cbn; intros E;
    rewrite (IH _ E); by rewrite ?length_insert.
Qed.

(** *** Decoding a body *)

(** An error of the struct's decoding is never the end of the input. *)
Lemma unmarshal_not_EOF strict names s e : unmarshal strict names s = Some (Err e) → is_EOF e = false.
Proof.
  unfold unmarshal. destruct (cut_document s) as [[|ms|]|]; try done; [|by intros [= <-]]. intros [= E]. revert E.
  generalize (replicate (length names) ([] : bytes)). induction ms as [|[k v] ms IH]; intros vals; cbn [store_members]; [done|].
  unfold store_member. cbn [fst snd]. destruct (field_index names k); [destruct v|destruct strict]; cbn; try apply IH;
    by intros [= <-].
Qed.

(** A value that was read does not make the decoder panic. *)
Lemma read_unmarshal strict names s e text rest :
  read_value jsonscan.BeginValue [] s e = Ok (text, rest) → is_Some (unmarshal strict names text).
Proof.
  intros [_ Ha]%read_value_inv. destruct (document_cut text Ha) as [d Hd]. unfold unmarshal. rewrite Hd.
  destruct d; by eexists.
Qed.

(** [Decode] in one line. *)
Lemma Decode_spec d names :
  ∃ x, Decode d names = Some x ∧
    (∀ e, x = Err e → is_EOF e = true →
       forallb jsonscan.isSpace (r_data (d_in d)) = true ∧ is_EOF (r_end (d_in d)) = true) ∧
    (∀ vals d', x = Ok (vals, d') → ∃ text, r_data (d_in d) = text ++ r_data (d_in d') ∧ jsonscan.Valid text = true ∧
       unmarshal (d_strict d) names text = Some (Ok vals) ∧ r_end (d_in d') = r_end (d_in d)).
Proof.
  unfold Decode. destruct (read_value _ _ _ _) as [[text rest]|e] eqn:Er.
  - destruct (read_unmarshal (d_strict d) names _ _ _ _ Er) as [[vals|e] Eu]; rewrite Eu; eexists; (split; [done|]).
    + split; [done|]. intros vals' d' [= <- <-]. destruct (read_value_inv _ _ _ _ _ _ Er) as [E Ha]. by exists text.
    + split; [|done]. intros e' [= <-] He. by rewrite (unmarshal_not_EOF _ _ _ _ Eu) in He.
  - eexists. split; [done|]. split; [|done]. intros e' [= <-] He. by destruct (read_value_EOF _ _ _ _ _ Er He) as (_ & _ & ? & ?).
Qed.

(** What [decodeJSON] accepts is one value, and spaces up to the end of the body. *)
Lemma decodeJSON_inv fields r :
  ∃ x, decodeJSON fields r = Some x ∧
    ∀ vals, x = Ok vals → ∃ text rest, r_data r = text ++ rest ∧ jsonscan.Valid text = true ∧
      decode_struct fields text = Some (Ok vals) ∧ forallb jsonscan.isSpace rest = true ∧ is_EOF (r_end r) = true.
Proof.
  unfold decodeJSON. destruct (Decode_spec (DisallowUnknownFields (NewDecoder r)) fields) as (x & -> & _ & Hok).
  destruct x as [[vals d]|e]; [|by eexists]. destruct (Hok vals d eq_refl) as (text & E & Hv & Hu & He).
  destruct (Decode_spec d []) as (y & -> & Heof & _). destruct y as [?|e]; [by eexists|].
  destruct (is_EOF e) eqn:Ee; [|by eexists]. eexists. split; [done|]. intros vals' [= <-].
  destruct (Heof e eq_refl Ee) as [Hs Hend]. exists text, (r_data (d_in d)). rewrite He in Hend. by split_and!.
Qed.

Lemma MaxBytesReader_EOF n r : is_EOF (r_end (MaxBytesReader n r)) = true → zlen (r_data r) ≤ n ∧ MaxBytesReader n r = r.
Proof. unfold MaxBytesReader. destruct (Z.ltb_spec n (zlen (r_data r))); [done|]. intros _. by split; [lia|]. Qed.

Lemma is_EOF_eq e : is_EOF e = true → e = EOF.
Proof. destruct e; try done. cbn. by intros ->%String.eqb_eq. Qed.

(** What is not accepted: unknown members, values that are not strings. *)
Lemma store_members_known names vals ms vals' :
  store_members true names vals ms = Ok vals' →
  Forall (λ m, m.2 ≠ JOther ∧ foldName m.1 ∈ foldName <$> names) ms.
Proof.
  revert vals. induction ms as [|[k v] ms IH]; intros vals; cbn [store_members]; [constructor|].
  unfold store_member. cbn [fst snd]. destruct (field_index names k) eqn:Ek; [|done].
  destruct v; try done; cbn; intros E; (constructor; [|by eapply IH]); (split; [done|]); apply field_index_known; by eexists.
Qed.

Lemma MaxBytesReader_short n r : zlen (r_data r) ≤ n → MaxBytesReader n r = r.
Proof. intros Hl. unfold MaxBytesReader. by rewrite (proj2 (Z.ltb_ge _ _)). Qed.

(** A marshalled object and what follows it. *)
Lemma object_decoded fields ms tail e :
  ms ≠ [] → Forall (λ m, forallb safe m.1 = true) ms → forallb jsonscan.isSpace tail = true → e = EOF →
  decodeJSON fields {| r_data := object (string_member <$> ms) ++ tail; r_end := e |} =
    Some (store_members true fields (replicate (length fields) []) (read_member <$> ms)).
Proof.
  intros Hne Hs Ht ->. unfold decodeJSON, Decode at 1. cbn [d_in DisallowUnknownFields NewDecoder d_strict r_data r_end].
  rewrite object_next by done. unfold unmarshal.
  rewrite <- (app_nil_r (object _)), object_read by done. cbv iota.
  destruct (store_members _ _ _ _) as [vals|e]; [|done]. unfold Decode. cbn [d_in r_data r_end].
  by rewrite read_value_spaces.
Qed.

Lemma object_short fields ms :
  ms ≠ [] → Forall (λ m, forallb safe m.1 = true) ms → zlen (object (string_member <$> ms)) ≤ maxBody →
  decodeJSON fields (MaxBytesReader maxBody (bytes_reader (object (string_member <$> ms)))) =
    Some (store_members true fields (replicate (length fields) []) (read_member <$> ms)).
Proof.
  intros Hne Hs Hl. rewrite MaxBytesReader_short by done. unfold bytes_reader. rewrite <- (app_nil_r (object _)).
  by apply object_decoded.
Qed.

Lemma object_accepted fields ms tail e vals :
  ms ≠ [] → Forall (λ m, forallb safe m.1 = true) ms →
  decodeJSON fields (MaxBytesReader maxBody {| r_data := object (string_member <$> ms) ++ tail; r_end := e |}) = Some (Ok vals) →
  zlen (object (string_member <$> ms) ++ tail) ≤ maxBody ∧ forallb jsonscan.isSpace tail = true ∧ e = EOF.
Proof.
  intros Hne Hs E. set (body := {| r_data := _; r_end := e |}) in E.
  destruct (decodeJSON_inv fields (MaxBytesReader maxBody body)) as (x & Ex & Hx). rewrite E in Ex. injection Ex as <-.
  destruct (Hx vals eq_refl) as (_ & _ & _ & _ & _ & _ & He). destruct (MaxBytesReader_EOF _ _ He) as [Hl Er].
  rewrite Er in *. split; [exact Hl|]. split; [|by apply is_EOF_eq]. clear Hx.
  unfold decodeJSON, Decode at 1, body in E. cbn [d_in DisallowUnknownFields NewDecoder d_strict r_data r_end] in E.
  rewrite object_next in E by done. destruct (unmarshal true fields _) as [[vals'|]|]; try done.
  set (d := {| d_in := _; d_strict := _ |}) in E. destruct (Decode_spec d []) as (y & Ey & Hy & _). rewrite Ey in E.
  destruct y as [?|e']; [done|]. destruct (is_EOF e') eqn:Ee; [|done]. by apply (Hy e').
Qed.

(** The decoding of the two bodies. *)
Lemma put_body_decodes owner :
  zlen (put_body owner) ≤ maxBody →
  decodeJSON putRegistrationRequest (MaxBytesReader maxBody (bytes_reader (put_body owner))) = Some (Ok [coerce owner]).
Proof. intros Hl. unfold put_body in *. by rewrite object_short by first [done|by repeat constructor]. Qed.

Lemma lease_body_decodes owner lease :
  zlen (lease_body owner lease) ≤ maxBody →
  decodeJSON leaseRequest (MaxBytesReader maxBody (bytes_reader (lease_body owner lease))) =
    Some (Ok [coerce owner; coerce lease]).
Proof. intros Hl. unfold lease_body in *. by rewrite object_short by first [done|by repeat constructor]. Qed.

Lemma response_decodes reg expires :
  decode_struct registrationResponse (writeRegistrationResponse reg expires) =
    Some (Ok [coerce (rg_BackendID reg); coerce (rg_LeaseID reg); coerce expires]).
Proof.
  unfold decode_struct, unmarshal, writeRegistrationResponse. rewrite object_read by first [done|by repeat constructor]. reflexivity.
Qed.

End lemmas.

(** ** Lemmas: the handlers on such bodies *)

Section handled.
Import jsondecode voicechat voice voicehttp.

(** The size of the bodies in terms of the owner's. *)
Lemma body_sizes owner lease :
  zlen (put_body owner) = zlen (json.String owner) + 12 ∧
  zlen (lease_body owner lease) = zlen (json.String owner) + zlen (json.String lease) + 23.
Proof.
  unfold put_body, lease_body, object, members, member, string_member, zlen. cbn [fmap list_fmap fst snd].
  rewrite !length_app. cbn. lia.
Qed.

Lemma lease_text b : length b = 16%nat → zlen (json.String (hex.Encode b)) = 34.
Proof.
  intros Hb. unfold json.String, zlen. destruct (quote_safe _ (proj1 (hex_safe b))) as [-> _].
  rewrite !length_app, hex_length, Hb. done.
Qed.

(** The request that bears a lease, and what it may act on. *)
Lemma held_by_holder r m path auth owner lease b u reg :
  zlen (lease_body owner lease) ≤ maxBody → utf8.Valid owner = true → TrimSpace owner ≠ [] →
  forallb safe lease = true → TrimSpace lease ≠ [] →
  registrations r !! u = Some reg → rg_BackendID reg = b → rg_OwnerID reg = owner → rg_LeaseID reg = lease →
  held r (http_request m path auth (bytes_reader (lease_body owner lease))) b u = Some (Some reg).
Proof.
  intros Hl Hv Ho Hs Hle Hr <- <- <-. unfold held. cbn [rq_lease http_request].
  rewrite lease_body_decodes by done. cbn [decoded lease_of]. rewrite coerce_valid by done.
  destruct (quote_safe _ Hs) as [_ ->]. repeat case_decide; try done. rewrite Hr.
  by rewrite !bool_decide_eq_true_2.
Qed.

Lemma put_granted r now lease auth path b u owner :
  authenticate r auth = Some b → parseRegistrationPath path = Some (u, []) → closed r = false →
  is_Some (registrations r !! u) ∨ Z.of_nat (size (registrations r)) < MaxRegistrations (cfg r) →
  utf8.Valid owner = true → TrimSpace owner ≠ [] → zlen (put_body owner) ≤ maxBody →
  ∃ r1 ts reg, handleRegistration r now (Ok lease) (http_request PUT path auth (bytes_reader (put_body owner))) =
    ({| rs_status := 200; rs_registration := Some reg |}, r1, ts) ∧ registrations r1 !! u = Some reg ∧
    rg_BackendID reg = b ∧ rg_OwnerID reg = owner ∧ rg_LeaseID reg = lease.
Proof.
  intros Hau Hp Hcl Hroom Hv Ho Hlen.
  unfold handleRegistration. cbn [rq_authorization rq_path rq_method http_request]. rewrite Hau, Hp. rewrite decide_True by done.
  unfold handlePutRegistration. cbn [rq_put http_request]. rewrite put_body_decodes by done.
  cbn [decoded owner_of]. rewrite coerce_valid, decide_False, Hcl by done.
  destruct (registrations r !! u) as [ex|] eqn:Eu.
  - eexists _, _, _. split; [reflexivity|]. cbn. by rewrite lookup_insert_eq.
  - destruct Hroom as [[? ?]|Hroom]; [done|]. rewrite (proj2 (Z.leb_gt _ _)) by lia.
    eexists _, _, _. split; [reflexivity|]. cbn. by rewrite lookup_insert_eq.
Qed.

(** Whoever may act on a registration refreshes and deletes it. *)
Lemma holder_acts r now lease rq b u reg action :
  authenticate r (rq_authorization rq) = Some b → parseRegistrationPath (rq_path rq) = Some (u, action) →
  held r rq b u = Some (Some reg) →
  (rq_method rq = POST → action = gs"refresh" →
   ∃ r1 reg1, handleRegistration r now lease rq = ({| rs_status := 200; rs_registration := Some reg1 |}, r1, []) ∧
     registrations r1 !! u = Some reg1 ∧ rg_ExpiresAt reg1 = now + RegistrationTTL (cfg r) ∧ rg_LeaseID reg1 = rg_LeaseID reg) ∧
  (rq_method rq = DELETE → action = [] →
   ∃ r1 ts, handleRegistration r now lease rq = (status 204, r1, ts) ∧ registrations r1 = delete u (registrations r)).
Proof.
  intros Hau Hp Hh. unfold handleRegistration. rewrite Hau, Hp.
  split; intros -> ->; rewrite decide_True by done.
  - unfold handleRefreshRegistration. rewrite Hh. eexists _, _. split; [reflexivity|]. cbn. by rewrite lookup_insert_eq.
  - unfold handleDeleteRegistration. rewrite Hh. by eexists _, _.
Qed.

End handled.

(** ** Properties *)

Section properties.
Import jsondecode voicechat voice voicehttp.

(** C29: The registration API takes nothing but one JSON text: whatever bytes a client sends
    and however its connection ends, decoding a request's body does not panic; and when it
    succeeds, the connection has been read to its end, the body has 4096 bytes at most, it
    is one JSON text with nothing but spaces after it, and that text is null or an object
    whose members are strings or null and have names of fields only (up to case). *)
Theorem decode_sound fields body :
  ∃ x, decodeJSON fields (MaxBytesReader maxBody body) = Some x ∧
    ∀ vals, x = Ok vals →
      is_EOF (r_end body) = true ∧ zlen (r_data body) ≤ 4096 ∧ length vals = length fields ∧
      ∃ text rest, r_data body = text ++ rest ∧ forallb jsonscan.isSpace rest = true ∧ jsonscan.Valid text = true ∧
        (cut_document text = Some DNull ∧ vals = replicate (length fields) [] ∨
         ∃ ms, cut_document text = Some (DObject ms) ∧
           Forall (λ m, m.2 ≠ JOther ∧ foldName m.1 ∈ foldName <$> fields) ms).
Proof.
  destruct (decodeJSON_inv fields (MaxBytesReader maxBody body)) as (x & -> & Hx). exists x. split; [done|].
  intros vals E. destruct (Hx vals E) as (text & rest & Ed & Hv & Hu & Hs & He).
  destruct (MaxBytesReader_EOF _ _ He) as [Hl Er]. rewrite Er in *. split; [done|]. split; [exact Hl|].
  unfold decode_struct, unmarshal in Hu. destruct (cut_document text) as [[|ms|]|] eqn:Ec; try done; injection Hu as Hu.
  - subst vals. split; [by rewrite length_replicate|]. exists text, rest. split_and!; [done..|by left].
  - pose proof (store_members_length _ _ _ _ _ Hu) as Hlen. rewrite length_replicate in Hlen. split; [done|].
    exists text, rest. split_and!; [done..|]. right. exists ms. split; [done|]. by eapply store_members_known.
Qed.

(** C19: A request is taken for what its client meant: a body that is an object of strings, as
    [json.Marshal] writes it, with anything after it, is accepted exactly when it has 4096
    bytes at most, nothing but spaces follow, the connection ends properly and every
    member has the name of a field (up to case); and then each field is the last string
    given for it, with the error rune for every byte that is not UTF-8, or empty. *)
Theorem requests_exact fields ms tail e vals :
  NoDup (foldName <$> fields) → ms ≠ [] → Forall (λ m, forallb safe m.1 = true) ms →
  let body := {| r_data := object (string_member <$> ms) ++ tail; r_end := e |} in
  decodeJSON fields (MaxBytesReader maxBody body) = Some (Ok vals) ↔
    zlen (r_data body) ≤ 4096 ∧ forallb jsonscan.isSpace tail = true ∧ e = EOF ∧
    Forall (λ m, foldName m.1 ∈ foldName <$> fields) ms ∧
    vals = (λ f, default [] (last (given f ms))) <$> fields.
Proof.
  intros Hnd Hne Hs body.
  assert (zip_with (λ f old, default old (last (given f ms))) fields (replicate (length fields) []) =
    (λ f, default [] (last (given f ms))) <$> fields) as Hz.
  { clear. induction fields as [|f fields IH]; [done|]. cbn. by f_equal. }
  pose proof (store_string_members fields ms (replicate (length fields) []) vals Hnd (length_replicate _ _)) as Hst.
  rewrite Hz in Hst. split.
  - intros E. assert (zlen (r_data body) ≤ 4096 ∧ forallb jsonscan.isSpace tail = true ∧ e = EOF) as (Hl & Ht & He)
      by (by eapply object_accepted).
    rewrite MaxBytesReader_short in E by done. unfold body in E. rewrite object_decoded in E by done.
    injection E as E. apply Hst in E as [H1 H2]. by split_and!.
  - intros (Hl & Ht & He & Hst'). rewrite MaxBytesReader_short by done. unfold body. rewrite object_decoded by done.
    f_equal. by apply Hst.
Qed.

(** C8: A registration can be kept and given up by who made it: a [PUT] of a backend with
    a valid token and a free place is answered with a body from which the lease can be
    read, and as long as the registration is there, a refresh and a delete with that
    lease in the body succeed and do what they say. *)
Theorem lease_works r now now' rand expires auth path refresh b u owner :
  authenticate r auth = Some b → parseRegistrationPath path = Some (u, []) →
  parseRegistrationPath refresh = Some (u, gs"refresh") → closed r = false →
  is_Some (registrations r !! u) ∨ Z.of_nat (size (registrations r)) < MaxRegistrations (cfg r) →
  utf8.Valid owner = true → TrimSpace owner ≠ [] → zlen (json.String owner) ≤ 4000 → length rand = 16%nat →
  ∃ body r1 ts reg, serve r now (Ok rand) expires (http_request PUT path auth (bytes_reader (put_body owner))) = (200, Some body, r1, ts) ∧
    decode_struct registrationResponse body = Some (Ok [coerce b; hex.Encode rand; coerce expires]) ∧
    registrations r1 !! u = Some reg ∧ rg_BackendID reg = b ∧ rg_OwnerID reg = owner ∧
    ∀ r2 rand2 expires2, authenticate r2 auth = Some b → registrations r2 !! u = Some reg →
      let lease := bytes_reader (lease_body owner (hex.Encode rand)) in
      (∃ body2 r3 reg3, serve r2 now' rand2 expires2 (http_request POST refresh auth lease) = (200, Some body2, r3, []) ∧
         registrations r3 !! u = Some reg3 ∧ rg_ExpiresAt reg3 = now' + RegistrationTTL (cfg r2) ∧
         rg_LeaseID reg3 = hex.Encode rand) ∧
      (∃ r3 ts3, serve r2 now' rand2 expires2 (http_request DELETE path auth lease) = (204, None, r3, ts3) ∧
         registrations r3 = delete u (registrations r2)).
Proof.
  intros Hau Hp Hrf Hcl Hroom Hv Ho Hlen Hrand. destruct (body_sizes owner (hex.Encode rand)) as [Hs1 Hs2].
  rewrite lease_text in Hs2 by done. destruct (hex_safe rand) as [Hsafe Hgr].
  assert (TrimSpace (hex.Encode rand) ≠ []) as Hle.
  { rewrite TrimSpace_all_graphic by done. intros E. pose proof (hex_length rand) as Hl. rewrite E, Hrand in Hl. done. }
  destruct (put_granted r now (hex.Encode rand) auth path b u owner) as (r1 & ts & reg & E & Hr1 & Hb & Hw & Hid);
    [done..|unfold maxBody; lia|].
  exists (writeRegistrationResponse reg expires), r1, ts, reg. unfold serve at 1.
  change (newLeaseID (Ok rand)) with (Ok (hex.Encode rand) : res bytes).
  rewrite E. split; [done|]. split.
  { rewrite response_decodes, Hb, Hid. destruct (quote_safe _ Hsafe) as [_ ->]. done. }
  do 3 (split; [done|]). intros r2 rand2 expires2 Hau2 Hreg2.
  set (lease := bytes_reader (lease_body owner (hex.Encode rand))).
  assert (∀ m p, held r2 (http_request m p auth lease) b u = Some (Some reg)) as Hheld.
  { intros m p. apply held_by_holder; try done. unfold maxBody. lia. }
  destruct (holder_acts r2 now' (newLeaseID rand2) (http_request POST refresh auth lease) b u reg gs"refresh")
    as [Hrefresh _]; [done..|by apply Hheld|].
  destruct (holder_acts r2 now' (newLeaseID rand2) (http_request DELETE path auth lease) b u reg [])
    as [_ Hdelete]; [done..|by apply Hheld|].
  destruct (Hrefresh eq_refl eq_refl) as (r3 & reg3 & E3 & ? & ? & ?). destruct (Hdelete eq_refl eq_refl) as (r4 & ts4 & E4 & ?).
  split.
  - exists (writeRegistrationResponse reg3 expires2), r3, reg3. unfold serve. rewrite E3. split_and!; [done..|congruence].
  - exists r4, ts4. unfold serve. by rewrite E4.
Qed.

End properties.

(** ** Witnesses *)

Section witnesses.
Import jsondecode voicechat voice voicehttp.

(** An owner with a quote, an angle bracket and a letter outside ASCII. *)
Definition odd_owner : bytes := gs"node <1> " ++ [x22; xc3; xa9; x22].

(** The first lease is overridden by the second, whose name is written in capitals. *)
Lemma requests_exact_witness :
  decodeJSON leaseRequest (MaxBytesReader maxBody (bytes_reader
    (object (string_member <$> [(gs"leaseId", gs"old"); (gs"ownerId", odd_owner); (gs"LEASEID", gs"lease-1")]) ++ [x0a]))) =
    Some (Ok [odd_owner; gs"lease-1"]).
Proof.
  apply (requests_exact leaseRequest [(gs"leaseId", gs"old"); (gs"ownerId", odd_owner); (gs"LEASEID", gs"lease-1")] [x0a] EOF
    [odd_owner; gs"lease-1"]).
  - apply (bool_decide_unpack _). vm_compute. exact I.
  - discriminate.
  - repeat constructor.
  - split; [vm_compute; discriminate|]. split; [reflexivity|]. split; [reflexivity|]. split; [|vm_compute; reflexivity].
    apply (bool_decide_unpack _). vm_compute. exact I.
Defined.

Definition sample_rand : bytes := replicate 16 x2a.

Lemma lease_works_witness :
  ∃ body r1 ts, serve sample_runtime 0 (Ok sample_rand) gs"soon"
    (http_request PUT sample_path gs"Bearer secret" (bytes_reader (put_body odd_owner))) = (200, Some body, r1, ts) ∧
    decode_struct registrationResponse body = Some (Ok [gs"survival"; hex.Encode sample_rand; gs"soon"]).
Proof.
  destruct (lease_works sample_runtime 0 5 sample_rand gs"soon" gs"Bearer secret" sample_path
    (sample_path ++ gs"/refresh") gs"survival" sample_uuid odd_owner) as (body & r1 & ts & reg & E & Hd & _).
  - vm_compute. reflexivity.
  - vm_compute. reflexivity.
  - vm_compute. reflexivity.
  - reflexivity.
  - right. vm_compute. reflexivity.
  - vm_compute. reflexivity.
  - vm_compute. discriminate.
  - vm_compute. discriminate.
  - reflexivity.
  - exists body, r1, ts. split; [exact E|]. rewrite Hd. vm_compute. reflexivity.
Defined.

End witnesses.
