(* ===== verification/ClientPolicy.v ===== *)
(** * Client source policies ([internal/clientpolicy])

    An allow list and a deny list of addresses and CIDR prefixes, parsed once and
    consulted for every connection. The specification reads the two lists as sets
    of networks ([covers]); the theorems say that the parsed policy decides
    exactly as the lists are written. *)
From S2P Require Import Prelude GoUnicode GoStrings GoNet.
Import gostrings netip.
Open Scope Z_scope.

Module clientpolicy.

Record Policy := { allow : list Prefix; deny : list Prefix }.

Definition parsePrefix (value : bytes) : res Prefix :=
  let value := TrimSpace value in
  if decide (value = []) then Err (errors_New "must not be empty")
  else match ParsePrefix value with
       | Ok prefix => Ok (Masked prefix)
       | Err _ =>
           let? addr := res_wrap
             (λ e, Errorf "must be an IP address or CIDR prefix: %w" [] [e])
             (ParseAddr value) in
           Ok (PrefixFrom addr (BitLen addr))
       end.

(** The loop of [parsePrefixes] from the index [i] on. *)
Fixpoint parse_from (kind : bytes) (i : Z) (values : list bytes) : res (list Prefix) :=
  match values with
  | [] => Ok []
  | value :: rest =>
      let? prefix := res_wrap (λ e, Errorf "%s[%d]: %w" [AStr kind; AInt i] [e])
                              (parsePrefix value) in
      let? prefixes := parse_from kind (i + 1) rest in
      Ok (prefix :: prefixes)
  end.

Definition parsePrefixes (kind : bytes) (values : list bytes) : res (list Prefix) :=
  parse_from kind 0 values.

Definition New (allow deny : list bytes) : res Policy :=
  let? parsedAllow := parsePrefixes gs"allow" allow in
  let? parsedDeny := parsePrefixes gs"deny" deny in
  Ok {| allow := parsedAllow; deny := parsedDeny |}.

Definition contains (prefixes : list Prefix) (addr : Addr) : bool :=
  existsb (λ prefix, Contains prefix addr) prefixes.

Definition Allows (p : Policy) (addr : Addr) : bool :=
  if negb (IsValid addr) then false
  else if (0 <? length (allow p))%nat then contains (allow p) addr
  else negb (contains (deny p) addr).

(** ** Specification *)

(** The network an entry of the configuration denotes: a CIDR prefix, or a single
    address. *)
Definition denotes (value : bytes) (n : Addr) (bits : Z) : Prop :=
  IsValid n = true ∧ addr_ok n ∧ 0 ≤ bits ≤ BitLen n ∧
  (ParsePrefix (TrimSpace value) = Ok (PrefixFrom n bits) ∨
   is_ok (ParsePrefix (TrimSpace value)) = false ∧
   ParseAddr (TrimSpace value) = Ok n ∧ bits = BitLen n).

Definition covers (value : bytes) (addr : Addr) : Prop :=
  ∃ n bits, denotes value n bits ∧ in_network n bits addr.

(** An entry that can be read at all. *)
Definition readable (value : bytes) : Prop :=
  TrimSpace value ≠ [] ∧
  (is_ok (ParsePrefix (TrimSpace value)) = true ∨ is_ok (ParseAddr (TrimSpace value)) = true).

(** ** Lemmas *)

Lemma parsePrefix_ok v : is_ok (parsePrefix v) = true ↔ readable v.
Proof.
  unfold parsePrefix, readable. cbn zeta. case_decide; [naive_solver|].
  destruct (ParsePrefix _); [naive_solver|]. destruct (ParseAddr _); naive_solver.
Qed.

Lemma parse_from_ok kind vs i :
  is_ok (parse_from kind i vs) = true ↔ ∀ v, v ∈ vs → readable v.
Proof.
  revert i. induction vs as [|v vs IH]; intros i; cbn [parse_from].
  { split; [by intros _ v ?%elem_of_nil | done]. }
  specialize (IH (i + 1)). setoid_rewrite elem_of_cons. pose proof (parsePrefix_ok v) as Hv.
  destruct (parsePrefix v); cbn in *; [|naive_solver].
  destruct (parse_from kind (i + 1) vs); cbn in *; naive_solver.
Qed.

Lemma parsePrefix_sound value p addr :
  addr_ok addr → parsePrefix value = Ok p → Contains p addr = true ↔ covers value addr.
Proof.
  unfold parsePrefix. cbn zeta. intros Ha. case_decide as Hne; [done|].
  destruct (ParsePrefix _) as [q|e] eqn:Eq.
  - intros [= <-]. pose proof Eq as (n & b & -> & Hn & Hv & Hb)%ParsePrefix_inv.
    rewrite Contains_Masked by done. split.
    + intros Hin. exists n, b. split; [|done]. split_and!; auto; lia.
    + intros (n' & b' & (Hv' & Hn' & Hb' & [E|[E _]]) & Hin); [|by rewrite Eq in E].
      assert (PrefixFrom n b = PrefixFrom n' b') as E' by congruence.
      rewrite <- Contains_spec in Hin |- * by done. by rewrite E'.
  - intros H. apply res_bind_Ok in H as (n & Hp%res_wrap_Ok & [= <-]).
    pose proof Hp as [Hn Hv]%ParseAddr_ok.
    assert (0 ≤ BitLen n) by by destruct n.
    rewrite Contains_spec by (done || lia). split.
    + intros Hin. exists n, (BitLen n). split; [|done].
      split_and!; try done. right. by rewrite Eq.
    + intros (n' & b' & (_ & _ & _ & [E|(_ & E & ->)]) & Hin); [by rewrite Eq in E|].
      rewrite Hp in E. by injection E as <-.
Qed.

Lemma parse_from_Forall2 kind i values ps :
  parse_from kind i values = Ok ps → Forall2 (λ v p, parsePrefix v = Ok p) values ps.
Proof.
  revert i ps. induction values as [|v vs IH]; intros i ps H; cbn [parse_from] in H.
  { simplify_eq. constructor. }
  apply res_bind_Ok in H as (p & Hp%res_wrap_Ok & H).
  apply res_bind_Ok in H as (ps' & Hps & H). simplify_eq. constructor; eauto.
Qed.

Lemma contains_covers values ps addr :
  addr_ok addr → Forall2 (λ v p, parsePrefix v = Ok p) values ps →
  contains ps addr = true ↔ ∃ v, v ∈ values ∧ covers v addr.
Proof.
  intros Ha. induction 1 as [|v p vs ps Hp _ IH]; cbn.
  { split; [done|]. by intros (v & Hv%elem_of_nil & _). }
  rewrite orb_true_iff, IH, parsePrefix_sound by done. split.
  - intros [Hc|(w & Hw & Hc)]; [exists v | exists w]; split; try done; by constructor.
  - intros (w & [->|Hw]%elem_of_cons & Hc); [by left | right; eauto].
Qed.

End clientpolicy.

Section properties.
Import clientpolicy.

(** C38: a policy built from an allow and a deny list admits exactly the valid
    addresses the lists say: when the allow list is not empty, those that one of
    its networks covers, whatever the deny list says; otherwise those that no
    network of the deny list covers. *)
Theorem Allows_spec allowed denied p addr :
  New allowed denied = Ok p → addr_ok addr →
  Allows p addr = true ↔
    IsValid addr = true ∧
    if decide (allowed = []) then ¬ ∃ v, v ∈ denied ∧ covers v addr
    else ∃ v, v ∈ allowed ∧ covers v addr.
Proof.
  unfold New. intros H Ha. apply res_bind_Ok in H as (pa & Hpa%parse_from_Forall2 & H).
  apply res_bind_Ok in H as (pd & Hpd%parse_from_Forall2 & H). simplify_eq.
  pose proof (Forall2_length _ _ _ Hpa) as Hlen.
  unfold Allows. cbn [allow deny]. destruct (IsValid addr); cbn [negb]; [|by split; [|intros [? _]]].
  case_decide as Hne.
  - subst allowed. destruct pa; [|done]. cbn. rewrite negb_true_iff, <- not_true_iff_false.
    rewrite contains_covers by done. naive_solver.
  - destruct pa as [|q pa]; [by destruct allowed|]. cbn [length Nat.ltb Nat.leb].
    rewrite contains_covers by done. naive_solver.
Qed.

Lemma Allows_spec_witness :
  let p := {| allow := [PrefixFrom (V4 0x0A000000) 8]; deny := [] |} in
  New [gs"10.1.2.3/8"] [] = Ok p ∧ ∃ v, v ∈ [gs"10.1.2.3/8"] ∧ covers v (V4 0x0A010203).
Proof.
  assert (New [gs"10.1.2.3/8"] [] =
    Ok {| allow := [PrefixFrom (V4 0x0A000000) 8]; deny := [] |}) as H by (vm_compute; reflexivity).
  split; [exact H|].
  apply (Allows_spec _ _ _ (V4 0x0A010203) H); [by split | vm_compute; reflexivity].
Defined.

(** A pair of lists is refused exactly when one of their entries is blank or is
    neither a prefix nor an address; otherwise the policy exists. *)
Theorem New_total allowed denied :
  is_ok (New allowed denied) = true ↔ ∀ v, v ∈ allowed ++ denied → readable v.
Proof.
  unfold New, parsePrefixes. setoid_rewrite elem_of_app.
  pose proof (parse_from_ok gs"allow" allowed 0) as Ha.
  pose proof (parse_from_ok gs"deny" denied 0) as Hd.
  destruct (parse_from gs"allow" 0 allowed); cbn [res_bind is_ok] in *;
    [|split; [done | intros Hall; apply Ha; eauto]].
  destruct (parse_from gs"deny" 0 denied); cbn [res_bind is_ok] in *;
    [|split; [done | intros Hall; apply Hd; eauto]].
  split; [|done]. intros _ v [Hv|Hv]; [by apply Ha | by apply Hd].
Qed.

(** An IPv4-mapped entry such as [::ffff:10.0.0.1] is accepted but denotes an
    IPv6 network, so it never matches the unmapped IPv4 address of a client. *)
Theorem mapped_entry_never_matches value n p a :
  ParseAddr (TrimSpace value) = Ok n → is_ok (ParsePrefix (TrimSpace value)) = false →
  Is4In6 n = true → parsePrefix value = Ok p → Contains p (V4 a) = false.
Proof.
  intros Hn Hp H46. unfold parsePrefix. cbn zeta. case_decide; [done|].
  destruct (ParsePrefix _); [done|]. rewrite Hn. intros [= <-].
  by destruct n.
Qed.

Lemma mapped_entry_never_matches_witness :
  let p := PrefixFrom (V6 0xFFFF0A000001 []) 128 in
  parsePrefix gs"::ffff:10.0.0.1" = Ok p ∧ Contains p (V4 0x0A000001) = false.
Proof.
  assert (parsePrefix gs"::ffff:10.0.0.1" = Ok (PrefixFrom (V6 0xFFFF0A000001 []) 128)) as H
    by (vm_compute; reflexivity).
  split; [exact H|].
  apply (mapped_entry_never_matches gs"::ffff:10.0.0.1" (V6 0xFFFF0A000001 []));
    [vm_compute; reflexivity .. | exact H].
Defined.

End properties.
