(* ===== verification/ProxyProtocol.v ===== *)
(** * The PROXY protocol header ([internal/proxyprotocol])

    The header a trusted load balancer writes before the client's first byte, in
    its text form (v1) and its binary form (v2), and the list of trusted peers. *)
From S2P Require Import Prelude GoUnicode GoStrings GoNet GoIO.
From S2P Require Import McProto.
Import gostrings netip io.
Open Scope Z_scope.

Module proxyprotocol.

Definition maxV1 : nat := 108.
Definition maxV2 : Z := 512.
Definition v2sig : bytes := [x0d; x0a; x0d; x0a; x00; x0d; x0a; "Q"; "U"; "I"; "T"; x0a]%byte.

Fixpoint ParseCIDRs (values : list bytes) : res (list Prefix) :=
  match values with
  | [] => Ok []
  | v :: rest =>
      let value := TrimSpace v in
      let? prefix :=
        match ParseAddr value with
        | Ok addr => Ok (PrefixFrom (Unmap addr) (BitLen addr))
        | Err _ =>
            match ParsePrefix value with
            | Err _ => Err (Errorf "invalid trusted proxy %q" [AStr value] [])
            | Ok prefix => Ok (Masked prefix)
            end
        end in
      let? prefixes := ParseCIDRs rest in
      Ok (prefix :: prefixes)
  end.

Definition Trusted (prefixes : list Prefix) (addr : Addr) : bool :=
  existsb (λ prefix, Contains prefix addr) prefixes.

(** [len(line) >= 2 && line[len-2] == '\r' && line[len-1] == '\n']. *)
Definition ends_crlf (line : bytes) : bool :=
  (2 <=? length line)%nat && bool_decide (drop (length line - 2) line = [x0d; x0a]).

(** The loop of [readV1]; [left] is [maxV1 - len(line)]. *)
Fixpoint v1_line (left : nat) (line : bytes) : rd bytes :=
  match left with
  | O => rd_ret line
  | S l =>
      do! next := rd_full 1 in
      let line := line ++ next in
      if ends_crlf line then rd_ret line else v1_line l line
  end.

Definition readV1 (first : byte) : rd Addr :=
  do! line := v1_line (maxV1 - 1) [first] in
  if negb (ends_crlf line) then rd_fail (errors_New "oversized PROXY v1 header")
  else
    match Split (take (length line - 2) line) " "%byte with
    | [f0; f1; f2; _; _; _] =>
        if negb (bool_decide (f0 = gs"PROXY"))
           || (negb (bool_decide (f1 = gs"TCP4")) && negb (bool_decide (f1 = gs"TCP6")))
        then rd_fail (errors_New "invalid PROXY v1 header")
        else
          match ParseAddr f2 with
          | Err _ => rd_fail (errors_New "invalid PROXY v1 source")
          | Ok addr =>
              if (bool_decide (f1 = gs"TCP4") && negb (Is4 addr))
                 || (bool_decide (f1 = gs"TCP6") && negb (Is6 addr))
              then rd_fail (errors_New "invalid PROXY v1 source")
              else rd_ret (Unmap addr)
          end
    | _ => rd_fail (errors_New "invalid PROXY v1 header")
    end.

Definition readV2 (first : byte) : rd Addr :=
  do! tail := rd_full 15 in
  let header := first :: tail in
  if negb (bool_decide (take 12 header = v2sig)) || negb (bool_decide (header !! 12%nat = Some x21))
  then rd_fail (errors_New "invalid PROXY v2 header")
  else
    let length_ := mcproto.be_uint16 (drop 14 header) in
    if maxV2 <? length_ then rd_fail (errors_New "oversized PROXY v2 header")
    else
      do! payload := rd_full (Z.to_nat length_) in
      match header !! 13%nat with
      | Some x11 =>
          if (length payload <? 12)%nat then rd_fail (errors_New "short PROXY v2 IPv4 header")
          else rd_ret (AddrFrom4 (take 4 payload))
      | Some x21 =>
          if (length payload <? 36)%nat then rd_fail (errors_New "short PROXY v2 IPv6 header")
          else rd_ret (AddrFrom16 (take 16 payload))
      | _ => rd_fail (errors_New "unsupported PROXY v2 family")
      end.

Definition Read : rd Addr :=
  do! buf := rd_full 1 in
  match buf with
  | "P"%byte :: _ => readV1 "P"%byte
  | first :: _ => readV2 first
  | [] => rd_fail EOF
  end.

(** ** What the headers look like *)

(** A v1 header without its line end. *)
Definition v1_text (family src dst sport dport : bytes) : bytes :=
  Join [gs"PROXY"; family; src; dst; sport; dport] " "%byte.

(** A v2 header for [family] with the payload [p]. *)
Definition v2_header (family : byte) (p : bytes) : bytes :=
  v2sig ++ [x21; family] ++ port_bytes (zlen p) ++ p.

(** The headers that name [a] as the source. *)
Inductive proxy_header (a : Addr) : bytes → Prop :=
| header_v1 family src dst sport dport addr :
    (family = gs"TCP4") ∧ Is4 addr = true ∨ (family = gs"TCP6") ∧ Is6 addr = true →
    ParseAddr src = Ok addr → a = Unmap addr →
    proxy_header a (v1_text family src dst sport dport ++ [x0d; x0a])
| header_v2 family p :
    (family = x11 ∧ (12 ≤ length p)%nat ∧ a = AddrFrom4 (take 4 p)) ∨
    (family = x21 ∧ (36 ≤ length p)%nat ∧ a = AddrFrom16 (take 16 p)) →
    (length p ≤ 512)%nat → proxy_header a (v2_header family p).

(** ** Lemmas *)

(** [m] never takes more than [n] bytes, whatever the stream. *)
Definition takes_at_most {A} (n : nat) (m : rd A) : Prop :=
  ∀ r x r', m r = (x, r') → ∃ used, consumed r r' used ∧ (length used ≤ n)%nat.

Lemma takes_ret {A} (a : A) : takes_at_most 0 (rd_ret a).
Proof. intros r x r' [= <- <-]. exists []. split; [apply consumed_refl | done]. Qed.

Lemma takes_fail {A} e : takes_at_most 0 (@rd_fail A e).
Proof. intros r x r' [= <- <-]. exists []. split; [apply consumed_refl | done]. Qed.

Lemma takes_le {A} n n' (m : rd A) : (n ≤ n')%nat → takes_at_most n m → takes_at_most n' m.
Proof. intros Hn Hm r x r' H. destruct (Hm _ _ _ H) as (u & ? & ?). exists u. split; [done|lia]. Qed.

Lemma takes_full n : takes_at_most n (rd_full n).
Proof.
  intros r x r'. unfold rd_full. destruct (ReadFull r n) as [[got [e|]] r1] eqn:E;
    apply ReadFull_consumed in E as (Hc & Hl & _); intros [= <- <-]; eauto.
Qed.

Lemma takes_bind {A B} n k (m : rd A) (f : A → rd B) :
  takes_at_most n m → (∀ r a r', m r = (Ok a, r') → takes_at_most k (f a)) →
  takes_at_most (n + k) (rd_bind m f).
Proof.
  intros Hm Hf r x r'. unfold rd_bind. destruct (m r) as [[a|e] r1] eqn:E;
    destruct (Hm _ _ _ E) as (u & Hu & Hl); intros H.
  - destruct (Hf _ _ _ E _ _ _ H) as (u' & Hu' & Hl'). exists (u ++ u').
    split; [by eapply consumed_trans | rewrite length_app; lia].
  - injection H as <- <-. exists u. split; [done|lia].
Qed.

Lemma v1_line_takes left line : takes_at_most left (v1_line left line).
Proof.
  revert line. induction left as [|l IH]; intros line; [apply takes_ret|]. cbn [v1_line].
  apply (takes_bind 1 l); [apply takes_full|]. intros _ next _ _. cbn zeta.
  case_match; [eapply takes_le, takes_ret; lia | apply IH].
Qed.

#[local] Hint Resolve takes_ret takes_fail : core.

Lemma readV1_takes first : takes_at_most 107 (readV1 first).
Proof.
  apply (takes_bind 107 0); [apply v1_line_takes|]. intros _ line _ _.
  repeat case_match; auto.
Qed.

Lemma readV2_takes first : takes_at_most (15 + 512) (readV2 first).
Proof.
  apply takes_bind; [apply takes_full|]. intros _ tail _ _. cbn zeta.
  case_match; [eapply takes_le, takes_fail; lia|].
  destruct (maxV2 <? _) eqn:E; [eapply takes_le, takes_fail; lia|]. unfold maxV2 in E. bool_prop.
  rewrite <- (Nat.add_0_r 512). apply takes_bind; [eapply takes_le, takes_full; lia|].
  intros _ payload _ _. repeat case_match; auto.
Qed.

Lemma Read_takes : takes_at_most 528 Read.
Proof.
  apply (takes_bind 1 527); [apply takes_full|]. intros _ buf _ _.
  destruct buf as [|b t]; [eapply takes_le, takes_fail; lia|].
  pose proof (takes_le 107 527 _ ltac:(lia) (readV1_takes b)).
  pose proof (readV2_takes b). by destruct b.
Qed.

Lemma ends_crlf_snoc line : x0d ∉ line → ends_crlf line = false ∧ ends_crlf (line ++ [x0d]) = false.
Proof.
  intros Hn. assert (∀ l c, x0d ∉ l → ends_crlf (l ++ [c]) = false) as H.
  { intros l c Hl. unfold ends_crlf. apply andb_false_iff. rewrite length_app. cbn [length].
    destruct (decide (2 ≤ length l + 1)%nat) as [Hle|]; [|left; apply Nat.leb_gt; lia].
    right. apply bool_decide_eq_false_2. rewrite drop_app_le by lia. intros E.
    apply Hl. destruct (drop _ l) as [|a t] eqn:Ed; simplify_eq/=.
    apply (subseteq_drop (length l + 1 - 2) l). rewrite Ed. by left. }
  split; [|by apply H]. destruct line as [|b l] using rev_ind; [done|]. apply H.
  intros Hin. apply Hn. apply elem_of_app. by left.
Qed.

Lemma ends_crlf_crlf line : ends_crlf (line ++ [x0d; x0a]) = true.
Proof.
  unfold ends_crlf. rewrite length_app. cbn [length]. apply andb_true_iff. split.
  - apply Nat.leb_le. lia.
  - apply bool_decide_eq_true_2. by rewrite Nat.add_sub, drop_app_length.
Qed.

(** One byte of the line. *)
Lemma v1_line_step l line b t e :
  v1_line (S l) line {| r_data := b :: t; r_end := e |} =
    if ends_crlf (line ++ [b]) then (Ok (line ++ [b]), {| r_data := t; r_end := e |})
    else v1_line l (line ++ [b]) {| r_data := t; r_end := e |}.
Proof.
  cbn [v1_line]. erewrite rd_bind_eq by apply (rd_full_enough [b] t e). cbn beta iota zeta.
  by case_match.
Qed.

(** The line ends at the first CRLF, if it comes within the limit. *)
Lemma v1_line_found left line body rest e :
  x0d ∉ line ++ body → (length body + 2 ≤ left)%nat →
  v1_line left line {| r_data := body ++ [x0d; x0a] ++ rest; r_end := e |} =
    (Ok (line ++ body ++ [x0d; x0a]), {| r_data := rest; r_end := e |}).
Proof.
  revert left line. induction body as [|b body IH]; intros left line Hn Hl.
  - rewrite app_nil_r in Hn. destruct left as [|[|l]]; cbn in Hl; [lia|lia|].
    cbn [app]. rewrite !v1_line_step. destruct (ends_crlf_snoc line Hn) as [_ ->].
    rewrite <- app_assoc. cbn [app]. by rewrite ends_crlf_crlf.
  - destruct left as [|l]; cbn in Hl; [lia|]. cbn [app]. rewrite v1_line_step.
    assert (x0d ∉ (line ++ [b]) ++ body) as Hn' by by rewrite <- app_assoc.
    rewrite (proj1 (ends_crlf_snoc (line ++ [b]) ltac:(set_solver))).
    rewrite IH by (done || lia). by rewrite <- app_assoc.
Qed.

(** *** What was read was a header *)

Lemma rd_full_inv n r got r' : rd_full n r = (Ok got, r') → consumed r r' got ∧ length got = n.
Proof.
  unfold rd_full, ReadFull. destruct (_ =? n)%nat eqn:E; intros H; simplify_eq. apply Nat.eqb_eq in E.
  split; [|done]. split; [symmetry; apply take_drop|done].
Qed.

Lemma v1_line_inv left line r line' r' :
  v1_line left line r = (Ok line', r') → ∃ used, line' = line ++ used ∧ consumed r r' used.
Proof.
  revert line r. induction left as [|l IH]; intros line r; cbn [v1_line].
  { intros [= <- <-]. exists []. by rewrite app_nil_r. }
  intros (next & r1 & Hr & Hk)%rd_bind_inv. apply rd_full_inv in Hr as [Hc _]. cbv zeta in Hk.
  case_match; [injection Hk as <- <-; by exists next|]. apply IH in Hk as (used & -> & Hu).
  exists (next ++ used). rewrite app_assoc. split; [done|]. by eapply consumed_trans.
Qed.

Lemma ends_crlf_inv line : ends_crlf line = true → line = take (length line - 2) line ++ [x0d; x0a].
Proof.
  unfold ends_crlf. intros [_ E%bool_decide_eq_true_1]%andb_true_iff.
  rewrite <- (take_drop (length line - 2) line) at 1. by rewrite E.
Qed.

Lemma readV1_inv first r a r' :
  readV1 first r = (Ok a, r') → ∃ used, consumed r r' used ∧ proxy_header a (first :: used).
Proof.
  unfold readV1. intros (line & r1 & Hl & Hk)%rd_bind_inv. apply v1_line_inv in Hl as (used & -> & Hc).
  exists used. change ([first] ++ used) with (first :: used) in Hk. destruct (ends_crlf (first :: used)) eqn:Ee; [|done].
  cbn [negb] in Hk. rewrite (ends_crlf_inv _ Ee).
  set (text := take (length (first :: used) - 2) (first :: used)) in *. pose proof (Join_Split text " "%byte) as Hj.
  destruct (Split text " "%byte) as [|f0 [|f1 [|f2 [|f3 [|f4 [|f5 [|]]]]]]]; try done.
  destruct (_ || _) eqn:E1 in Hk; [done|]. apply orb_false_iff in E1 as [E0%negb_false_iff%bool_decide_eq_true_1 E1].
  destruct (ParseAddr f2) as [addr|] eqn:Ep; [|done]. destruct (_ || _) eqn:E2 in Hk; [done|]. injection Hk as <- <-.
  split; [done|]. subst f0. rewrite <- Hj. apply (header_v1 _ f1 f2 f3 f4 f5 addr); [|done..].
  apply orb_false_iff in E2 as [E2 E3]. destruct (decide (f1 = gs"TCP4")) as [->|Hne].
  - left. rewrite bool_decide_true in E2 by done. by apply negb_false_iff in E2.
  - right. rewrite (bool_decide_false (f1 = gs"TCP4")) in E1 by done. cbn in E1.
    apply negb_false_iff, bool_decide_eq_true_1 in E1 as ->. rewrite bool_decide_true in E3 by done. by apply negb_false_iff in E3.
Qed.

Lemma port_bytes_be a b : port_bytes (mcproto.be_uint16 [a; b]) = [a; b].
Proof.
  unfold port_bytes, mcproto.be_uint16. pose proof (bv_range a). pose proof (bv_range b).
  rewrite Z.lor_comm, !Z.shiftl_mul_pow2, lor_shift_add, Z.shiftr_div_pow2 by lia. change (2 ^ 8) with 256.
  rewrite Z.div_add, Z.div_small, Z.add_0_l, bz_bv by lia. do 2 f_equal. rewrite <- (bz_bv b) at 2.
  apply byte.unsigned_inj. rewrite !byte.unsigned_of_Z. unfold byte.wrap. change (2 ^ 8) with 256.
  by rewrite Z.mod_add by lia.
Qed.

Lemma readV2_inv first r a r' :
  readV2 first r = (Ok a, r') → ∃ used, consumed r r' used ∧ proxy_header a (first :: used).
Proof.
  unfold readV2. intros (tail & r1 & Ht & Hk)%rd_bind_inv. apply rd_full_inv in Ht as [Hc Hl]. cbv zeta in Hk.
  destruct (_ || _) eqn:E1 in Hk; [done|]. apply orb_false_iff in E1 as [E1 E2].
  apply negb_false_iff, bool_decide_eq_true_1 in E1, E2. destruct (maxV2 <? _) eqn:E3 in Hk; [done|].
  apply Z.ltb_ge in E3. apply rd_bind_inv in Hk as (p & r2 & Hp & Hk). apply rd_full_inv in Hp as [Hc2 Hl2].
  set (header := first :: tail) in *. assert (length header = 16%nat) as Hh by (subst header; cbn; by rewrite Hl).
  destruct (header !! 13%nat) as [fam|] eqn:E4; [|by apply lookup_ge_None in E4; lia].
  destruct (drop 14 header) as [|l1 [|l0 [|]]] eqn:E5; try (apply (f_equal length) in E5; rewrite length_drop, Hh in E5; done).
  assert (header = v2sig ++ [x21; fam] ++ [l1; l0]) as Eh.
  { rewrite <- (take_drop 12 header), E1. f_equal.
    by rewrite (drop_S header x21 12), (drop_S header fam 13), E5 by done. }
  pose proof (be_uint16_range [l1; l0]) as Hr.
  assert (zlen p = mcproto.be_uint16 [l1; l0]) as Ez by (unfold zlen; rewrite Hl2; unfold is_uint in Hr; lia).
  exists (tail ++ p). assert (first :: tail ++ p = v2_header fam p) as ->.
  { change (first :: tail ++ p) with (header ++ p). unfold v2_header. rewrite Ez, port_bytes_be, Eh. by rewrite <- !app_assoc. }
  assert (length p ≤ 512)%nat as Hle by (unfold zlen, maxV2 in *; lia).
  destruct fam; try done; (destruct (length p <? _)%nat eqn:E6 in Hk; [done|]); apply Nat.ltb_ge in E6; injection Hk as <- <-;
    (split; [by eapply consumed_trans|]); apply header_v2; auto.
Qed.

(** What [Read] takes is one header, and it gives the source the header names. *)
Lemma Read_header r a r' : Read r = (Ok a, r') → ∃ header, consumed r r' header ∧ proxy_header a header.
Proof.
  unfold Read. intros (buf & r1 & Hb & Hk)%rd_bind_inv. apply rd_full_inv in Hb as [Hc Hl].
  destruct buf as [|b [|]]; try done.
  assert (∃ used, consumed r1 r' used ∧ proxy_header a (b :: used)) as (used & Hu & Hh).
  { destruct (decide (b = "P"%byte)) as [->|Hne]; [by apply readV1_inv|]. apply readV2_inv. by destruct b. }
  exists ([b] ++ used). split; [|done]. by eapply consumed_trans.
Qed.

End proxyprotocol.

Section properties.
Import proxyprotocol.

(** Whatever a peer sends, reading the header takes at most 528 bytes from the
    connection (16 and the 512 of a v2 payload) and leaves everything after them
    in place. *)
Theorem Read_bounded r :
  let '(_, r') := Read r in ∃ used, consumed r r' used ∧ (length used ≤ 528)%nat.
Proof. destruct (Read r) as [x r'] eqn:E. by eapply Read_takes. Qed.

(** A v1 header with a source of the announced family is read as that source,
    IPv4-mapped ones unmapped, and exactly the header is consumed. *)
Theorem Read_v1 family src dst sport dport addr rest e :
  let fs := [gs"PROXY"; family; src; dst; sport; dport] in
  Forall (λ f, (" "%byte ∉ f) ∧ (x0d ∉ f)) fs →
  (family = gs"TCP4") ∧ Is4 addr = true ∨ (family = gs"TCP6") ∧ Is6 addr = true →
  ParseAddr src = Ok addr →
  (length (v1_text family src dst sport dport) + 2 ≤ 108)%nat →
  Read {| r_data := v1_text family src dst sport dport ++ [x0d; x0a] ++ rest; r_end := e |} =
    (Ok (Unmap addr), {| r_data := rest; r_end := e |}).
Proof.
  cbn zeta. intros Hfs Hfam Hsrc Hlen.
  assert (x0d ∉ v1_text family src dst sport dport) as Hcr.
  { unfold v1_text. cbn [Join]. repeat (apply Forall_cons in Hfs as [[_ ?] Hfs]).
    repeat (rewrite not_elem_of_app || rewrite not_elem_of_cons). by split_and!. }
  assert (Split (v1_text family src dst sport dport) " "%byte =
    [gs"PROXY"; family; src; dst; sport; dport]) as Hsplit.
  { unfold v1_text. cbn [Join]. repeat (apply Forall_cons in Hfs as [[? _] Hfs]).
    by rewrite !Split_app, Split_single by done. }
  revert Hcr Hsplit Hlen. unfold v1_text at 1 2 3 4.
  set (text := Join _ _). intros Hcr Hsplit Hlen.
  assert (∃ body, text = "P"%byte :: body) as [body Eb] by by eexists.
  unfold Read. rewrite Eb. cbn [app].
  erewrite rd_bind_eq by (apply (rd_full_enough ["P"%byte])). cbn beta iota.
  unfold readV1. change (maxV1 - 1)%nat with 107%nat.
  rewrite Eb in Hlen, Hcr. cbn [length] in Hlen.
  erewrite rd_bind_eq by (apply (v1_line_found 107 ["P"%byte] body); [done | lia]).
  change (["P"%byte] ++ body ++ [x0d; x0a]) with (("P"%byte :: body) ++ [x0d; x0a]).
  cbn beta iota. rewrite <- Eb, ends_crlf_crlf, length_app. cbn [negb length].
  rewrite Nat.add_sub, take_app_length, Hsplit. rewrite bool_decide_true by done. cbn [negb orb].
  rewrite Hsrc. by destruct Hfam as [[-> Ha]|[-> Ha]]; rewrite Ha.
Qed.

Lemma Read_v1_witness :
  Read {| r_data := v1_text gs"TCP6" gs"::ffff:1.2.3.4" gs"::1" gs"1" gs"2" ++ [x0d; x0a] ++ gs"x";
          r_end := EOF |} = (Ok (V4 0x01020304), {| r_data := gs"x"; r_end := EOF |}).
Proof.
  apply (Read_v1 gs"TCP6" gs"::ffff:1.2.3.4" gs"::1" gs"1" gs"2" (V6 0xFFFF01020304 []) gs"x" EOF).
  - apply (bool_decide_unpack _). vm_compute. exact I.
  - by right.
  - vm_compute. reflexivity.
  - apply Nat.leb_le. vm_compute. reflexivity.
Defined.

(** A v2 header for TCP over IPv4 or IPv6 whose payload has room for the
    addresses is read as the source address at the front of the payload, and
    exactly the header is consumed. *)
Theorem Read_v2 p rest e :
  (length p ≤ 512)%nat →
  ((12 ≤ length p)%nat →
    Read {| r_data := v2_header x11 p ++ rest; r_end := e |} =
      (Ok (AddrFrom4 (take 4 p)), {| r_data := rest; r_end := e |})) ∧
  ((36 ≤ length p)%nat →
    Read {| r_data := v2_header x21 p ++ rest; r_end := e |} =
      (Ok (AddrFrom16 (take 16 p)), {| r_data := rest; r_end := e |})).
Proof.
  intros Hp.
  assert (∀ fam, Read {| r_data := v2_header fam p ++ rest; r_end := e |} =
    (match fam with
     | x11 => if (length p <? 12)%nat then rd_fail (errors_New "short PROXY v2 IPv4 header")
              else rd_ret (AddrFrom4 (take 4 p))
     | x21 => if (length p <? 36)%nat then rd_fail (errors_New "short PROXY v2 IPv6 header")
              else rd_ret (AddrFrom16 (take 16 p))
     | _ => rd_fail (errors_New "unsupported PROXY v2 family")
     end) {| r_data := rest; r_end := e |}) as H.
  { intros fam. unfold Read, v2_header. rewrite <- !app_assoc.
    erewrite rd_bind_eq by (apply (rd_full_enough [x0d])). cbn beta iota. unfold readV2.
    change (drop 1 v2sig) with (tl v2sig).
    erewrite rd_bind_eq by (apply (rd_full_enough (tl v2sig ++ [x21; fam] ++ port_bytes (zlen p)))).
    cbn beta iota. cbn zeta.
    change (take 12 (x0d :: _)) with v2sig. rewrite bool_decide_true by done.
    change ((x0d :: _) !! 12%nat) with (Some x21). rewrite bool_decide_true by done.
    cbn [negb orb]. change (drop 14 (x0d :: _)) with (port_bytes (zlen p)).
    rewrite be_uint16_bytes by (unfold is_uint, zlen; lia).
    rewrite (proj2 (Z.ltb_ge _ _)) by (unfold zlen, maxV2; lia). rewrite zlen_nat.
    erewrite rd_bind_eq by apply rd_full_enough. cbn beta iota. done. }
  split; intros Hl; rewrite H; by rewrite (proj2 (Nat.ltb_ge _ _)).
Qed.

Lemma Read_v2_witness :
  let p := [x7f; x00; x00; x01] ++ replicate 8 x00 in
  Read {| r_data := v2_header x11 p ++ gs"x"; r_end := EOF |} =
    (Ok (V4 0x7F000001), {| r_data := gs"x"; r_end := EOF |}).
Proof.
  intros p. assert (length p = 12%nat) as Hl by reflexivity.
  destruct (Read_v2 p (gs"x") EOF ltac:(lia)) as [H _].
  etransitivity; [apply H; lia | vm_compute; reflexivity].
Defined.

(** A trusted proxy configured as an IPv4-mapped address is accepted, but the
    prefix stored for it is invalid, so no peer at all is trusted because of it. *)
Theorem mapped_proxy_never_trusted value addr prefixes peer :
  ParseAddr (TrimSpace value) = Ok addr → Is4In6 addr = true →
  ParseCIDRs [value] = Ok prefixes → Trusted prefixes peer = false.
Proof.
  intros Ha H46. cbn [ParseCIDRs]. rewrite Ha. cbn [res_bind]. intros [= <-].
  destruct addr as [| |a z]; try done. unfold Unmap. rewrite H46. cbn. done.
Qed.

Lemma mapped_proxy_never_trusted_witness :
  let ps := [PrefixFrom (V4 0x0A000001) 128] in
  ParseCIDRs [gs"::ffff:10.0.0.1"] = Ok ps ∧ Trusted ps (V4 0x0A000001) = false.
Proof.
  assert (ParseCIDRs [gs"::ffff:10.0.0.1"] = Ok [PrefixFrom (V4 0x0A000001) 128]) as H
    by (vm_compute; reflexivity).
  split; [exact H|].
  apply (mapped_proxy_never_trusted gs"::ffff:10.0.0.1" (V6 0xFFFF0A000001 []));
    [vm_compute; reflexivity | vm_compute; reflexivity | exact H].
Defined.

End properties.
