(* ===== verification/RateLimit.v ===== *)
(** * Per-client connection limits ([internal/ratelimit])

    A bounded map of token buckets, one for each client address. The bucket
    arithmetic is Go's [float64]; it is written once over a class of float
    operations and used at two instances: IEEE binary64 ([spec_float]), which
    computes what the gateway computes, and the rationals, at which the rate the
    code means to enforce can be stated exactly. Properties that do not depend on
    rounding are proved for every instance. Go's map iteration order is an
    argument of every call. *)
From Stdlib Require Import QArith Lqa Floats.SpecFloat.
From S2P Require Import Prelude GoUnicode GoStrings GoNet.
Import netip.
Open Scope Z_scope.

(** ** Floats *)

Class Float64 (F : Type) := {
  f_of_int : Z → F;
  f_add : F → F → F;
  f_sub : F → F → F;
  f_mul : F → F → F;
  f_div : F → F → F;
  f_ltb : F → F → bool;
  f_min : F → F → F
}.

(** IEEE binary64, rounding to nearest even; [min] as Go's builtin: NaN wins, and
    [-0] is below [+0]. *)
#[export] Instance binary64 : Float64 spec_float := {
  f_of_int n := binary_normalize 53 1024 n 0 false;
  f_add := SFadd 53 1024;
  f_sub := SFsub 53 1024;
  f_mul := SFmul 53 1024;
  f_div := SFdiv 53 1024;
  f_ltb := SFltb;
  f_min x y :=
    match x, y with
    | S754_nan, _ => x
    | _, S754_nan => y
    | S754_zero s, S754_zero s' => S754_zero (s || s')
    | _, _ => if SFltb y x then y else x
    end
}.

(** Exact arithmetic. *)
#[export] Instance exact : Float64 Q := {
  f_of_int := inject_Z;
  f_add := Qplus;
  f_sub := Qminus;
  f_mul := Qmult;
  f_div := Qdiv;
  f_ltb x y := negb (Qle_bool y x);
  f_min x y := if Qle_bool x y then x else y
}.

Module time.

(** Instants are nanoseconds of the monotonic clock, durations [int64]
    nanoseconds; [Sub] saturates. *)
Definition maxDuration : Z := 2 ^ 63 - 1.
Definition minDuration : Z := - 2 ^ 63.
Definition Sub (t u : Z) : Z := Z.max minDuration (Z.min maxDuration (t - u)).
Definition Second : Z := 1000000000.

(** [Duration.Seconds]. *)
Definition Seconds {F} `{Float64 F} (d : Z) : F :=
  f_add (f_of_int (Z.quot d Second)) (f_div (f_of_int (Z.rem d Second)) (f_of_int Second)).

End time.

Module ratelimit.

Section limiter.
Context {F : Type} `{Float64 F}.

Record Config := {
  Enabled : bool;
  ConnectionsPerSecond : F;
  Burst : Z;
  IdleTimeout : Z;
  MaxEntries : Z
}.

Record entry := { tokens : F; lastRefill : Z; lastSeen : Z }.

Abbreviation entries := (gmap Addr entry).

Record Limiter := { cfg : Config; ents : entries }.

Definition New (c : Config) : Limiter := {| cfg := c; ents := ∅ |}.

Definition deleteExpired (c : Config) (now : Z) (m : entries) : entries :=
  filter (λ kv, ¬ IdleTimeout c ≤ time.Sub now (lastSeen kv.2)) m.

(** One iteration of the loop of [deleteOldest]. *)
Definition oldest_step (acc : Addr * Z) (kv : Addr * entry) : Addr * Z :=
  if IsValid acc.1 && negb (lastSeen kv.2 <? acc.2) then acc else (kv.1, lastSeen kv.2).

Definition deleteOldest (iter : entries → list (Addr * entry)) (m : entries) : entries :=
  let oldest := fold_left oldest_step (iter m) (AddrZero, 0) in
  if IsValid oldest.1 then delete oldest.1 m else m.

(** The token bucket of one client: refill by the elapsed time, then take one. *)
Definition take_token (c : Config) (current : entry) (now : Z) : bool * entry :=
  let elapsed := time.Seconds (time.Sub now (lastRefill current)) in
  let current :=
    if f_ltb (f_of_int 0) elapsed
    then {| tokens := f_min (f_of_int (Burst c))
                            (f_add (tokens current) (f_mul elapsed (ConnectionsPerSecond c)));
            lastRefill := now; lastSeen := lastSeen current |}
    else current in
  let current := {| tokens := tokens current; lastRefill := lastRefill current; lastSeen := now |} in
  if f_ltb (tokens current) (f_of_int 1) then (false, current)
  else (true, {| tokens := f_sub (tokens current) (f_of_int 1);
                 lastRefill := lastRefill current; lastSeen := lastSeen current |}).

Definition fresh (c : Config) (now : Z) : entry :=
  {| tokens := f_of_int (Burst c); lastRefill := now; lastSeen := 0 |}.

Definition allowAt (iter : entries → list (Addr * entry)) (l : Limiter) (addr : Addr) (now : Z)
    : bool * Limiter :=
  let c := cfg l in
  let m := deleteExpired c now (ents l) in
  let '(current, m) :=
    match m !! addr with
    | Some current => (current, m)
    | None =>
        let m := if MaxEntries c <=? Z.of_nat (size m) then deleteOldest iter m else m in
        (fresh c now, m)
    end in
  let '(ok, current) := take_token c current now in
  (ok, {| cfg := c; ents := <[addr := current]> m |}).

Definition Allow (iter : entries → list (Addr * entry)) (l : Limiter) (addr : Addr) (now : Z)
    : bool * Limiter :=
  if negb (Enabled (cfg l)) || negb (IsValid addr) then (negb (Enabled (cfg l)), l)
  else allowAt iter l (Unmap addr) now.

(** ** Sequences of calls *)

Record call := { c_iter : entries → list (Addr * entry); c_addr : Addr; c_now : Z }.

Definition step (l : Limiter) (k : call) : bool * Limiter :=
  Allow (c_iter k) l (c_addr k) (c_now k).

(** The answers and the limiter after a sequence of calls. *)
Fixpoint run (l : Limiter) (ks : list call) : list bool * Limiter :=
  match ks with
  | [] => ([], l)
  | k :: ks' => let '(ok, l') := step l k in
                let '(oks, l'') := run l' ks' in (ok :: oks, l'')
  end.

(** A Go map is iterated over each of its entries once, in any order. *)
Definition iterates (iter : entries → list (Addr * entry)) : Prop :=
  ∀ m, iter m ≡ₚ map_to_list m.

(** ** Invariant *)

(** The keys are valid addresses and there are no more of them than the limit
    (which the code raises to 1, since it always stores the entry it was asked
    about). *)
Definition bounded (l : Limiter) : Prop :=
  (∀ a e, ents l !! a = Some e → IsValid a = true) ∧
  Z.of_nat (size (ents l)) ≤ Z.max 1 (MaxEntries (cfg l)).

Lemma oldest_fold_found kvs acc :
  (∀ a e, (a, e) ∈ kvs → IsValid a = true) →
  let r := fold_left oldest_step kvs acc in
  (r = acc ∨ ∃ e, (r.1, e) ∈ kvs ∧ lastSeen e = r.2) ∧
  (IsValid acc.1 = true → r.2 ≤ acc.2) ∧
  (kvs ≠ [] ∨ IsValid acc.1 = true → IsValid r.1 = true) ∧
  ∀ a e, (a, e) ∈ kvs → r.2 ≤ lastSeen e.
Proof.
  revert acc. induction kvs as [|[a e] kvs IH]; intros acc Hv; cbn zeta.
  { split_and!; [by left | done | naive_solver | by intros ?? ?%elem_of_nil]. }
  cbn [fold_left].
  destruct (IH (oldest_step acc (a, e)) ltac:(intros; eapply Hv; by right)) as (H1 & H2 & H3 & H4).
  assert (IsValid a = true) as Ha by (eapply Hv; by left).
  assert (IsValid (oldest_step acc (a, e)).1 = true ∧ (oldest_step acc (a, e)).2 ≤ lastSeen e ∧
    (IsValid acc.1 = true → (oldest_step acc (a, e)).2 ≤ acc.2) ∧
    (oldest_step acc (a, e) = acc ∨ oldest_step acc (a, e) = (a, lastSeen e))) as (Hs1 & Hs2 & Hs3 & Hs4).
  { unfold oldest_step. cbn [fst snd]. destruct (IsValid acc.1) eqn:E; cbn [andb].
    - destruct (Z.ltb_spec (lastSeen e) acc.2); cbn; split_and!; auto; lia.
    - cbn. split_and!; auto; done || lia. }
  revert H1 H2 H3 H4. set (r := fold_left _ _ _). intros H1 H2 H3 H4. split_and!.
  - destruct H1 as [Hr|(e' & Hin & He)].
    + destruct Hs4 as [E|E]; rewrite E in Hr; [by left|]. right. exists e. rewrite Hr.
      split; [by left | done].
    + right. exists e'. split; [by right | done].
  - intros Hacc. specialize (H2 Hs1). specialize (Hs3 Hacc). lia.
  - intros _. auto.
  - intros b eb [[= -> ->]|Hin]%elem_of_cons; [specialize (H2 Hs1); lia | eauto].
Qed.

(** [deleteOldest] drops one entry, the one that was not seen for longest. *)
Lemma deleteOldest_spec iter m :
  iterates iter → (∀ a e, m !! a = Some e → IsValid a = true) → m ≠ ∅ →
  ∃ a e, m !! a = Some e ∧ deleteOldest iter m = delete a m ∧
         ∀ b e', m !! b = Some e' → lastSeen e ≤ lastSeen e'.
Proof.
  intros Hit Hv Hne. unfold deleteOldest.
  assert (∀ a e, (a, e) ∈ iter m ↔ m !! a = Some e) as Hin.
  { intros a e. by rewrite (Hit m), elem_of_map_to_list. }
  destruct (oldest_fold_found (iter m) (AddrZero, 0)) as (H1 & _ & H3 & H4).
  { intros a e ?%Hin. eauto. }
  set (r := fold_left _ _ _) in *.
  assert (IsValid r.1 = true) as Hr.
  { apply H3. left. intros E. apply Hne, map_to_list_empty_iff.
    pose proof (Hit m) as Hp. rewrite E in Hp. by apply Permutation_nil in Hp. }
  rewrite Hr. destruct H1 as [E|(e & He & Hl)]; [by rewrite E in Hr|].
  apply Hin in He. exists r.1, e. split_and!; [done..|].
  intros b e' Hb. rewrite Hl. by eapply H4, Hin.
Qed.

Lemma size_deleteExpired c now m : (size (deleteExpired c now m) ≤ size m)%nat.
Proof. apply map_size_filter. Qed.

Lemma deleteExpired_lookup c now m a e :
  deleteExpired c now m !! a = Some e ↔
    m !! a = Some e ∧ time.Sub now (lastSeen e) < IdleTimeout c.
Proof. unfold deleteExpired. rewrite map_lookup_filter_Some. cbn. by rewrite Z.nle_gt. Qed.

Lemma allowAt_bounded iter l addr now :
  iterates iter → IsValid addr = true → bounded l → bounded (allowAt iter l addr now).2.
Proof.
  intros Hit Ha [Hv Hs]. unfold allowAt. cbn zeta.
  set (m := deleteExpired _ _ _).
  assert (∀ a e, m !! a = Some e → IsValid a = true) as Hvm
    by (intros a e [? _]%deleteExpired_lookup; eauto).
  assert (size m ≤ size (ents l))%nat as Hsm by apply size_deleteExpired.
  destruct (m !! addr) as [cur|] eqn:El.
  - destruct (take_token _ _ _) as [ok e]. split; cbn [snd ents cfg].
    + intros a e' [[<- _]|[_ ?]]%lookup_insert_Some; eauto.
    + rewrite map_size_insert_Some by eauto. lia.
  - set (m' := if MaxEntries (cfg l) <=? Z.of_nat (size m) then deleteOldest iter m else m).
    assert (Z.of_nat (size m') + 1 ≤ Z.max 1 (MaxEntries (cfg l)) ∧
            ∀ a e, m' !! a = Some e → m !! a = Some e) as [Hm1 Hm2].
    { subst m'. destruct (Z.leb_spec (MaxEntries (cfg l)) (Z.of_nat (size m))); [|split; [lia|done]].
      destruct (decide (m = ∅)) as [E|Hne].
      - rewrite E in *. unfold deleteOldest. pose proof (Hit ∅) as Hp.
        rewrite map_to_list_empty in Hp. apply Permutation_nil_r in Hp. rewrite Hp. cbn.
        rewrite map_size_empty. split; [lia|done].
      - destruct (deleteOldest_spec iter m Hit Hvm Hne) as (b & eb & Hb & -> & _).
        rewrite map_size_delete_Some by eauto.
        assert (size m ≠ 0)%nat by (by rewrite map_size_ne_0_lookup; eauto).
        split; [lia|]. by intros a e [_ ?]%lookup_delete_Some. }
    destruct (take_token _ _ _) as [ok e]. split; cbn [snd ents cfg].
    + intros a e' [[<- _]|[_ ?]]%lookup_insert_Some; eauto.
    + pose proof (map_size_insert addr e m') as Hi.
      destruct (m' !! addr); cbn in Hi; lia.
Qed.

End limiter.

Arguments Config F : clear implicits.
Arguments entry F : clear implicits.
Arguments Limiter F : clear implicits.
Arguments call F : clear implicits.

End ratelimit.

(** ** Properties for every float arithmetic *)

Section properties.
Import ratelimit.
Context {F : Type} `{Float64 F}.

Lemma Unmap_valid a : IsValid (Unmap a) = IsValid a.
Proof. destruct a; cbn; [done..|]. by case_match. Qed.

Lemma cfg_step (l : Limiter F) k : cfg (step l k).2 = cfg l.
Proof.
  unfold step, Allow, allowAt. case_match; [done|]. cbn zeta. repeat case_match; done.
Qed.

Lemma step_bounded (l : Limiter F) k : iterates (c_iter k) → bounded l → bounded (step l k).2.
Proof.
  intros Hit Hb. unfold step, Allow.
  destruct (negb (Enabled _)); [done|]. destruct (IsValid (c_addr k)) eqn:E; [|done].
  cbn [negb orb]. apply allowAt_bounded; [done| |done]. by rewrite Unmap_valid.
Qed.

Lemma New_bounded (c : Config F) : bounded (New c).
Proof. split; cbn; [intros a e; by rewrite lookup_empty | rewrite map_size_empty; lia]. Qed.

Lemma run_bounded (l : Limiter F) ks :
  Forall (λ k, iterates (c_iter k)) ks → bounded l → bounded (run l ks).2.
Proof.
  revert l. induction ks as [|k ks IH]; intros l Hks Hb; [done|].
  apply Forall_cons in Hks as [Hk Hks]. cbn [run].
  pose proof (step_bounded l k Hk Hb) as Hb'. destruct (step l k) as [ok l'].
  specialize (IH l' Hks Hb'). by destruct (run l' ks).
Qed.

(** However many clients connect, in whatever order and from whatever
    addresses, the limiter never holds more than [MaxEntries] buckets (one, if the
    limit is not positive), and all of them belong to valid addresses. *)
Theorem entries_bounded (c : Config F) ks :
  Forall (λ k, iterates (c_iter k)) ks → bounded (run (New c) ks).2.
Proof. intros. apply run_bounded; [done | apply New_bounded]. Qed.

(** What one call does to the bucket of another client: nothing, unless the
    bucket idled out, or the map was full and nobody had been idle for longer. *)
Definition dropped_only_if_idle (l : Limiter F) (k : call F) (b : Addr) (e : entry F) : Prop :=
  IdleTimeout (cfg l) ≤ time.Sub (c_now k) (lastSeen e) ∨
  MaxEntries (cfg l) ≤ Z.of_nat (size (ents l)) ∧
    ∀ b' e', deleteExpired (cfg l) (c_now k) (ents l) !! b' = Some e' → lastSeen e ≤ lastSeen e'.

Lemma step_other (l : Limiter F) k b e :
  iterates (c_iter k) → bounded l → b ≠ Unmap (c_addr k) → ents l !! b = Some e →
  ents (step l k).2 !! b = Some e ∨
  ents (step l k).2 !! b = None ∧ dropped_only_if_idle l k b e.
Proof.
  intros Hit [Hv _] Hne Hb. unfold step, Allow. case_match; [by left|].
  unfold allowAt. cbn zeta. set (m := deleteExpired _ _ _).
  destruct (decide (IdleTimeout (cfg l) ≤ time.Sub (c_now k) (lastSeen e))) as [Hi|Hi].
  - right. assert (m !! b = None) as Hm.
    { apply eq_None_not_Some. intros [e' [E ?]%deleteExpired_lookup].
      assert (e' = e) as -> by congruence. lia. }
    split; [|by left]. destruct (m !! Unmap _); [|].
    + destruct (take_token _ _ _). cbn. by rewrite lookup_insert_ne.
    + destruct (take_token _ _ _). cbn. rewrite lookup_insert_ne by done.
      case_match; [|done]. unfold deleteOldest. case_match; [|done].
      apply lookup_delete_None. by right.
  - assert (m !! b = Some e) as Hm by (apply deleteExpired_lookup; split; [done|lia]).
    destruct (m !! Unmap _); [|].
    + left. destruct (take_token _ _ _). cbn. by rewrite lookup_insert_ne.
    + destruct (take_token _ _ _). cbn. rewrite !lookup_insert_ne by done.
      destruct (Z.leb_spec (MaxEntries (cfg l)) (Z.of_nat (size m))) as [Hle|]; [|by left].
      destruct (deleteOldest_spec (c_iter k) m Hit) as (a & ea & Ha & -> & Hmin).
      { intros a' e' [? _]%deleteExpired_lookup. eauto. }
      { intros E. by rewrite E, lookup_empty in Hm. }
      destruct (decide (a = b)) as [->|Hab].
      * right. split; [by apply lookup_delete_None; left|]. right.
        pose proof (size_deleteExpired (cfg l) (c_now k) (ents l)) as Hsz. fold m in Hsz.
        split; [lia|]. intros b' e' Hb'. assert (ea = e) as -> by congruence. eauto.
      * left. by rewrite lookup_delete_ne.
Qed.

(** A call for one client gives no bucket to another. *)
Lemma step_absent (l : Limiter F) k b :
  b ≠ Unmap (c_addr k) → ents l !! b = None → ents (step l k).2 !! b = None.
Proof.
  intros Hne Hb. unfold step, Allow. case_match; [done|]. unfold allowAt. cbn zeta. set (m := deleteExpired _ _ _).
  assert (m !! b = None) as Hm.
  { apply eq_None_not_Some. intros [e' [E ?]%deleteExpired_lookup]. congruence. }
  destruct (m !! Unmap _); destruct (take_token _ _ _); cbn; rewrite lookup_insert_ne by done; [done|].
  case_match; [|done]. unfold deleteOldest. case_match; [|done]. apply lookup_delete_None. by right.
Qed.

(** A call for one client never changes the bucket of another: it stays as it
    is, or is dropped because it idled out or because the map was full and no
    other bucket had been idle for longer. *)
Theorem clients_isolated (l : Limiter F) k b e :
  iterates (c_iter k) → bounded l → b ≠ Unmap (c_addr k) → ents l !! b = Some e →
  ents (step l k).2 !! b = Some e ∨
  ents (step l k).2 !! b = None ∧ dropped_only_if_idle l k b e.
Proof. apply step_other. Qed.

End properties.

(** ** Properties at exact arithmetic *)

Section exact_properties.
Import ratelimit.
Open Scope Q_scope.

Abbreviation Cfg := (Config Q).

Lemma Seconds_exact (d : Z) : time.Seconds d == inject_Z d / inject_Z time.Second.
Proof.
  unfold time.Seconds. cbn [f_add f_div f_of_int exact].
  rewrite (Z.quot_rem d time.Second) at 3 by done.
  rewrite inject_Z_plus, inject_Z_mult. field. done.
Qed.

Lemma Sub_le now u : (u ≤ now)%Z → (0 ≤ time.Sub now u ≤ now - u)%Z.
Proof. unfold time.Sub, time.minDuration, time.maxDuration. lia. Qed.

(** The tokens a bucket may gain in [d] nanoseconds. *)
Definition gain (c : Cfg) (d : Z) : Q := ConnectionsPerSecond c * (inject_Z d / inject_Z time.Second).

Lemma gain_0 c : gain c 0 == 0.
Proof. unfold gain. field. done. Qed.

Lemma gain_add c d d' : gain c (d + d') == gain c d + gain c d'.
Proof. unfold gain. rewrite inject_Z_plus. field. done. Qed.

Lemma gain_mono c d d' : 0 <= ConnectionsPerSecond c → (d ≤ d')%Z → gain c d <= gain c d'.
Proof.
  intros Hr Hd. unfold gain. rewrite (Qmult_comm _ (_ / _)), (Qmult_comm _ (inject_Z d' / _)).
  apply Qmult_le_compat_r; [|done]. unfold Qdiv. apply Qmult_le_compat_r; [|done].
  by rewrite <- Zle_Qle.
Qed.

Lemma Qle_bool_false x y : Qle_bool x y = false → y < x.
Proof. intros E. apply Qnot_le_lt. intros Hle. apply Qle_bool_iff in Hle. congruence. Qed.

(** One use of a bucket: what it costs, what it gains, what is left. *)
Lemma take_token_exact (c : Cfg) e now ok e' :
  take_token c e now = (ok, e') → (lastRefill e ≤ now)%Z →
  0 <= ConnectionsPerSecond c → 0 <= inject_Z (Burst c) → 0 <= tokens e →
  lastRefill e' = now ∧ 0 <= tokens e' ∧
  tokens e' + inject_Z (Z.b2z ok) <= tokens e + gain c (now - lastRefill e) ∧
  (tokens e <= inject_Z (Burst c) → tokens e' <= inject_Z (Burst c)).
Proof.
  intros H Ht Hr HB Htok. pose proof (Sub_le now (lastRefill e) Ht) as Hs.
  pose proof (gain_mono c _ _ Hr (proj2 Hs)) as Hg.
  pose proof (gain_mono c 0 _ Hr (proj1 Hs)) as Hg0. rewrite gain_0 in Hg0.
  unfold take_token in H. cbn zeta in H. cbn [f_ltb f_min f_of_int f_add f_mul f_sub exact] in H.
  destruct (Qle_bool (time.Seconds _) _) eqn:E; cbn [negb] in H.
  - (* no time has passed *)
    apply Qle_bool_iff in E. rewrite Seconds_exact in E.
    assert (now = lastRefill e) as ->.
    { destruct (Z.eq_dec now (lastRefill e)); [done|]. exfalso.
      assert (0 < time.Sub now (lastRefill e))%Z as Hp.
      { unfold time.Sub, time.minDuration, time.maxDuration. lia. }
      apply (Qle_not_lt _ _ E). apply Qlt_shift_div_l; [done|]. rewrite Qmult_0_l.
      by rewrite (Zlt_Qlt 0) in Hp. }
    cbn [tokens lastRefill lastSeen] in H.
    destruct (Qle_bool _ (tokens e)) eqn:E2; cbn [negb] in H; injection H as <- <-;
      cbn [tokens lastRefill Z.b2z]; (split_and!; [done|..]);
      [apply Qle_bool_iff in E2 | apply Qle_bool_iff in E2 | intros; apply Qle_bool_iff in E2 | ..];
      change (inject_Z 1) with 1 in *; change (inject_Z 0) with 0 in *; try lra.
  - cbn [tokens lastRefill lastSeen] in H.
    set (t := if Qle_bool (inject_Z (Burst c)) _ then _ else _) in H.
    assert (0 <= t ∧ t <= inject_Z (Burst c) ∧ t <= tokens e + gain c (now - lastRefill e)) as (H1 & H2 & H3).
    { assert (time.Seconds (time.Sub now (lastRefill e)) * ConnectionsPerSecond c
              == gain c (time.Sub now (lastRefill e))) as Eg.
      { rewrite Seconds_exact. unfold gain. ring. }
      subst t. destruct (Qle_bool (inject_Z (Burst c)) _) eqn:E2;
        [apply Qle_bool_iff in E2 | apply Qle_bool_false in E2]; rewrite Eg in *; split_and!; lra. }
    clearbody t.
    destruct (Qle_bool _ t) eqn:E2; cbn [negb] in H; injection H as <- <-;
      cbn [tokens lastRefill Z.b2z]; (split_and!; [done|..]);
      [apply Qle_bool_iff in E2 | apply Qle_bool_iff in E2 | intros; apply Qle_bool_iff in E2 | ..];
      change (inject_Z 1) with 1 in *; change (inject_Z 0) with 0 in *; try lra.
Qed.

(** The calls come at times that do not go back, from [t0] to [t1]. *)
Fixpoint monotone (t0 : Z) (ks : list (call Q)) (t1 : Z) : Prop :=
  match ks with
  | [] => (t0 ≤ t1)%Z
  | k :: ks' => (t0 ≤ c_now k)%Z ∧ monotone (c_now k) ks' t1
  end.

(** How many connections of [a] were admitted. *)
Fixpoint admitted (a : Addr) (l : Limiter Q) (ks : list (call Q)) : Z :=
  match ks with
  | [] => 0%Z
  | k :: ks' =>
      (Z.b2z (bool_decide (Unmap (c_addr k) = a) && (step l k).1) + admitted a (step l k).2 ks')%Z
  end.

(** How often a call for [a] found no bucket, and was given a fresh one: at first, and
    each time the bucket had idled out or had been evicted. *)
Fixpoint created (a : Addr) (l : Limiter Q) (ks : list (call Q)) : Z :=
  match ks with
  | [] => 0%Z
  | k :: ks' =>
      (Z.b2z (bool_decide (Unmap (c_addr k) = a) &&
              bool_decide (deleteExpired (cfg l) (c_now k) (ents l) !! a = None)) +
       created a (step l k).2 ks')%Z
  end.

Lemma monotone_le t0 ks t1 : monotone t0 ks t1 → (t0 ≤ t1)%Z.
Proof.
  revert t0. induction ks as [|k ks IH]; intros t0; cbn; [done|].
  intros [? ?%IH]. lia.
Qed.

(** A call for [a] itself uses its bucket, or a fresh one. *)
Lemma step_own (l : Limiter Q) k :
  Enabled (cfg l) = true → IsValid (c_addr k) = true →
  ∃ e', take_token (cfg l) (default (fresh (cfg l) (c_now k))
          (deleteExpired (cfg l) (c_now k) (ents l) !! Unmap (c_addr k))) (c_now k) = ((step l k).1, e') ∧
        ents (step l k).2 !! Unmap (c_addr k) = Some e'.
Proof.
  intros He Hv. unfold step, Allow. rewrite He, Hv. cbn [negb orb]. unfold allowAt. cbn zeta.
  destruct (deleteExpired _ _ _ !! _) as [e|]; cbn [from_option id]; destruct (take_token _ _ _) as [ok e'];
    (exists e'; cbn; split; [done|]; apply lookup_insert_eq).
Qed.

(** What a client may still be admitted for up to [t1] if it gets no fresh bucket after
    [now]: its tokens, and what is gained from the last refill; with no bucket, what a
    bucket created now would gain. *)
Definition credit (l : Limiter Q) (a : Addr) (now t1 : Z) : Q :=
  match ents l !! a with
  | Some e => tokens e + gain (cfg l) (t1 - lastRefill e)
  | None => gain (cfg l) (t1 - now)
  end.

(** A bucket holds no debt and was not refilled in the future. *)
Definition sound (l : Limiter Q) (a : Addr) (now : Z) : Prop :=
  ∀ e, ents l !! a = Some e → 0 <= tokens e ∧ (lastRefill e ≤ now)%Z.

(** The credit does not grow with time, nor when the bucket is dropped. *)
Lemma credit_later l a now now' t1 :
  0 <= ConnectionsPerSecond (cfg l) → sound l a now → (now ≤ now')%Z →
  gain (cfg l) (t1 - now') <= credit l a now t1.
Proof.
  intros Hr Hs Hle. unfold credit, sound in *. destruct (ents l !! a) as [e|].
  - destruct (Hs e eq_refl). pose proof (gain_mono (cfg l) (t1 - now') (t1 - lastRefill e) Hr ltac:(lia)). lra.
  - apply gain_mono; [done|lia].
Qed.

(** A call of another client leaves the credit as it is, or less. *)
Lemma credit_other l k a now t1 :
  iterates (c_iter k) → bounded l → a ≠ Unmap (c_addr k) → 0 <= ConnectionsPerSecond (cfg l) →
  sound l a now → (now ≤ c_now k)%Z →
  sound (step l k).2 a (c_now k) ∧ credit (step l k).2 a (c_now k) t1 <= credit l a now t1.
Proof.
  intros Hit Hb Hne Hr Hs Hle. pose proof (credit_later l a now (c_now k) t1 Hr Hs Hle) as Hl.
  unfold sound, credit in *. rewrite cfg_step. destruct (ents l !! a) as [e|] eqn:E.
  - destruct (Hs e eq_refl) as [Ht Hle'].
    destruct (step_other l k a e Hit Hb Hne E) as [->|[-> _]]; split; try done; try lra.
    intros e' [= <-]. split; [done|lia].
  - by rewrite (step_absent l k a Hne E).
Qed.

(** A call of the client itself pays for its admission from its credit, or from the
    burst of a fresh bucket. *)
Lemma credit_own l k now t1 :
  Enabled (cfg l) = true → IsValid (c_addr k) = true → 0 <= ConnectionsPerSecond (cfg l) →
  0 <= inject_Z (Burst (cfg l)) → (now ≤ c_now k)%Z → sound l (Unmap (c_addr k)) now →
  sound (step l k).2 (Unmap (c_addr k)) (c_now k) ∧
  inject_Z (Z.b2z (step l k).1) + credit (step l k).2 (Unmap (c_addr k)) (c_now k) t1 <=
    inject_Z (Burst (cfg l)) * inject_Z (Z.b2z (bool_decide
      (deleteExpired (cfg l) (c_now k) (ents l) !! Unmap (c_addr k) = None))) +
    credit l (Unmap (c_addr k)) now t1.
Proof.
  intros Hen Hv Hr HB Hle Hs. pose proof (credit_later l _ now (c_now k) t1 Hr Hs Hle) as Hl.
  destruct (step_own l k Hen Hv) as (e' & Ht & He'). set (a := Unmap (c_addr k)) in *.
  destruct (deleteExpired _ _ _ !! a) as [e|] eqn:Ed; cbn [from_option id] in Ht.
  - apply deleteExpired_lookup in Ed as [Ed _]. destruct (Hs e Ed) as [H0 H1].
    apply take_token_exact in Ht as (H2 & H3 & H4 & _); [|lia|done..].
    unfold sound, credit. rewrite He', Ed, cfg_step, bool_decide_false by done. cbn [Z.b2z].
    split; [intros ? [= <-]; split; [done|lia]|].
    replace (t1 - lastRefill e)%Z with ((t1 - lastRefill e') + (lastRefill e' - lastRefill e))%Z by lia.
    rewrite gain_add, H2 in *. change (inject_Z 0) with 0. lra.
  - apply take_token_exact in Ht as (H2 & H3 & H4 & _); [|cbn; lia|done..].
    unfold sound. unfold credit at 1. rewrite He', cfg_step, bool_decide_true by done. cbn [Z.b2z].
    split; [intros ? [= <-]; split; [done|lia]|].
    rewrite H2. cbn [fresh tokens lastRefill f_of_int exact] in H4. rewrite Z.sub_diag, gain_0 in H4.
    change (inject_Z 1) with 1. lra.
Qed.

Lemma rate_bound ks : ∀ (l : Limiter Q) a t0 t1,
  Forall (λ k, iterates (c_iter k)) ks → bounded l → IsValid a = true →
  Enabled (cfg l) = true → 0 <= ConnectionsPerSecond (cfg l) → 0 <= inject_Z (Burst (cfg l)) →
  sound l a t0 → monotone t0 ks t1 →
  inject_Z (admitted a l ks) <= inject_Z (Burst (cfg l)) * inject_Z (created a l ks) + credit l a t0 t1.
Proof.
  induction ks as [|k ks IH]; intros l a t0 t1 Hit Hb Ha Hen Hr HB Hs Hm.
  { cbn in Hm. cbn [admitted created]. change (inject_Z 0) with 0.
    pose proof (credit_later l a t0 t1 t1 Hr Hs Hm) as Hc. rewrite Z.sub_diag, gain_0 in Hc. lra. }
  apply Forall_cons in Hit as [Hitk Hit]. destruct Hm as [Hm1 Hm2]. cbn [admitted created].
  pose proof (step_bounded l k Hitk Hb) as Hb'. pose proof (cfg_step l k) as Hc.
  specialize (IH (step l k).2 a (c_now k) t1 Hit Hb' Ha). rewrite Hc in IH.
  rewrite !inject_Z_plus. destruct (decide (Unmap (c_addr k) = a)) as [Eq|Hne].
  - subst a. rewrite bool_decide_true by done. cbn [andb]. rewrite Unmap_valid in Ha.
    destruct (credit_own l k t0 t1 Hen Ha Hr HB Hm1 Hs) as [Hs' Hcr]. specialize (IH Hen Hr HB Hs' Hm2). lra.
  - rewrite bool_decide_false by done. cbn [andb Z.b2z]. change (inject_Z 0) with 0.
    destruct (credit_other l k a t0 t1 Hitk Hb (not_eq_sym Hne) Hr Hs Hm1) as [Hs' Hcr].
    specialize (IH Hen Hr HB Hs' Hm2). lra.
Qed.


Definition sample_config : Cfg :=
  {| Enabled := true; ConnectionsPerSecond := 2; Burst := 3; IdleTimeout := 60 * time.Second;
     MaxEntries := 2 |}.
Definition sample_call (t : Z) : call Q :=
  {| c_iter := map_to_list; c_addr := V4 7; c_now := t |}.
Definition sample_limiter : Limiter Q := (run (New sample_config) [sample_call 0]).2.

Lemma map_to_list_iterates : iterates (F := Q) map_to_list.
Proof. by intros m. Qed.

Lemma sample_limiter_bounded : bounded sample_limiter.
Proof.
  apply run_bounded; [|apply New_bounded]. constructor; [apply map_to_list_iterates | constructor].
Qed.


(** A client is never locked out: once enough time for one token has passed
    since its last refill, its next connection is admitted, in whatever state its
    bucket is; and a client without a bucket is admitted at once. *)
Theorem client_admitted_again (l : Limiter Q) k :
  Enabled (cfg l) = true → IsValid (c_addr k) = true → (1 ≤ Burst (cfg l))%Z →
  0 <= ConnectionsPerSecond (cfg l) →
  (∀ e, ents l !! Unmap (c_addr k) = Some e →
     0 <= tokens e ∧ 1 <= gain (cfg l) (time.Sub (c_now k) (lastRefill e))) →
  (step l k).1 = true.
Proof.
  intros Hen Hv HB Hr He.
  assert (1 <= inject_Z (Burst (cfg l))) as HB1 by (change 1 with (inject_Z 1); by rewrite <- Zle_Qle).
  assert (∀ e, 1 <= inject_Z (Burst (cfg l)) →
    (0 <= tokens e ∧ 1 <= gain (cfg l) (time.Sub (c_now k) (lastRefill e))) ∨
    e = fresh (cfg l) (c_now k) → (take_token (cfg l) e (c_now k)).1 = true) as Htake.
  { intros e _ Hcase. unfold take_token. cbn zeta. cbn [f_ltb f_min f_of_int f_add f_mul f_sub exact].
    assert (∀ x, 1 <= x → Qle_bool (inject_Z 1) x = true) as H1 by (intros; by apply Qle_bool_iff).
    destruct Hcase as [[Ht Hg]| ->].
    - assert (time.Seconds (time.Sub (c_now k) (lastRefill e)) * ConnectionsPerSecond (cfg l)
              == gain (cfg l) (time.Sub (c_now k) (lastRefill e))) as Eg.
      { rewrite Seconds_exact. unfold gain. ring. }
      destruct (Qle_bool (time.Seconds _) _) eqn:E; cbn [negb tokens].
      + exfalso. apply Qle_bool_iff in E. change (inject_Z 0) with 0 in E.
        assert (time.Seconds (time.Sub (c_now k) (lastRefill e)) * ConnectionsPerSecond (cfg l) <= 0 * ConnectionsPerSecond (cfg l))
          by by apply Qmult_le_compat_r. lra.
      + rewrite H1; [done|]. case_match; [done|]. rewrite Eg. lra.
    - cbn [fresh lastRefill tokens]. unfold time.Sub. rewrite Z.sub_diag.
      change (Qle_bool (time.Seconds _) _) with true. cbn [negb tokens]. by rewrite H1. }
  unfold step, Allow. rewrite Hen, Hv. cbn [negb orb]. unfold allowAt. cbn zeta.
  destruct (deleteExpired _ _ _ !! _) as [e|] eqn:Em.
  - specialize (Htake e HB1). destruct (take_token _ _ _). cbn in *. apply Htake. left.
    apply deleteExpired_lookup in Em as [? _]. eauto.
  - specialize (Htake _ HB1 (or_intror eq_refl)). by destruct (take_token _ _ _).
Qed.

Lemma client_admitted_again_witness :
  (step sample_limiter (sample_call time.Second)).1 = true.
Proof.
  apply (client_admitted_again sample_limiter (sample_call time.Second)).
  - reflexivity.
  - reflexivity.
  - vm_compute. discriminate.
  - vm_compute. discriminate.
  - intros e He. vm_compute in He. injection He as <-. split; vm_compute; discriminate.
Defined.

End exact_properties.

(** ** The same code at IEEE binary64 *)

Section binary64_runs.
Import ratelimit.

Definition config64 : Config spec_float :=
  {| Enabled := true; ConnectionsPerSecond := f_of_int 2; Burst := 3;
     IdleTimeout := 60 * time.Second; MaxEntries := 2 |}.
Definition call64 (a t : Z) : call spec_float :=
  {| c_iter := map_to_list; c_addr := V4 a; c_now := t |}.

(** The burst at once, then a refusal, then one more after half a second; the
    third client evicts the one that was seen least recently. *)
Example binary64_burst :
  (run (New config64) [call64 1 0; call64 1 0; call64 1 0; call64 1 0; call64 1 500000000;
                       call64 1 500000001]).1 = [true; true; true; false; true; false].
Proof. vm_compute. reflexivity. Qed.

Example binary64_evicts :
  (map_to_list (ents (run (New config64) [call64 1 10; call64 2 20; call64 3 30]).2)).*1
    ≡ₚ [V4 2; V4 3].
Proof. apply (bool_decide_unpack _). vm_compute. exact I. Qed.

Lemma entries_bounded_witness :
  (Z.of_nat (size (ents (run (New config64) [call64 1 10; call64 2 20; call64 3 30]).2)) ≤ 2)%Z.
Proof.
  destruct (entries_bounded config64 [call64 1 10; call64 2 20; call64 3 30]) as [_ H].
  - repeat constructor; by intros m.
  - etransitivity; [exact H | vm_compute; discriminate].
Defined.

Lemma clients_isolated_witness :
  ents (step (run (New config64) [call64 1 10; call64 2 20]).2 (call64 3 30)).2 !! V4 2 =
  ents (run (New config64) [call64 1 10; call64 2 20]).2 !! V4 2.
Proof.
  set (l := (run (New config64) [call64 1 10; call64 2 20]).2).
  assert (bounded l) as Hb.
  { apply run_bounded; [repeat constructor; by intros m | apply New_bounded]. }
  destruct (ents l !! V4 2) as [e|] eqn:E; [|by vm_compute in E].
  destruct (clients_isolated l (call64 3 30) (V4 2) e) as [H|[H _]];
    [by intros m | exact Hb | done | exact E | exact H | by vm_compute in H].
Defined.

End binary64_runs.
