(* ===== verification/Scaler.v ===== *)
(** * The scaler webhook ([internal/scaler])

    Before a backend is dialled its name may be sent to a webhook, so that a backend that
    was scaled down is started. The HTTP client is outside: [new_request] is the error of
    [http.NewRequestWithContext], and [do] what sending a request gives. A header is a map
    from canonical names, as [http.Header.Set] keeps it. *)
From S2P Require Import Prelude GoUnicode GoStrings GoNet GoIO GoJson HostAddr McProto.
Import gostrings.
Open Scope Z_scope.

Module scaler.

Record Config := {
  Enabled : bool;
  URL : bytes;
  Timeout : Z;
  Headers : gmap bytes bytes
}.

Record Event := { Backend : bytes; ServerAddress : bytes; NextState : Z }.

(** A byte that may occur in the name of a header. *)
Definition validHeaderFieldByte (c : byte) : bool :=
  ((0x30 <=? bv c) && (bv c <=? 0x39)) || ((0x41 <=? bv c) && (bv c <=? 0x5A)) ||
  ((0x61 <=? bv c) && (bv c <=? 0x7A)) || existsb (Byte.eqb c) gs"!#$%&'*+-.^_`|~".

(** [textproto.CanonicalMIMEHeaderKey]: upper case at the start and after a hyphen, lower
    case elsewhere; a name with other bytes stays as it is. *)
Fixpoint canonical_from (upper : bool) (s : bytes) : bytes :=
  match s with
  | [] => []
  | c :: t =>
      (if upper && (0x61 <=? bv c) && (bv c <=? 0x7A) then bz (bv c - 32)
       else if negb upper && (0x41 <=? bv c) && (bv c <=? 0x5A) then bz (bv c + 32)
       else c) :: canonical_from (bv c =? 0x2D) t
  end.

Definition CanonicalHeaderKey (s : bytes) : bytes :=
  if forallb validHeaderFieldByte s then canonical_from true s else s.

Definition header : Type := gmap bytes bytes.

Definition Set_ (h : header) (name value : bytes) : header := <[CanonicalHeaderKey name := value]> h.

(** [json.Marshal] of the event. *)
Definition body_of (e : Event) : bytes :=
  object [(gs"backend", json.String (Backend e)); (gs"serverAddress", json.String (ServerAddress e));
          (gs"nextState", json.Int (NextState e))].

Record request := { rq_url : bytes; rq_header : header; rq_body : bytes }.

(** The headers: the content type, then the configured ones in the order of the visit. *)
Definition headers_of (visit : list (bytes * bytes)) : header :=
  fold_left (λ h kv, Set_ h kv.1 kv.2) visit (Set_ ∅ gs"Content-Type" gs"application/json").

(** [http.StatusText]: the reason phrase of a status code, empty for an unknown code. *)
Definition status_texts : list (Z * string) := [
  (100, "Continue"); (101, "Switching Protocols"); (102, "Processing"); (103, "Early Hints"); (200, "OK");
  (201, "Created"); (202, "Accepted"); (203, "Non-Authoritative Information"); (204, "No Content");
  (205, "Reset Content"); (206, "Partial Content"); (207, "Multi-Status"); (208, "Already Reported");
  (226, "IM Used"); (300, "Multiple Choices"); (301, "Moved Permanently"); (302, "Found");
  (303, "See Other"); (304, "Not Modified"); (305, "Use Proxy"); (307, "Temporary Redirect");
  (308, "Permanent Redirect"); (400, "Bad Request"); (401, "Unauthorized"); (402, "Payment Required");
  (403, "Forbidden"); (404, "Not Found"); (405, "Method Not Allowed"); (406, "Not Acceptable");
  (407, "Proxy Authentication Required"); (408, "Request Timeout"); (409, "Conflict"); (410, "Gone");
  (411, "Length Required"); (412, "Precondition Failed"); (413, "Request Entity Too Large");
  (414, "Request URI Too Long"); (415, "Unsupported Media Type"); (416, "Requested Range Not Satisfiable");
  (417, "Expectation Failed"); (418, "I'm a teapot"); (421, "Misdirected Request");
  (422, "Unprocessable Entity"); (423, "Locked"); (424, "Failed Dependency"); (425, "Too Early");
  (426, "Upgrade Required"); (428, "Precondition Required"); (429, "Too Many Requests");
  (431, "Request Header Fields Too Large"); (451, "Unavailable For Legal Reasons");
  (500, "Internal Server Error"); (501, "Not Implemented"); (502, "Bad Gateway");
  (503, "Service Unavailable"); (504, "Gateway Timeout"); (505, "HTTP Version Not Supported");
  (506, "Variant Also Negotiates"); (507, "Insufficient Storage"); (508, "Loop Detected");
  (510, "Not Extended"); (511, "Network Authentication Required")]%string.

Definition StatusText (code : Z) : string :=
  match list_find (λ ct, ct.1 = code) status_texts with Some (_, ct) => ct.2 | None => "" end.

(** The error of a status: a [statusError], whose message is the reason phrase. *)
Definition statusError (code : Z) : error := errors_New (StatusText code).

(** A client keeps its configuration; its HTTP client has the configured timeout. *)
Record Client := { client_config : Config; client_timeout : Z }.

Definition New (c : Config) : Client := {| client_config := c; client_timeout := Timeout c |}.

(** [Notify]: the error, and the request that was sent. [visit] is the order in which the
    configured headers are visited; [do] is given the timeout of the HTTP client. *)
Definition Notify (cl : Client) (visit : list (bytes * bytes)) (new_request : option error)
    (do : Z → request → res Z) (e : Event) : option error * option request :=
  if negb (Enabled (client_config cl)) then (None, None)
  else match new_request with
  | Some err => (Some err, None)
  | None =>
      let rq := {| rq_url := URL (client_config cl); rq_header := headers_of visit; rq_body := body_of e |} in
      match do (client_timeout cl) rq with
      | Err err => (Some err, Some rq)
      | Ok status =>
          if (status <? 200) || (300 <=? status) then (Some (statusError status), Some rq) else (None, Some rq)
      end
  end.

End scaler.

(** ** Lemmas *)

Section lemmas.
Import scaler.

Lemma headers_fold (l : list (bytes * bytes)) h k :
  NoDup (CanonicalHeaderKey <$> l.*1) →
  fold_left (λ h kv, Set_ h kv.1 kv.2) l h !! k =
    match list_find (λ kv, CanonicalHeaderKey kv.1 = k) l with
    | Some (_, kv) => Some kv.2
    | None => h !! k
    end.
Proof.
  revert h. induction l as [|[n v] l IH]; intros h Hnd; [done|]. cbn in Hnd |- *. apply NoDup_cons in Hnd as [Hn Hnd].
  rewrite IH by done. destruct (decide (CanonicalHeaderKey n = k)) as [E|E].
  - destruct (list_find _ l) as [[i [n' v']]|] eqn:Ef.
    + exfalso. apply list_find_Some in Ef as (Hi & E' & _). apply Hn. rewrite E. cbn in E'. rewrite <- E'.
      rewrite <- list_fmap_compose. apply list_elem_of_fmap. exists (n', v'). split; [done|]. by eapply list_elem_of_lookup_2.
    + subst k. apply lookup_insert_eq.
  - destruct (list_find _ l) as [[i kv]|]; [done|]. by apply lookup_insert_ne.
Qed.

Lemma body_valid e : - 10 ^ 19 < NextState e < 10 ^ 19 → jsonscan.Valid (body_of e) = true.
Proof.
  intros Hn. apply (value_Valid (1 + 0)); [unfold jsonscan.maxNestingDepth; lia|].
  pose proof String_value. pose proof Int_value. apply object_value; [lia|done|].
  repeat (apply Forall_cons_2; [apply member_ok_plain; [auto|reflexivity]|]). apply Forall_nil_2.
Qed.

(** A header that is configured is found under its canonical name. *)
Lemma headers_configured visit name v :
  NoDup (CanonicalHeaderKey <$> visit.*1) → (name, v) ∈ visit →
  headers_of visit !! CanonicalHeaderKey name = Some v.
Proof.
  intros Hnd Hin. unfold headers_of. rewrite headers_fold by done.
  apply list_elem_of_lookup in Hin as [i Hi].
  destruct (list_find _ visit) as [[j [n' v']]|] eqn:Ef.
  - apply list_find_Some in Ef as (Hj & E & _). cbn in E |- *. f_equal.
    assert (i = j) as <-; [|congruence].
    eapply (NoDup_lookup _ i j (CanonicalHeaderKey name)); [exact Hnd|..].
    + by rewrite !list_lookup_fmap, Hi.
    + rewrite !list_lookup_fmap, Hj. cbn. by rewrite E.
  - apply list_find_None in Ef. rewrite Forall_forall in Ef. destruct (Ef (name, v)); [|done].
    by eapply list_elem_of_lookup_2.
Qed.

(** A header that is not configured is the one set first. *)
Lemma headers_default visit k :
  NoDup (CanonicalHeaderKey <$> visit.*1) → Forall (λ kv, CanonicalHeaderKey kv.1 ≠ k) visit →
  headers_of visit !! k = Set_ ∅ gs"Content-Type" gs"application/json" !! k.
Proof.
  intros Hnd Hall. unfold headers_of. rewrite headers_fold by done.
  by rewrite (proj2 (list_find_None _ visit) Hall).
Qed.

End lemmas.

(** ** Properties *)

Section properties.
Import scaler.

(** What [Notify] does. Disabled, it sends nothing and succeeds. Enabled, it succeeds
    exactly if the request could be built, was answered within the client's timeout, and
    the status is between 200 and 299; a request that is sent goes to the configured URL,
    its body is one JSON value, every configured header has its value under its canonical
    name - whatever the order in which the map is visited, provided no two names have the
    same canonical form -, and the content type is JSON unless it is configured. *)
Theorem notify_exact c visit new_request do e err rq :
  - 2 ^ 31 ≤ NextState e < 2 ^ 31 →
  visit ≡ₚ map_to_list (Headers c) → NoDup (CanonicalHeaderKey <$> visit.*1) →
  Notify (New c) visit new_request do e = (err, rq) →
  (Enabled c = false → err = None ∧ rq = None) ∧
  (Enabled c = true →
     (err = None ↔ new_request = None ∧
        ∃ r status, rq = Some r ∧ do (Timeout c) r = Ok status ∧ 200 ≤ status < 300) ∧
     (rq = None ↔ ∃ e', new_request = Some e' ∧ err = Some e') ∧
     ∀ r, rq = Some r →
       rq_url r = URL c ∧ jsonscan.Valid (rq_body r) = true ∧
       (∀ name v, Headers c !! name = Some v → rq_header r !! CanonicalHeaderKey name = Some v) ∧
       ((∀ name v, Headers c !! name = Some v → CanonicalHeaderKey name ≠ gs"Content-Type") →
          rq_header r !! gs"Content-Type" = Some gs"application/json")).
Proof.
  intros Hn Hv Hnd HN. unfold Notify in HN. cbn [New client_config client_timeout] in HN.
  split; intros He; rewrite He in HN; cbn [negb] in HN; [by simplify_eq|].
  assert (∀ name v, Headers c !! name = Some v ↔ (name, v) ∈ visit) as Hin.
  { intros name v. by rewrite Hv, elem_of_map_to_list. }
  destruct new_request as [e'|].
  { simplify_eq. split_and!; [|by split; eauto|done]. split; [done|]. by intros [? _]. }
  set (r := {| rq_url := URL c; rq_header := headers_of visit; rq_body := body_of e |}) in *.
  assert (rq = Some r) as -> by (by repeat case_match; simplify_eq).
  split_and!.
  - destruct (do (Timeout c) r) as [status|e'] eqn:Hd.
    + destruct ((status <? 200) || (300 <=? status)) eqn:Es; simplify_eq; bool_prop; split; try done.
      * intros (_ & r' & st & [= <-] & Hr & ?). rewrite Hd in Hr. injection Hr as <-. lia.
      * intros _. split; [done|]. eexists _, status. bool_prop. split_and!; [done|exact Hd|lia..].
    + simplify_eq. split; [done|]. intros (_ & r' & st & [= <-] & Hr & ?). congruence.
  - split; [done|]. by intros (? & ? & ?).
  - intros r' [= <-]. cbn [r rq_url rq_body rq_header]. split_and!; [done|apply body_valid; lia|..].
    + intros name v Hc. apply headers_configured; [done|]. by apply Hin.
    + intros Hne. rewrite headers_default; [vm_compute; reflexivity|done|].
      apply Forall_forall. intros [name v] Hk. cbn. by eapply Hne, Hin.
Qed.

(** Two names with the same canonical form are accepted together, and then the order in
    which the map happens to be visited decides what is sent. *)
Lemma header_names_collide :
  ∃ m : gmap bytes bytes, ∃ visit visit', visit ≡ₚ map_to_list m ∧ visit' ≡ₚ map_to_list m ∧
    headers_of visit !! gs"X-Api-Key" ≠ headers_of visit' !! gs"X-Api-Key".
Proof.
  set (m := <[gs"x-api-key" := gs"one"]> {[gs"X-API-KEY" := gs"two"]} : gmap bytes bytes).
  assert ([(gs"x-api-key", gs"one"); (gs"X-API-KEY", gs"two")] ≡ₚ map_to_list m) as Hm.
  { unfold m. rewrite map_to_list_insert by (apply lookup_singleton_ne; discriminate).
    by rewrite map_to_list_singleton. }
  exists m, [(gs"x-api-key", gs"one"); (gs"X-API-KEY", gs"two")], [(gs"X-API-KEY", gs"two"); (gs"x-api-key", gs"one")].
  split; [done|]. split; [rewrite <- Hm; apply Permutation_swap|]. vm_compute. discriminate.
Qed.

End properties.

(** ** Witnesses *)

Section witnesses.
Import scaler.

Definition sample_webhook : Config := {|
  Enabled := true; URL := gs"http://scaler/wake"; Timeout := 2000000000;
  Headers := {[gs"x-api-key" := gs"secret"]} |}.

Definition sample_event : Event := {|
  Backend := gs"lobby:25565"; ServerAddress := gs"play.example.com"; NextState := 2 |}.

(** A webhook that answers 503: the key is sent, and the error is the reason phrase. *)
Lemma notify_exact_witness :
  ∃ rq, Notify (New sample_webhook) [(gs"x-api-key", gs"secret")] None (λ _ _, Ok 503) sample_event =
          (Some (errors_New "Service Unavailable"), Some rq) ∧
        rq_body rq = body_of sample_event ∧ length (rq_body rq) = 74%nat ∧
        rq_header rq !! gs"X-Api-Key" = Some gs"secret".
Proof.
  eexists. split; [reflexivity|]. split; [reflexivity|]. split; [vm_compute; reflexivity|].
  assert (- 2 ^ 31 ≤ NextState sample_event < 2 ^ 31) as Hn by (cbn; lia).
  assert ([(gs"x-api-key", gs"secret")] ≡ₚ map_to_list (Headers sample_webhook)) as Hv
    by (unfold sample_webhook, Headers; by rewrite map_to_list_singleton).
  assert (NoDup (CanonicalHeaderKey <$> [(gs"x-api-key", gs"secret")].*1)) as Hnd
    by (apply (bool_decide_unpack _); vm_compute; exact I).
  destruct (notify_exact sample_webhook _ None (λ _ _, Ok 503) sample_event _ _ Hn Hv Hnd eq_refl) as [_ H].
  destruct (H eq_refl) as (_ & _ & Hr). destruct (Hr _ eq_refl) as (_ & _ & Hh & _).
  apply (Hh gs"x-api-key" gs"secret"). apply lookup_singleton_eq.
Defined.

End witnesses.
