(* ===== verification/Tables.v ===== *)
(** * Tables keyed by normalised names

    Three parts of the gateway turn a list of entries, each under a raw name, into
    a map keyed by the normal form of the name, and look names up by their normal
    form: the Java router, the Bedrock router and the validators. The reference for
    such a table is a scan of the list ([owner]); this file has the lemmas that
    connect it with the maps. *)
From S2P Require Import Prelude.

Section table.
Context {V : Type} (norm : bytes → res bytes).

(** The value of the first entry whose name has the normal form [k]. *)
Fixpoint owner (es : list (bytes * V)) (k : bytes) : option V :=
  match es with
  | [] => None
  | (h, v) :: es' =>
      match norm h with
      | Ok k' => if decide (k' = k) then Some v else owner es' k
      | Err _ => owner es' k
      end
  end.

(** The normal forms of the names, in order; names without one are skipped. *)
Definition keys (hs : list bytes) : list bytes := omap (λ h, res_opt (norm h)) hs.

(** Every name has a normal form and no two names have the same one. *)
Definition distinct (hs : list bytes) : Prop :=
  (∀ h, h ∈ hs → is_ok (norm h) = true) ∧ NoDup (keys hs).

Lemma keys_cons_ok h hs k : norm h = Ok k → keys (h :: hs) = k :: keys hs.
Proof. intros E. unfold keys. cbn. by rewrite E. Qed.

Lemma elem_of_keys hs k : k ∈ keys hs ↔ ∃ h, h ∈ hs ∧ norm h = Ok k.
Proof.
  unfold keys. rewrite list_elem_of_omap. split.
  - intros (h & Hh & E). exists h. split; [done|]. by destruct (norm h); simplify_eq/=.
  - intros (h & Hh & E). exists h. by rewrite E.
Qed.

Lemma keys_app hs hs' : keys (hs ++ hs') = keys hs ++ keys hs'.
Proof. apply omap_app. Qed.

Lemma distinct_nil : distinct [].
Proof. split; [by intros h ?%elem_of_nil | constructor]. Qed.

Lemma distinct_cons h hs :
  distinct (h :: hs) ↔ ∃ k, norm h = Ok k ∧ (k ∉ keys hs) ∧ distinct hs.
Proof.
  unfold distinct. setoid_rewrite elem_of_cons. split.
  - intros [Hok Hnd]. destruct (norm h) as [k|e] eqn:E.
    + exists k. rewrite (keys_cons_ok h hs k E) in Hnd. apply NoDup_cons in Hnd as [? ?].
      split_and!; eauto.
    + specialize (Hok h (or_introl eq_refl)). by rewrite E in Hok.
  - intros (k & E & Hk & Hok & Hnd). rewrite (keys_cons_ok h hs k E). split.
    + intros h' [->|?]; [by rewrite E | eauto].
    + by apply NoDup_cons.
Qed.

Lemma owner_None es k : owner es k = None ↔ k ∉ keys es.*1.
Proof.
  induction es as [|[h v] es IH]; cbn; [set_solver|].
  destruct (norm h) as [k'|] eqn:E; cbn.
  - case_decide as Hd; [subst; set_solver|]. rewrite IH, not_elem_of_cons. naive_solver.
  - done.
Qed.

Lemma owner_Some_in es k v : owner es k = Some v → ∃ h, (h, v) ∈ es ∧ norm h = Ok k.
Proof.
  induction es as [|[h w] es IH]; cbn; [done|].
  destruct (norm h) as [k'|] eqn:E; [case_decide; [intros [= <-]; subst; exists h; by split; [left|]|]|];
    intros (h' & ? & ?)%IH; exists h'; by split; [right|].
Qed.

(** With distinct names the owner of a name is its own entry. *)
Lemma owner_in es h v k :
  distinct es.*1 → (h, v) ∈ es → norm h = Ok k → owner es k = Some v.
Proof.
  induction es as [|[h' w] es IH]; cbn [fmap list_fmap fst]; intros Hd Hin E; [by apply elem_of_nil in Hin|].
  apply distinct_cons in Hd as (k' & E' & Hk' & Hd). cbn. rewrite E'.
  apply elem_of_cons in Hin as [[= -> ->]|Hin].
  - rewrite E in E'. injection E' as <-. by rewrite decide_True.
  - rewrite decide_False; [by apply IH|]. intros ->. apply Hk', elem_of_keys. exists h.
    split; [|done]. apply list_elem_of_fmap. by exists (h, v).
Qed.

(** A map that was filled with the entries, in order. *)
Fixpoint insert_all (es : list (bytes * V)) (m : gmap bytes V) : gmap bytes V :=
  match es with
  | [] => m
  | (h, v) :: es' =>
      insert_all es' (match norm h with Ok k => <[k := v]> m | Err _ => m end)
  end.

Lemma insert_all_app es es' m : insert_all (es ++ es') m = insert_all es' (insert_all es m).
Proof. revert m. induction es as [|[h v] es IH]; intros m; cbn; [done|]. apply IH. Qed.

Lemma insert_all_lookup es m k :
  distinct es.*1 →
  insert_all es m !! k = match owner es k with Some v => Some v | None => m !! k end.
Proof.
  revert m. induction es as [|[h v] es IH]; intros m; cbn [fmap list_fmap fst]; [done|].
  intros (k' & E & Hk' & Hd)%distinct_cons. cbn. rewrite E, IH by done.
  destruct (decide (k' = k)) as [->|Hne].
  - by rewrite (proj2 (owner_None es k)), lookup_insert_eq.
  - by rewrite lookup_insert_ne.
Qed.

End table.

(** ** Counting

    [counts[k]++] over a list, starting from an empty map; a missing key reads 0. *)
Section tally.
Context {A : Type} (key : A → bytes).

Definition count_in (m : gmap bytes Z) (k : bytes) : Z := from_option id 0%Z (m !! k).

Definition incr (m : gmap bytes Z) (k : bytes) : gmap bytes Z := <[k := (count_in m k + 1)%Z]> m.

Definition tally (l : list A) : gmap bytes Z := fold_left (λ m a, incr m (key a)) l ∅.

Lemma count_incr m k k' :
  count_in (incr m k) k' = (count_in m k' + if decide (k = k') then 1 else 0)%Z.
Proof.
  unfold incr, count_in at 1. destruct (decide (k = k')) as [->|Hne].
  - by rewrite lookup_insert_eq.
  - rewrite lookup_insert_ne by done. unfold count_in. lia.
Qed.

Lemma tally_count l k : count_in (tally l) k = zlen (filter (λ a, key a = k) l).
Proof.
  assert (∀ m, count_in (fold_left (λ m a, incr m (key a)) l m) k =
               (count_in m k + zlen (filter (λ a, key a = k) l))%Z) as H.
  { induction l as [|a l IH]; intros m; cbn [fold_left]; [unfold zlen; cbn; lia|].
    rewrite IH, count_incr, filter_cons. unfold zlen.
    destruct (decide (key a = k)); cbn; lia. }
  unfold tally. rewrite H. unfold count_in. by rewrite lookup_empty.
Qed.

Lemma tally_perm l l' k : l ≡ₚ l' → count_in (tally l) k = count_in (tally l') k.
Proof. intros Hp. rewrite !tally_count. unfold zlen. by rewrite Hp. Qed.

(** The elements whose key occurs once have pairwise distinct keys. *)
Lemma tally_unique_in l l0 :
  l ⊆+ l0 → NoDup (key <$> filter (λ a, ¬ (1 < count_in (tally l0) (key a))%Z) l).
Proof.
  induction l as [|a l IH]; intros Hsub; [constructor|].
  assert (l ⊆+ l0) as Hsub' by (etransitivity; [by apply submseteq_cons | done]).
  rewrite filter_cons. case_decide as Hd; [|by apply IH]. cbn. constructor; [|by apply IH].
  intros (b & Hb & [_ Hin]%list_elem_of_filter)%list_elem_of_fmap. apply Hd. rewrite tally_count.
  apply submseteq_Permutation in Hsub as [l1 ->].
  rewrite filter_app, filter_cons_True by done. unfold zlen. rewrite length_app. cbn [length].
  assert (b ∈ filter (λ x, key x = key a) l) as Hbin by by apply list_elem_of_filter.
  destruct (filter (λ x, key x = key a) l); [by apply elem_of_nil in Hbin|].
  cbn. lia.
Qed.

Lemma tally_unique l :
  NoDup (key <$> filter (λ a, ¬ (1 < count_in (tally l) (key a))%Z) l).
Proof. by apply tally_unique_in. Qed.

End tally.
