(* ===== verification/GoSort.v ===== *)
(** * Go's [sort.SliceStable] on string keys

    The gateway sorts routes and diagnostics by lexicographic comparison of a few
    string fields, so that a snapshot does not depend on the order in which a map
    was iterated. The stable sort is insertion from the right, which every stable
    sort agrees with. *)
From S2P Require Import Prelude GoUnicode GoStrings.
Import gostrings.
Open Scope Z_scope.

Section sort.
Context {A : Type} (less : A → A → bool).

(** Put [x] before the elements it does not have to follow. *)
Fixpoint insert_stable (x : A) (l : list A) : list A :=
  match l with
  | [] => [x]
  | y :: t => if less y x then y :: insert_stable x t else x :: l
  end.

Definition SliceStable (l : list A) : list A := foldr insert_stable [] l.

Lemma insert_stable_perm x l : insert_stable x l ≡ₚ x :: l.
Proof.
  induction l as [|y l IH]; cbn; [done|]. destruct (less y x); [|done].
  rewrite IH. apply Permutation_swap.
Qed.

Lemma SliceStable_perm l : SliceStable l ≡ₚ l.
Proof. induction l as [|x l IH]; cbn; [done|]. by rewrite insert_stable_perm, IH. Qed.

Lemma elem_of_SliceStable x l : x ∈ SliceStable l ↔ x ∈ l.
Proof. by rewrite SliceStable_perm. Qed.

End sort.

(** ** The order of Go strings *)

Lemma ltb_irrefl s : ltb s s = false.
Proof. induction s as [|a s IH]; cbn; [done|]. by rewrite Z.ltb_irrefl. Qed.

Lemma bv_inj a b : bv a = bv b → a = b.
Proof. intros E. rewrite <- (bz_bv a), <- (bz_bv b). by rewrite E. Qed.

Lemma ltb_total s t : s ≠ t → ltb s t = true ∨ ltb t s = true.
Proof.
  revert t. induction s as [|a s IH]; intros [|b t] Hne; cbn; [done|by left|by right|].
  destruct (Z.ltb_spec (bv a) (bv b)); [by left|].
  destruct (Z.ltb_spec (bv b) (bv a)); [by right|].
  assert (a = b) as -> by (apply bv_inj; lia). apply IH. congruence.
Qed.

Lemma ltb_trans s t u : ltb s t = true → ltb t u = true → ltb s u = true.
Proof.
  revert t u. induction s as [|a s IH]; intros [|b t] [|c u]; cbn; try done.
  destruct (Z.ltb_spec (bv a) (bv b)), (Z.ltb_spec (bv b) (bv c)), (Z.ltb_spec (bv a) (bv c)),
    (Z.ltb_spec (bv b) (bv a)), (Z.ltb_spec (bv c) (bv b)), (Z.ltb_spec (bv c) (bv a));
    try done; try lia. apply IH.
Qed.

(** ** Comparison by several keys: the first that differs decides *)

Fixpoint less_keys (xs ys : list bytes) : bool :=
  match xs, ys with
  | x :: xs', y :: ys' => if decide (x = y) then less_keys xs' ys' else ltb x y
  | _, _ => false
  end.

Lemma less_keys_irrefl xs : less_keys xs xs = false.
Proof. induction xs; cbn; [done|]. by rewrite decide_True. Qed.

Lemma less_keys_total xs ys :
  length xs = length ys → xs ≠ ys → less_keys xs ys = true ∨ less_keys ys xs = true.
Proof.
  revert ys. induction xs as [|x xs IH]; intros [|y ys] Hl Hne; try done.
  cbn. destruct (decide (x = y)) as [->|Hx].
  - rewrite decide_True by done. apply IH; [by injection Hl | congruence].
  - rewrite decide_False by done. by apply ltb_total.
Qed.

Lemma less_keys_trans xs ys zs :
  length xs = length ys → length ys = length zs →
  less_keys xs ys = true → less_keys ys zs = true → less_keys xs zs = true.
Proof.
  revert ys zs. induction xs as [|x xs IH]; intros [|y ys] [|z zs] H1 H2; try done. cbn.
  destruct (decide (x = y)) as [->|Hxy]; [destruct (decide (y = z)) as [->|Hyz]|].
  - injection H1 as H1. injection H2 as H2. by apply IH.
  - done.
  - destruct (decide (y = z)) as [->|Hyz]; [by rewrite decide_False|].
    intros Ha Hb. pose proof (ltb_trans _ _ _ Ha Hb) as Hc. rewrite decide_False; [done|].
    intros ->. by rewrite ltb_irrefl in Hc.
Qed.

Section keyed.
Context {A : Type} (less : A → A → bool) (key : A → list bytes) (n : nat).
Hypothesis less_key : ∀ a b, less a b = less_keys (key a) (key b).
Hypothesis key_length : ∀ a, length (key a) = n.

(** [a] may come before [b]. *)
Definition before (a b : A) : Prop := less b a = false.

Lemma before_trans a b c : before a b → before b c → before a c.
Proof.
  unfold before. rewrite !less_key. intros Hab Hbc. apply not_true_iff_false. intros Hca.
  destruct (decide (key a = key b)) as [E|Hne]; [congruence|].
  destruct (less_keys_total (key a) (key b)) as [H|H]; [by rewrite !key_length|done|..].
  - pose proof (less_keys_trans (key c) (key a) (key b)
      ltac:(by rewrite !key_length) ltac:(by rewrite !key_length) Hca H). congruence.
  - congruence.
Qed.

Lemma before_total a b : before a b ∨ before b a.
Proof.
  unfold before. rewrite !less_key. destruct (less_keys (key b) (key a)) eqn:E; [|by left].
  right. apply not_true_iff_false. intros H.
  pose proof (less_keys_trans (key a) (key b) (key a)
    ltac:(by rewrite !key_length) ltac:(by rewrite !key_length) H E) as Hc.
  by rewrite less_keys_irrefl in Hc.
Qed.

Lemma before_antisym a b : before a b → before b a → key a = key b.
Proof.
  unfold before. rewrite !less_key. intros H1 H2. apply dec_stable. intros Hne.
  destruct (less_keys_total (key a) (key b)) as [H|H]; [by rewrite !key_length|done|..]; congruence.
Qed.

Lemma insert_stable_sorted x l :
  StronglySorted before l → StronglySorted before (insert_stable less x l).
Proof.
  induction 1 as [|y l Hl IH Hy]; cbn; [repeat constructor|].
  destruct (less y x) eqn:E.
  - constructor; [done|]. rewrite insert_stable_perm. constructor; [|done].
    destruct (before_total y x) as [?|Hb]; [done|]. unfold before in Hb. congruence.
  - constructor; [by constructor|]. constructor; [done|].
    eapply Forall_impl; [exact Hy|]. intros z Hz. by eapply before_trans.
Qed.

Lemma SliceStable_sorted l : StronglySorted before (SliceStable less l).
Proof. induction l; cbn; [constructor | by apply insert_stable_sorted]. Qed.

(** When the keys identify the elements, the result depends only on which elements
    there are. *)
Lemma SliceStable_deterministic l l' :
  (∀ a b, a ∈ l → b ∈ l → key a = key b → a = b) → l ≡ₚ l' →
  SliceStable less l = SliceStable less l'.
Proof.
  intros Hinj Hp. apply (StronglySorted_unique_strong before).
  - intros a b Ha Hb Hab Hba. rewrite elem_of_SliceStable in Ha, Hb. rewrite <- Hp in Hb.
    by apply Hinj, before_antisym.
  - apply SliceStable_sorted.
  - apply SliceStable_sorted.
  - by rewrite !SliceStable_perm.
Qed.

End keyed.

Lemma StronglySorted_filter {A} (R : A → A → Prop) (P : A → Prop) `{!∀ x, Decision (P x)} l :
  StronglySorted R l → StronglySorted R (filter P l).
Proof.
  induction 1 as [|x l Hl IH Hx]; [constructor|]. rewrite filter_cons.
  case_decide; [|done]. constructor; [done|].
  rewrite Forall_forall in Hx |- *. intros y [_ Hy]%list_elem_of_filter. by apply Hx.
Qed.

(** A list sorted by a comparison that looks at [f] first, in which no two elements
    agree on [f], is strictly increasing in [f]. *)
Lemma sorted_strict {A} (less : A → A → bool) (f : A → bytes) l :
  (∀ a b, f a ≠ f b → less b a = ltb (f b) (f a)) →
  StronglySorted (before less) l → NoDup (f <$> l) →
  StronglySorted (λ x y, ltb x y = true) (f <$> l).
Proof.
  intros Hf. induction 1 as [|a l Hl IH Ha]; cbn; [constructor|].
  intros [Hn Hnd]%NoDup_cons. constructor; [by apply IH|]. apply Forall_fmap.
  rewrite Forall_forall in Ha |- *. intros b Hb. cbn.
  assert (f a ≠ f b) as Hne by (intros E; apply Hn; rewrite E; by apply list_elem_of_fmap_2).
  specialize (Ha b Hb). unfold before in Ha. rewrite Hf in Ha by done.
  destruct (ltb_total (f a) (f b) Hne) as [?|?]; [done|congruence].
Qed.
