(* ===== verification/BedrockRoute.v ===== *)
(** * Bedrock host routing ([internal/bedrockroute])

    The table from requested hosts to Bedrock backends. The reference for
    [Router.Select] is a scan of the configured routes ([select_spec]). *)
From S2P Require Import Prelude GoUnicode GoStrings GoNet HostAddr Tables.
Import gostrings.
Open Scope Z_scope.

Module bedrockroute.

(** [strings.Cut(value, ":")] when the separator occurs. *)
Definition cut_colon (value : bytes) : option (bytes * bytes) :=
  match IndexByte value ":"%byte with
  | Some i => Some (take i value, drop (S i) value)
  | None => None
  end.

Definition NormalizeHost (value : bytes) : res bytes :=
  let value := TrimSpace value in
  if decide (value = []) then Err (errors_New "must not be empty")
  else
    let host :=
      match net.SplitHostPort value with
      | Ok (splitHost, _) => splitHost
      | Err _ =>
          if (CountByte value ":"%byte =? 1)%nat then
            match cut_colon value with
            | Some (before, after) =>
                if bool_decide (before ≠ []) && bool_decide (after ≠ []) then before else value
            | None => value
            end
          else value
      end in
    if decide (TrimSpace host = []) then Err (errors_New "host must not be empty")
    else hostaddr.Normalize host.

Record Route := { Name : bytes; Hosts : list bytes; Backend : bytes }.
Record Selection := { RouteName : bytes; SelBackend : bytes; Matched : bool }.
Record Router := { defaultBackend : bytes; hosts : gmap bytes Selection }.

Definition selection (route : Route) : Selection :=
  {| RouteName := Name route; SelBackend := Backend route; Matched := true |}.

(** The inner loop of [NewRouter], over the hosts of one route. *)
Fixpoint add_hosts (route : Route) (raws : list bytes) (m : gmap bytes Selection)
    : res (gmap bytes Selection) :=
  match raws with
  | [] => Ok m
  | rawHost :: rest =>
      let? host := res_wrap
        (λ e, Errorf "route %q host %q: %w" [AStr (Name route); AStr rawHost] [e])
        (NormalizeHost rawHost) in
      match m !! host with
      | Some existing =>
          Err (Errorf "host %q duplicates route %q" [AStr host; AStr (RouteName existing)] [])
      | None => add_hosts route rest (<[host := selection route]> m)
      end
  end.

Fixpoint add_routes (routes : list Route) (m : gmap bytes Selection)
    : res (gmap bytes Selection) :=
  match routes with
  | [] => Ok m
  | route :: rest => let? m' := add_hosts route (Hosts route) m in add_routes rest m'
  end.

Definition NewRouter (default : bytes) (routes : list Route) : res Router :=
  let? m := add_routes routes ∅ in Ok {| defaultBackend := default; hosts := m |}.

(** [Select] on a possibly nil router. *)
Definition Select (r : option Router) (requestedHost : bytes) : Selection :=
  match r with
  | None => {| RouteName := []; SelBackend := []; Matched := false |}
  | Some r =>
      let other := {| RouteName := gs"default"; SelBackend := defaultBackend r; Matched := false |} in
      match NormalizeHost requestedHost with
      | Ok host => match hosts r !! host with Some sel => sel | None => other end
      | Err _ => other
      end
  end.

(** ** Specification: a scan of the routes *)

Definition entries (routes : list Route) : list (bytes * Selection) :=
  concat (map (λ route, map (λ h, (h, selection route)) (Hosts route)) routes).

Definition all_hosts (routes : list Route) : list bytes := concat (map Hosts routes).

Definition select_spec (default : bytes) (routes : list Route) (req : bytes) : Selection :=
  let other := {| RouteName := gs"default"; SelBackend := default; Matched := false |} in
  match NormalizeHost req with
  | Ok host => from_option id other (owner NormalizeHost (entries routes) host)
  | Err _ => other
  end.

(** ** Lemmas *)

Lemma entries_hosts routes : (entries routes).*1 = all_hosts routes.
Proof.
  unfold entries, all_hosts. induction routes as [|route routes IH]; cbn; [done|].
  rewrite fmap_app, IH. f_equal. generalize (Hosts route). induction l as [|h l IHl]; cbn; by f_equal.
Qed.

(** Adding hosts succeeds exactly when they are distinct and new, and then the map
    is the one filled with them. *)
Lemma add_hosts_spec route raws m :
  match add_hosts route raws m with
  | Ok m' => distinct NormalizeHost raws ∧ (∀ k, k ∈ keys NormalizeHost raws → m !! k = None) ∧
             m' = insert_all NormalizeHost (map (λ h, (h, selection route)) raws) m
  | Err _ => ¬ (distinct NormalizeHost raws ∧ ∀ k, k ∈ keys NormalizeHost raws → m !! k = None)
  end.
Proof.
  revert m. induction raws as [|h raws IH]; intros m; cbn [add_hosts].
  { split_and!; [apply distinct_nil | by intros k ?%elem_of_nil | done]. }
  destruct (NormalizeHost h) as [k|e] eqn:E; cbn [res_wrap res_bind];
    [|rewrite distinct_cons; intros [(k & E' & _) _]; congruence].
  destruct (m !! k) as [x|] eqn:Em.
  { rewrite (keys_cons_ok _ h raws k E). intros [_ Hn]. specialize (Hn k ltac:(left)). congruence. }
  specialize (IH (<[k := selection route]> m)). rewrite (keys_cons_ok _ h raws k E).
  destruct (add_hosts _ _ _) as [m'|]; rewrite distinct_cons.
  - destruct IH as (Hd & Hn & ->). cbn. rewrite E. split_and!; [|..|done].
    + exists k. split_and!; [done| |done]. intros Hin. apply Hn in Hin. by rewrite lookup_insert_eq in Hin.
    + intros k' [->|Hin]%elem_of_cons; [done|]. by apply Hn, lookup_insert_None in Hin as [? _].
  - intros [(k' & E' & Hk & Hd) Hn]. assert (k' = k) as -> by congruence.
    apply IH. split; [done|]. intros k' Hin.
    apply lookup_insert_None. split; [apply Hn; by right|]. by intros ->.
Qed.

Lemma distinct_app norm hs hs' :
  distinct norm (hs ++ hs') ↔
    distinct norm hs ∧ distinct norm hs' ∧ ∀ k, k ∈ keys norm hs → k ∉ keys norm hs'.
Proof.
  unfold distinct. rewrite keys_app, NoDup_app. setoid_rewrite elem_of_app. naive_solver.
Qed.

Lemma map_selection_fst route raws : (map (λ h, (h, selection route)) raws).*1 = (raws : list bytes).
Proof. induction raws; cbn; by f_equal. Qed.

Lemma insert_all_None route raws m k :
  distinct NormalizeHost raws →
  insert_all NormalizeHost (map (λ h, (h, selection route)) raws) m !! k = None ↔
    (k ∉ keys NormalizeHost raws) ∧ m !! k = None.
Proof.
  intros Hd. rewrite insert_all_lookup by by rewrite map_selection_fst.
  destruct (owner _ _ k) as [v|] eqn:E.
  - split; [done|]. intros [Hk _]. exfalso. apply Hk.
    apply owner_Some_in in E as (h & Hin & Eh). apply elem_of_keys. exists h. split; [|done].
    apply list_elem_of_fmap in Hin as (? & [= -> _] & ?). done.
  - apply owner_None in E. rewrite map_selection_fst in E. naive_solver.
Qed.

Lemma add_routes_spec routes m :
  match add_routes routes m with
  | Ok m' => distinct NormalizeHost (all_hosts routes) ∧
             (∀ k, k ∈ keys NormalizeHost (all_hosts routes) → m !! k = None) ∧
             m' = insert_all NormalizeHost (entries routes) m
  | Err _ => ¬ (distinct NormalizeHost (all_hosts routes) ∧
                ∀ k, k ∈ keys NormalizeHost (all_hosts routes) → m !! k = None)
  end.
Proof.
  revert m. induction routes as [|route routes IH]; intros m; cbn [add_routes].
  { split_and!; [apply distinct_nil | by intros k ?%elem_of_nil | done]. }
  change (all_hosts (route :: routes)) with (Hosts route ++ all_hosts routes).
  change (entries (route :: routes)) with
    (map (λ h, (h, selection route)) (Hosts route) ++ entries routes).
  rewrite keys_app. pose proof (add_hosts_spec route (Hosts route) m) as Hh.
  destruct (add_hosts _ _ _) as [m1|]; cbn [res_bind];
    [|rewrite distinct_app; setoid_rewrite elem_of_app; naive_solver].
  destruct Hh as (Hd & Hn & ->). specialize (IH (insert_all NormalizeHost
    (map (λ h, (h, selection route)) (Hosts route)) m)).
  destruct (add_routes routes _) as [m2|]; rewrite distinct_app; setoid_rewrite elem_of_app.
  - destruct IH as (Hd2 & Hn2 & ->). rewrite insert_all_app.
    setoid_rewrite insert_all_None in Hn2; [|done]. naive_solver.
  - setoid_rewrite insert_all_None in IH; [|done]. naive_solver.
Qed.

End bedrockroute.

Section properties.
Import bedrockroute.

(** The Bedrock router can be built exactly when every configured host has a
    normal form and no two hosts of any routes share one. *)
Theorem NewRouter_total default routes :
  is_ok (NewRouter default routes) = true ↔ distinct NormalizeHost (all_hosts routes).
Proof.
  unfold NewRouter. pose proof (add_routes_spec routes ∅) as H.
  destruct (add_routes routes ∅); cbn in *; [naive_solver|].
  split; [done|]. intros Hd. exfalso. apply H. split; [done|]. intros. apply lookup_empty.
Qed.

(** A router that was built selects, for every requested host, what a scan of
    the configured routes for a host with the same normal form would select, and
    the default backend when there is none. *)
Theorem Select_refines_scan default routes r req :
  NewRouter default routes = Ok r → Select (Some r) req = select_spec default routes req.
Proof.
  unfold NewRouter. intros H. apply res_bind_Ok in H as (m & Hm & [= <-]).
  pose proof (add_routes_spec routes ∅) as Hs. rewrite Hm in Hs. destruct Hs as (Hd & _ & ->).
  unfold Select, select_spec. cbn [hosts defaultBackend].
  destruct (NormalizeHost req) as [k|]; [|done].
  rewrite insert_all_lookup by by rewrite entries_hosts. rewrite lookup_empty.
  by destruct (owner _ _ k).
Qed.

Definition sample_routes : list Route :=
  [{| Name := gs"a"; Hosts := [gs"Play.Example.com:19132"; gs"10.0.0.1"]; Backend := gs"b1:19132" |};
   {| Name := gs"b"; Hosts := [gs"other.example.com."]; Backend := gs"b2:19132" |}].

Lemma Select_refines_scan_witness :
  ∃ r, NewRouter gs"d:1" sample_routes = Ok r ∧
  Select (Some r) gs"OTHER.example.com:1" =
    {| RouteName := gs"b"; SelBackend := gs"b2:19132"; Matched := true |}.
Proof.
  assert (is_ok (NewRouter gs"d:1" sample_routes) = true) as E by (vm_compute; reflexivity).
  apply is_ok_spec in E as [r E]. exists r. split; [done|].
  rewrite (Select_refines_scan _ _ _ (gs"OTHER.example.com:1") E). vm_compute. reflexivity.
Defined.

End properties.
