(* ===== verification/BedrockProxy.v ===== *)
(** * The Bedrock host proxy ([internal/bedrockproxy])

    The proxy accepts Bedrock connections, selects a backend by the host name the
    client asked for, dials it and copies packets in both directions. RakNet and the
    Bedrock protocol are a library's: a connection is its number and side, which is
    open or closed, with the packets that were read from it and those that were written to
    it; packets are values of a type [P], and what a dial, a read or a write gives is an
    argument of the step. The model is a step relation over the
    critical sections of the accept loop, the handlers and [Close]. *)
From S2P Require Import Prelude GoStrings GoNet BedrockRoute.
Open Scope Z_scope.

Module bedrockproxy.

Inductive side := Client | Server.

#[export] Instance side_eq_dec : EqDecision side.
Proof. solve_decision. Defined.

#[export] Instance side_countable : Countable side.
Proof.
  refine (inj_countable' (λ s, match s with Client => true | Server => false end)
                         (λ b : bool, if b then Client else Server) _).
  by intros [].
Defined.

(** Two connections belong to one handler: the client's and the backend's. *)
Definition conn : Type := nat * side.

Record Config := {
  Listen : bytes;
  DefaultBackend : bytes;
  Routes : list bedrockroute.Route;
  BackendDialTimeout : Z
}.

(** Where the handler of a connection is:
    - [Accepted]: before [registerConn] in the accept loop;
    - [Dialing]: in [dialBackend];
    - [Dialed]: before [registerConn] of the backend's connection;
    - [Spawning], [Bridging]: in these functions;
    - [Ending]: about to run its deferred calls; [Ended]: both connections are closed;
    - [Leaving]: only the client's connection is still to be unregistered;
    - [Done]. *)
Inductive phase := Accepted | Dialing | Dialed | Spawning | Bridging | Ending | Ended | Leaving | Done.

#[export] Instance phase_eq_dec : EqDecision phase.
Proof. solve_decision. Defined.

Section proxy.
Context {P : Type}.

(** One of the loops of [bridge]: the packet it has read and not written yet, and whether
    the loop goes on. A packet stays in hand when writing it failed. *)
Record copier := { held : option P; running : bool }.

Record handler := {
  h_address : bytes;
  h_backend : option bytes;
  h_server : option bytes;
  h_phase : phase;
  h_copy : side → copier;
  h_told : list bytes
}.

(** The connections that are open are part of the state, and so is what was read from
    each and written to each. [closing] are those that [Close] has still to close. *)
Record Proxy := {
  router : bedrockroute.Router;
  handlers : gmap nat handler;
  conns : gset conn;
  open : gset conn;
  closed : bool;
  closing : list conn;
  received : conn → list P;
  sent : conn → list P
}.

(** [New]; [listen] is the error of the listener, if any. *)
Definition New (c : Config) (listen : option error) : res Proxy :=
  if BackendDialTimeout c <=? 0 then Err (errors_New "backend dial timeout must be positive")
  else
    let? r := bedrockroute.NewRouter (DefaultBackend c) (Routes c) in
    match listen with
    | Some e => Err (Errorf "listen Bedrock host proxy %q: %w" [AStr (Listen c)] [e])
    | None => Ok {| router := r; handlers := ∅; conns := ∅; open := ∅; closed := false; closing := [];
                  received := λ _, []; sent := λ _, [] |}
    end.

Definition with_conns (p : Proxy) (cs : gset conn) : Proxy := {|
  router := router p; handlers := handlers p; conns := cs; open := open p; closed := closed p;
  closing := closing p; received := received p; sent := sent p |}.

Definition with_open (p : Proxy) (cs : gset conn) : Proxy := {|
  router := router p; handlers := handlers p; conns := conns p; open := cs; closed := closed p;
  closing := closing p; received := received p; sent := sent p |}.

Definition set_handler (p : Proxy) (i : nat) (h : handler) : Proxy := {|
  router := router p; handlers := <[i := h]> (handlers p); conns := conns p; open := open p;
  closed := closed p; closing := closing p; received := received p; sent := sent p |}.

Definition go (h : handler) (ph : phase) : handler := {|
  h_address := h_address h; h_backend := h_backend h; h_server := h_server h; h_phase := ph; h_copy := h_copy h; h_told := h_told h |}.

Definition tell (h : handler) (message : bytes) : handler := {|
  h_address := h_address h; h_backend := h_backend h; h_server := h_server h; h_phase := h_phase h; h_copy := h_copy h;
  h_told := h_told h ++ [message] |}.

Definition set_copy (h : handler) (d : side) (c : copier) : handler := {|
  h_address := h_address h; h_backend := h_backend h; h_server := h_server h; h_phase := h_phase h;
  h_copy := λ d', if decide (d' = d) then c else h_copy h d'; h_told := h_told h |}.

Definition registerConn (p : Proxy) (c : conn) : bool * Proxy :=
  if closed p then (false, p) else (true, with_conns p (conns p ∪ {[c]})).

Definition unregisterConn (p : Proxy) (c : conn) : Proxy := with_conns p (conns p ∖ {[c]}).

(** Closing a connection, once or again; [Disconnect] also closes it. *)
Definition close_conn (p : Proxy) (c : conn) : Proxy := with_open p (open p ∖ {[c]}).

Definition close_both (p : Proxy) (i : nat) : Proxy := close_conn (close_conn p (i, Client)) (i, Server).

(** [Close] up to the loop that closes the connections, which it runs once. *)
Definition Close (p : Proxy) : Proxy := {|
  router := router p; handlers := handlers p; conns := conns p; open := open p; closed := true;
  closing := elements (conns p); received := received p; sent := sent p |}.

(** A connection is accepted. *)
Definition accept (p : Proxy) (i : nat) (address : bytes) : Proxy :=
  set_handler (with_open p (open p ∪ {[(i, Client)]})) i
    {| h_address := address; h_backend := None; h_server := None; h_phase := Accepted;
       h_copy := λ _, {| held := None; running := true |}; h_told := [] |}.

(** [handleConn] starts by selecting the backend. *)
Definition handleConn (p : Proxy) (i : nat) (h : handler) : Proxy :=
  let selection := bedrockroute.Select (Some (router p)) (h_address h) in
  set_handler p i {| h_address := h_address h; h_backend := Some (bedrockroute.SelBackend selection);
                     h_server := h_server h; h_phase := Dialing; h_copy := h_copy h; h_told := h_told h |}.

(** The accept loop registers the connection. *)
Definition on_accepted (p : Proxy) (i : nat) (h : handler) : Proxy :=
  match registerConn p (i, Client) with
  | (false, p) => set_handler (close_conn p (i, Client)) i (go h Done)
  | (true, p) => handleConn p i h
  end.

(** [dialBackend] of the selected backend has returned; [cancelled] is whether the
    context is done. *)
Definition on_dial (p : Proxy) (i : nat) (h : handler) (err : option error) (cancelled : bool) : Proxy :=
  match err with
  | Some _ =>
      let h := if cancelled || closed p then h else tell h gs"Bedrock backend unavailable." in
      set_handler (close_conn p (i, Client)) i (go h Leaving)
  | None =>
      set_handler (with_open p (open p ∪ {[(i, Server)]})) i
        {| h_address := h_address h; h_backend := h_backend h; h_server := h_backend h; h_phase := Dialed;
           h_copy := h_copy h; h_told := h_told h |}
  end.

Definition on_dialed (p : Proxy) (i : nat) (h : handler) : Proxy :=
  match registerConn p (i, Server) with
  | (false, p) => set_handler (close_both p i) i (go h Leaving)
  | (true, p) => set_handler p i (go h Spawning)
  end.

(** [spawn]: the client's game is started and the backend's player spawned at the same
    time; both are waited for, and the first error that was sent is returned. *)
Definition spawn (startGame doSpawn : option error) (serverFirst : bool) : option error :=
  let client := match startGame with Some e => [Errorf "start client game: %w" [] [e]] | None => [] end in
  let server := match doSpawn with Some e => [Errorf "spawn backend connection: %w" [] [e]] | None => [] end in
  head (if serverFirst then server ++ client else client ++ server).

Definition on_spawned (p : Proxy) (i : nat) (h : handler) (err : option error) : Proxy :=
  set_handler p i (go h (match err with None => Bridging | Some _ => Ending end)).

Definition log (f : conn → list P) (c : conn) (pk : P) : conn → list P :=
  λ c', if decide (c' = c) then f c' ++ [pk] else f c'.

(** [ReadPacket] and [WritePacket] of a connection: they fail when it is closed, and may
    fail before, as [r] and [err] say. *)
Definition ReadPacket (p : Proxy) (c : conn) (r : res P) : option (P * Proxy) :=
  if decide (c ∈ open p) then
    match r with
    | Err _ => None
    | Ok pk => Some (pk, {| router := router p; handlers := handlers p; conns := conns p; open := open p;
                            closed := closed p; closing := closing p; received := log (received p) c pk;
                            sent := sent p |})
    end
  else None.

Definition WritePacket (p : Proxy) (c : conn) (pk : P) (err : option error) : option Proxy :=
  if decide (c ∈ open p) then
    match err with
    | Some _ => None
    | None => Some {| router := router p; handlers := handlers p; conns := conns p; open := open p;
                      closed := closed p; closing := closing p; received := received p;
                      sent := log (sent p) c pk |}
    end
  else None.

Definition other (d : side) : side := match d with Client => Server | Server => Client end.

(** A loop of [bridge] returns: it closes both connections. *)
Definition on_stop (p : Proxy) (i : nat) (h : handler) (d : side) : Proxy :=
  set_handler (close_both p i) i (set_copy h d {| held := held (h_copy h d); running := false |}).

(** The loop of [bridge] that reads from side [d] and writes to the other: it reads a
    packet, or writes the one it has read; on an error it returns. *)
Definition on_read (p : Proxy) (i : nat) (h : handler) (d : side) (r : res P) : Proxy :=
  match ReadPacket p (i, d) r with
  | Some (pk, p) => set_handler p i (set_copy h d {| held := Some pk; running := true |})
  | None => on_stop p i h d
  end.

Definition on_write (p : Proxy) (i : nat) (h : handler) (d : side) (pk : P) (err : option error) : Proxy :=
  match WritePacket p (i, other d) pk err with
  | Some p => set_handler p i (set_copy h d {| held := None; running := true |})
  | None => on_stop p i h d
  end.

(** The deferred calls: both connections are closed, the backend's is unregistered, and
    in the accept loop's goroutine the client's. *)
Definition on_end (p : Proxy) (i : nat) (h : handler) : Proxy :=
  set_handler (close_both p i) i (go (tell h gs"connection lost") Ended).

Definition on_ended (p : Proxy) (i : nat) (h : handler) : Proxy :=
  set_handler (unregisterConn p (i, Server)) i (go h Leaving).

Definition on_leave (p : Proxy) (i : nat) (h : handler) : Proxy :=
  set_handler (unregisterConn p (i, Client)) i (go h Done).

(** What the handler [h] of connection [i] can do next. *)
Inductive advance (p : Proxy) (i : nat) (h : handler) : Proxy → Prop :=
| adv_accepted : h_phase h = Accepted → advance p i h (on_accepted p i h)
| adv_dial err cancelled : h_phase h = Dialing → advance p i h (on_dial p i h err cancelled)
| adv_dialed : h_phase h = Dialed → advance p i h (on_dialed p i h)
| adv_spawned startGame doSpawn serverFirst :
    h_phase h = Spawning → advance p i h (on_spawned p i h (spawn startGame doSpawn serverFirst))
| adv_read d r :
    h_phase h = Bridging → running (h_copy h d) = true → held (h_copy h d) = None → advance p i h (on_read p i h d r)
| adv_write d pk err :
    h_phase h = Bridging → running (h_copy h d) = true → held (h_copy h d) = Some pk →
    advance p i h (on_write p i h d pk err)
| adv_bridged :
    h_phase h = Bridging → (∀ d, running (h_copy h d) = false) → advance p i h (set_handler p i (go h Ending))
| adv_end : h_phase h = Ending → advance p i h (on_end p i h)
| adv_ended : h_phase h = Ended → advance p i h (on_ended p i h)
| adv_leave : h_phase h = Leaving → advance p i h (on_leave p i h).

(** The steps of what is under way, and all steps. *)
Inductive inner : Proxy → Proxy → Prop :=
| inner_handler p i h p' : handlers p !! i = Some h → advance p i h p' → inner p p'
| inner_closing p c rest :
    closing p = c :: rest →
    inner p {| router := router p; handlers := handlers p; conns := conns p; open := open p ∖ {[c]};
               closed := closed p; closing := rest; received := received p; sent := sent p |}.

Inductive step : Proxy → Proxy → Prop :=
| step_accept p i address : handlers p !! i = None → step p (accept p i address)
| step_close p : closed p = false → step p (Close p)
| step_inner p p' : inner p p' → step p p'.

End proxy.

Arguments copier : clear implicits.
Arguments handler : clear implicits.
Arguments Proxy : clear implicits.

End bedrockproxy.

(** ** The invariant *)

Section invariant.
Import bedrockproxy.
Context {P : Type}.
Implicit Types (p : Proxy P) (h : handler P).

(** Whether the connection on a side is registered, and whether it may be open. *)
Definition registered (ph : phase) (s : side) : bool :=
  match s, ph with
  | Client, (Accepted | Done) => false
  | Client, _ => true
  | Server, (Spawning | Bridging | Ending | Ended) => true
  | Server, _ => false
  end.

Definition may_be_open (ph : phase) (s : side) : bool :=
  match s, ph with
  | _, (Ended | Leaving | Done) => false
  | Client, _ => true
  | Server, (Accepted | Dialing) => false
  | Server, _ => true
  end.

(** The copying has not begun. *)
Definition early (ph : phase) : bool :=
  match ph with Accepted | Dialing | Dialed | Spawning => true | _ => false end.

(** What was read from side [d] was written to the other, but for the packet in hand. *)
Definition copy_ok p (i : nat) (d : side) (c : copier P) : Prop :=
  received p (i, d) = sent p (i, other d) ++ option_list (held c).

Record handler_ok p (i : nat) h : Prop := {
  ok_registered s : (i, s) ∈ conns p ↔ registered (h_phase h) s = true;
  ok_open s : (i, s) ∈ open p → may_be_open (h_phase h) s = true;
  ok_stopped d s : h_phase h = Bridging → running (h_copy h d) = false → (i, s) ∉ open p;
  ok_early d : early (h_phase h) = true → running (h_copy h d) = true;
  ok_copy d : copy_ok p i d (h_copy h d);
  ok_backend b : h_backend h = Some b ∨ h_server h = Some b →
    b = bedrockroute.SelBackend (bedrockroute.Select (Some (router p)) (h_address h))
}.

Record inv p : Prop := {
  inv_handler i h : handlers p !! i = Some h → handler_ok p i h;
  inv_none i s : handlers p !! i = None → ((i, s) ∉ conns p) ∧ ((i, s) ∉ open p);
  inv_silent i s : handlers p !! i = None → received p (i, s) = [] ∧ sent p (i, s) = [];
  inv_closed c : closed p = true → c ∈ conns p → c ∈ open p → c ∈ closing p;
  inv_closing : closed p = false → closing p = []
}.

(** What one handler does concerns its own connections only. *)
Lemma inv_set p p' i h :
  inv p → handlers p' = <[i := h]> (handlers p) → router p' = router p → closed p' = closed p →
  closing p' = closing p → handler_ok p' i h →
  (∀ j s, j ≠ i → ((j, s) ∈ conns p' ↔ (j, s) ∈ conns p) ∧ ((j, s) ∈ open p' → (j, s) ∈ open p)) →
  (∀ s, closed p = true → (i, s) ∈ conns p' → (i, s) ∈ open p' → (i, s) ∈ conns p ∧ (i, s) ∈ open p) →
  (∀ j s, j ≠ i → received p' (j, s) = received p (j, s) ∧ sent p' (j, s) = sent p (j, s)) →
  inv p'.
Proof.
  intros [Hh Hn Hsil Hc Hcl] Hhs Hr Ec Ecl Hok Hother Hthis Hlogs. split.
  - intros j h'. rewrite Hhs. destruct (decide (j = i)) as [->|Hj].
    + rewrite lookup_insert_eq. by intros [= <-].
    + rewrite lookup_insert_ne by done. intros [H1 H2 H3 He H4 H5]%Hh. split; try done.
      * intros s. rewrite <- H1. by apply Hother.
      * intros s Ho. by apply H2, Hother.
      * intros d s ? ? Ho. apply (H3 d s); [done..|]. by apply Hother.
      * intros d. unfold copy_ok. rewrite (proj1 (Hlogs j d Hj)), (proj2 (Hlogs j (other d) Hj)). apply H4.
      * intros b Hb. rewrite Hr. by apply H5.
  - intros j s. rewrite Hhs. intros [Hj Hne]%lookup_insert_None. destruct (Hn j s Hj).
    destruct (Hother j s) as [Ho1 Ho2]; [done|]. rewrite Ho1. split; [done|]. by intros ?%Ho2.
  - intros j s. rewrite Hhs. intros [Hj Hne]%lookup_insert_None.
    destruct (Hlogs j s) as [-> ->]; [done|]. by apply Hsil.
  - intros [j s]. rewrite Ec, Ecl. intros Hcd Hin Ho. destruct (decide (j = i)) as [->|Hj].
    + destruct (Hthis s Hcd Hin Ho). by apply Hc.
    + apply Hc; [done|by apply Hother..].
  - by rewrite Ec, Ecl.
Qed.

Lemma new_inv c listen p : New c listen = Ok p → inv p.
Proof.
  unfold New. destruct (_ <=? _); [done|]. intros E. apply res_bind_Ok in E as (r & _ & E).
  destruct listen; [done|]. injection E as <-. split; cbn; set_solver.
Qed.

(** A handler that moves to another phase without copying. *)
Lemma go_inv p p' i h h' :
  inv p → handlers p !! i = Some h → handlers p' = <[i := h']> (handlers p) → router p' = router p →
  closed p' = closed p → closing p' = closing p → h_copy h' = h_copy h → h_address h' = h_address h →
  received p' = received p → sent p' = sent p →
  (∀ b, h_backend h' = Some b ∨ h_server h' = Some b → (h_backend h = Some b ∨ h_server h = Some b) ∨
    b = bedrockroute.SelBackend (bedrockroute.Select (Some (router p)) (h_address h))) →
  (early (h_phase h') = true ∨ h_phase h' = Bridging → early (h_phase h) = true) →
  (∀ s, (i, s) ∈ conns p' ↔ registered (h_phase h') s = true) →
  (∀ s, (i, s) ∈ open p' → may_be_open (h_phase h') s = true) →
  (∀ j s, j ≠ i → ((j, s) ∈ conns p' ↔ (j, s) ∈ conns p) ∧ ((j, s) ∈ open p' → (j, s) ∈ open p)) →
  (∀ s, closed p = true → (i, s) ∈ conns p' → (i, s) ∈ open p' → (i, s) ∈ conns p ∧ (i, s) ∈ open p) →
  inv p'.
Proof.
  intros Hinv Hh Hhs Hr Hc Hcl Hcp Ha Hre Hse Hb He Hreg Hop Hother Hthis.
  pose proof (inv_handler _ Hinv i h Hh) as [H1 H2 H3 H6 H4 H5].
  apply (inv_set p p' i h'); [done..| |done|done|by rewrite Hre, Hse]. split; [done..| | | |].
  - intros d s Hp. rewrite Hcp, H6; [done|]. by apply He; right.
  - intros d Hp. rewrite Hcp. apply H6. by apply He; left.
  - intros d. unfold copy_ok. rewrite Hcp, Hre, Hse. apply H4.
  - intros b Hb'. rewrite Ha, Hr. destruct (Hb b Hb'); [by apply H5|done].
Qed.

(** Goals about which connections are registered or open after an operation. *)
Ltac sets :=
  cbn; intros;
  repeat match goal with
  | H : _ ∈ _ ∪ _ |- _ => apply elem_of_union in H
  | H : _ ∈ _ ∖ _ |- _ => apply elem_of_difference in H as [? ?]
  | H : _ ∈ {[ _ ]} |- _ => apply elem_of_singleton in H
  | H : _ ∨ _ |- _ => destruct H
  | |- _ ∧ _ => split
  | |- _ ↔ _ => split
  end; set_solver.

Ltac sides :=
  intros [];
  repeat match goal with H : ∀ s, (_, s) ∈ conns _ ↔ _ |- _ =>
    pose proof (H Client); pose proof (H Server); clear H end;
  repeat match goal with H : ∀ s, (_, s) ∈ open _ → _ |- _ =>
    pose proof (H Client); pose proof (H Server); clear H end.

Ltac advances Hinv Hh Hp :=
  let Hok := fresh in
  pose proof (inv_handler _ Hinv _ _ Hh) as Hok;
  pose proof (ok_registered _ _ _ Hok); pose proof (ok_open _ _ _ Hok); clear Hok; rewrite Hp in *;
  eapply (go_inv _ _ _ _ _ Hinv Hh);
    [done|done|done|done|done|done|done|done|naive_solver|rewrite Hp; cbn; intuition congruence| | | |];
    [sides; sets|sides; sets|sets|sides; sets].

Lemma accepted_inv p i h : inv p → handlers p !! i = Some h → h_phase h = Accepted → inv (on_accepted p i h).
Proof.
  intros Hinv Hh Hp. unfold on_accepted, registerConn. destruct (closed p) eqn:Ec; advances Hinv Hh Hp.
Qed.

Lemma dial_inv p i h err cancelled :
  inv p → handlers p !! i = Some h → h_phase h = Dialing → inv (on_dial p i h err cancelled).
Proof.
  intros Hinv Hh Hp. unfold on_dial. destruct err as [e|]; [destruct (cancelled || closed p)|]; advances Hinv Hh Hp.
Qed.

Lemma dialed_inv p i h : inv p → handlers p !! i = Some h → h_phase h = Dialed → inv (on_dialed p i h).
Proof.
  intros Hinv Hh Hp. unfold on_dialed, registerConn. destruct (closed p) eqn:Ec; advances Hinv Hh Hp.
Qed.

Lemma spawned_inv p i h err : inv p → handlers p !! i = Some h → h_phase h = Spawning → inv (on_spawned p i h err).
Proof. intros Hinv Hh Hp. unfold on_spawned. destruct err; advances Hinv Hh Hp. Qed.

Lemma bridged_inv p i h : inv p → handlers p !! i = Some h → h_phase h = Bridging → inv (set_handler p i (go h Ending)).
Proof. intros Hinv Hh Hp. advances Hinv Hh Hp. Qed.

Lemma ending_inv p i h : inv p → handlers p !! i = Some h → h_phase h = Ending → inv (on_end p i h).
Proof. intros Hinv Hh Hp. unfold on_end. advances Hinv Hh Hp. Qed.

Lemma ended_inv p i h : inv p → handlers p !! i = Some h → h_phase h = Ended → inv (on_ended p i h).
Proof. intros Hinv Hh Hp. unfold on_ended. advances Hinv Hh Hp. Qed.

Lemma leave_inv p i h : inv p → handlers p !! i = Some h → h_phase h = Leaving → inv (on_leave p i h).
Proof. intros Hinv Hh Hp. unfold on_leave. advances Hinv Hh Hp. Qed.

(** A handler that copies from side [d]. *)
Lemma copy_inv p p' i h d c :
  inv p → handlers p !! i = Some h → h_phase h = Bridging →
  handlers p' = <[i := set_copy h d c]> (handlers p) → router p' = router p → closed p' = closed p →
  closing p' = closing p → conns p' = conns p → open p' ⊆ open p → copy_ok p' i d c →
  (∀ x, x ≠ (i, d) → received p' x = received p x) → (∀ x, x ≠ (i, other d) → sent p' x = sent p x) →
  (running c = running (h_copy h d) ∨ ∀ s, (i, s) ∉ open p') → inv p'.
Proof.
  intros Hinv Hh Hp Hhs Hr Hc Hcl Hcs Hop Hok Hre Hse Hrun.
  pose proof (inv_handler _ Hinv i h Hh) as [H1 H2 H3 H6 H4 H5].
  apply (inv_set p p' i (set_copy h d c)); [done..| |set_solver|set_solver|].
  2: { intros j s Hj. rewrite Hre, Hse by congruence. done. }
  split; cbn.
  - intros s. by rewrite Hcs.
  - intros s Ho. apply H2. set_solver.
  - intros d' s _ Hs. destruct Hrun as [Hrun|]; [|done]. cut ((i, s) ∉ open p); [set_solver|].
    destruct (decide (d' = d)) as [->|]; [apply (H3 d); congruence|by apply (H3 d')].
  - by rewrite Hp.
  - intros d'. destruct (decide (d' = d)) as [->|Hd]; [done|]. unfold copy_ok.
    rewrite Hre, Hse by (destruct d, d'; cbn; congruence). apply H4.
  - intros b Hb. rewrite Hr. by apply H5.
Qed.

Lemma stop_inv p i h d : inv p → handlers p !! i = Some h → h_phase h = Bridging → inv (on_stop p i h d).
Proof.
  intros Hinv Hh Hp. eapply (copy_inv p _ i h d _ Hinv Hh Hp); [done..| | |done|done|].
  - cbn. set_solver.
  - exact (ok_copy _ _ _ (inv_handler _ Hinv i h Hh) d).
  - right. intros []; cbn; set_solver.
Qed.

Lemma read_inv p i h d r :
  inv p → handlers p !! i = Some h → h_phase h = Bridging → running (h_copy h d) = true →
  held (h_copy h d) = None → inv (on_read p i h d r).
Proof.
  intros Hinv Hh Hp Hr Hg. unfold on_read, ReadPacket. case_decide; [|by apply stop_inv].
  destruct r as [pk|]; [|by apply stop_inv]. pose proof (ok_copy _ _ _ (inv_handler _ Hinv i h Hh) d) as Hc.
  eapply (copy_inv p _ i h d _ Hinv Hh Hp); [done..| | |done|by left].
  - unfold copy_ok in *. cbn. unfold log. rewrite decide_True, Hc, Hg by done. by rewrite app_nil_r.
  - intros x Hx. cbn. unfold log. by rewrite decide_False.
Qed.

Lemma write_inv p i h d pk err :
  inv p → handlers p !! i = Some h → h_phase h = Bridging → running (h_copy h d) = true →
  held (h_copy h d) = Some pk → inv (on_write p i h d pk err).
Proof.
  intros Hinv Hh Hp Hr Hg. unfold on_write, WritePacket. case_decide; [|by apply stop_inv].
  destruct err as [e|]; [by apply stop_inv|]. pose proof (ok_copy _ _ _ (inv_handler _ Hinv i h Hh) d) as Hc.
  eapply (copy_inv p _ i h d _ Hinv Hh Hp); [done..| |done| |by left].
  - unfold copy_ok in *. cbn. unfold log. rewrite decide_True, Hc, Hg by done. cbn. by rewrite app_nil_r.
  - intros x Hx. cbn. unfold log. by rewrite decide_False.
Qed.

Lemma advance_inv p i h p' : inv p → handlers p !! i = Some h → advance p i h p' → inv p'.
Proof.
  intros Hinv Hh Ha. destruct Ha as [Hp|err cancelled Hp|Hp|game sp first Hp|d r Hp Hr Hg|d pk err Hp Hr Hg|Hp Hr|Hp|Hp|Hp].
  - by apply accepted_inv.
  - by apply dial_inv.
  - by apply dialed_inv.
  - by apply spawned_inv.
  - by apply read_inv.
  - by apply write_inv.
  - by apply bridged_inv.
  - by apply ending_inv.
  - by apply ended_inv.
  - by apply leave_inv.
Qed.

Lemma proxy_step_inv p p' : step p p' → inv p → inv p'.
Proof.
  intros Hs Hinv. destruct Hs as [p i address Hi|p Hc|p p' Hs].
  - apply (inv_set p _ i {| h_address := address; h_backend := None; h_server := None; h_phase := Accepted;
       h_copy := λ _, {| held := None; running := true |}; h_told := [] |}); [done..| |sets| |done].
    + split; cbn; try done.
      * intros []; destruct (inv_none _ Hinv i Client Hi), (inv_none _ Hinv i Server Hi); sets.
      * intros []; destruct (inv_none _ Hinv i Client Hi), (inv_none _ Hinv i Server Hi); sets.
      * intros d. unfold copy_ok. cbn. destruct (inv_silent _ Hinv i d Hi) as [-> _].
        by destruct (inv_silent _ Hinv i (other d) Hi) as [_ ->].
      * naive_solver.
    + intros s _ Hin. cbn in Hin. by destruct (inv_none _ Hinv i s Hi).
  - destruct Hinv as [Hh Hn Hsil Hcl Hcn]. split; cbn; [|done|done| |done].
    + intros i h [H1 H2 H3 H4 H5 H6]%Hh. by split.
    + intros c _ Hin _. by apply elem_of_elements.
  - destruct Hs as [p i h p' Hh Ha|p c rest Hc]; [by eapply advance_inv|].
    destruct Hinv as [Hh Hn Hsil Hcl Hcn]. split; cbn.
    + intros i h [H1 H2 H3 H4 H5 H6]%Hh. split; try done; cbn; [sets|]. intros d s ? ?. specialize (H3 d s). sets.
    + intros i s Hi. destruct (Hn i s Hi). sets.
    + done.
    + intros x Hcd Hx [Ho Hne]%elem_of_difference. specialize (Hcl x Hcd Hx Ho). rewrite Hc in Hcl. set_solver.
    + intros Hcd. specialize (Hcn Hcd). congruence.
Qed.

Lemma proxy_steps_inv c listen p0 p : New c listen = Ok p0 → rtc step p0 p → inv p.
Proof.
  intros Hn Hs. apply new_inv in Hn. induction Hs as [|p0 p1 p2 H1 _ IH]; [done|]. by eapply IH, proxy_step_inv.
Qed.

End invariant.

Lemma inner_router {P : Type} (p p' : bedrockproxy.Proxy P) :
  bedrockproxy.inner p p' → bedrockproxy.router p' = bedrockproxy.router p.
Proof.
  destruct 1 as [p i h p' _ Ha|]; [|done]. destruct Ha; try done;
    unfold bedrockproxy.on_accepted, bedrockproxy.on_dial, bedrockproxy.on_dialed, bedrockproxy.registerConn,
      bedrockproxy.on_read, bedrockproxy.on_write, bedrockproxy.ReadPacket, bedrockproxy.WritePacket;
    repeat case_match; simplify_eq; done.
Qed.

Lemma steps_router {P : Type} (p p' : bedrockproxy.Proxy P) :
  rtc bedrockproxy.step p p' → bedrockproxy.router p' = bedrockproxy.router p.
Proof.
  induction 1 as [|p p1 p2 H1 _ IH]; [done|]. rewrite IH.
  destruct H1 as [| |p p' H1%inner_router]; done.
Qed.

(** ** Draining *)

Section draining.
Import bedrockproxy.
Context {P : Type}.
Implicit Types (p : Proxy P) (h : handler P).

(** How much a handler has left to do when nothing can be read any more. *)
Definition copy_weight (c : copier P) : nat :=
  if running c then 1 + length (option_list (held c)) else 0.

Definition handler_weight h : nat :=
  match h_phase h with
  | Accepted => 12 | Dialing => 11 | Dialed => 10 | Spawning => 9
  | Bridging => 4 + copy_weight (h_copy h Client) + copy_weight (h_copy h Server)
  | Ending => 3 | Ended => 2 | Leaving => 1 | Done => 0
  end.

Definition weight p : nat := map_fold (λ _ h n, handler_weight h + n)%nat 0%nat (handlers p).

Lemma weight_delete p i h :
  handlers p !! i = Some h →
  weight p = (handler_weight h + map_fold (λ _ h n, handler_weight h + n)%nat 0%nat (delete i (handlers p)))%nat.
Proof. intros Hh. unfold weight. rewrite (map_fold_delete_L _ _ i h); [done| |done]. intros; lia. Qed.

Lemma weight_set p p' i h h' :
  handlers p !! i = Some h → handlers p' = <[i := h']> (handlers p) → (handler_weight h' < handler_weight h)%nat →
  (weight p' < weight p)%nat.
Proof.
  intros Hh Hhs Hlt. rewrite (weight_delete p i h Hh). rewrite (weight_delete p' i h'); rewrite Hhs.
  - rewrite delete_insert_eq. lia.
  - apply lookup_insert_eq.
Qed.

(** The state after [Close] has closed the connections it found. *)
Definition drained p : Prop := closed p = true ∧ closing p = [].

Lemma drained_shut p c : inv p → drained p → c ∈ conns p → c ∉ open p.
Proof. intros Hinv [Hc Hcl] Hin Ho. pose proof (inv_closed _ Hinv c Hc Hin Ho) as H. rewrite Hcl in H. by apply not_elem_of_nil in H. Qed.

Lemma copy_weight_bound c : (copy_weight c ≤ 2)%nat.
Proof. unfold copy_weight. destruct (running c), (held c); cbn; lia. Qed.

Lemma bridging_weight h d c :
  h_phase h = Bridging → (copy_weight c < copy_weight (h_copy h d))%nat →
  (handler_weight (set_copy h d c) < handler_weight h)%nat.
Proof. intros Hp Hlt. unfold handler_weight. cbn. rewrite Hp. destruct d; repeat case_decide; simplify_eq; lia. Qed.

Lemma inner_weight p p' : inv p → drained p → inner p p' → (weight p' < weight p)%nat ∧ drained p'.
Proof.
  intros Hinv Hd Hs. destruct Hs as [p i h p' Hh Ha|p c rest Hc]; [|destruct Hd; congruence].
  pose proof (inv_handler _ Hinv i h Hh) as Hok. destruct Hd as [Hc Hcl].
  assert (∀ s, registered (h_phase h) s = true → (i, s) ∉ open p) as Hshut.
  { intros s Hr. apply drained_shut; [done|done|]. by apply (ok_registered _ _ _ Hok). }
  assert (∀ d, h_phase h = Bridging → running (h_copy h d) = true →
    (weight (on_stop p i h d) < weight p)%nat ∧ drained (on_stop p i h d)) as Hstop.
  { intros d Hp Hr. split; [|done]. eapply weight_set; [exact Hh|done|]. apply bridging_weight; [done|].
    unfold copy_weight. rewrite Hr. cbn. lia. }
  destruct Ha as [Hp|err cancelled Hp|Hp|game sp first Hp|d r Hp Hr Hg|d pk err Hp Hr Hg|Hp Hr|Hp|Hp|Hp].
  - unfold on_accepted, registerConn. rewrite Hc. split; [|done].
    eapply weight_set; [exact Hh|done|]. unfold handler_weight. cbn. rewrite Hp. lia.
  - unfold on_dial. rewrite Hc, orb_true_r. destruct err; (split; [|done]);
      (eapply weight_set; [exact Hh|done|]; unfold handler_weight; cbn; rewrite Hp; lia).
  - unfold on_dialed, registerConn. rewrite Hc. split; [|done].
    eapply weight_set; [exact Hh|done|]. unfold handler_weight. cbn. rewrite Hp. lia.
  - split; [|done]. eapply weight_set; [exact Hh|done|]. unfold handler_weight. cbn. rewrite Hp.
    pose proof (copy_weight_bound (h_copy h Client)). pose proof (copy_weight_bound (h_copy h Server)).
    destruct (spawn game sp first); lia.
  - unfold on_read, ReadPacket. rewrite decide_False by (apply Hshut; rewrite Hp; by destruct d). by apply Hstop.
  - unfold on_write, WritePacket. rewrite decide_False by (apply Hshut; rewrite Hp; by destruct d). by apply Hstop.
  - split; [|done]. eapply weight_set; [exact Hh|done|]. unfold handler_weight. cbn. rewrite Hp. lia.
  - split; [|done]. eapply weight_set; [exact Hh|done|]. unfold handler_weight. cbn. rewrite Hp. lia.
  - split; [|done]. eapply weight_set; [exact Hh|done|]. unfold handler_weight. cbn. rewrite Hp. lia.
  - split; [|done]. eapply weight_set; [exact Hh|done|]. unfold handler_weight. cbn. rewrite Hp. lia.
Qed.

Lemma handler_progress p i h : handlers p !! i = Some h → h_phase h ≠ Done → ∃ p', inner p p'.
Proof.
  intros Hh Hne. cut (∃ p', advance p i h p'); [intros [p' Ha]; exists p'; by eapply inner_handler|].
  destruct (h_phase h) eqn:Hp; try done.
  - eexists. by apply adv_accepted.
  - eexists. by apply (adv_dial _ _ _ None false).
  - eexists. by apply adv_dialed.
  - eexists. by apply (adv_spawned _ _ _ None None false).
  - assert (∀ d, running (h_copy h d) = true → ∃ p', advance p i h p') as Hd.
    { intros d Hr. destruct (held (h_copy h d)) as [pk|] eqn:E.
      - eexists. by apply (adv_write _ _ _ d pk None).
      - eexists. by apply (adv_read _ _ _ d (Err (errors_New "closed"))). }
    destruct (running (h_copy h Client)) eqn:E1; [by apply (Hd Client)|].
    destruct (running (h_copy h Server)) eqn:E2; [by apply (Hd Server)|]. eexists. apply adv_bridged; [done|]. by intros [].
  - eexists. by apply adv_end.
  - eexists. by apply adv_ended.
  - eexists. by apply adv_leave.
Qed.

End draining.

(** ** Properties *)

Section properties.
Import bedrockproxy.
Context {P : Type}.
Implicit Types (p : Proxy P) (h : handler P).

(** C21: no Bedrock connection is left behind, however accepting, handling and [Close]
    interleave: when every handler has returned no connection is open and none is
    registered; and once [Close] has closed what it found, no registered connection
    is open, so that no player goes on playing through a closed proxy. *)
Theorem host_proxy_closes_all c listen p0 p :
  New c listen = Ok p0 → rtc step p0 p →
  ((∀ i h, handlers p !! i = Some h → h_phase h = Done) → conns p = ∅ ∧ open p = ∅) ∧
  (closed p = true → closing p = [] → ∀ x, x ∈ conns p → x ∉ open p).
Proof.
  intros Hn Hs. pose proof (proxy_steps_inv _ _ _ _ Hn Hs) as Hinv. split.
  - intros Hd. split; apply set_eq; intros [i s]; (split; [|set_solver]); intros Hin.
    all: destruct (handlers p !! i) as [h|] eqn:E; [|by destruct (inv_none _ Hinv i s E)].
    all: pose proof (inv_handler _ Hinv i h E) as Hok; pose proof (Hd i h E) as Hp.
    + apply (ok_registered _ _ _ Hok) in Hin. rewrite Hp in Hin. by destruct s.
    + apply (ok_open _ _ _ Hok) in Hin. rewrite Hp in Hin. by destruct s.
  - intros Hc Hcl x. by apply drained_shut.
Qed.

Lemma copy_ok_split p i d k :
  copy_ok p i d k → received p (i, d) = sent p (i, other d) ∨ ∃ pk, received p (i, d) = sent p (i, other d) ++ [pk].
Proof.
  unfold copy_ok. intros ->. destruct (held k) as [pk|]; [right; by exists pk|left; apply app_nil_r].
Qed.

(** C22: the backend connection of a Bedrock client is dialled to the backend that a scan
    of the configured routes gives for the host the client asked for, and the copying
    between the two is transparent: the packets written to each of the two connections are
    those that were read from the other, in order, but for at most the last one, which the
    loop has in hand. Other connections have no part in it. *)
Theorem host_proxy_transparent c listen p0 p i h :
  New c listen = Ok p0 → rtc step p0 p → handlers p !! i = Some h →
  (∀ b, h_server h = Some b →
     b = bedrockroute.SelBackend (bedrockroute.select_spec (DefaultBackend c) (Routes c) (h_address h))) ∧
  (received p (i, Client) = sent p (i, Server) ∨ ∃ pk, received p (i, Client) = sent p (i, Server) ++ [pk]) ∧
  (received p (i, Server) = sent p (i, Client) ∨ ∃ pk, received p (i, Server) = sent p (i, Client) ++ [pk]).
Proof.
  intros Hn Hs Hh. pose proof (proxy_steps_inv _ _ _ _ Hn Hs) as Hinv.
  destruct (inv_handler _ Hinv i h Hh) as [_ _ _ _ Hcopy Hb]. split_and!.
  - intros b E. rewrite (Hb b (or_intror E)). f_equal. apply Select_refines_scan. rewrite (steps_router _ _ Hs).
    unfold New in Hn. destruct (_ <=? _); [done|]. apply res_bind_Ok in Hn as (r & Hr & Hn).
    destruct listen; [done|]. by injection Hn as <-.
  - exact (copy_ok_split _ _ _ _ (Hcopy Client)).
  - exact (copy_ok_split _ _ _ _ (Hcopy Server)).
Qed.

(** A closed proxy drains: once [Close] has closed what it found, what is under way
    has no infinite run, never gets stuck before every handler has returned, and
    stays in such a state, so that [Serve], which waits for the handlers, returns. *)
Theorem host_proxy_drains c listen p0 p :
  New c listen = Ok p0 → rtc step p0 p → closed p = true → closing p = [] →
  Acc (flip inner) p ∧
  ((∀ i h, handlers p !! i = Some h → h_phase h = Done) ∨ ∃ p', inner p p') .
Proof.
  intros Hn Hs Hc Hcl. pose proof (proxy_steps_inv _ _ _ _ Hn Hs) as Hinv. split.
  - assert (drained p) as Hd by done. clear Hn Hs Hc Hcl.
    induction p as [p IH] using (induction_ltof1 _ weight). constructor. intros p' Hp'.
    destruct (inner_weight p p' Hinv Hd Hp'). apply IH; [done| |done]. eapply proxy_step_inv; [by apply step_inner|done].
  - destruct (decide (map_Forall (λ _ h, h_phase h = Done) (handlers p))) as [Ha|Hne].
    + left. intros i h Hh. by apply (Ha i).
    + right. apply map_not_Forall in Hne as (i & h & Hh & Hne); [|apply _]. by eapply handler_progress.
Qed.

End properties.

(** ** Witnesses *)

Section witnesses.
Import bedrockproxy.

Definition sample_config : Config := {|
  Listen := gs":19132"; DefaultBackend := gs"d:19132"; Routes := BedrockRoute.sample_routes;
  BackendDialTimeout := 5000000000 |}.

(** A client is accepted and connected, one of its packets is copied, a second one is
    read, and then the proxy is closed: both connections are closed with the packet
    still in hand. *)
Definition sample_proxy : Proxy nat :=
  match New sample_config None with
  | Ok p => p
  | Err _ => {| router := {| bedrockroute.defaultBackend := []; bedrockroute.hosts := ∅ |}; handlers := ∅;
                conns := ∅; open := ∅; closed := true; closing := []; received := λ _, []; sent := λ _, [] |}
  end.

Lemma sample_new : New sample_config None = Ok sample_proxy.
Proof.
  assert (is_ok (New (P := nat) sample_config None) = true) as Hok by (vm_compute; reflexivity).
  unfold sample_proxy. revert Hok. by destruct (New _ _).
Qed.

Definition on_first {P} (f : Proxy P → nat → handler P → Proxy P) (p : Proxy P) : Proxy P :=
  match handlers p !! 0%nat with Some h => f p 0%nat h | None => p end.

Definition closes_one {P} (p : Proxy P) : Proxy P :=
  match closing p with
  | [] => p
  | c :: rest => {| router := router p; handlers := handlers p; conns := conns p; open := open p ∖ {[c]};
                    closed := closed p; closing := rest; received := received p; sent := sent p |}
  end.

(** The first handler is in phase [ph], and what is to be read or written next is so. *)
Definition in_phase {P} `{EqDecision P} (p : Proxy P) (ph : phase) (c : option (option P)) : bool :=
  match handlers p !! 0%nat with
  | None => false
  | Some h =>
      bool_decide (h_phase h = ph) &&
      match c with
      | None => true
      | Some g => running (h_copy h Client) && bool_decide (held (h_copy h Client) = g)
      end
  end.

Lemma on_first_step {P} `{EqDecision P} (f : Proxy P → nat → handler P → Proxy P) p ph c :
  in_phase p ph c = true →
  (∀ h, h_phase h = ph →
     (∀ g, c = Some g → running (h_copy h Client) = true ∧ held (h_copy h Client) = g) →
     advance p 0%nat h (f p 0%nat h)) →
  step p (on_first f p).
Proof.
  unfold in_phase, on_first. destruct (handlers p !! 0%nat) as [h|] eqn:Hh; [|done].
  intros [Hp Hc]%andb_true_iff Ha. apply step_inner. eapply inner_handler; [done|]. apply Ha.
  - by apply bool_decide_eq_true in Hp.
  - intros g ->. rewrite !andb_true_iff, !bool_decide_eq_true in Hc. tauto.
Qed.

Lemma closes_one_step {P} (p : Proxy P) : closing p ≠ [] → step p (closes_one p).
Proof. unfold closes_one. destruct (closing p) eqn:E; [done|]. intros _. apply step_inner. by apply inner_closing. Qed.

Lemma sample_closed :
  ∃ p, rtc step sample_proxy p ∧ closed p = true ∧ closing p = [] ∧ size (conns p) = 2%nat ∧
    received p (0%nat, Client) = [7; 8]%nat ∧ sent p (0%nat, Server) = [7]%nat ∧
    ∃ h, handlers p !! 0%nat = Some h ∧ h_server h = Some gs"b2:19132".
Proof.
  set (p1 := accept sample_proxy 0 gs"OTHER.example.com:1"). set (p2 := on_first on_accepted p1).
  set (p3 := on_first (λ p i h, on_dial p i h None false) p2). set (p4 := on_first on_dialed p3).
  set (p5 := on_first (λ p i h, on_spawned p i h None) p4).
  set (p6 := on_first (λ p i h, on_read p i h Client (Ok 7%nat)) p5).
  set (p7 := on_first (λ p i h, on_write p i h Client 7%nat None) p6).
  set (p8 := on_first (λ p i h, on_read p i h Client (Ok 8%nat)) p7).
  exists (closes_one (closes_one (Close p8))). split.
  - eapply rtc_l; [apply (step_accept sample_proxy 0); by vm_compute|].
    eapply rtc_l; [apply (on_first_step on_accepted p1 Accepted None); [by vm_compute|intros; by apply adv_accepted]|].
    eapply rtc_l; [apply (on_first_step (λ p i h, on_dial p i h None false) p2 Dialing None);
      [by vm_compute|intros; by apply adv_dial]|].
    eapply rtc_l; [apply (on_first_step on_dialed p3 Dialed None); [by vm_compute|intros; by apply adv_dialed]|].
    eapply rtc_l; [apply (on_first_step (λ p i h, on_spawned p i h None) p4 Spawning None);
      [by vm_compute|intros; by apply (adv_spawned _ _ _ None None false)]|].
    eapply rtc_l; [apply (on_first_step (λ p i h, on_read p i h Client (Ok 7%nat)) p5 Bridging (Some None));
      [by vm_compute|intros h Hp Hc; destruct (Hc _ eq_refl); by apply adv_read]|].
    eapply rtc_l; [apply (on_first_step (λ p i h, on_write p i h Client 7%nat None) p6 Bridging (Some (Some 7%nat)));
      [by vm_compute|intros h Hp Hc; destruct (Hc _ eq_refl); by apply adv_write]|].
    eapply rtc_l; [apply (on_first_step (λ p i h, on_read p i h Client (Ok 8%nat)) p7 Bridging (Some None));
      [by vm_compute|intros h Hp Hc; destruct (Hc _ eq_refl); by apply adv_read]|].
    eapply rtc_l; [apply (step_close p8); by vm_compute|].
    eapply rtc_l; [apply closes_one_step; by vm_compute|]. eapply rtc_l; [apply closes_one_step; by vm_compute|].
    apply rtc_refl.
  - do 5 (split; [by vm_compute|]). set (pf := closes_one _).
    assert (match handlers pf !! 0%nat with
            | Some h => bool_decide (h_server h = Some gs"b2:19132")
            | None => false
            end = true) as Hf by by vm_compute.
    clearbody pf. destruct (handlers pf !! 0%nat) as [h|]; [|done]. apply bool_decide_eq_true in Hf. by exists h.
Qed.

Lemma host_proxy_closes_all_witness :
  ∃ p, closed (P := nat) p = true ∧ size (conns p) = 2%nat ∧ ∀ x, x ∈ conns p → x ∉ open p.
Proof.
  destruct sample_closed as (p & Hs & Hc & Hcl & Hsz & _). exists p. split; [exact Hc|]. split; [exact Hsz|].
  apply (host_proxy_closes_all sample_config None sample_proxy p sample_new Hs); [exact Hc|exact Hcl].
Defined.

Lemma host_proxy_transparent_witness :
  ∃ p h, handlers (P := nat) p !! 0%nat = Some h ∧ h_server h = Some gs"b2:19132" ∧
    gs"b2:19132" = bedrockroute.SelBackend (bedrockroute.select_spec gs"d:19132" BedrockRoute.sample_routes (h_address h)).
Proof.
  destruct sample_closed as (p & Hs & _ & _ & _ & _ & _ & h & Hh & Hb). exists p, h. split; [exact Hh|]. split; [exact Hb|].
  apply (host_proxy_transparent sample_config None sample_proxy p 0 h sample_new Hs Hh). exact Hb.
Defined.

Lemma host_proxy_drains_witness : ∃ p, size (conns (P := nat) p) = 2%nat ∧ Acc (flip inner) p.
Proof.
  destruct sample_closed as (p & Hs & Hc & Hcl & Hsz & _). exists p. split; [exact Hsz|].
  apply (host_proxy_drains sample_config None sample_proxy p sample_new Hs Hc Hcl).
Defined.

End witnesses.
