(* ===== verification/Config.v ===== *)
(** * The configuration ([internal/config])

    The configuration records, the defaults and every validator, in the order the
    code runs them: a validator collects all its complaints, [Validate] joins
    them. What the code asks of the outside - environment variables, name
    resolution, URL parsing, the YAML decoder, the iteration order of a Go map -
    is the class [Env]. *)
From Stdlib Require Import Floats.SpecFloat.
From S2P Require Import Prelude GoUnicode GoStrings GoNet HostAddr Tables.
From S2P Require Import ClientPolicy GoIO McProto ProxyProtocol BedrockRoute.
Import gostrings.
Open Scope Z_scope.

Module config.

(** ** Constants *)

Definition Millisecond : Z := 1000000.
Definition Second : Z := 1000 * Millisecond.
Definition Minute : Z := 60 * Second.
Definition Hour : Z := 60 * Minute.

Definition UnknownHostDeny : bytes := gs"deny".
Definition UnknownHostDefault : bytes := gs"default".
Definition RouteModeAllow : bytes := gs"allow".
Definition KubernetesDiscoveryModeAnnotations : bytes := gs"service-annotations".
Definition BedrockModeUDPForward : bytes := gs"udp-forward".
Definition BedrockModeHostProxy : bytes := gs"host-proxy".
Definition DefaultKubernetesAnnotationPrefix : bytes := gs"mc-router.alexandergg.com".
Definition MaxUDPRelayIdleTimeout : Z := 24 * Hour.
Definition MaxUDPRelaySessions : Z := 65536.
Definition MaxUDPRelayPacketSize : Z := 65535.
Definition MaxVoiceChatRegistrations : Z := 65536.
Definition MaxClientRateLimitEntries : Z := 65536.
Definition MaxClientRateLimitIdleTimeout : Z := 24 * Hour.
Definition MinConfigReloadDebounce : Z := 100 * Millisecond.
Definition MaxConfigReloadDebounce : Z := Minute.
Definition DefaultBedrockSessionTimeout : Z := 30 * Second.

(** ** Records. A duration is its nanoseconds, a float is a binary64. *)

Record ClientPolicy := { cp_Allow : list bytes; cp_Deny : list bytes }.

Record ClientRateLimit := {
  rl_Enabled : bool;
  rl_ConnectionsPerSecond : spec_float;
  rl_Burst : Z;
  rl_IdleTimeout : Z;
  rl_MaxEntries : Z
}.

Record ProxyProtocol := { pp_TrustedProxies : list bytes }.

Record ScalerWebhook := {
  sw_Enabled : bool;
  sw_URL : bytes;
  sw_Timeout : Z;
  sw_Headers : gmap bytes bytes
}.

Record ConfigReload := { cr_Watch : bool; cr_Debounce : Z }.

Record AvailabilityBackend := { ab_ID : bytes; ab_Address : bytes; ab_ServerAddress : bytes }.

Record Availability := {
  av_Enabled : bool;
  av_Interval : Z;
  av_Timeout : Z;
  av_ControlURL : bytes;
  av_TokenEnv : bytes;
  av_Backends : list AvailabilityBackend
}.

Record FallbackLogin := {
  fl_Enabled : bool;
  fl_RespondOnRouteDenied : option bool;
  fl_Message : bytes
}.

Record FallbackStatus := {
  fs_Enabled : bool;
  fs_RespondOnRouteDenied : option bool;
  fs_RespondOnBackendFailure : bool;
  fs_MOTD : bytes;
  fs_ProtocolName : bytes;
  fs_ProtocolVersion : Z;
  fs_MaxPlayers : Z;
  fs_OnlinePlayers : Z
}.

Record Fallback := { fb_Enabled : bool; fb_Login : FallbackLogin; fb_Status : FallbackStatus }.

Record Metrics := { me_Enabled : bool; me_Listen : bytes; me_Path : bytes }.

Record UDPRelay := {
  ur_Enabled : bool;
  ur_Listen : bytes;
  ur_Backend : bytes;
  ur_IdleTimeout : Z;
  ur_BackendDialTimeout : Z;
  ur_MaxSessions : Z;
  ur_MaxPacketSize : Z
}.

Record BedrockRoute := { br_Name : bytes; br_Hosts : list bytes; br_Backend : bytes }.

Record Bedrock := {
  be_Enabled : bool;
  be_Mode : bytes;
  be_Listen : bytes;
  be_DefaultBackend : bytes;
  be_SessionTimeout : Z;
  be_Routes : list BedrockRoute
}.

Record VoiceRegistration := {
  vr_Listen : bytes;
  vr_RegistrationTTL : Z;
  vr_RequestTimeout : Z;
  vr_MaxRegistrations : Z
}.

Record VoiceSession := {
  vs_IdleTimeout : Z;
  vs_BackendDialTimeout : Z;
  vs_MaxSessions : Z;
  vs_MaxPacketSize : Z
}.

Record VoiceBackend := { vb_UDP : bytes; vb_TokenEnv : bytes; vb_token : bytes }.

Definition Token (b : VoiceBackend) : bytes := vb_token b.

Record VoiceChat := {
  vc_Enabled : bool;
  vc_Listen : bytes;
  vc_Registration : VoiceRegistration;
  vc_Session : VoiceSession;
  vc_Backends : gmap bytes VoiceBackend
}.

Record KubernetesDiscovery := {
  kd_Enabled : bool;
  kd_Namespace : bytes;
  kd_Mode : bytes;
  kd_AnnotationPrefix : bytes
}.

Record Discovery := { di_Kubernetes : KubernetesDiscovery }.

Record DefaultRoute := { dr_Backend : bytes; dr_Mode : bytes }.

Record StatusOverride := {
  so_MOTD : bytes;
  so_ProtocolName : bytes;
  so_ProtocolVersion : Z;
  so_MaxPlayers : Z;
  so_OnlinePlayers : Z
}.

Record Route := {
  ServerAddress : bytes;
  Aliases : list bytes;
  Backend : bytes;
  StatusBackend : bytes;
  StatusOverride_ : option StatusOverride;
  Source : bytes
}.

Record Config := {
  Listen : bytes;
  HandshakeTimeout : Z;
  BackendDialTimeout : Z;
  ClientPolicy_ : ClientPolicy;
  ClientRateLimit_ : ClientRateLimit;
  ProxyProtocol_ : ProxyProtocol;
  ScalerWebhook_ : ScalerWebhook;
  ConfigReload_ : ConfigReload;
  Availability_ : Availability;
  Metrics_ : Metrics;
  UDPRelay_ : UDPRelay;
  Bedrock_ : Bedrock;
  VoiceChat_ : VoiceChat;
  Fallback_ : Fallback;
  Discovery_ : Discovery;
  DefaultRoute_ : DefaultRoute;
  Routes : list Route;
  UnknownHostPolicy : bytes
}.

(** ** Defaults *)

Definition Defaults : Config := {|
  Listen := gs":25565";
  HandshakeTimeout := 5 * Second;
  BackendDialTimeout := 5 * Second;
  UnknownHostPolicy := UnknownHostDeny;
  ClientPolicy_ := {| cp_Allow := []; cp_Deny := [] |};
  ClientRateLimit_ := {|
    rl_Enabled := false;
    rl_ConnectionsPerSecond := binary_normalize 53 1024 1 0 false;
    rl_Burst := 3;
    rl_IdleTimeout := 10 * Minute;
    rl_MaxEntries := 4096 |};
  ProxyProtocol_ := {| pp_TrustedProxies := [] |};
  ScalerWebhook_ := {| sw_Enabled := false; sw_URL := []; sw_Timeout := 2 * Second; sw_Headers := ∅ |};
  ConfigReload_ := {| cr_Watch := false; cr_Debounce := Second |};
  Availability_ := {|
    av_Enabled := false; av_Interval := 10 * Second; av_Timeout := 3 * Second;
    av_ControlURL := []; av_TokenEnv := []; av_Backends := [] |};
  Metrics_ := {| me_Enabled := false; me_Listen := gs":9090"; me_Path := gs"/metrics" |};
  UDPRelay_ := {|
    ur_Enabled := false;
    ur_Listen := gs":24454";
    ur_Backend := gs"127.0.0.1:24454";
    ur_IdleTimeout := 30 * Second;
    ur_BackendDialTimeout := 5 * Second;
    ur_MaxSessions := 4096;
    ur_MaxPacketSize := MaxUDPRelayPacketSize |};
  Bedrock_ := {|
    be_Enabled := false; be_Mode := BedrockModeUDPForward; be_Listen := []; be_DefaultBackend := [];
    be_SessionTimeout := DefaultBedrockSessionTimeout; be_Routes := [] |};
  VoiceChat_ := {|
    vc_Enabled := false;
    vc_Listen := gs":24454";
    vc_Registration := {|
      vr_Listen := gs"127.0.0.1:9091";
      vr_RegistrationTTL := 30 * Second;
      vr_RequestTimeout := 5 * Second;
      vr_MaxRegistrations := 4096 |};
    vc_Session := {|
      vs_IdleTimeout := 30 * Second;
      vs_BackendDialTimeout := 5 * Second;
      vs_MaxSessions := 4096;
      vs_MaxPacketSize := MaxUDPRelayPacketSize |};
    vc_Backends := ∅ |};
  Discovery_ := {| di_Kubernetes := {|
    kd_Enabled := false; kd_Namespace := [];
    kd_Mode := KubernetesDiscoveryModeAnnotations;
    kd_AnnotationPrefix := DefaultKubernetesAnnotationPrefix |} |};
  Fallback_ := {|
    fb_Enabled := false;
    fb_Login := {|
      fl_Enabled := false;
      fl_RespondOnRouteDenied := Some true;
      fl_Message := gs"Server unavailable. Please try again later." |};
    fb_Status := {|
      fs_Enabled := false;
      fs_RespondOnRouteDenied := Some true;
      fs_RespondOnBackendFailure := false;
      fs_MOTD := gs"Server unavailable";
      fs_ProtocolName := gs"mc-gateway";
      fs_ProtocolVersion := 767;
      fs_MaxPlayers := 0;
      fs_OnlinePlayers := 0 |} |};
  DefaultRoute_ := {| dr_Backend := []; dr_Mode := RouteModeAllow |};
  Routes := []
|}.

(** ** The outside *)

(** What the gateway asks its surroundings. The answers are those of one environment: a
    validation that is repeated under the same instance gets the same answers, so that a
    resolver that changes its mind between two reloads is not covered by theorems about
    several operations. *)
Class Env := {
  (** [os.Getenv]; the empty string when unset. *)
  Getenv : bytes → bytes;
  (** [net.ResolveUDPAddr("udp", _)] and [net.ResolveTCPAddr("tcp", _)]: they ask the
      system's resolver for host and service names. *)
  ResolveUDPAddr : bytes → res net.UDPAddr;
  ResolveTCPAddr : bytes → res net.UDPAddr;
  (** The scheme and the host of [url.ParseRequestURI]. *)
  ParseRequestURI : bytes → res (bytes * bytes);
  (** The order in which [range] visits a map of voice backends. *)
  iter_backends : gmap bytes VoiceBackend → list (bytes * VoiceBackend);
  (** The YAML decoder with [KnownFields(true)], decoding over a configuration. *)
  yaml_decode : Config → bytes → res Config;
  ReadFile : bytes → res bytes
}.

(** ** Validators *)

(** [if b { errs = append(errs, e) }]. *)
Definition guard (b : bool) (e : error) : list error := if b then [e] else [].

(** [if err := ...; err != nil { errs = append(errs, wrap(err)) }]. *)
Definition report (wrap : error → error) (o : option error) : list error :=
  match o with Some e => [wrap e] | None => [] end.

Definition err_of {A} (m : res A) : option error :=
  match m with Ok _ => None | Err e => Some e end.

(** [if cond1 { e1 } else if err := ...; err != nil { wrap(err) }]. *)
Definition either (b : bool) (e : error) (wrap : error → error) (o : option error) : list error :=
  if b then [e] else report wrap o.

Definition blank (s : bytes) : bool := bool_decide (TrimSpace s = []).
Definition under (format : string) (e : error) : error := Errorf format [] [e].
Definition msg (m : string) : error := errors_New m.
Definition quoted_msg (format : string) (s : bytes) : error := Errorf format [AStr s] [].
Definition limit_msg (format : string) (n : Z) : error := Errorf format [AInt n] [].

Definition isDNSLabel (value : bytes) : bool :=
  negb ((length value <? 1)%nat || (63 <? length value)%nat) &&
  forallb (λ c, ((0x61 <=? bv c) && (bv c <=? 0x7A)) || ((0x30 <=? bv c) && (bv c <=? 0x39))
                || (bv c =? 0x2D)) value &&
  bool_decide (head value ≠ Some "-"%byte) && bool_decide (last value ≠ Some "-"%byte).

Definition validateBackend (backend : bytes) : option error :=
  match net.SplitHostPort backend with
  | Err e => Some (under "must be host:port: %w" e)
  | Ok (host, port) =>
      if blank host then Some (msg "host must not be empty")
      else if blank port then Some (msg "port must not be empty")
      else
        let bad := Some (msg "port must be an integer from 1 to 65535") in
        match strconv.Atoi port with
        | Err _ => bad
        | Ok parsedPort =>
            if (parsedPort <? 1) || (65535 <? parsedPort) then bad
            else match hostaddr.Normalize host with
                 | Err e => Some (under "host: %w" e)
                 | Ok _ => None
                 end
        end
  end.

Definition validateUDPBackendAddress (backend : bytes) : option error :=
  match net.SplitHostPort backend with
  | Err e => Some e
  | Ok (host, _) =>
      match net.ParseIP host with
      | None => None
      | Some ip =>
          if net.IsUnspecified ip then Some (msg "host must not be an unspecified address")
          else if net.IsMulticast ip then Some (msg "host must not be a multicast address")
          else if net.IsIPv4bcast ip then Some (msg "host must not be the IPv4 broadcast address")
          else None
      end
  end.

(** The two checks of a UDP backend, the second only if the first passes. *)
Definition check_udp_backend (wrap : error → error) (backend : bytes) : list error :=
  match validateBackend backend with
  | Some e => [wrap e]
  | None => report wrap (validateUDPBackendAddress backend)
  end.

Definition validateAnnotationPrefix (prefix : bytes) : option error :=
  if blank prefix then Some (msg "must not be empty")
  else if bool_decide (TrimSpace prefix ≠ prefix)
  then Some (msg "must not contain leading or trailing whitespace")
  else if ContainsByte prefix "/"%byte then Some (msg "must not contain /")
  else match hostaddr.Normalize prefix with
       | Err e => Some e
       | Ok normalized =>
           if bool_decide (normalized ≠ prefix)
           then Some (msg "must be a canonical lowercase DNS subdomain") else None
       end.

Definition validateKubernetesDiscovery (k : KubernetesDiscovery) : option error :=
  if negb (kd_Enabled k) && bool_decide (kd_Namespace k = []) && bool_decide (kd_Mode k = [])
     && bool_decide (kd_AnnotationPrefix k = [])
  then None
  else errors_Join (
    guard (bool_decide (kd_Mode k ≠ KubernetesDiscoveryModeAnnotations))
      (quoted_msg "discovery.kubernetes.mode only supports %q" KubernetesDiscoveryModeAnnotations) ++
    report (under "discovery.kubernetes.annotationPrefix: %w")
      (validateAnnotationPrefix (kd_AnnotationPrefix k)) ++
    (let namespace := TrimSpace (kd_Namespace k) in
     if decide (namespace = []) then []
     else
       guard (bool_decide (namespace ≠ kd_Namespace k))
         (msg "discovery.kubernetes.namespace must not contain leading or trailing whitespace") ++
       guard (negb (isDNSLabel namespace))
         (msg "discovery.kubernetes.namespace must be empty or a DNS label"))).

Definition validateClientPolicy (policy : ClientPolicy) : option error :=
  match clientpolicy.New (cp_Allow policy) (cp_Deny policy) with
  | Err e => Some (under "clientPolicy: %w" e)
  | Ok _ => None
  end.

(** [x <= 0 || math.IsNaN(x) || math.IsInf(x, 0)]. *)
Definition not_positive_finite (x : spec_float) : bool :=
  SFleb x (S754_zero false)
  || (match x with S754_nan => true | _ => false end)
  || (match x with S754_infinity _ => true | _ => false end).

Definition validateClientRateLimit (limit : ClientRateLimit) : option error :=
  if negb (rl_Enabled limit) then None
  else errors_Join (
    guard (not_positive_finite (rl_ConnectionsPerSecond limit))
      (msg "clientRateLimit.connectionsPerSecond must be positive when enabled") ++
    guard (rl_Burst limit <? 1) (msg "clientRateLimit.burst must be at least 1 when enabled") ++
    (if rl_IdleTimeout limit <=? 0
     then [msg "clientRateLimit.idleTimeout must be positive when enabled"]
     else guard (MaxClientRateLimitIdleTimeout <? rl_IdleTimeout limit)
       (limit_msg "clientRateLimit.idleTimeout must be no greater than %s" MaxClientRateLimitIdleTimeout)) ++
    (if rl_MaxEntries limit <? 1
     then [msg "clientRateLimit.maxEntries must be at least 1 when enabled"]
     else guard (MaxClientRateLimitEntries <? rl_MaxEntries limit)
       (limit_msg "clientRateLimit.maxEntries must be no greater than %d" MaxClientRateLimitEntries))).

Definition validateConfigReload (reload : ConfigReload) : option error :=
  if negb (cr_Watch reload) then None
  else if cr_Debounce reload <? MinConfigReloadDebounce
  then Some (limit_msg "configReload.debounce must be at least %s when configReload.watch is true"
               MinConfigReloadDebounce)
  else if MaxConfigReloadDebounce <? cr_Debounce reload
  then Some (limit_msg "configReload.debounce must be no greater than %s" MaxConfigReloadDebounce)
  else None.

Definition validateStatusOverride (override : option StatusOverride) : option error :=
  match override with
  | None => None
  | Some o => errors_Join (
      guard (blank (so_MOTD o)) (msg "motd must not be empty") ++
      guard (blank (so_ProtocolName o)) (msg "protocolName must not be empty") ++
      guard (so_ProtocolVersion o <? 0) (msg "protocolVersion must not be negative") ++
      guard (so_MaxPlayers o <? 0) (msg "maxPlayers must not be negative") ++
      guard (so_OnlinePlayers o <? 0) (msg "onlinePlayers must not be negative"))
  end.

Section validators.
Context `{Env}.

Definition http_url (url : bytes) : bool :=
  match ParseRequestURI url with
  | Err _ => false
  | Ok (scheme, host) =>
      (bool_decide (scheme = gs"http") || bool_decide (scheme = gs"https")) && bool_decide (host ≠ [])
  end.

Definition validateScalerWebhook (webhook : ScalerWebhook) : option error :=
  if negb (sw_Enabled webhook) then None
  else if negb (http_url (sw_URL webhook))
  then Some (msg "scalerWebhook.url must be an absolute http or https URL when enabled")
  else if sw_Timeout webhook <=? 0
  then Some (msg "scalerWebhook.timeout must be positive when enabled")
  else if 30 * Second <? sw_Timeout webhook
  then Some (msg "scalerWebhook.timeout must be no greater than 30s")
  else if existsb (λ kv, blank kv.1 || ContainsAny kv.1 [x0d; x0a]) (map_to_list (sw_Headers webhook))
  then Some (msg "scalerWebhook.headers contains an invalid header name")
  else None.

(** The loop of [validateAvailability] over the backends. *)
Fixpoint availability_backends (seen : gset bytes) (bs : list AvailabilityBackend) : option error :=
  match bs with
  | [] => None
  | b :: rest =>
      if negb (isDNSLabel (ab_ID b))
      then Some (quoted_msg "availability.backends id %q must be a DNS label" (ab_ID b))
      else if decide (ab_ID b ∈ seen)
      then Some (quoted_msg "availability.backends contains duplicate id %q" (ab_ID b))
      else match validateBackend (ab_Address b) with
      | Some e => Some (Errorf "availability.backends[%q].address: %w" [AStr (ab_ID b)] [e])
      | None =>
          match hostaddr.Normalize (ab_ServerAddress b) with
          | Err e => Some (Errorf "availability.backends[%q].serverAddress: %w" [AStr (ab_ID b)] [e])
          | Ok _ => availability_backends ({[ ab_ID b ]} ∪ seen) rest
          end
      end
  end.

Definition validateAvailability (a : Availability) : option error :=
  if negb (av_Enabled a) then None
  else if av_Interval a <? Second
  then Some (msg "availability.interval must be at least 1s when enabled")
  else if (av_Timeout a <=? 0) || (av_Interval a <? av_Timeout a)
  then Some (msg "availability.timeout must be positive and no greater than availability.interval when enabled")
  else if negb (http_url (av_ControlURL a))
  then Some (msg "availability.controlURL must be an absolute http or https URL when enabled")
  else if blank (av_TokenEnv a)
  then Some (msg "availability.tokenEnv must not be empty when enabled")
  else match av_Backends a with
  | [] => Some (msg "availability.backends must not be empty when enabled")
  | bs => availability_backends ∅ bs
  end.

Definition validateUDPRelay (relay : UDPRelay) : option error :=
  if negb (ur_Enabled relay) then None
  else errors_Join (
    either (blank (ur_Listen relay)) (msg "udpRelay.listen must not be empty when udpRelay.enabled is true")
      (under "udpRelay.listen must be a valid UDP listen address: %w")
      (err_of (ResolveUDPAddr (ur_Listen relay))) ++
    check_udp_backend (under "udpRelay.backend: %w") (ur_Backend relay) ++
    guard (ur_IdleTimeout relay <=? 0) (msg "udpRelay.idleTimeout must be positive when udpRelay.enabled is true") ++
    guard (MaxUDPRelayIdleTimeout <? ur_IdleTimeout relay)
      (limit_msg "udpRelay.idleTimeout must be no greater than %s" MaxUDPRelayIdleTimeout) ++
    guard (ur_BackendDialTimeout relay <=? 0)
      (msg "udpRelay.backendDialTimeout must be positive when udpRelay.enabled is true") ++
    guard (ur_MaxSessions relay <=? 0) (msg "udpRelay.maxSessions must be positive when udpRelay.enabled is true") ++
    guard (MaxUDPRelaySessions <? ur_MaxSessions relay)
      (limit_msg "udpRelay.maxSessions must be no greater than %d" MaxUDPRelaySessions) ++
    guard (ur_MaxPacketSize relay <=? 0)
      (msg "udpRelay.maxPacketSize must be positive when udpRelay.enabled is true") ++
    guard (MaxUDPRelayPacketSize <? ur_MaxPacketSize relay)
      (limit_msg "udpRelay.maxPacketSize must be no greater than %d" MaxUDPRelayPacketSize)).

(** The loop over the hosts of one Bedrock route; [seenHosts] maps a normalised
    host to the name of its route. *)
Fixpoint bedrock_hosts (i : Z) (name : bytes) (hostIndex : Z) (hs : list bytes)
    (seenHosts : gmap bytes bytes) : list error * gmap bytes bytes :=
  match hs with
  | [] => ([], seenHosts)
  | host :: rest =>
      let '(errs, seen) :=
        match bedrockroute.NormalizeHost host with
        | Err e => ([Errorf "bedrock.routes[%d].hosts[%d]: %w" [AInt i; AInt hostIndex] [e]], seenHosts)
        | Ok normalized =>
            match seenHosts !! normalized with
            | Some existing =>
                ([Errorf "bedrock.routes[%d].hosts[%d] duplicates host %q from route %q"
                    [AInt i; AInt hostIndex; AStr normalized; AStr existing] []], seenHosts)
            | None => ([], <[normalized := name]> seenHosts)
            end
        end in
      let '(errs', seen') := bedrock_hosts i name (hostIndex + 1) rest seen in
      (errs ++ errs', seen')
  end.

Fixpoint bedrock_routes (i : Z) (routes : list BedrockRoute) (seenRoutes : gset bytes)
    (seenHosts : gmap bytes bytes) : list error :=
  match routes with
  | [] => []
  | route :: rest =>
      let name := TrimSpace (br_Name route) in
      let '(errs_name, seenRoutes) :=
        if decide (name = [])
        then ([limit_msg "bedrock.routes[%d].name must not be empty" i], seenRoutes)
        else
          (guard (bool_decide (name ≠ br_Name route))
             (limit_msg "bedrock.routes[%d].name must not contain leading or trailing whitespace" i) ++
           guard (bool_decide (name ∈ seenRoutes))
             (Errorf "bedrock.routes[%d].name duplicates %q" [AInt i; AStr name] []),
           {[ name ]} ∪ seenRoutes) in
      let '(errs_hosts, seenHosts) := bedrock_hosts i name 0 (br_Hosts route) seenHosts in
      let errs_backend :=
        check_udp_backend (λ e, Errorf "bedrock.routes[%d].backend: %w" [AInt i] [e]) (br_Backend route) in
      errs_name ++ errs_hosts ++ errs_backend ++ bedrock_routes (i + 1) rest seenRoutes seenHosts
  end.

Definition validateBedrock (bedrock : Bedrock) : option error :=
  if negb (be_Enabled bedrock) then None
  else errors_Join (
    either (blank (be_Listen bedrock)) (msg "bedrock.listen must not be empty when bedrock.enabled is true")
      (under "bedrock.listen must be a valid UDP listen address: %w")
      (err_of (ResolveUDPAddr (be_Listen bedrock))) ++
    guard (bool_decide (be_Mode bedrock ∉ [[]; BedrockModeUDPForward; BedrockModeHostProxy]))
      (Errorf "bedrock.mode must be %q or %q" [AStr BedrockModeUDPForward; AStr BedrockModeHostProxy] []) ++
    check_udp_backend (under "bedrock.defaultBackend: %w") (be_DefaultBackend bedrock) ++
    bedrock_routes 0 (be_Routes bedrock) ∅ ∅ ++
    guard (be_SessionTimeout bedrock <=? 0)
      (msg "bedrock.sessionTimeout must be positive when bedrock.enabled is true") ++
    guard (MaxUDPRelayIdleTimeout <? be_SessionTimeout bedrock)
      (limit_msg "bedrock.sessionTimeout must be no greater than %s" MaxUDPRelayIdleTimeout)).

(** One iteration of the loop over the voice backends: the complaints, and the
    token of the backend when it is accepted. [seenTokens] maps a token to the
    backend that has it. *)
Definition voice_backend (id : bytes) (backend : VoiceBackend) (seenTokens : gmap bytes bytes)
    : list error * option bytes :=
  let errs :=
    guard (blank id) (msg "voiceChat.backends contains an empty backend ID") ++
    guard (ContainsAny id [" "%byte; x09; x0d; x0a; "/"%byte])
      (quoted_msg "voiceChat.backends[%q] backend ID must not contain whitespace or /" id) ++
    check_udp_backend (λ e, Errorf "voiceChat.backends[%q].udp: %w" [AStr id] [e]) (vb_UDP backend) in
  if blank (vb_TokenEnv backend)
  then (errs ++ [quoted_msg "voiceChat.backends[%q].tokenEnv must not be empty" id], None)
  else
    let token := Getenv (vb_TokenEnv backend) in
    if blank token
    then (errs ++ [Errorf "voiceChat.backends[%q].tokenEnv %q is not set or is empty"
                     [AStr id; AStr (vb_TokenEnv backend)] []], None)
    else match seenTokens !! token with
    | Some other =>
        (errs ++ [Errorf "voiceChat.backends[%q].tokenEnv duplicates token for backend %q"
                    [AStr id; AStr other] []], None)
    | None => (errs, Some token)
    end.

(** The loop; it writes the tokens into the map it iterates over. *)
Fixpoint voice_backends (bs : list (bytes * VoiceBackend)) (seenTokens : gmap bytes bytes)
    (m : gmap bytes VoiceBackend) : list error * gmap bytes VoiceBackend :=
  match bs with
  | [] => ([], m)
  | (id, backend) :: rest =>
      let '(errs, tok) := voice_backend id backend seenTokens in
      let '(seen', m') :=
        match tok with
        | Some token =>
            (<[token := id]> seenTokens,
             <[id := {| vb_UDP := vb_UDP backend; vb_TokenEnv := vb_TokenEnv backend;
                        vb_token := token |}]> m)
        | None => (seenTokens, m)
        end in
      let '(errs', m'') := voice_backends rest seen' m' in
      (errs ++ errs', m'')
  end.

(** The complaints of [validateVoiceChat] about everything but the backends. *)
Definition voice_limits (voice : VoiceChat) : list error :=
  let reg := vc_Registration voice in
  let ses := vc_Session voice in
  either (blank (vc_Listen voice)) (msg "voiceChat.listen must not be empty when voiceChat.enabled is true")
    (under "voiceChat.listen must be a valid UDP listen address: %w")
    (err_of (ResolveUDPAddr (vc_Listen voice))) ++
  either (blank (vr_Listen reg))
    (msg "voiceChat.registration.listen must not be empty when voiceChat.enabled is true")
    (under "voiceChat.registration.listen must be a valid TCP listen address: %w")
    (err_of (ResolveTCPAddr (vr_Listen reg))) ++
  guard (vr_RegistrationTTL reg <=? 0)
    (msg "voiceChat.registration.registrationTTL must be positive when voiceChat.enabled is true") ++
  guard (MaxUDPRelayIdleTimeout <? vr_RegistrationTTL reg)
    (limit_msg "voiceChat.registration.registrationTTL must be no greater than %s" MaxUDPRelayIdleTimeout) ++
  guard (vr_RequestTimeout reg <=? 0)
    (msg "voiceChat.registration.requestTimeout must be positive when voiceChat.enabled is true") ++
  guard (vr_MaxRegistrations reg <=? 0)
    (msg "voiceChat.registration.maxRegistrations must be positive when voiceChat.enabled is true") ++
  guard (MaxVoiceChatRegistrations <? vr_MaxRegistrations reg)
    (limit_msg "voiceChat.registration.maxRegistrations must be no greater than %d" MaxVoiceChatRegistrations) ++
  guard (vs_IdleTimeout ses <=? 0)
    (msg "voiceChat.session.idleTimeout must be positive when voiceChat.enabled is true") ++
  guard (MaxUDPRelayIdleTimeout <? vs_IdleTimeout ses)
    (limit_msg "voiceChat.session.idleTimeout must be no greater than %s" MaxUDPRelayIdleTimeout) ++
  guard (vs_BackendDialTimeout ses <=? 0)
    (msg "voiceChat.session.backendDialTimeout must be positive when voiceChat.enabled is true") ++
  guard (vs_MaxSessions ses <=? 0)
    (msg "voiceChat.session.maxSessions must be positive when voiceChat.enabled is true") ++
  guard (MaxUDPRelaySessions <? vs_MaxSessions ses)
    (limit_msg "voiceChat.session.maxSessions must be no greater than %d" MaxUDPRelaySessions) ++
  guard (vs_MaxPacketSize ses <=? 0)
    (msg "voiceChat.session.maxPacketSize must be positive when voiceChat.enabled is true") ++
  guard (MaxUDPRelayPacketSize <? vs_MaxPacketSize ses)
    (limit_msg "voiceChat.session.maxPacketSize must be no greater than %d" MaxUDPRelayPacketSize) ++
  guard (size (vc_Backends voice) =? 0)%nat
    (msg "voiceChat.backends must contain at least one backend when voiceChat.enabled is true").

Definition validateVoiceChat (voice : VoiceChat) : option error * VoiceChat :=
  if negb (vc_Enabled voice) then (None, voice)
  else
    let '(errs, m) := voice_backends (iter_backends (vc_Backends voice)) ∅ (vc_Backends voice) in
    (errors_Join (voice_limits voice ++ errs),
     {| vc_Enabled := vc_Enabled voice; vc_Listen := vc_Listen voice;
        vc_Registration := vc_Registration voice; vc_Session := vc_Session voice;
        vc_Backends := m |}).

(** ** The Java routes *)

Definition route_field (i identityIndex : Z) : bytes :=
  if 0 <? identityIndex
  then gs"routes[" ++ strconv.Itoa i ++ gs"].aliases[" ++ strconv.Itoa (identityIndex - 1) ++ gs"]"
  else gs"routes[" ++ strconv.Itoa i ++ gs"].serverAddress".

(** The loop over the identities of route [i]; [seen] is the set of the normal
    forms that are taken. *)
Fixpoint check_identities (i identityIndex : Z) (ids : list bytes) (seen : gset bytes)
    : list error * gset bytes :=
  match ids with
  | [] => ([], seen)
  | identity :: rest =>
      let field := route_field i identityIndex in
      let '(errs, seen) :=
        match hostaddr.Normalize identity with
        | Err e => ([Errorf "%s: %w" [AStr field] [e]], seen)
        | Ok addr =>
            if decide (addr ∈ seen)
            then ([Errorf "%s duplicates %q" [AStr field; AStr addr] []], seen)
            else ([], {[ addr ]} ∪ seen)
        end in
      let '(errs', seen') := check_identities i (identityIndex + 1) rest seen in
      (errs ++ errs', seen')
  end.

Definition identities (route : Route) : list bytes := ServerAddress route :: Aliases route.

Definition check_route_backends (i : Z) (route : Route) : list error :=
  report (λ e, Errorf "routes[%d].backend: %w" [AInt i] [e]) (validateBackend (Backend route)) ++
  (if decide (StatusBackend route = []) then []
   else report (λ e, Errorf "routes[%d].statusBackend: %w" [AInt i] [e])
          (validateBackend (StatusBackend route))) ++
  report (λ e, Errorf "routes[%d].statusOverride: %w" [AInt i] [e])
    (validateStatusOverride (StatusOverride_ route)).

Fixpoint check_routes (i : Z) (routes : list Route) (seen : gset bytes) : list error :=
  match routes with
  | [] => []
  | route :: rest =>
      let '(errs, seen) := check_identities i 0 (identities route) seen in
      errs ++ check_route_backends i route ++ check_routes (i + 1) rest seen
  end.

(** ** Validate *)

Definition check_metrics (m : Metrics) : list error :=
  if me_Enabled m then
    guard (blank (me_Listen m)) (msg "metrics.listen must not be empty when metrics.enabled is true") ++
    guard (blank (me_Path m)) (msg "metrics.path must not be empty when metrics.enabled is true") ++
    guard (negb (HasPrefix (me_Path m) gs"/")) (msg "metrics.path must start with /")
  else [].

Definition check_listeners (c : Config) : list error :=
  let udp := UDPRelay_ c in let voice := VoiceChat_ c in let bedrock := Bedrock_ c in
  guard (ur_Enabled udp && vc_Enabled voice && bool_decide (ur_Listen udp = vc_Listen voice))
    (msg "udpRelay and voiceChat cannot use the same listen address") ++
  guard (be_Enabled bedrock && ur_Enabled udp && bool_decide (be_Listen bedrock = ur_Listen udp))
    (msg "bedrock and udpRelay cannot use the same listen address") ++
  guard (be_Enabled bedrock && vc_Enabled voice && bool_decide (be_Listen bedrock = vc_Listen voice))
    (msg "bedrock and voiceChat cannot use the same listen address").

Definition check_fallback (f : Fallback) : list error :=
  let st := fb_Status f in
  (if fb_Enabled f && fs_Enabled st then
     guard (blank (fs_MOTD st))
       (msg "fallback.status.motd must not be empty when fallback.enabled and fallback.status.enabled are true") ++
     guard (blank (fs_ProtocolName st))
       (msg "fallback.status.protocolName must not be empty when fallback.enabled and fallback.status.enabled are true") ++
     guard (fs_ProtocolVersion st <? 0) (msg "fallback.status.protocolVersion must not be negative") ++
     guard (fs_MaxPlayers st <? 0) (msg "fallback.status.maxPlayers must not be negative") ++
     guard (fs_OnlinePlayers st <? 0) (msg "fallback.status.onlinePlayers must not be negative")
   else []) ++
  guard (fb_Enabled f && fl_Enabled (fb_Login f) && blank (fl_Message (fb_Login f)))
    (msg "fallback.login.message must not be empty when fallback.enabled and fallback.login.enabled are true").

Definition check_default (c : Config) : list error :=
  let d := DefaultRoute_ c in
  (if decide (UnknownHostPolicy c = UnknownHostDeny) then []
   else if decide (UnknownHostPolicy c = UnknownHostDefault) then
     guard (blank (dr_Backend d))
       (msg "defaultRoute.backend is required when unknownHostPolicy is default")
   else [Errorf "unknownHostPolicy must be %q or %q" [AStr UnknownHostDeny; AStr UnknownHostDefault] []]) ++
  (if decide (dr_Backend d = []) then []
   else
     report (under "defaultRoute.backend: %w") (validateBackend (dr_Backend d)) ++
     guard (bool_decide (dr_Mode d = []))
       (msg "defaultRoute.mode must not be empty when defaultRoute.backend is set") ++
     guard (bool_decide (dr_Mode d ≠ RouteModeAllow))
       (quoted_msg "defaultRoute.mode only supports %q in the MVP" RouteModeAllow)).

Definition with_voice (c : Config) (v : VoiceChat) : Config := {|
  Listen := Listen c; HandshakeTimeout := HandshakeTimeout c;
  BackendDialTimeout := BackendDialTimeout c; ClientPolicy_ := ClientPolicy_ c;
  ClientRateLimit_ := ClientRateLimit_ c; ProxyProtocol_ := ProxyProtocol_ c;
  ScalerWebhook_ := ScalerWebhook_ c; ConfigReload_ := ConfigReload_ c;
  Availability_ := Availability_ c; Metrics_ := Metrics_ c; UDPRelay_ := UDPRelay_ c;
  Bedrock_ := Bedrock_ c; VoiceChat_ := v; Fallback_ := Fallback_ c;
  Discovery_ := Discovery_ c; DefaultRoute_ := DefaultRoute_ c; Routes := Routes c;
  UnknownHostPolicy := UnknownHostPolicy c |}.

(** [Validate] has a value receiver, but the map of voice backends is shared with
    the caller, who sees the tokens written into it: the configuration afterwards
    is the second result. *)
Definition Validate (c : Config) : option error * Config :=
  let '(voice_err, voice) := validateVoiceChat (VoiceChat_ c) in
  let errs :=
    guard (blank (Listen c)) (msg "listen must not be empty") ++
    guard (HandshakeTimeout c <=? 0) (msg "handshakeTimeout must be positive") ++
    guard (BackendDialTimeout c <=? 0) (msg "backendDialTimeout must be positive") ++
    report id (validateClientPolicy (ClientPolicy_ c)) ++
    report id (validateClientRateLimit (ClientRateLimit_ c)) ++
    report (under "proxyProtocol.trustedProxies: %w")
      (err_of (proxyprotocol.ParseCIDRs (pp_TrustedProxies (ProxyProtocol_ c)))) ++
    report id (validateScalerWebhook (ScalerWebhook_ c)) ++
    report id (validateConfigReload (ConfigReload_ c)) ++
    report id (validateAvailability (Availability_ c)) ++
    check_metrics (Metrics_ c) ++
    report id (validateUDPRelay (UDPRelay_ c)) ++
    report id (validateBedrock (Bedrock_ c)) ++
    report id voice_err ++
    check_listeners c ++
    report id (validateKubernetesDiscovery (di_Kubernetes (Discovery_ c))) ++
    check_fallback (Fallback_ c) ++
    check_default c ++
    check_routes 0 (Routes c) ∅ in
  (errors_Join errs, with_voice c voice).

(** ** Loading *)

Definition Load (data : bytes) : res Config :=
  match yaml_decode Defaults data with
  | Err e => Err (under "parse yaml: %w" e)
  | Ok cfg =>
      match Validate cfg with
      | (Some e, _) => Err (under "validate config: %w" e)
      | (None, cfg) => Ok cfg
      end
  end.

Definition LoadFile (path : bytes) : res Config :=
  match ReadFile path with
  | Err e => Err (Errorf "read config %q: %w" [AStr path] [e])
  | Ok data => res_wrap (λ e, Errorf "load config %q: %w" [AStr path] [e]) (Load data)
  end.

End validators.

End config.

(** ** What a valid configuration is *)

Section valid.
Import config.
Context `{Env}.

(** [range] visits every entry of a map once. *)
Class EnvLaws : Prop := iter_backends_perm m : iter_backends m ≡ₚ map_to_list m.

(** A [host:port] whose host has a normal form and whose port is a TCP or UDP port. *)
Definition backend_ok (b : bytes) : Prop :=
  ∃ host port n, net.SplitHostPort b = Ok (host, port) ∧
    TrimSpace host ≠ [] ∧ TrimSpace port ≠ [] ∧ strconv.Atoi port = Ok n ∧ 1 ≤ n ≤ 65535 ∧
    is_ok (hostaddr.Normalize host) = true.

(** A UDP backend is moreover not a wildcard, multicast or broadcast address. *)
Definition unicast_ok (b : bytes) : Prop :=
  ∀ host port ip, net.SplitHostPort b = Ok (host, port) → net.ParseIP host = Some ip →
    net.IsUnspecified ip = false ∧ net.IsMulticast ip = false ∧ net.IsIPv4bcast ip = false.

Definition udp_backend_ok (b : bytes) : Prop := backend_ok b ∧ unicast_ok b.

Definition udp_listen_ok (l : bytes) : Prop := TrimSpace l ≠ [] ∧ is_ok (ResolveUDPAddr l) = true.

Definition rate_ok (l : ClientRateLimit) : Prop :=
  rl_Enabled l = true →
  not_positive_finite (rl_ConnectionsPerSecond l) = false ∧ 1 ≤ rl_Burst l ∧
  0 < rl_IdleTimeout l ≤ MaxClientRateLimitIdleTimeout ∧
  1 ≤ rl_MaxEntries l ≤ MaxClientRateLimitEntries.

Definition reload_ok (r : ConfigReload) : Prop :=
  cr_Watch r = true → MinConfigReloadDebounce ≤ cr_Debounce r ≤ MaxConfigReloadDebounce.

Definition override_ok (o : StatusOverride) : Prop :=
  TrimSpace (so_MOTD o) ≠ [] ∧ TrimSpace (so_ProtocolName o) ≠ [] ∧
  0 ≤ so_ProtocolVersion o ∧ 0 ≤ so_MaxPlayers o ∧ 0 ≤ so_OnlinePlayers o.

Definition metrics_ok (m : Metrics) : Prop :=
  me_Enabled m = true → TrimSpace (me_Listen m) ≠ [] ∧ TrimSpace (me_Path m) ≠ [] ∧
  HasPrefix (me_Path m) gs"/" = true.

Definition scaler_ok (w : ScalerWebhook) : Prop :=
  sw_Enabled w = true →
  http_url (sw_URL w) = true ∧ 0 < sw_Timeout w ≤ 30 * Second ∧
  map_Forall (λ name _, TrimSpace name ≠ [] ∧ ContainsAny name [x0d; x0a] = false) (sw_Headers w).

Definition availability_backend_ok (b : AvailabilityBackend) : Prop :=
  isDNSLabel (ab_ID b) = true ∧ backend_ok (ab_Address b) ∧ is_ok (hostaddr.Normalize (ab_ServerAddress b)) = true.

Definition availability_ok (a : Availability) : Prop :=
  av_Enabled a = true →
  Second ≤ av_Interval a ∧ 0 < av_Timeout a ≤ av_Interval a ∧ http_url (av_ControlURL a) = true ∧
  TrimSpace (av_TokenEnv a) ≠ [] ∧ av_Backends a ≠ [] ∧ Forall availability_backend_ok (av_Backends a) ∧
  NoDup (ab_ID <$> av_Backends a).

(** A route of the Bedrock section, and the section. *)
Definition bedrock_route_ok (r : BedrockRoute) : Prop :=
  br_Name r ≠ [] ∧ TrimSpace (br_Name r) = br_Name r ∧ udp_backend_ok (br_Backend r).

Definition bedrock_hosts_of (routes : list BedrockRoute) : list bytes := concat (map br_Hosts routes).

Definition bedrock_ok (b : Bedrock) : Prop :=
  be_Enabled b = true →
  udp_listen_ok (be_Listen b) ∧ be_Mode b ∈ [[]; BedrockModeUDPForward; BedrockModeHostProxy] ∧
  udp_backend_ok (be_DefaultBackend b) ∧ Forall bedrock_route_ok (be_Routes b) ∧
  NoDup (br_Name <$> be_Routes b) ∧ distinct bedrockroute.NormalizeHost (bedrock_hosts_of (be_Routes b)) ∧
  0 < be_SessionTimeout b ≤ MaxUDPRelayIdleTimeout.

(** The prefix of the annotations is a host name in normal form. *)
Definition prefix_ok (p : bytes) : Prop :=
  TrimSpace p ≠ [] ∧ TrimSpace p = p ∧ ContainsByte p "/"%byte = false ∧ hostaddr.Normalize p = Ok p.

Definition kubernetes_ok (k : KubernetesDiscovery) : Prop :=
  (kd_Enabled k = false ∧ kd_Namespace k = [] ∧ kd_Mode k = [] ∧ kd_AnnotationPrefix k = []) ∨
  (kd_Mode k = KubernetesDiscoveryModeAnnotations ∧ prefix_ok (kd_AnnotationPrefix k) ∧
   (TrimSpace (kd_Namespace k) = [] ∨
    TrimSpace (kd_Namespace k) = kd_Namespace k ∧ isDNSLabel (kd_Namespace k) = true)).

Definition fallback_ok (f : Fallback) : Prop :=
  (fb_Enabled f = true → fs_Enabled (fb_Status f) = true →
   TrimSpace (fs_MOTD (fb_Status f)) ≠ [] ∧ TrimSpace (fs_ProtocolName (fb_Status f)) ≠ [] ∧
   0 ≤ fs_ProtocolVersion (fb_Status f) ∧ 0 ≤ fs_MaxPlayers (fb_Status f) ∧ 0 ≤ fs_OnlinePlayers (fb_Status f)) ∧
  (fb_Enabled f = true → fl_Enabled (fb_Login f) = true → TrimSpace (fl_Message (fb_Login f)) ≠ []).

Definition udp_relay_ok (u : UDPRelay) : Prop :=
  ur_Enabled u = true →
  udp_listen_ok (ur_Listen u) ∧ udp_backend_ok (ur_Backend u) ∧
  0 < ur_IdleTimeout u ≤ MaxUDPRelayIdleTimeout ∧ 0 < ur_BackendDialTimeout u ∧
  0 < ur_MaxSessions u ≤ MaxUDPRelaySessions ∧ 0 < ur_MaxPacketSize u ≤ MaxUDPRelayPacketSize.

(** A voice backend whose token is in the environment. *)
Definition voice_backend_ok (id : bytes) (b : VoiceBackend) : Prop :=
  TrimSpace id ≠ [] ∧ ContainsAny id [" "%byte; x09; x0d; x0a; "/"%byte] = false ∧
  udp_backend_ok (vb_UDP b) ∧ TrimSpace (vb_TokenEnv b) ≠ [] ∧
  TrimSpace (Getenv (vb_TokenEnv b)) ≠ [].

Definition voice_limits_ok (v : VoiceChat) : Prop :=
  let reg := vc_Registration v in
  let ses := vc_Session v in
  udp_listen_ok (vc_Listen v) ∧
  (TrimSpace (vr_Listen reg) ≠ [] ∧ is_ok (ResolveTCPAddr (vr_Listen reg)) = true) ∧
  0 < vr_RegistrationTTL reg ≤ MaxUDPRelayIdleTimeout ∧ 0 < vr_RequestTimeout reg ∧
  0 < vr_MaxRegistrations reg ≤ MaxVoiceChatRegistrations ∧
  0 < vs_IdleTimeout ses ≤ MaxUDPRelayIdleTimeout ∧ 0 < vs_BackendDialTimeout ses ∧
  0 < vs_MaxSessions ses ≤ MaxUDPRelaySessions ∧
  0 < vs_MaxPacketSize ses ≤ MaxUDPRelayPacketSize ∧ vc_Backends v ≠ ∅.

Definition voice_ok (v : VoiceChat) : Prop :=
  vc_Enabled v = true →
  voice_limits_ok v ∧ map_Forall voice_backend_ok (vc_Backends v) ∧
  ∀ id id' b b', vc_Backends v !! id = Some b → vc_Backends v !! id' = Some b' →
    Getenv (vb_TokenEnv b) = Getenv (vb_TokenEnv b') → id = id'.

Definition distinct_listeners (c : Config) : Prop :=
  (ur_Enabled (UDPRelay_ c) = true → vc_Enabled (VoiceChat_ c) = true →
     ur_Listen (UDPRelay_ c) ≠ vc_Listen (VoiceChat_ c)) ∧
  (be_Enabled (Bedrock_ c) = true → ur_Enabled (UDPRelay_ c) = true →
     be_Listen (Bedrock_ c) ≠ ur_Listen (UDPRelay_ c)) ∧
  (be_Enabled (Bedrock_ c) = true → vc_Enabled (VoiceChat_ c) = true →
     be_Listen (Bedrock_ c) ≠ vc_Listen (VoiceChat_ c)).

Definition default_ok (c : Config) : Prop :=
  (UnknownHostPolicy c = UnknownHostDeny ∨
   UnknownHostPolicy c = UnknownHostDefault ∧ TrimSpace (dr_Backend (DefaultRoute_ c)) ≠ []) ∧
  (dr_Backend (DefaultRoute_ c) ≠ [] →
   backend_ok (dr_Backend (DefaultRoute_ c)) ∧ dr_Mode (DefaultRoute_ c) = RouteModeAllow).

Definition route_ok (r : Route) : Prop :=
  backend_ok (Backend r) ∧ (StatusBackend r ≠ [] → backend_ok (StatusBackend r)) ∧
  ∀ o, StatusOverride_ r = Some o → override_ok o.

(** All names the routes answer to. *)
Definition all_identities (routes : list Route) : list bytes := concat (map identities routes).

(** The routes: every name has a normal form, no two names of any routes share
    one, and the backends are addresses. *)
Definition routes_ok (routes : list Route) : Prop :=
  distinct hostaddr.Normalize (all_identities routes) ∧ Forall route_ok routes.

Record config_ok (c : Config) : Prop := {
  ok_listen : TrimSpace (Listen c) ≠ [];
  ok_handshake : 0 < HandshakeTimeout c;
  ok_dial : 0 < BackendDialTimeout c;
  ok_policy : is_ok (clientpolicy.New (cp_Allow (ClientPolicy_ c)) (cp_Deny (ClientPolicy_ c))) = true;
  ok_rate : rate_ok (ClientRateLimit_ c);
  ok_proxies : is_ok (proxyprotocol.ParseCIDRs (pp_TrustedProxies (ProxyProtocol_ c))) = true;
  ok_scaler : scaler_ok (ScalerWebhook_ c);
  ok_reload : reload_ok (ConfigReload_ c);
  ok_availability : availability_ok (Availability_ c);
  ok_metrics : metrics_ok (Metrics_ c);
  ok_udp : udp_relay_ok (UDPRelay_ c);
  ok_bedrock : bedrock_ok (Bedrock_ c);
  ok_voice : voice_ok (VoiceChat_ c);
  ok_listeners : distinct_listeners c;
  ok_kubernetes : kubernetes_ok (di_Kubernetes (Discovery_ c));
  ok_fallback : fallback_ok (Fallback_ c);
  ok_default : default_ok c;
  ok_routes : routes_ok (Routes c)
}.

(** ** Lemmas: collecting complaints *)

Lemma errors_Join_None l : errors_Join l = None ↔ l = [].
Proof. by destruct l. Qed.

Lemma guard_nil b e : guard b e = [] ↔ b = false.
Proof. by destruct b. Qed.

Lemma report_nil f o : report f o = [] ↔ o = None.
Proof. by destruct o. Qed.

Lemma err_of_None {A} (m : res A) : err_of m = None ↔ is_ok m = true.
Proof. by destruct m. Qed.

Lemma blank_false s : blank s = false ↔ TrimSpace s ≠ [].
Proof. unfold blank. by rewrite bool_decide_eq_false. Qed.

Lemma either_nil b e f o : either b e f o = [] ↔ b = false ∧ o = None.
Proof. unfold either. destruct b; [naive_solver|]. rewrite report_nil. naive_solver. Qed.

Lemma app_nil_iff {A} (l l' : list A) : l ++ l' = [] ↔ l = [] ∧ l' = [].
Proof. destruct l; naive_solver. Qed.

Lemma validateBackend_ok b : validateBackend b = None ↔ backend_ok b.
Proof.
  unfold validateBackend, backend_ok. split.
  - destruct (net.SplitHostPort b) as [[host port]|]; [|done]. intros Hv.
    destruct (blank host) eqn:E1; [done|]. destruct (blank port) eqn:E2; [done|].
    apply blank_false in E1, E2. destruct (strconv.Atoi port) as [n|] eqn:E3; [|done].
    destruct (_ || _) eqn:E4; [done|]. bool_prop.
    destruct (hostaddr.Normalize host) eqn:E5; [|done].
    exists host, port, n. rewrite E5. split_and!; done || lia.
  - intros (host & port & n & -> & H1%blank_false & H2%blank_false & H3 & Hn & H4).
    rewrite H1, H2, H3, (proj2 (Z.ltb_ge _ _)), (proj2 (Z.ltb_ge 65535 _)) by lia.
    by destruct (hostaddr.Normalize host).
Qed.

(** A canonical host joined with a port is a backend. *)
Lemma backend_ok_join h p n :
  hostaddr.canonical h → strconv.Atoi p = Ok n → 1 ≤ n ≤ 65535 → backend_ok (net.JoinHostPort h p).
Proof.
  intros Hh Hp Hn. destruct (canonical_plain h Hh) as (H1 & H2 & H3).
  destruct (number_plain p n Hp) as (H4 & H5 & H6 & H7).
  exists h, p, n. rewrite SplitHostPort_Join, H2, H6, Normalize_canonical_fixed by done. done.
Qed.

Lemma check_udp_backend_ok f b : check_udp_backend f b = [] ↔ udp_backend_ok b.
Proof.
  unfold check_udp_backend, udp_backend_ok, unicast_ok.
  pose proof (validateBackend_ok b) as Hb. destruct (validateBackend b) eqn:E.
  { split; [done|]. intros [[=]%Hb _]. }
  rewrite report_nil. unfold validateUDPBackendAddress.
  destruct (net.SplitHostPort b) as [[host port]|] eqn:Es.
  - split.
    + intros Hv. split; [by apply Hb|]. intros h p ip [= <- <-] Eip. rewrite Eip in Hv.
      repeat case_match; done.
    + intros [_ Hu]. destruct (net.ParseIP host) as [ip|] eqn:Eip; [|done].
      destruct (Hu host port ip) as (-> & -> & ->); done.
  - split; [done|]. intros [(h & p & n & E' & _) _]. congruence.
Qed.

End valid.

(** Turn "no complaint" into the conditions of the guards. *)
Ltac no_complaint :=
  rewrite ?errors_Join_None, ?app_nil_iff, ?either_nil, ?guard_nil, ?report_nil, ?err_of_None,
    ?blank_false, ?Z.leb_gt, ?Z.ltb_ge.

Section valid_lemmas.
Import config.
Context `{Env}.

(** A guarded validator. *)
Lemma unless_None (b : bool) (P : Prop) o :
  (o = None ↔ P) → (if negb b then None else o) = (None : option error) ↔ (b = true → P).
Proof. destruct b; cbn; naive_solver. Qed.

Lemma validateClientPolicy_ok p :
  validateClientPolicy p = None ↔ is_ok (clientpolicy.New (cp_Allow p) (cp_Deny p)) = true.
Proof. unfold validateClientPolicy. by destruct (clientpolicy.New _ _). Qed.

Lemma validateClientRateLimit_ok l : validateClientRateLimit l = None ↔ rate_ok l.
Proof.
  apply unless_None. no_complaint.
  destruct (Z.leb_spec (rl_IdleTimeout l) 0), (Z.ltb_spec (rl_MaxEntries l) 1); no_complaint;
    intuition (discriminate || lia).
Qed.

Lemma validateConfigReload_ok r : validateConfigReload r = None ↔ reload_ok r.
Proof.
  apply unless_None.
  destruct (Z.ltb_spec (cr_Debounce r) MinConfigReloadDebounce),
    (Z.ltb_spec MaxConfigReloadDebounce (cr_Debounce r)); split; done || lia.
Qed.

Lemma validateStatusOverride_ok o :
  validateStatusOverride o = None ↔ ∀ x, o = Some x → override_ok x.
Proof.
  destruct o as [x|]; cbn; [|done]. no_complaint. unfold override_ok. split.
  - by intros Hx y [= <-].
  - intros Hx. by apply Hx.
Qed.

Lemma check_metrics_ok m : check_metrics m = [] ↔ metrics_ok m.
Proof.
  unfold check_metrics, metrics_ok. destruct (me_Enabled m); [|done]. no_complaint.
  rewrite negb_false_iff. tauto.
Qed.

Lemma validateUDPRelay_ok u : validateUDPRelay u = None ↔ udp_relay_ok u.
Proof.
  apply unless_None. no_complaint. rewrite check_udp_backend_ok. unfold udp_listen_ok. tauto.
Qed.

Lemma check_listeners_ok c : check_listeners c = [] ↔ distinct_listeners c.
Proof.
  unfold check_listeners, distinct_listeners. cbn zeta. no_complaint.
  rewrite !andb_false_iff, !bool_decide_eq_false.
  destruct (ur_Enabled _), (vc_Enabled _), (be_Enabled _); intuition done.
Qed.

Lemma check_default_ok c : check_default c = [] ↔ default_ok c.
Proof.
  unfold check_default, default_ok. cbn zeta. rewrite app_nil_iff. f_equiv.
  - case_decide as E1; [split; [by left | done]|]. case_decide as E2.
    + no_complaint. rewrite E2. split; [by right|]. by intros [|[_ ?]].
    + split; [done|]. by intros [?|[? _]].
  - case_decide; [done|]. no_complaint.
    rewrite validateBackend_ok, !bool_decide_eq_false. split.
    + intros (? & ? & ?%dec_stable) _. done.
    + intros Hd. destruct Hd as [? ->]; [done|]. split_and!; [done|done|]. by intros [].
Qed.

Lemma validateScalerWebhook_ok w : validateScalerWebhook w = None ↔ scaler_ok w.
Proof.
  apply unless_None. rewrite map_Forall_to_list. destruct (http_url _); [|naive_solver]. cbn.
  destruct (Z.leb_spec (sw_Timeout w) 0); [split; [done|lia]|].
  destruct (Z.ltb_spec (30 * Second) (sw_Timeout w)); [split; [done|lia]|].
  assert (existsb (λ kv, blank kv.1 || ContainsAny kv.1 [x0d; x0a]) (map_to_list (sw_Headers w)) = false ↔
    Forall (uncurry (λ name (_ : bytes), TrimSpace name ≠ [] ∧ ContainsAny name [x0d; x0a] = false))
      (map_to_list (sw_Headers w))) as Hx.
  { induction (map_to_list (sw_Headers w)) as [|[k v] l IH]; [by split|]. cbn [existsb fst].
    rewrite orb_false_iff, Forall_cons, IH, orb_false_iff, blank_false. done. }
  destruct (existsb _ _); [|naive_solver]. split; [done|]. intros (_ & _ & [=]%Hx).
Qed.

Lemma availability_backends_ok seen bs :
  availability_backends seen bs = None ↔
  Forall availability_backend_ok bs ∧ NoDup (ab_ID <$> bs) ∧ ∀ b, b ∈ bs → ab_ID b ∉ seen.
Proof.
  revert seen. induction bs as [|b bs IH]; intros seen; cbn [availability_backends].
  { split; [|done]. intros _. split_and!; [constructor|constructor|by intros b ?%elem_of_nil]. }
  rewrite Forall_cons, fmap_cons, NoDup_cons. unfold availability_backend_ok at 1. rewrite <- validateBackend_ok.
  destruct (isDNSLabel _); [|naive_solver]. cbn. case_decide as Hs.
  { split; [done|]. intros (_ & _ & Hn). by destruct (Hn b ltac:(left)). }
  destruct (validateBackend _); [naive_solver|]. destruct (hostaddr.Normalize _); [|naive_solver].
  rewrite IH. split.
  - intros (Hf & Hnd & Hn). split_and!; try done.
    + intros (b' & E & Hb')%list_elem_of_fmap. specialize (Hn b' Hb'). set_solver.
    + intros b' [->|Hb']%elem_of_cons; [done|]. specialize (Hn b' Hb'). set_solver.
  - intros ((_ & Hf) & (Hb & Hnd) & Hn). split_and!; try done. intros b' Hb'.
    apply not_elem_of_union. split; [|by apply Hn; right]. intros E%elem_of_singleton. apply Hb.
    rewrite <- E. by apply list_elem_of_fmap_2.
Qed.

Lemma validateAvailability_ok a : validateAvailability a = None ↔ availability_ok a.
Proof.
  apply unless_None. destruct (Z.ltb_spec (av_Interval a) Second); [split; [done|lia]|].
  destruct (_ || _) eqn:Et; bool_prop; [split; [done|lia]|].
  destruct (http_url _); [|naive_solver]. cbn. destruct (blank _) eqn:Eb.
  { apply bool_decide_eq_true_1 in Eb. naive_solver. }
  apply blank_false in Eb. destruct (av_Backends a) as [|b bs]; [naive_solver|].
  match goal with |- ?x = None ↔ _ => change x with (availability_backends ∅ (b :: bs)) end.
  rewrite availability_backends_ok. split.
  - intros (? & ? & _). split_and!; done || lia.
  - intros (_ & _ & _ & _ & _ & ? & ?). split_and!; [done..|]. by intros ? _ ?%elem_of_empty.
Qed.

Lemma check_fallback_ok f : check_fallback f = [] ↔ fallback_ok f.
Proof.
  unfold check_fallback, fallback_ok. cbn zeta. rewrite app_nil_iff, guard_nil, !andb_false_iff, blank_false. f_equiv.
  - destruct (fb_Enabled f), (fs_Enabled _); cbn; no_complaint; tauto || (split; done).
  - destruct (fb_Enabled f), (fl_Enabled _); intuition done.
Qed.

Lemma validateAnnotationPrefix_ok p : validateAnnotationPrefix p = None ↔ prefix_ok p.
Proof.
  unfold validateAnnotationPrefix, prefix_ok. destruct (blank p) eqn:Eb.
  { apply bool_decide_eq_true_1 in Eb. naive_solver. }
  apply blank_false in Eb. case_bool_decide as Et; [naive_solver|].
  destruct (ContainsByte _ _); [naive_solver|]. destruct (hostaddr.Normalize p) as [n|]; [|naive_solver].
  case_bool_decide as En; [naive_solver|]. rewrite En. naive_solver.
Qed.

Lemma validateKubernetesDiscovery_ok k : validateKubernetesDiscovery k = None ↔ kubernetes_ok k.
Proof.
  unfold validateKubernetesDiscovery, kubernetes_ok. destruct (_ && _) eqn:E0.
  { bool_prop. split; [|done]. intros _. left. naive_solver. }
  no_complaint. rewrite validateAnnotationPrefix_ok, bool_decide_eq_false. split.
  - intros (->%dec_stable & Hp & Hn). right. split_and!; [done..|]. case_decide as En; [by left|right].
    apply app_nil_iff in Hn as [Hn%guard_nil Hd%guard_nil]. apply bool_decide_eq_false, dec_stable in Hn.
    rewrite Hn in Hd. by apply negb_false_iff in Hd.
  - intros [(E1 & E2 & E3 & E4)|(-> & Hp & Hn)].
    + rewrite E1, E2, E3, E4 in E0. done.
    + split_and!; [by intros []|done|]. case_decide as En; [done|]. destruct Hn as [|[Hn Hd]]; [done|].
      rewrite Hn, Hd, bool_decide_eq_false_2 by by intros []. done.
Qed.

(** ** Lemmas: routes *)

Lemma check_identities_ok i k ids seen :
  let '(errs, seen') := check_identities i k ids seen in
  (errs = [] ↔ distinct hostaddr.Normalize ids ∧
               ∀ a, a ∈ keys hostaddr.Normalize ids → a ∉ seen) ∧
  seen' = list_to_set (keys hostaddr.Normalize ids) ∪ seen.
Proof.
  revert k seen. induction ids as [|h ids IH]; intros k seen; cbn [check_identities].
  { split; [|set_solver]. split; [|done]. intros _.
    split; [apply distinct_nil | by intros a ?%elem_of_nil]. }
  cbn zeta. destruct (hostaddr.Normalize h) as [a|e] eqn:E.
  - rewrite (keys_cons_ok _ h ids a E). case_decide as Hin.
    + specialize (IH (k + 1) seen). destruct (check_identities _ _ _ _) as [errs seen'].
      destruct IH as [IH ->]. split; [|set_solver]. split; [done|].
      intros [_ Hs]. exfalso. by apply (Hs a ltac:(left)).
    + specialize (IH (k + 1) ({[a]} ∪ seen)). destruct (check_identities _ _ _ _) as [errs seen'].
      destruct IH as [IH ->]. split; [|set_solver]. cbn [app]. rewrite IH, distinct_cons. split.
      * intros [Hd Hs]. split; [|set_solver]. exists a. set_solver.
      * intros [(a' & E' & Ha & Hd) Hs]. assert (a' = a) as -> by congruence. set_solver.
  - specialize (IH (k + 1) seen). destruct (check_identities _ _ _ _) as [errs seen'].
    destruct IH as [IH ->]. unfold keys. cbn. rewrite E. cbn. split; [|done]. split; [done|].
    intros [[a [E' _]]%distinct_cons _]. congruence.
Qed.

Lemma check_route_backends_ok i r : check_route_backends i r = [] ↔ route_ok r.
Proof.
  unfold check_route_backends, route_ok. rewrite !app_nil_iff, !report_nil.
  rewrite validateBackend_ok, validateStatusOverride_ok. case_decide as Hs.
  - rewrite Hs. tauto.
  - rewrite report_nil, validateBackend_ok. tauto.
Qed.

Lemma check_routes_ok i routes seen :
  check_routes i routes seen = [] ↔
  routes_ok routes ∧ ∀ a, a ∈ keys hostaddr.Normalize (all_identities routes) → a ∉ seen.
Proof.
  unfold routes_ok. revert i seen. induction routes as [|r routes IH]; intros i seen; cbn [check_routes].
  { split; [|done]. intros _. split; [split; [apply distinct_nil | constructor] | by intros a ?%elem_of_nil]. }
  change (all_identities (r :: routes)) with (identities r ++ all_identities routes).
  pose proof (check_identities_ok i 0 (identities r) seen) as Hi.
  destruct (check_identities i 0 (identities r) seen) as [errs seen'].
  destruct Hi as [Hi ->]. rewrite !app_nil_iff, Hi, check_route_backends_ok, IH.
  rewrite bedrockroute.distinct_app, keys_app, Forall_cons. set_solver.
Qed.

(** ** Lemmas: the Bedrock section *)

Lemma bedrock_hosts_ok i name k hs seen :
  let '(errs, seen') := bedrock_hosts i name k hs seen in
  (errs = [] ↔ distinct bedrockroute.NormalizeHost hs ∧
               ∀ a, a ∈ keys bedrockroute.NormalizeHost hs → seen !! a = None) ∧
  (∀ a, seen' !! a = None ↔ (a ∉ keys bedrockroute.NormalizeHost hs) ∧ seen !! a = None).
Proof.
  revert k seen. induction hs as [|h hs IH]; intros k seen; cbn [bedrock_hosts].
  { split; [|set_solver]. split; [|done]. intros _.
    split; [apply distinct_nil | by intros a ?%elem_of_nil]. }
  destruct (bedrockroute.NormalizeHost h) as [a|e] eqn:E.
  - rewrite (keys_cons_ok _ h hs a E). destruct (seen !! a) eqn:Es.
    + specialize (IH (k + 1) seen). destruct (bedrock_hosts _ _ _ _ _) as [errs seen'].
      destruct IH as [IH1 IH2]. split.
      * split; [done|]. intros [_ Hs]. specialize (Hs a ltac:(left)). congruence.
      * intros x. rewrite IH2, not_elem_of_cons. naive_solver.
    + specialize (IH (k + 1) (<[a := name]> seen)). destruct (bedrock_hosts _ _ _ _ _) as [errs seen'].
      destruct IH as [IH1 IH2]. cbn [app]. rewrite IH1, distinct_cons. setoid_rewrite lookup_insert_None.
      setoid_rewrite IH2. setoid_rewrite lookup_insert_None. split; [|set_solver]. split.
      * intros [Hd Hs]. split; [|set_solver]. exists a. set_solver.
      * intros [(a' & E' & Ha & Hd) Hs]. assert (a' = a) as -> by congruence. set_solver.
  - specialize (IH (k + 1) seen). destruct (bedrock_hosts _ _ _ _ _) as [errs seen'].
    destruct IH as [IH1 IH2]. unfold keys in *. cbn. rewrite E. cbn. split; [|done]. split; [done|].
    intros [[a [E' _]]%distinct_cons _]. congruence.
Qed.

Lemma bedrock_routes_ok i routes names seen :
  bedrock_routes i routes names seen = [] ↔
  Forall bedrock_route_ok routes ∧ NoDup (br_Name <$> routes) ∧
  (∀ n, n ∈ br_Name <$> routes → n ∉ names) ∧
  distinct bedrockroute.NormalizeHost (bedrock_hosts_of routes) ∧
  ∀ a, a ∈ keys bedrockroute.NormalizeHost (bedrock_hosts_of routes) → seen !! a = None.
Proof.
  revert i names seen. induction routes as [|r routes IH]; intros i names seen; cbn [bedrock_routes].
  { split; [|done]. intros _. split_and!; [constructor|constructor|set_solver|apply distinct_nil|].
    by intros a ?%elem_of_nil. }
  change (bedrock_hosts_of (r :: routes)) with (br_Hosts r ++ bedrock_hosts_of routes).
  rewrite Forall_cons, fmap_cons, NoDup_cons, bedrockroute.distinct_app, keys_app.
  unfold bedrock_route_ok at 1. set (name := TrimSpace (br_Name r)). case_decide as En.
  { split.
    - destruct (bedrock_hosts _ _ _ _ _). done.
    - intros (((Hn & Ht & _) & _) & _). subst name. congruence. }
  pose proof (bedrock_hosts_ok i name 0 (br_Hosts r) seen) as Hh.
  destruct (bedrock_hosts _ _ _ _ _) as [errs seen']. destruct Hh as [Hh1 Hh2].
  rewrite !app_nil_iff, !guard_nil, !bool_decide_eq_false, Hh1, check_udp_backend_ok, IH.
  setoid_rewrite Hh2. split.
  - intros ((Ht%dec_stable & Hn) & (Hd & Hs) & Hb & Hf & Hnd & Hnames & Hdr & Hsr).
    rewrite Ht in *. split_and!; set_solver.
  - intros (((Hn & Ht & Hb) & Hf) & (Hni & Hnd) & Hnames & (Hd & Hdr & Hx) & Hs).
    assert (name = br_Name r) as Hname by done. rewrite Hname. split_and!; try done; set_solver.
Qed.

Lemma validateBedrock_ok b : validateBedrock b = None ↔ bedrock_ok b.
Proof.
  apply unless_None. no_complaint. rewrite check_udp_backend_ok, bool_decide_eq_false, bedrock_routes_ok.
  unfold udp_listen_ok. split.
  - intros (? & ?%dec_stable & ? & (? & ? & _ & ? & _) & ? & ?). done.
  - intros (? & ? & ? & ? & ? & ? & ? & ?). split_and!; try done; set_solver.
Qed.

(** ** Lemmas: voice backends *)

Definition env_token (b : VoiceBackend) : bytes := Getenv (vb_TokenEnv b).

Definition with_token (b : VoiceBackend) : VoiceBackend :=
  {| vb_UDP := vb_UDP b; vb_TokenEnv := vb_TokenEnv b; vb_token := env_token b |}.

Lemma voice_backend_spec id b seen :
  let '(errs, tok) := voice_backend id b seen in
  (errs = [] ↔ voice_backend_ok id b ∧ seen !! env_token b = None) ∧
  (errs = [] → tok = Some (env_token b)).
Proof.
  unfold voice_backend, voice_backend_ok. cbn zeta. set (errs := guard _ _ ++ _).
  assert (errs = [] ↔ TrimSpace id ≠ [] ∧
    ContainsAny id [" "%byte; x09; x0d; x0a; "/"%byte] = false ∧ udp_backend_ok (vb_UDP b)) as He.
  { subst errs. no_complaint. by rewrite check_udp_backend_ok. }
  assert (∀ e, errs ++ [e] ≠ []) as Hne by (intros e; by destruct errs).
  fold (env_token b). destruct (blank (vb_TokenEnv b)) eqn:E1.
  { apply bool_decide_eq_true_1 in E1. split; [|by intros ?%Hne]. split; [by intros ?%Hne|tauto]. }
  apply blank_false in E1. destruct (blank (env_token b)) eqn:E2.
  { apply bool_decide_eq_true_1 in E2. split; [|by intros ?%Hne]. split; [by intros ?%Hne|tauto]. }
  apply blank_false in E2. destruct (seen !! env_token b).
  { split; [|by intros ?%Hne]. split; [by intros ?%Hne|]. by intros [_ ?]. }
  rewrite He. tauto.
Qed.

(** The loop accepts exactly when all backends are fine and their tokens are new
    and distinct; then it has written each backend's token into the map. *)
Lemma voice_backends_spec bs seen m :
  NoDup bs.*1 →
  let '(errs, m') := voice_backends bs seen m in
  (errs = [] ↔ Forall (λ kv, voice_backend_ok kv.1 kv.2) bs ∧ NoDup (env_token <$> bs.*2) ∧
               ∀ b, b ∈ bs.*2 → seen !! env_token b = None) ∧
  (errs = [] → ∀ id, m' !! id = match list_to_map (M := gmap bytes VoiceBackend) bs !! id with
                                | Some b => Some (with_token b) | None => m !! id end).
Proof.
  revert seen m. induction bs as [|[id b] bs IH]; intros seen m; cbn [voice_backends fmap list_fmap fst snd].
  { intros _. split; [|done]. split; [|done]. intros _.
    split_and!; [constructor | constructor | by intros b ?%elem_of_nil]. }
  intros [Hid Hnd]%NoDup_cons. pose proof (voice_backend_spec id b seen) as Hb.
  destruct (voice_backend id b seen) as [errs tok]. destruct Hb as [Hb1 Hb2].
  destruct (decide (errs = [])) as [->|Hne].
  - rewrite (Hb2 eq_refl).
    destruct (proj1 Hb1 eq_refl) as [Hok Hs].
    specialize (IH (<[env_token b := id]> seen) (<[id := with_token b]> m) Hnd).
    change {| vb_UDP := vb_UDP b; vb_TokenEnv := vb_TokenEnv b; vb_token := env_token b |}
      with (with_token b).
    destruct (voice_backends bs _ _) as [errs' m']. destruct IH as [IH1 IH2]. cbn [app]. split.
    + rewrite IH1, Forall_cons, NoDup_cons. cbn [fst snd]. setoid_rewrite lookup_insert_None. split.
      * intros (Hf & Hn & Hl). split_and!; try done.
        -- intros (b' & E & Hb')%list_elem_of_fmap. destruct (Hl b' Hb') as [_ Hx]. congruence.
        -- intros b' [->|Hb']%elem_of_cons; [done|]. by apply Hl.
      * intros ((_ & Hf) & (Hnt & Hn) & Hl). split_and!; try done. intros b' Hb'.
        split; [apply Hl; by right|]. intros E. apply Hnt, list_elem_of_fmap. by exists b'.
    + intros He i. rewrite (IH2 He i). cbn. destruct (decide (i = id)) as [->|Hi].
      * rewrite lookup_insert_eq. rewrite (proj1 (not_elem_of_list_to_map _ _)) by done.
        by rewrite lookup_insert_eq.
      * by rewrite !lookup_insert_ne.
  - assert (∀ l, errs ++ l ≠ []) as Hne' by (intros l; by destruct errs).
    destruct (match tok with Some _ => _ | None => _ end) as [seen' m1].
    destruct (voice_backends bs seen' m1) as [errs' m'].
    split; [|by intros ?%Hne']. split; [by intros ?%Hne'|].
    rewrite Forall_cons. intros ((Hok & _) & _ & Hl).
    exfalso. apply Hne, Hb1. split; [done|]. apply Hl. by left.
Qed.

Lemma voice_limits_nil v : voice_limits v = [] ↔ voice_limits_ok v.
Proof.
  unfold voice_limits, voice_limits_ok, udp_listen_ok. cbn zeta. no_complaint.
  rewrite Nat.eqb_neq, map_size_non_empty_iff. tauto.
Qed.

Context `{!EnvLaws}.

Lemma iter_backends_keys m : NoDup (iter_backends m).*1.
Proof. rewrite (iter_backends_perm m). apply NoDup_fst_map_to_list. Qed.

Lemma iter_backends_map m : list_to_map (iter_backends m) = m.
Proof.
  rewrite <- (list_to_map_to_list m) at 2. apply list_to_map_proper;
    [apply iter_backends_keys | apply iter_backends_perm].
Qed.

(** Tokens listed without repetition are tokens no two backends share. *)
Lemma tokens_NoDup (m : gmap bytes VoiceBackend) :
  NoDup (env_token <$> (iter_backends m).*2) ↔
  ∀ id id' b b', m !! id = Some b → m !! id' = Some b' → env_token b = env_token b' → id = id'.
Proof.
  rewrite (iter_backends_perm m), <- list_fmap_compose. split.
  - intros Hnd id id' b b' H1%elem_of_map_to_list H2%elem_of_map_to_list E.
    apply list_elem_of_lookup in H1 as [i Hi], H2 as [j Hj].
    assert (i = j) as ->; [|congruence].
    eapply NoDup_lookup; [exact Hnd | rewrite list_lookup_fmap, Hi; done |].
    rewrite list_lookup_fmap, Hj. cbn. by rewrite E.
  - intros Hinj. apply NoDup_alt. intros i j x. rewrite !list_lookup_fmap.
    destruct (map_to_list m !! i) as [[id b]|] eqn:Ei; [|done].
    destruct (map_to_list m !! j) as [[id' b']|] eqn:Ej; [|done]. cbn. intros [= <-] [= E].
    assert (id = id') as ->.
    { apply (Hinj id id' b b'); [| |done]; apply elem_of_map_to_list;
        by eapply list_elem_of_lookup_2. }
    eapply NoDup_lookup; [apply (NoDup_fst_map_to_list m)|..];
      rewrite list_lookup_fmap; [by rewrite Ei | by rewrite Ej].
Qed.

Lemma map_Forall_list {A} (P : bytes → A → Prop) (m : gmap bytes A) :
  map_Forall P m ↔ Forall (λ kv, P kv.1 kv.2) (map_to_list m).
Proof.
  rewrite map_Forall_to_list. split; intros HF; (eapply Forall_impl; [exact HF|]);
    by intros [].
Qed.

Lemma validateVoiceChat_spec v :
  let '(e, v') := validateVoiceChat v in
  (e = None ↔ voice_ok v) ∧
  (e = None → vc_Enabled v = true → vc_Backends v' = with_token <$> vc_Backends v) ∧
  (vc_Enabled v = false → v' = v).
Proof.
  unfold validateVoiceChat, voice_ok. destruct (vc_Enabled v) eqn:Ev; cbn [negb];
    [|split_and!; [split; done | done | done]].
  pose proof (voice_backends_spec (iter_backends (vc_Backends v)) ∅ (vc_Backends v)
                (iter_backends_keys _)) as Hs.
  destruct (voice_backends _ ∅ _) as [errs m']. destruct Hs as [Hs1 Hs2].
  rewrite errors_Join_None, app_nil_iff, voice_limits_nil, Hs1.
  assert (Forall (λ kv, voice_backend_ok kv.1 kv.2) (iter_backends (vc_Backends v)) ↔
    map_Forall voice_backend_ok (vc_Backends v)) as ->.
  { rewrite (iter_backends_perm (vc_Backends v)). by rewrite map_Forall_list. }
  rewrite tokens_NoDup. split_and!; [|..|done].
  - split; [intros (? & ? & ? & _); eauto|]. intros Hv. destruct Hv as (? & ? & ?); [done|].
    by split_and!.
  - intros (Hl & Hf & Hn & Hd) _. cbn [vc_Backends]. apply map_eq. intros id.
    rewrite Hs2, iter_backends_map, lookup_fmap.
    + by destruct (vc_Backends v !! id).
    + apply Hs1. rewrite tokens_NoDup. split_and!; try done.
      rewrite (iter_backends_perm (vc_Backends v)). by rewrite <- map_Forall_list.
Qed.

Lemma Validate_ok c : (Validate c).1 = None ↔ config_ok c.
Proof.
  unfold Validate. pose proof (validateVoiceChat_spec (VoiceChat_ c)) as Hv.
  destruct (validateVoiceChat (VoiceChat_ c)) as [e v']. destruct Hv as [Hv _]. cbn [fst].
  no_complaint.
  rewrite validateClientPolicy_ok, validateClientRateLimit_ok, validateConfigReload_ok,
    validateScalerWebhook_ok, validateAvailability_ok, validateBedrock_ok, validateKubernetesDiscovery_ok,
    check_fallback_ok, check_metrics_ok, validateUDPRelay_ok, Hv, check_listeners_ok, check_default_ok,
    check_routes_ok.
  split.
  - intros ?. destruct_and?. by constructor.
  - intros []. split_and!; try done.
Qed.

(** What a successful validation writes. *)
Definition give_tokens (v : VoiceChat) : VoiceChat :=
  if vc_Enabled v then
    {| vc_Enabled := vc_Enabled v; vc_Listen := vc_Listen v; vc_Registration := vc_Registration v;
       vc_Session := vc_Session v; vc_Backends := with_token <$> vc_Backends v |}
  else v.

Lemma give_tokens_again v : give_tokens (give_tokens v) = give_tokens v.
Proof.
  destruct v as [[] l r ses m]; [|done]. unfold give_tokens. cbn. f_equal.
  rewrite <- map_fmap_compose. by apply map_fmap_ext.
Qed.

Lemma Validate_tokens c c' :
  Validate c = (None, c') → c' = with_voice c (give_tokens (VoiceChat_ c)).
Proof.
  intros Hval. assert (config_ok c) as Hok by (apply Validate_ok; by rewrite Hval).
  unfold Validate in Hval. pose proof (validateVoiceChat_spec (VoiceChat_ c)) as Hs.
  destruct (validateVoiceChat (VoiceChat_ c)) as [e v'] eqn:Ev. injection Hval as _ <-. f_equal.
  destruct Hs as (H1 & H2 & H3). specialize (H2 (proj2 H1 (ok_voice _ Hok))).
  unfold give_tokens. destruct (vc_Enabled (VoiceChat_ c)) eqn:En; [|auto].
  rewrite <- H2 by done. unfold validateVoiceChat in Ev. rewrite En in Ev. cbn [negb] in Ev.
  destruct (voice_backends _ _ _). injection Ev as _ <-. done.
Qed.

(** Writing the tokens does not change whether a configuration is valid. *)
Lemma config_ok_tokens c c' : Validate c = (None, c') → config_ok c'.
Proof.
  intros Hval. assert (config_ok c) as Hok by (apply Validate_ok; by rewrite Hval).
  apply Validate_tokens in Hval as ->. destruct Hok. constructor; try done.
  - cbn [with_voice VoiceChat_]. unfold give_tokens, voice_ok in *.
    destruct (vc_Enabled (VoiceChat_ c)) eqn:En; [|by rewrite En]. intros _.
    destruct (ok_voice0 eq_refl) as (Hl & Hf & Hd). cbn [vc_Backends]. split_and!.
    + unfold voice_limits_ok in *. cbn. by rewrite fmap_empty_iff.
    + intros id b. rewrite lookup_fmap_Some. intros (b0 & <- & Hb0). by apply Hf in Hb0.
    + intros id id' b b'. rewrite !lookup_fmap_Some. intros (b0 & <- & Hb0) (b1 & <- & Hb1). cbn. eauto.
  - unfold distinct_listeners, give_tokens in *. cbn. by destruct (vc_Enabled (VoiceChat_ c)) eqn:En; rewrite ?En.
Qed.

End valid_lemmas.

(** ** Properties *)

Section properties.
Import config.
Context `{Env} `{!EnvLaws}.

(** C10: [Validate] accepts a configuration exactly when it is well formed: every
    limit in range, every backend a [host:port] with a port from 1 to 65535, all
    names of all routes with distinct normal forms, UDP listeners that do not
    collide, a voice token for every voice backend and no token shared. *)
Theorem Validate_iff c : (Validate c).1 = None ↔ config_ok c.
Proof. apply Validate_ok. Qed.

(** Validating a configuration again, as the router does, accepts what was
    accepted and changes nothing more: the tokens that the first validation wrote
    into the shared map of voice backends do not get in the way. *)
Theorem Validate_again c c' :
  Validate c = (None, c') → Validate c' = (None, c') ∧ c' = with_voice c (VoiceChat_ c').
Proof.
  intros Hval. pose proof (config_ok_tokens c c' Hval) as Hok.
  apply Validate_tokens in Hval as ->. split; [|done].
  set (c' := with_voice _ _) in *. assert ((Validate c').1 = None) as Hn by by apply Validate_ok.
  destruct (Validate c') as [e c''] eqn:E. cbn in Hn. subst e.
  apply Validate_tokens in E as ->. f_equal. subst c'. destruct c as [?????????????????? ].
  unfold with_voice. cbn. f_equal. apply give_tokens_again.
Qed.

(** After a successful validation every voice backend carries the non-blank
    token of its environment variable, and no two backends carry the same one, so
    a token identifies a backend. *)
Theorem voice_tokens_identify c c' id b :
  Validate c = (None, c') → vc_Enabled (VoiceChat_ c) = true →
  vc_Backends (VoiceChat_ c') !! id = Some b →
  TrimSpace (Token b) ≠ [] ∧ Token b = Getenv (vb_TokenEnv b) ∧
  ∀ id' b', vc_Backends (VoiceChat_ c') !! id' = Some b' → Token b' = Token b → id' = id.
Proof.
  intros Hval Hen Hb. assert (config_ok c) as Hok by (apply Validate_ok; by rewrite Hval).
  apply Validate_tokens in Hval as ->. cbn in Hb |- *. unfold give_tokens in *. rewrite Hen in *.
  cbn in *. destruct (ok_voice _ Hok Hen) as (_ & Hf & Hd).
  apply lookup_fmap_Some in Hb as (b0 & <- & Hb0). split_and!; [|done|].
  - by apply (Hf id b0).
  - intros id' b'. rewrite lookup_fmap_Some. intros (b1 & <- & Hb1). cbn. eauto.
Qed.

(** A configuration that was loaded is well formed. *)
Theorem Load_ok data cfg : Load data = Ok cfg → config_ok cfg.
Proof.
  unfold Load. destruct (yaml_decode _ _) as [c|]; [|done].
  destruct (Validate c) as [[e|] c'] eqn:E; [done|]. intros [= <-]. by eapply config_ok_tokens.
Qed.

End properties.

(** The built-in defaults are a valid configuration, whatever the environment. *)
Theorem Defaults_valid `{config.Env} : (config.Validate config.Defaults).1 = None.
Proof. vm_compute. reflexivity. Qed.

(** ** Witnesses *)

Section witnesses.
Import config.

(** An environment with one variable and no name resolution to speak of. *)
#[local] Instance sample_env : Env := {
  Getenv name := if decide (name = gs"VOICE_A") then gs"secret" else [];
  ResolveUDPAddr _ := Ok {| net.ua_IP := None; net.ua_Port := 1; net.ua_Zone := [] |};
  ResolveTCPAddr _ := Ok {| net.ua_IP := None; net.ua_Port := 1; net.ua_Zone := [] |};
  ParseRequestURI _ := Ok (gs"https", gs"h");
  iter_backends := map_to_list;
  yaml_decode c _ := Ok c;
  ReadFile _ := Ok []
}.

#[local] Instance sample_env_laws : EnvLaws.
Proof. by intros m. Defined.

Definition sample_route : Route := {|
  ServerAddress := gs"Play.Example.com"; Aliases := [gs"play.example.net."; gs"10.0.0.1"];
  Backend := gs"mc.default.svc:25565"; StatusBackend := []; StatusOverride_ := None; Source := [] |}.

Definition sample_voice : VoiceChat := {|
  vc_Enabled := true; vc_Listen := gs":24454";
  vc_Registration := vc_Registration (VoiceChat_ Defaults);
  vc_Session := vc_Session (VoiceChat_ Defaults);
  vc_Backends := {[ gs"a" := {| vb_UDP := gs"voice:24454"; vb_TokenEnv := gs"VOICE_A"; vb_token := [] |} ]}
|}.

Definition sample_config : Config :=
  let d := with_voice Defaults sample_voice in {|
  Listen := Listen d; HandshakeTimeout := HandshakeTimeout d;
  BackendDialTimeout := BackendDialTimeout d; ClientPolicy_ := ClientPolicy_ d;
  ClientRateLimit_ := ClientRateLimit_ d; ProxyProtocol_ := ProxyProtocol_ d;
  ScalerWebhook_ := ScalerWebhook_ d; ConfigReload_ := ConfigReload_ d;
  Availability_ := Availability_ d; Metrics_ := Metrics_ d; UDPRelay_ := UDPRelay_ d;
  Bedrock_ := Bedrock_ d; VoiceChat_ := VoiceChat_ d; Fallback_ := Fallback_ d;
  Discovery_ := Discovery_ d; DefaultRoute_ := DefaultRoute_ d; Routes := [sample_route];
  UnknownHostPolicy := UnknownHostPolicy d |}.

Lemma sample_valid : (Validate sample_config).1 = None.
Proof. vm_compute. reflexivity. Qed.

Lemma sample_accepted : ∃ c', Validate sample_config = (None, c').
Proof.
  pose proof sample_valid as H. destruct (Validate sample_config) as [e c']. exists c'.
  cbn in H. by subst e.
Qed.

Lemma Validate_iff_witness : config_ok sample_config.
Proof. apply (Validate_iff sample_config). exact sample_valid. Defined.

Lemma Validate_again_witness :
  ∃ c', Validate sample_config = (None, c') ∧ Validate c' = (None, c').
Proof.
  destruct sample_accepted as [c' E]. exists c'. split; [exact E|].
  apply (Validate_again sample_config c' E).
Defined.

Lemma voice_tokens_identify_witness :
  ∃ c' b, Validate sample_config = (None, c') ∧
    vc_Backends (VoiceChat_ c') !! gs"a" = Some b ∧ TrimSpace (Token b) ≠ [].
Proof.
  destruct sample_accepted as [c' E].
  assert (vc_Backends (VoiceChat_ c') !! gs"a" =
    Some {| vb_UDP := gs"voice:24454"; vb_TokenEnv := gs"VOICE_A"; vb_token := gs"secret" |}) as Hb.
  { change c' with ((None : option error), c').2. rewrite <- E. vm_compute. reflexivity. }
  exists c'. eexists. split; [exact E|]. split; [exact Hb|].
  apply (voice_tokens_identify sample_config c' (gs"a") _ E eq_refl Hb).
Defined.

Lemma Load_ok_witness : config_ok Defaults.
Proof. apply (Load_ok [] Defaults). vm_compute. reflexivity. Defined.

End witnesses.
