(* ===== verification/Availability.v ===== *)
(** * The availability monitor ([internal/availability])

    The monitor probes the configured backends with a status request, as a Minecraft
    client does, and tells a companion service when one goes online or offline. A
    round asks the network: [w_dial] is what a connection to an address takes and
    answers, [w_do] what the companion's HTTP endpoint answers. *)
From S2P Require Import Prelude GoUnicode GoStrings GoNet GoIO GoJson HostAddr McProto Config.
Import gostrings.
Open Scope Z_scope.

Module availability.
Import io config.

Definition statusProtocolVersion : Z := 767.

(** The loop of [readVarInt] over the bytes, from [index] on. *)
Fixpoint varint_at (index : nat) (value : Z) (data : bytes) : res (Z * nat) :=
  match data with
  | [] => Err (errors_New "truncated varint")
  | b :: t =>
      if (index =? 5)%nat then Err (errors_New "varint too long")
      else
        let value := Z.lor value (int_wrap 32 (Z.shiftl (Z.land (bv b) 0x7F) (7 * Z.of_nat index))) in
        if Z.land (bv b) 0x80 =? 0 then Ok (value, (index + 1)%nat) else varint_at (S index) value t
  end.

Definition readVarInt (data : bytes) : res (Z * nat) := varint_at 0 0 data.

(** A connection: the error of the write, if any, and what is read from it. *)
Record endpoint := { ep_write : option error; ep_answer : reader }.

(** The handshake and the status request. *)
Definition probe_request (serverAddress : bytes) (port : Z) : bytes :=
  let payload := mcproto.WriteVarInt mcproto.HandshakePacketID ++ mcproto.WriteVarInt statusProtocolVersion in
  let payload := payload ++ mcproto.EncodeString serverAddress in
  let portBytes := [bz (Z.shiftr port 8); bz port] in
  let payload := payload ++ portBytes in
  let payload := payload ++ mcproto.WriteVarInt mcproto.NextStateStatus in
  mcproto.BuildPacket 0 [drop 1 payload] ++ mcproto.BuildPacket mcproto.StatusRequestPacketID [].

(** What is made of the answer. *)
Definition probe_answer (answer : reader) : option error :=
  match mcproto.ReadPacket (mcproto.MaxPacketLength mcproto.DefaultLimits) answer with
  | (Err e, _) => Some e
  | (Ok (id, payload), _) =>
      if negb (id =? mcproto.StatusResponsePacketID)
      then Some (Errorf "unexpected status packet %d" [AInt id] [])
      else match readVarInt payload with
      | Err _ => Some (errors_New "invalid status response")
      | Ok (length, offset) =>
          if (length <? 1) || negb (length =? zlen payload - Z.of_nat offset)
          then Some (errors_New "invalid status response")
          else if negb (jsonscan.Valid (drop offset payload))
          then Some (errors_New "status response is not JSON")
          else None
      end
  end.

(** The error, if any, and what was sent. *)
Definition Probe (dial : bytes → res endpoint) (address serverAddress : bytes) : option error * bytes :=
  match net.SplitHostPort address with
  | Err e => (Some e, [])
  | Ok (_, portRaw) =>
      match strconv.ParseUint portRaw 16 with
      | Err e => (Some e, [])
      | Ok port =>
          match dial address with
          | Err e => (Some e, [])
          | Ok conn =>
              let request := probe_request serverAddress (uint_wrap 16 port) in
              match ep_write conn with
              | Some e => (Some e, request)
              | None => (probe_answer (ep_answer conn), request)
              end
          end
      end
  end.

Record control_request := { cr_url : bytes; cr_authorization : bytes; cr_body : bytes }.

Record world := {
  w_dial : bytes → res endpoint;
  w_do : control_request → res Z
}.

Record monitor := { m_cfg : Availability; m_token : bytes; m_sent : gmap bytes bool }.

Definition notify_request (m : monitor) (id : bytes) (online : bool) : control_request :=
  let state := if online then gs"online" else gs"offline" in
  {| cr_url := TrimRightByte (av_ControlURL (m_cfg m)) "/"%byte ++ gs"/v1/backends/" ++ id ++ gs"/availability";
     cr_authorization := gs"Bearer " ++ m_token m;
     cr_body := object [(gs"availability", json.String state)] |}.

Definition notify (w : world) (m : monitor) (id : bytes) (online : bool) : option error :=
  match w_do w (notify_request m id online) with
  | Err e => Some e
  | Ok status =>
      if status =? 204 then None else Some (Errorf "control companion returned %s" [AInt status] [])
  end.

(** A notification that was tried, and whether the companion took it. *)
Record notice := { n_id : bytes; n_online : bool; n_taken : bool }.

Definition set_sent (m : monitor) (id : bytes) (online : bool) : monitor :=
  {| m_cfg := m_cfg m; m_token := m_token m; m_sent := <[id := online]> (m_sent m) |}.

Definition is_online (w : world) (b : AvailabilityBackend) : bool :=
  match (Probe (w_dial w) (ab_Address b) (ab_ServerAddress b)).1 with None => true | Some _ => false end.

(** The loop of [checkAll]. *)
Fixpoint check_backends (w : world) (m : monitor) (bs : list AvailabilityBackend) : monitor * list notice :=
  match bs with
  | [] => (m, [])
  | backend :: rest =>
      let online := is_online w backend in
      let known := match m_sent m !! ab_ID backend with
                   | Some previous => Bool.eqb previous online
                   | None => false
                   end in
      if known then check_backends w m rest
      else
        let taken := match notify w m (ab_ID backend) online with None => true | Some _ => false end in
        let m := if taken then set_sent m (ab_ID backend) online else m in
        let '(m, notices) := check_backends w m rest in
        (m, {| n_id := ab_ID backend; n_online := online; n_taken := taken |} :: notices)
  end.

Definition checkAll (w : world) (m : monitor) : monitor * list notice :=
  check_backends w m (av_Backends (m_cfg m)).

(** [run]: a round at once and one for each tick. *)
Fixpoint run (m : monitor) (ws : list world) : monitor * list notice :=
  match ws with
  | [] => (m, [])
  | w :: rest =>
      let '(m, now) := checkAll w m in
      let '(m, later) := run m rest in (m, now ++ later)
  end.

Definition Start (getenv : bytes → bytes) (cfg : Availability) : res (option monitor) :=
  if negb (av_Enabled cfg) then Ok None
  else
    let token := TrimSpace (getenv (av_TokenEnv cfg)) in
    if decide (token = [])
    then Err (Errorf "availability token environment variable %q is empty" [AStr (av_TokenEnv cfg)] [])
    else Ok (Some {| m_cfg := cfg; m_token := token; m_sent := ∅ |}).

End availability.

(** ** Lemmas: the probe *)

Section probe.
Import io availability.

Lemma varint_at_loop index value raw data v raw' r' :
  (index ≤ 5)%nat → length raw = index →
  mcproto.varint_loop (5 - index) value raw (bytes_reader data) = (Ok v, raw', r') →
  varint_at index value data = Ok (v, length raw').
Proof.
  remember (5 - index)%nat as more eqn:Em. revert index value raw data Em.
  induction more as [|more IH]; intros index value raw data Em Hi Hr H; [done|].
  cbn [mcproto.varint_loop] in H. unfold bytes_reader, ReadByte in H.
  destruct data as [|b t]; cbn [r_data r_end] in H; [done|]. cbn zeta in H.
  cbn [varint_at]. rewrite (proj2 (Nat.eqb_neq _ _)) by lia. cbn zeta.
  replace (mcproto.MaxVarIntBytes - S more)%nat with index in H by (change mcproto.MaxVarIntBytes with 5%nat; lia).
  destruct (Z.land (bv b) 0x80 =? 0).
  - injection H as <- <- <-. by rewrite length_app, Hr.
  - apply (IH (S index) _ (raw ++ [b])); [lia|lia| |exact H]. rewrite length_app. cbn. lia.
Qed.

Lemma readVarInt_Encoded v rest : is_int 32 v →
  readVarInt (mcproto.WriteVarInt v ++ rest) = Ok (v, length (mcproto.WriteVarInt v)).
Proof. intros Hv. eapply (varint_at_loop 0 0 []); [lia|done|]. by apply (ReadVarInt_Write v rest EOF). Qed.

(** A packet that is longer than the limit is refused. *)
Lemma ReadPacket_too_long id fields limit rest e :
  is_int 32 (zlen (mcproto.WriteVarInt id ++ concat fields)) → 0 < limit →
  limit < zlen (mcproto.WriteVarInt id ++ concat fields) →
  (mcproto.ReadPacket limit {| r_data := mcproto.BuildPacket id fields ++ rest; r_end := e |}).1 =
    Err mcproto.ErrPacketTooLarge.
Proof.
  intros Hi Hpos Hl. unfold mcproto.ReadPacket, mcproto.BuildPacket. cbn zeta.
  rewrite (proj2 (Z.leb_gt limit 0)), int_wrap_id, <- app_assoc by (done || lia).
  erewrite rd_bind_eq by by apply readVarInt_Write. cbn beta iota.
  rewrite (proj2 (Z.ltb_lt _ _)) by done. by rewrite orb_true_r.
Qed.

(** The packet a server answers a status request with. *)
Definition status_packet (raw : bytes) : bytes :=
  mcproto.BuildPacket mcproto.StatusResponsePacketID [mcproto.EncodeString raw].

Definition packet_length (raw : bytes) : Z :=
  zlen (mcproto.WriteVarInt mcproto.StatusResponsePacketID ++ mcproto.EncodeString raw).

Lemma packet_length_bounds raw : zlen raw < 2 ^ 31 - 6 → is_int 32 (packet_length raw) ∧ is_int 32 (zlen raw).
Proof.
  intros Hr. unfold packet_length, mcproto.EncodeString, zlen in *. rewrite !length_app.
  pose proof (length_WriteVarInt mcproto.StatusResponsePacketID).
  pose proof (length_WriteVarInt (int_wrap 32 (Z.of_nat (length raw)))).
  assert (length (mcproto.WriteVarInt mcproto.StatusResponsePacketID) = 1%nat) as -> by done.
  split; apply int32_intro; lia.
Qed.

Lemma probe_answer_status raw rest e :
  jsonscan.Valid raw = true → raw ≠ [] → zlen raw < 2 ^ 31 - 6 →
  probe_answer {| r_data := status_packet raw ++ rest; r_end := e |} =
    if packet_length raw <=? 2048 then None else Some mcproto.ErrPacketTooLarge.
Proof.
  intros Hv Hne Hl. destruct (packet_length_bounds raw Hl) as [Hp Hr].
  unfold probe_answer. change (mcproto.MaxPacketLength mcproto.DefaultLimits) with 2048.
  assert (packet_length raw = zlen (mcproto.WriteVarInt mcproto.StatusResponsePacketID ++
    concat [mcproto.EncodeString raw])) as Ec by (cbn [concat]; by rewrite app_nil_r).
  destruct (Z.leb_spec (packet_length raw) 2048) as [Hs|Hs].
  - unfold status_packet. rewrite ReadPacket_BuildPacket by (done || cbn -[mcproto.WriteVarInt concat]; lia).
    cbn [concat]. rewrite app_nil_r. cbn [negb Z.eqb mcproto.StatusResponsePacketID].
    unfold mcproto.EncodeString. rewrite int_wrap_id by (done || lia). rewrite readVarInt_Encoded by done.
    assert (0 < zlen raw) by (unfold zlen; destruct raw; [done|cbn; lia]).
    rewrite (proj2 (Z.ltb_ge _ _)) by lia. unfold zlen at 2. rewrite length_app.
    rewrite (proj2 (Z.eqb_eq _ _)) by (unfold zlen; lia). cbn [orb negb]. by rewrite drop_app_length, Hv.
  - pose proof (ReadPacket_too_long mcproto.StatusResponsePacketID [mcproto.EncodeString raw] 2048 rest e) as Ht.
    rewrite <- Ec in Ht. specialize (Ht Hp eq_refl Hs). unfold status_packet.
    destruct (mcproto.ReadPacket 2048 _) as [x r']. cbn in Ht. by subst x.
Qed.

(** What [json.Marshal] makes of a status response is JSON. *)
Lemma marshal_status_valid st :
  - 10 ^ 19 < mcproto.Protocol (mcproto.Version st) < 10 ^ 19 →
  - 10 ^ 19 < mcproto.Max (mcproto.Players st) < 10 ^ 19 →
  - 10 ^ 19 < mcproto.Online (mcproto.Players st) < 10 ^ 19 →
  jsonscan.Valid (mcproto.marshal_status st) = true.
Proof.
  intros Hp Hm Ho. apply (value_Valid 2); [done|].
  set (version := object [(gs"name", json.String (mcproto.Name (mcproto.Version st)));
                          (gs"protocol", json.Int (mcproto.Protocol (mcproto.Version st)))]).
  set (players := object [(gs"max", json.Int (mcproto.Max (mcproto.Players st)));
                          (gs"online", json.Int (mcproto.Online (mcproto.Players st)))]).
  set (description := object [(gs"text", json.String (mcproto.Text (mcproto.Description st)))]).
  assert (mcproto.marshal_status st =
    object [(gs"version", version); (gs"players", players); (gs"description", description)]) as ->.
  { unfold mcproto.marshal_status, mcproto.marshal_chat, version, players, description, object, mcproto.quoted.
    cbn -[json.String json.Int]. repeat (progress (rewrite <- ?app_assoc; cbn -[json.String json.Int])). done. }
  pose proof String_value. pose proof Int_value.
  apply (object_value 1); [lia|done|].
  repeat (apply Forall_cons_2; [apply member_ok_plain; [|reflexivity]|]); try apply Forall_nil_2;
    (apply (object_value 0); [lia|done|]);
    repeat (apply Forall_cons_2; [apply member_ok_plain; [auto|reflexivity]|]); apply Forall_nil_2.
Qed.

End probe.

(** ** Lemmas: the monitor *)

Section monitor.
Import config availability.

(** The states of a backend the companion took, in order. *)
Definition taken_states (id : bytes) (l : list notice) : list bool :=
  omap (λ n, if n_taken n && bool_decide (n_id n = id) then Some (n_online n) else None) l.

(** No state is reported twice in a row. *)
Definition alternates (l : list bool) : Prop := ∀ i x, l !! i = Some x → l !! S i ≠ Some x.

(** What was taken so far continued by more: the link between [m_sent] and the notices. *)
Definition continues (m m' : monitor) (l : list notice) : Prop :=
  m_cfg m' = m_cfg m ∧
  ∀ id before, last before = m_sent m !! id → alternates before →
    last (before ++ taken_states id l) = m_sent m' !! id ∧ alternates (before ++ taken_states id l).

Lemma alternates_snoc l x : alternates l → last l ≠ Some x → alternates (l ++ [x]).
Proof.
  intros Hl Hx i y Hi Hn. rewrite last_lookup in Hx.
  destruct (decide (S i < length l)%nat).
  - rewrite lookup_app_l in Hi, Hn by lia. by apply (Hl i y).
  - rewrite lookup_app_r in Hn by lia. destruct (S i - length l)%nat eqn:E; [|done]. cbn in Hn. simplify_eq.
    rewrite lookup_app_l in Hi by lia. by replace (Init.Nat.pred (length l)) with i in Hx by lia.
Qed.

Lemma check_backends_continues w bs m m' l : check_backends w m bs = (m', l) → continues m m' l.
Proof.
  revert m m' l. induction bs as [|b bs IH]; intros m m' l H; cbn in H.
  { simplify_eq. split; [done|]. intros id before. by rewrite app_nil_r. }
  destruct (match m_sent m !! ab_ID b with Some p => Bool.eqb p (is_online w b) | None => false end) eqn:Ek;
    [by apply IH|].
  destruct (check_backends w _ bs) as [m1 l1] eqn:E1 in H. simplify_eq. apply IH in E1 as [Hcfg Hc].
  split; [by destruct (notify w m (ab_ID b) _)|]. intros id before Hlast Halt. unfold taken_states. cbn.
  destruct (notify w m (ab_ID b) (is_online w b)); cbn; [by apply Hc|].
  case_bool_decide as Hid; cbn.
  - subst id. rewrite cons_middle, app_assoc. apply Hc; cbn.
    + by rewrite last_snoc, lookup_insert_eq.
    + apply alternates_snoc; [done|]. rewrite Hlast. intros Hs. by rewrite Hs, eqb_reflx in Ek.
  - apply Hc; [|done]. cbn. by rewrite lookup_insert_ne.
Qed.

Lemma run_continues ws m m' l : run m ws = (m', l) → continues m m' l.
Proof.
  revert m m' l. induction ws as [|w ws IH]; intros m m' l H; cbn in H.
  { simplify_eq. split; [done|]. intros id before. by rewrite app_nil_r. }
  destruct (checkAll w m) as [m1 l1] eqn:E1. destruct (run m1 ws) as [m2 l2] eqn:E2. simplify_eq.
  apply check_backends_continues in E1 as [C1 H1]. apply IH in E2 as [C2 H2].
  split; [congruence|]. intros id before Hl Ha. destruct (H1 id before Hl Ha) as [Hl1 Ha1].
  unfold taken_states. rewrite omap_app, app_assoc. by apply H2.
Qed.

Lemma validate_distinct seen bs :
  availability_backends seen bs = None → NoDup (ab_ID <$> bs) ∧ Forall (λ b, ab_ID b ∉ seen) bs.
Proof.
  revert seen. induction bs as [|b bs IH]; intros seen H; cbn in H; [split; constructor|].
  repeat case_match; try done. apply IH in H as [Hnd Hall]. split.
  - constructor; [|done]. intros (b' & E & Hin)%list_elem_of_fmap. rewrite Forall_forall in Hall.
    apply (Hall b' Hin). rewrite <- E. set_solver.
  - constructor; [done|]. eapply Forall_impl; [exact Hall|]. set_solver.
Qed.

(** A round whose notifications are all taken. *)
Lemma check_backends_all w bs m m' l :
  NoDup (ab_ID <$> bs) → check_backends w m bs = (m', l) → Forall (λ n, n_taken n = true) l →
  (∀ id, id ∉ ab_ID <$> bs → m_sent m' !! id = m_sent m !! id) ∧
  (∀ b, b ∈ bs → m_sent m' !! ab_ID b = Some (is_online w b)) ∧
  (∀ n, n ∈ l ↔ ∃ b, b ∈ bs ∧ m_sent m !! ab_ID b ≠ Some (is_online w b) ∧
     n = {| n_id := ab_ID b; n_online := is_online w b; n_taken := true |}).
Proof.
  revert m m' l. induction bs as [|b bs IH]; intros m m' l Hnd H Hl; cbn in H.
  { simplify_eq. split_and!; [done|by intros b ?%elem_of_nil|]. intros n. split; [by intros ?%elem_of_nil|].
    by intros (b & ?%elem_of_nil & _). }
  apply NoDup_cons in Hnd as [Hb Hnd].
  assert (∀ b', b' ∈ bs → ab_ID b' ≠ ab_ID b) as Hne.
  { intros b' Hin E. apply Hb. rewrite <- E. by apply list_elem_of_fmap_2. }
  destruct (match m_sent m !! ab_ID b with Some p => Bool.eqb p (is_online w b) | None => false end) eqn:Ek.
  - destruct (m_sent m !! ab_ID b) as [p|] eqn:Es; [|done]. apply eqb_prop in Ek as ->.
    destruct (IH m m' l Hnd H Hl) as (H1 & H2 & H3). split_and!.
    + intros id Hid. cbn in Hid. rewrite elem_of_cons in Hid. apply H1. tauto.
    + intros b' [-> |Hin]%elem_of_cons; [by rewrite H1|by apply H2].
    + intros n. rewrite H3. setoid_rewrite elem_of_cons. split.
      * intros (b' & Hin & Hn). exists b'. tauto.
      * intros (b' & [->|Hin] & Hn); [by destruct Hn as [[] _]|by exists b'].
  - destruct (check_backends w _ bs) as [m1 l1] eqn:E1 in H. simplify_eq. apply Forall_cons in Hl as [Ht Hl].
    cbn in Ht. destruct (notify w m (ab_ID b) (is_online w b)); [done|].
    destruct (IH _ _ _ Hnd E1 Hl) as (H1 & H2 & H3). cbn [m_sent set_sent] in *. split_and!.
    + intros id Hid. cbn in Hid. rewrite elem_of_cons in Hid. rewrite H1 by tauto.
      rewrite lookup_insert_ne; [done|]. intros <-. tauto.
    + intros b' [-> |Hin]%elem_of_cons; [by rewrite H1, lookup_insert_eq|by apply H2].
    + intros n. rewrite elem_of_cons, H3. setoid_rewrite elem_of_cons. split.
      * intros [-> |(b' & Hin & Hn & ->)].
        { exists b. split_and!; [by left| |done]. intros Hs. rewrite Hs, eqb_reflx in Ek. done. }
        exists b'. rewrite lookup_insert_ne in Hn by (symmetry; by apply Hne). split; [by right|done].
      * intros (b' & [->|Hin] & Hn & ->); [by left|right]. exists b'.
        rewrite lookup_insert_ne by (symmetry; by apply Hne). done.
Qed.

End monitor.

(** ** Properties *)

Section properties.
Import io config availability.

(** A backend that answers the probe's status request with valid JSON is taken for
    online exactly when its packet is no longer than 2048 bytes: a correct answer
    that is longer, as one with a server icon is, makes the backend count as
    offline. *)
Theorem probe_limit dial address host port n serverAddress raw rest e :
  net.SplitHostPort address = Ok (host, port) → strconv.ParseUint port 16 = Ok n →
  dial address = Ok {| ep_write := None; ep_answer := {| r_data := status_packet raw ++ rest; r_end := e |} |} →
  jsonscan.Valid raw = true → raw ≠ [] → zlen raw < 2 ^ 31 - 6 →
  (Probe dial address serverAddress).1 = None ↔ packet_length raw ≤ 2048.
Proof.
  intros Hs Hp Hd Hv Hne Hl. unfold Probe. rewrite Hs, Hp, Hd. cbn [ep_write ep_answer fst].
  rewrite probe_answer_status by done. destruct (Z.leb_spec (packet_length raw) 2048); split; done || lia.
Qed.

(** The probe speaks the gateway's own protocol: the gateway reads what the probe
    sends as a status handshake for the given address and port followed by an empty
    status request, and the probe takes the status response the gateway builds for
    an answer of a server that is online, if it is within the limit. *)
Theorem gateway_passes_probe serverAddress port route st rest e :
  let h := {| mcproto.ProtocolVersion := statusProtocolVersion; mcproto.ServerAddress := serverAddress;
              mcproto.ServerPort := port; mcproto.NextState := mcproto.NextStateStatus |} in
  is_uint 16 port → zlen serverAddress ≤ 255 → utf8.Valid serverAddress = true → TrimSpace serverAddress ≠ [] →
  hostaddr.Normalize serverAddress = Ok route →
  is_int 64 (mcproto.Protocol (mcproto.Version st)) → is_int 64 (mcproto.Max (mcproto.Players st)) →
  is_int 64 (mcproto.Online (mcproto.Players st)) → packet_length (mcproto.marshal_status st) ≤ 2048 →
  (∃ r, mcproto.ReadHandshake {| r_data := probe_request serverAddress port ++ rest; r_end := e |}
          mcproto.DefaultLimits = (Ok h, handshake_packet h, r) ∧
        mcproto.ReadPacket 2048 r = (Ok (mcproto.StatusRequestPacketID, []), {| r_data := rest; r_end := e |})) ∧
  probe_answer {| r_data := mcproto.BuildStatusResponsePacket st ++ rest; r_end := e |} = None.
Proof.
  intros h Hport Hlen Hutf Hblank Hroute Hp Hm Ho Hpl. split.
  - exists {| r_data := mcproto.BuildPacket mcproto.StatusRequestPacketID [] ++ rest; r_end := e |}. split.
    + assert (probe_request serverAddress port =
        handshake_packet h ++ mcproto.BuildPacket mcproto.StatusRequestPacketID []) as ->.
      { unfold probe_request, handshake_packet, mcproto.BuildPacket. cbn zeta.
        assert (∀ p, p = concat (handshake_fields h) → concat [p] = concat (handshake_fields h)) as Hc
          by (intros p ->; cbn [concat]; apply app_nil_r).
        rewrite (Hc (drop 1 _)); [done|]. unfold handshake_fields. cbn [concat].
        rewrite <- !app_assoc, app_nil_r. reflexivity. }
      rewrite <- app_assoc. apply ReadHandshake_packet; [|done|done|].
      * constructor; cbn; try done; [set_solver|]. unfold mcproto.RouteAddress. cbn. by rewrite Hroute.
      * unfold handshake_fields, mcproto.EncodeString, zlen in *. cbn [concat]. rewrite !length_app.
        pose proof (length_WriteVarInt (mcproto.ProtocolVersion h)).
        pose proof (length_WriteVarInt (mcproto.NextState h)).
        pose proof (length_WriteVarInt mcproto.HandshakePacketID).
        pose proof (length_WriteVarInt (int_wrap 32 (Z.of_nat (length (mcproto.ServerAddress h))))).
        cbn -[mcproto.WriteVarInt] in *. lia.
    + by apply (ReadPacket_BuildPacket mcproto.StatusRequestPacketID []).
  - unfold is_int in *. assert (mcproto.BuildStatusResponsePacket st = status_packet (mcproto.marshal_status st)) as ->
      by (unfold mcproto.BuildStatusResponsePacket, status_packet, mcproto.EncodeString; cbn zeta; reflexivity).
    assert (zlen (mcproto.marshal_status st) ≤ 2048) as Hz.
    { unfold packet_length, mcproto.EncodeString, zlen in *. rewrite !length_app in Hpl. lia. }
    rewrite probe_answer_status; [by rewrite (proj2 (Z.leb_le _ _))| |done|lia].
    apply marshal_status_valid; lia.
Qed.

(** C39: In any sequence of rounds, whatever the network and the companion answer, what
    the monitor believes to have reported of a backend is the last state of it that
    the companion took, and no state is reported twice in a row. *)
Theorem monitor_reports_changes m ws m' l id :
  m_sent m = ∅ → run m ws = (m', l) →
  m_sent m' !! id = last (taken_states id l) ∧ alternates (taken_states id l).
Proof.
  intros Hm Hr%run_continues. destruct Hr as [_ Hr]. destruct (Hr id []) as [Hl Ha]; [by rewrite Hm|done|].
  by split.
Qed.

(** After a round in which the companion takes every notification, what was reported
    of each configured backend is what its probe found, and the notifications of
    the round were exactly those of the backends whose state had changed. *)
Theorem round_converges `{!Env} w m m' l :
  av_Enabled (m_cfg m) = true → validateAvailability (m_cfg m) = None →
  checkAll w m = (m', l) → Forall (λ n, n_taken n = true) l →
  (∀ b, b ∈ av_Backends (m_cfg m) → m_sent m' !! ab_ID b = Some (is_online w b)) ∧
  (∀ n, n ∈ l ↔ ∃ b, b ∈ av_Backends (m_cfg m) ∧ m_sent m !! ab_ID b ≠ Some (is_online w b) ∧
     n = {| n_id := ab_ID b; n_online := is_online w b; n_taken := true |}).
Proof.
  intros He Hv Hc Ht. unfold validateAvailability in Hv. rewrite He in Hv. cbn [negb] in Hv.
  assert (NoDup (ab_ID <$> av_Backends (m_cfg m))) as Hnd.
  { repeat case_match; try done. by apply validate_distinct in Hv as [? _]. }
  by destruct (check_backends_all w _ m m' l Hnd Hc Ht) as (_ & H2 & H3).
Qed.

End properties.

(** ** Witnesses *)

Section witnesses.
Import io config availability.

Definition sample_json : bytes := gs"{}".
Definition sample_answer : endpoint :=
  {| ep_write := None; ep_answer := {| r_data := status_packet sample_json; r_end := EOF |} |}.

Lemma probe_limit_witness :
  (Probe (λ _, Ok sample_answer) gs"10.0.0.5:25565" gs"play.example.com").1 = None.
Proof.
  assert (sample_answer = {| ep_write := None;
    ep_answer := {| r_data := status_packet sample_json ++ []; r_end := EOF |} |}) as E by (vm_compute; reflexivity).
  apply (probe_limit (λ _, Ok sample_answer) gs"10.0.0.5:25565" gs"10.0.0.5" gs"25565" 25565
    gs"play.example.com" sample_json [] EOF);
    [vm_compute; reflexivity | vm_compute; reflexivity | by rewrite E | vm_compute; reflexivity | done
    | vm_compute; reflexivity | vm_compute; discriminate].
Defined.

Definition sample_status : mcproto.StatusResponse := {|
  mcproto.Version := {| mcproto.Name := gs"1.21.1"; mcproto.Protocol := 767 |};
  mcproto.Players := {| mcproto.Max := 20; mcproto.Online := 0 |};
  mcproto.Description := {| mcproto.Text := gs"asleep" |} |}.

Lemma gateway_passes_probe_witness :
  probe_answer {| r_data := mcproto.BuildStatusResponsePacket sample_status ++ []; r_end := EOF |} = None.
Proof.
  apply (gateway_passes_probe gs"play.example.com" 25565 gs"play.example.com" sample_status [] EOF);
    try (vm_compute; reflexivity); try (vm_compute; discriminate); try (vm_compute; split; congruence).
Defined.

Definition sample_backend : AvailabilityBackend :=
  {| ab_ID := gs"lobby"; ab_Address := gs"10.0.0.5:25565"; ab_ServerAddress := gs"play.example.com" |}.

Definition sample_monitor : monitor := {|
  m_cfg := {| av_Enabled := true; av_Interval := 10000000000; av_Timeout := 1000000000;
              av_ControlURL := gs"http://companion:8080/"; av_TokenEnv := gs"TOKEN";
              av_Backends := [sample_backend] |};
  m_token := gs"secret"; m_sent := ∅ |}.

(** The backend answers; it does not. The companion takes everything. *)
Definition up : world := {| w_dial := λ _, Ok sample_answer; w_do := λ _, Ok 204 |}.
Definition down : world := {| w_dial := λ _, Err (errors_New "refused"); w_do := λ _, Ok 204 |}.

Lemma monitor_reports_changes_witness :
  taken_states gs"lobby" (run sample_monitor [up; up; down]).2 = [true; false] ∧
  m_sent (run sample_monitor [up; up; down]).1 !! (gs"lobby" : bytes) =
    last (taken_states gs"lobby" (run sample_monitor [up; up; down]).2).
Proof.
  split; [vm_compute; reflexivity|].
  apply (monitor_reports_changes sample_monitor [up; up; down] _ _ gs"lobby"); [reflexivity|apply surjective_pairing].
Defined.

#[local] Instance probe_env : Env := {
  Getenv _ := gs"secret";
  ResolveUDPAddr _ := Err (errors_New "no names");
  ResolveTCPAddr _ := Err (errors_New "no names");
  ParseRequestURI _ := Ok (gs"http", gs"companion:8080");
  iter_backends m := map_to_list m;
  yaml_decode c _ := Ok c;
  ReadFile _ := Ok []
}.

Lemma round_converges_witness :
  is_online up sample_backend = true ∧
  m_sent (checkAll up sample_monitor).1 !! (gs"lobby" : bytes) = Some (is_online up sample_backend).
Proof.
  split; [vm_compute; reflexivity|].
  destruct (round_converges up sample_monitor (checkAll up sample_monitor).1 (checkAll up sample_monitor).2)
    as [Hs _]; [reflexivity|vm_compute; reflexivity|apply surjective_pairing|vm_compute; by repeat constructor|].
  apply (Hs sample_backend). left.
Defined.

End witnesses.
