(* ===== verification/Kubernetes.v ===== *)
(** * Service discovery ([internal/discovery/kubernetes])

    Routes are declared by annotations of Kubernetes Services. This file models
    the parsing of one Service, the construction of a snapshot of routes from all
    of them, the tracking of Services by a watch, the namespace, and the snapshot
    provider. The Kubernetes API itself is outside: a Service, a watch event and
    the text of an error value are inputs. *)
From S2P Require Import Prelude GoUnicode GoStrings GoNet GoIO HostAddr Tables GoSort.
From S2P Require Import Config.
Import gostrings.
Open Scope Z_scope.

(** The [Error()] text of an error value, used to order diagnostics. *)
Class ErrorText := error_text : error → bytes.

Module kubernetes.

(** ** annotations.go *)

Definition ReasonDisabled : bytes := gs"disabled".
Definition ReasonInvalidPrefix : bytes := gs"invalid_annotation_prefix".
Definition ReasonInvalidServiceName : bytes := gs"invalid_service_name".
Definition ReasonInvalidNamespace : bytes := gs"invalid_namespace".
Definition ReasonMissingHost : bytes := gs"missing_host".
Definition ReasonInvalidHost : bytes := gs"invalid_host".
Definition ReasonMissingPort : bytes := gs"missing_port".
Definition ReasonInvalidPort : bytes := gs"invalid_port".
Definition ReasonPortNotFound : bytes := gs"port_not_found".
Definition ReasonDuplicateHost : bytes := gs"duplicate_host".
Definition ReasonUnknown : bytes := gs"unknown".
Definition DefaultAnnotationPrefix : bytes := gs"mc-router.alexandergg.com".
Definition AnnotationEnabled : bytes := gs"enabled".
Definition AnnotationHost : bytes := gs"host".
Definition AnnotationPort : bytes := gs"port".

Record ServicePort := { sp_Name : bytes; sp_Port : Z }.

Record ServiceInput := {
  si_Name : bytes;
  si_Namespace : bytes;
  si_Annotations : gmap bytes bytes;
  si_Ports : list ServicePort
}.

Record DiscoveredRoute := { Host : bytes; Backend : bytes }.

#[export] Instance DiscoveredRoute_eq_dec : EqDecision DiscoveredRoute.
Proof. solve_decision. Defined.

(** [ParseResult]: a route, or the reason why the service is skipped. *)
Inductive ParseResult :=
| Routed (route : DiscoveredRoute)
| Skip (reason : bytes) (err : option error).

Record SkippedRoute := {
  sr_Host : bytes; sr_Backend : bytes; sr_Reason : bytes; sr_Err : option error
}.

(** [isDNSLabel] and [validateAnnotationPrefix] are copies of the ones of the
    configuration; the prefix check has its own messages. *)
Definition isDNSLabel : bytes → bool := config.isDNSLabel.

Definition validateAnnotationPrefix (prefix : bytes) : option error :=
  if decide (TrimSpace prefix = []) then Some (errors_New "annotation prefix must not be empty")
  else if decide (TrimSpace prefix ≠ prefix)
  then Some (errors_New "annotation prefix must not contain leading or trailing whitespace")
  else if ContainsByte prefix "/"%byte
  then Some (errors_New "annotation prefix must not contain /")
  else match hostaddr.Normalize prefix with
       | Err e => Some e
       | Ok normalized =>
           if decide (normalized ≠ prefix)
           then Some (errors_New "annotation prefix must be a canonical lowercase DNS subdomain")
           else None
       end.

Definition serviceHasPort (ports : list ServicePort) (port : Z) : bool :=
  existsb (λ p, sp_Port p =? port) ports.

(** [m[k]]: the empty string when the key is missing. *)
Definition annotation (service : ServiceInput) (prefix name : bytes) : option bytes :=
  si_Annotations service !! (prefix ++ gs"/" ++ name).

Definition serviceDNS (service : ServiceInput) : bytes :=
  si_Name service ++ gs"." ++ si_Namespace service ++ gs".svc.cluster.local".

Definition ParseServiceAnnotations (prefix : bytes) (service : ServiceInput) : ParseResult :=
  match validateAnnotationPrefix prefix with
  | Some e => Skip ReasonInvalidPrefix (Some e)
  | None =>
      if decide (from_option id [] (annotation service prefix AnnotationEnabled) ≠ gs"true")
      then Skip ReasonDisabled None
      else if negb (isDNSLabel (si_Name service))
      then Skip ReasonInvalidServiceName
             (Some (Errorf "service name %q must be a DNS label" [AStr (si_Name service)] []))
      else if negb (isDNSLabel (si_Namespace service))
      then Skip ReasonInvalidNamespace
             (Some (Errorf "namespace %q must be a DNS label" [AStr (si_Namespace service)] []))
      else
        let hostValue := from_option id [] (annotation service prefix AnnotationHost) in
        if decide (TrimSpace hostValue = [])
        then Skip ReasonMissingHost (Some (errors_New "host annotation is required"))
        else match hostaddr.Normalize hostValue with
        | Err e => Skip ReasonInvalidHost (Some e)
        | Ok host =>
            let portValue := from_option id [] (annotation service prefix AnnotationPort) in
            if decide (TrimSpace portValue = [])
            then Skip ReasonMissingPort (Some (errors_New "port annotation is required"))
            else
              let bad := Skip ReasonInvalidPort
                (Some (errors_New "port annotation must be an integer from 1 to 65535")) in
              match strconv.Atoi (TrimSpace portValue) with
              | Err _ => bad
              | Ok port =>
                  if (port <? 1) || (65535 <? port) then bad
                  else if negb (serviceHasPort (si_Ports service) port)
                  then Skip ReasonPortNotFound
                         (Some (Errorf "port %d is not present in service ports" [AInt port] []))
                  else Routed {| Host := host;
                                 Backend := net.JoinHostPort (serviceDNS service) (strconv.Itoa port) |}
              end
        end
  end.

Definition duplicate_error (host : bytes) : error :=
  Errorf "host %q is discovered more than once" [AStr host] [].

(** The first loop of [DropDuplicateHosts]: routes with a normal form, and the
    others. *)
Fixpoint normalize_routes (routes : list DiscoveredRoute)
    : list DiscoveredRoute * list SkippedRoute :=
  match routes with
  | [] => ([], [])
  | route :: rest =>
      let '(normalized, skipped) := normalize_routes rest in
      match hostaddr.Normalize (Host route) with
      | Err e => (normalized,
                  {| sr_Host := Host route; sr_Backend := Backend route;
                     sr_Reason := ReasonInvalidHost; sr_Err := Some e |} :: skipped)
      | Ok host => ({| Host := host; Backend := Backend route |} :: normalized, skipped)
      end
  end.

Definition DropDuplicateHosts (routes : list DiscoveredRoute)
    : list DiscoveredRoute * list SkippedRoute :=
  let '(normalized, skipped) := normalize_routes routes in
  let counts := tally Host normalized in
  let kept := filter (λ r, ¬ 1 < count_in counts (Host r)) normalized in
  let dups := filter (λ r, 1 < count_in counts (Host r)) normalized in
  (kept, skipped ++ map (λ r, {| sr_Host := Host r; sr_Backend := Backend r;
                                 sr_Reason := ReasonDuplicateHost;
                                 sr_Err := Some (duplicate_error (Host r)) |}) dups).

(** ** client.go: conversion of API objects *)

(** What the code reads of a [corev1.Service]. *)
Record Service := {
  svc_Name : bytes;
  svc_Namespace : bytes;
  svc_Annotations : gmap bytes bytes;
  svc_Type : bytes;
  svc_Ports : list ServicePort
}.

Definition ServiceTypeExternalName : bytes := gs"ExternalName".

Definition ToServiceInput (svc : option Service) : option ServiceInput :=
  match svc with
  | None => None
  | Some svc =>
      if decide (svc_Type svc = ServiceTypeExternalName) then None
      else Some {| si_Name := svc_Name svc; si_Namespace := svc_Namespace svc;
                   si_Annotations := svc_Annotations svc; si_Ports := svc_Ports svc |}
  end.

Definition ListServices (listed : res (list Service)) : res (list ServiceInput) :=
  let? items := listed in Ok (omap (λ svc, ToServiceInput (Some svc)) items).

(** ** controller.go: the snapshot *)

Record SkippedResource := {
  ServiceName : bytes;
  Namespace : bytes;
  sk_Host : bytes;
  sk_Backend : bytes;
  Reason : bytes;
  sk_Err : option error
}.

Record Result := {
  Routes : list DiscoveredRoute;
  Skipped : list SkippedResource;
  DuplicateHosts : list bytes;
  SkippedByReason : gmap bytes Z
}.

Record routeCandidate := { Route : DiscoveredRoute; rc_ServiceName : bytes; rc_Namespace : bytes }.

Definition lessCandidate (left right : routeCandidate) : bool :=
  if decide (Host (Route left) ≠ Host (Route right))
  then ltb (Host (Route left)) (Host (Route right))
  else if decide (Backend (Route left) ≠ Backend (Route right))
  then ltb (Backend (Route left)) (Backend (Route right))
  else if decide (rc_Namespace left ≠ rc_Namespace right)
  then ltb (rc_Namespace left) (rc_Namespace right)
  else ltb (rc_ServiceName left) (rc_ServiceName right).

(** The Services a watch has seen, by key. *)
Abbreviation tracked := (gmap bytes ServiceInput).

Section snapshot.
Context `{ErrorText}.

Definition errorString (e : option error) : bytes :=
  match e with None => [] | Some e => error_text e end.

Definition lessSkipped (left right : SkippedResource) : bool :=
  if decide (Reason left ≠ Reason right) then ltb (Reason left) (Reason right)
  else if decide (sk_Host left ≠ sk_Host right) then ltb (sk_Host left) (sk_Host right)
  else if decide (Namespace left ≠ Namespace right) then ltb (Namespace left) (Namespace right)
  else if decide (ServiceName left ≠ ServiceName right)
  then ltb (ServiceName left) (ServiceName right)
  else if decide (sk_Backend left ≠ sk_Backend right)
  then ltb (sk_Backend left) (sk_Backend right)
  else ltb (errorString (sk_Err left)) (errorString (sk_Err right)).

(** [addSkipped] gives an empty reason a name. *)
Definition named (s : SkippedResource) : SkippedResource :=
  if decide (Reason s = []) then
    {| ServiceName := ServiceName s; Namespace := Namespace s; sk_Host := sk_Host s;
       sk_Backend := sk_Backend s; Reason := ReasonUnknown; sk_Err := sk_Err s |}
  else s.

(** The first loop of [BuildDiscoveredRoutes]. No operation of
    [ParseServiceAnnotations] can panic, so the recovery of
    [safeParseServiceAnnotations] never runs. *)
Definition safeParseServiceAnnotations : bytes → ServiceInput → ParseResult :=
  ParseServiceAnnotations.

Fixpoint parse_services (prefix : bytes) (services : list ServiceInput)
    : list routeCandidate * list SkippedResource :=
  match services with
  | [] => ([], [])
  | service :: rest =>
      let '(candidates, skipped) := parse_services prefix rest in
      match safeParseServiceAnnotations prefix service with
      | Skip reason err =>
          (candidates,
           named {| ServiceName := si_Name service; Namespace := si_Namespace service;
                    sk_Host := []; sk_Backend := []; Reason := reason; sk_Err := err |} :: skipped)
      | Routed route =>
          ({| Route := route; rc_ServiceName := si_Name service;
              rc_Namespace := si_Namespace service |} :: candidates, skipped)
      end
  end.

Definition candidate_host (c : routeCandidate) : bytes := Host (Route c).

Definition duplicate (c : routeCandidate) : SkippedResource :=
  named {| ServiceName := rc_ServiceName c; Namespace := rc_Namespace c;
           sk_Host := candidate_host c; sk_Backend := Backend (Route c);
           Reason := ReasonDuplicateHost; sk_Err := Some (duplicate_error (candidate_host c)) |}.

Definition sortedKeys (values : gset bytes) : list bytes := SliceStable ltb (elements values).

Definition BuildDiscoveredRoutes (services : list ServiceInput) (annotationPrefix : bytes) : Result :=
  let prefix := if decide (annotationPrefix = []) then DefaultAnnotationPrefix else annotationPrefix in
  let '(candidates, skipped) := parse_services prefix services in
  let candidates := SliceStable lessCandidate candidates in
  let hosts := tally candidate_host candidates in
  let kept := filter (λ c, ¬ 1 < count_in hosts (candidate_host c)) candidates in
  let dups := filter (λ c, 1 < count_in hosts (candidate_host c)) candidates in
  let skipped := skipped ++ map duplicate dups in
  {| Routes := map Route kept;
     Skipped := SliceStable lessSkipped skipped;
     DuplicateHosts := sortedKeys (list_to_set (map candidate_host dups));
     SkippedByReason := tally Reason skipped |}.

(** ** watch_controller.go *)

Inductive EventType := Added | Modified | Deleted | Bookmark | ErrorEvent | OtherEvent.

(** A watch event: its type, and the Service it carries if it carries one. *)
Record Event := { ev_Type : EventType; ev_Object : option Service }.

Definition serviceKey (namespace name : bytes) : bytes := namespace ++ gs"/" ++ name.

Definition applyWatchEvent (namespace : bytes) (services : tracked) (event : Event) : res tracked :=
  match ev_Type event with
  | ErrorEvent =>
      Err (Errorf "%w: watch services in namespace %q returned error event" [AStr namespace]
             [Sentinel "kubernetes.ErrServiceWatchError"])
  | ty =>
      match ev_Object event with
      | None => Ok services
      | Some svc =>
          let key := serviceKey (svc_Namespace svc) (svc_Name svc) in
          match ty with
          | Added | Modified =>
              match ToServiceInput (Some svc) with
              | Some input => Ok (<[key := input]> services)
              | None => Ok (delete key services)
              end
          | Deleted => Ok (delete key services)
          | _ => Ok services
          end
      end
  end.

(** [initialServices] on the items of the list response. *)
Definition track_list (items : list Service) : tracked :=
  fold_left (λ m svc, match ToServiceInput (Some svc) with
                      | Some input => <[serviceKey (svc_Namespace svc) (svc_Name svc) := input]> m
                      | None => m
                      end) items ∅.

Definition initialServices (namespace : bytes) (listed : res (list Service)) : res tracked :=
  match listed with
  | Err e => Err (Errorf "%w: list services in namespace %q: %w" [AStr namespace]
                    [Sentinel "kubernetes.ErrServiceListFailed"; e])
  | Ok items => Ok (track_list items)
  end.

(** [updateSink]: the snapshot that goes to the sink. [order] is the order in
    which the map is iterated. *)
Definition updateSink (prefix : bytes) (order : tracked → list ServiceInput) (services : tracked)
    : Result := BuildDiscoveredRoutes (order services) prefix.

(** What the select of [Run] receives: cancellation, the end of the channel
    (with or without a cancelled context), or an event. *)
Inductive signal :=
| Done
| Closed (ctx_cancelled : bool)
| Received (event : Event).

(** The loop of [Run]: the snapshots it publishes, and how it ends. [None] as the
    second result means that it is still waiting for a signal. *)
Fixpoint watch_loop (namespace prefix : bytes) (order : tracked → list ServiceInput)
    (services : tracked) (signals : list signal) : list Result * option (option error) :=
  match signals with
  | [] => ([], None)
  | Done :: _ => ([], Some None)
  | Closed true :: _ => ([], Some None)
  | Closed false :: _ =>
      ([], Some (Some (Errorf "%w: watch services in namespace %q closed" [AStr namespace]
                         [Sentinel "kubernetes.ErrServiceWatchClosed"])))
  | Received event :: rest =>
      match applyWatchEvent namespace services event with
      | Err e => ([], Some (Some e))
      | Ok services' =>
          let '(published, fin) := watch_loop namespace prefix order services' rest in
          (updateSink prefix order services' :: published, fin)
      end
  end.

(** [Run]: list, start the watch ([watch_err] is the error of the call and
    whether the context is cancelled), publish, loop. *)
Definition Run (namespace prefix : bytes) (order : tracked → list ServiceInput)
    (listed : res (list Service)) (watch_err : option (error * bool)) (signals : list signal)
    : list Result * option (option error) :=
  match initialServices namespace listed with
  | Err e => ([], Some (Some e))
  | Ok services =>
      match watch_err with
      | Some (e, true) => ([], Some None)
      | Some (e, false) =>
          ([], Some (Some (Errorf "%w: watch services in namespace %q: %w" [AStr namespace]
                             [Sentinel "kubernetes.ErrServiceWatchSetupFailed"; e])))
      | None =>
          let '(published, fin) := watch_loop namespace prefix order services signals in
          (updateSink prefix order services :: published, fin)
      end
  end.

End snapshot.

(** ** namespace.go *)

Definition DefaultNamespacePath : bytes := gs"/var/run/secrets/kubernetes.io/serviceaccount/namespace".

Definition validateNamespace (namespace : bytes) : option error :=
  if decide (TrimSpace namespace ≠ namespace)
  then Some (errors_New "namespace must not contain leading or trailing whitespace")
  else if negb (isDNSLabel namespace) then Some (errors_New "namespace must be a DNS label")
  else None.

(** [readFile] is the resolver's function or [os.ReadFile]. *)
Definition ResolveNamespace (configured resolverPath : bytes) (readFile : bytes → res bytes) : res bytes :=
  if decide (configured ≠ []) then
    match validateNamespace configured with
    | Some e => Err (Errorf "configured namespace: %w" [] [e])
    | None => Ok configured
    end
  else
    let path := if decide (resolverPath = []) then DefaultNamespacePath else resolverPath in
    match readFile path with
    | Err e => Err (Errorf "read current namespace file %q: %w" [AStr path] [e])
    | Ok data =>
        let namespace := TrimSpace data in
        if decide (namespace = []) then Err (Errorf "current namespace file %q is empty" [AStr path] [])
        else match validateNamespace namespace with
             | Some e => Err (Errorf "current namespace file %q: %w" [AStr path] [e])
             | None => Ok namespace
             end
    end.

(** [NewServiceWatchController]: the error, given a client and a sink. *)
Definition NewServiceWatchController (namespace : bytes) : option error :=
  match validateNamespace namespace with
  | Some e => Some (Errorf "watch namespace: %w" [] [e])
  | None => None
  end.

(** ** snapshot_provider.go *)

Record SnapshotProvider := { sp_routes : list DiscoveredRoute }.
Definition NewSnapshotProvider (routes : list DiscoveredRoute) : SnapshotProvider :=
  {| sp_routes := routes |}.
Definition NewSnapshotProviderFromResult (result : Result) : SnapshotProvider :=
  NewSnapshotProvider (Routes result).
Definition ProviderRoutes (p : SnapshotProvider) : res (list DiscoveredRoute) := Ok (sp_routes p).

End kubernetes.

(** ** Lemmas *)

Section lemmas.
Import kubernetes.

(** What it takes for a Service to declare the route [r]. *)
Record declares (prefix : bytes) (s : ServiceInput) (r : DiscoveredRoute) : Prop := {
  dec_prefix : validateAnnotationPrefix prefix = None;
  dec_enabled : annotation s prefix AnnotationEnabled = Some gs"true";
  dec_name : isDNSLabel (si_Name s) = true;
  dec_namespace : isDNSLabel (si_Namespace s) = true;
  dec_host : ∃ v, annotation s prefix AnnotationHost = Some v ∧ TrimSpace v ≠ [] ∧
                  hostaddr.Normalize v = Ok (Host r);
  dec_port : ∃ v port, annotation s prefix AnnotationPort = Some v ∧ TrimSpace v ≠ [] ∧
               strconv.Atoi (TrimSpace v) = Ok port ∧ 1 ≤ port ≤ 65535 ∧
               serviceHasPort (si_Ports s) port = true ∧
               Backend r = net.JoinHostPort (serviceDNS s) (strconv.Itoa port)
}.

Lemma nonblank_some (o : option bytes) :
  TrimSpace (from_option id [] o) ≠ [] → ∃ v, o = Some v ∧ TrimSpace v ≠ [].
Proof. destruct o; cbn; [eauto | done]. Qed.

Lemma Parse_declares prefix s r :
  ParseServiceAnnotations prefix s = Routed r ↔ declares prefix s r.
Proof.
  unfold ParseServiceAnnotations. cbn zeta. split.
  - destruct (validateAnnotationPrefix prefix) eqn:E1; [done|].
    case_decide as E2; [done|].
    destruct (isDNSLabel (si_Name s)) eqn:E3; [|done].
    destruct (isDNSLabel (si_Namespace s)) eqn:E4; [|done]. cbn [negb].
    case_decide as E5; [done|]. apply nonblank_some in E5 as (hv & Eh & Hb).
    rewrite Eh. cbn [from_option id]. destruct (hostaddr.Normalize hv) as [host|] eqn:E6; [|done].
    case_decide as E7; [done|]. apply nonblank_some in E7 as (pv & Ep & Hpb). rewrite Ep.
    cbn [from_option id]. destruct (strconv.Atoi _) as [port|] eqn:E8; [|done].
    destruct (_ || _) eqn:E9; [done|]. bool_prop.
    destruct (serviceHasPort _ _) eqn:E10; [|done]. intros [= <-]. constructor; try done.
    + destruct (annotation s prefix AnnotationEnabled); cbn in E2; [by subst | done].
    + by exists hv.
    + exists pv, port. split_and!; done || lia.
  - intros [H1 H2 H3 H4 (hv & H5 & H5' & H6) (pv & port & H7 & H7' & H8 & H9 & H10 & H11)].
    rewrite H1, H2, H3, H4, H5, H7. cbn [from_option id negb].
    rewrite decide_False by (by intros []). rewrite decide_False, H6, decide_False, H8 by done.
    rewrite (proj2 (Z.ltb_ge _ _)), (proj2 (Z.ltb_ge 65535 _)), H10 by lia. cbn [orb negb].
    rewrite <- H11. by destruct r.
Qed.

(** The route of a Service, if it declares one. *)
Definition route_of (prefix : bytes) (s : ServiceInput) : option DiscoveredRoute :=
  match ParseServiceAnnotations prefix s with Routed r => Some r | Skip _ _ => None end.

Definition candidate_of (prefix : bytes) (s : ServiceInput) : option routeCandidate :=
  (λ r, {| Route := r; rc_ServiceName := si_Name s; rc_Namespace := si_Namespace s |})
    <$> route_of prefix s.

Definition skipped_of (prefix : bytes) (s : ServiceInput) : option SkippedResource :=
  match ParseServiceAnnotations prefix s with
  | Skip reason err =>
      Some (named {| ServiceName := si_Name s; Namespace := si_Namespace s; sk_Host := [];
                     sk_Backend := []; Reason := reason; sk_Err := err |})
  | Routed _ => None
  end.

Lemma parse_services_eq prefix services :
  parse_services prefix services =
    (omap (candidate_of prefix) services, omap (skipped_of prefix) services).
Proof.
  induction services as [|s services IH]; cbn; [done|]. rewrite IH.
  unfold candidate_of, skipped_of, route_of, safeParseServiceAnnotations.
  by destruct (ParseServiceAnnotations prefix s).
Qed.

Lemma candidate_route prefix services :
  map Route (omap (candidate_of prefix) services) = omap (route_of prefix) services.
Proof.
  induction services as [|s services IH]; cbn; [done|]. unfold candidate_of at 1.
  destruct (route_of prefix s); cbn; by rewrite IH.
Qed.

Definition candidate_key (c : routeCandidate) : list bytes :=
  [Host (Route c); Backend (Route c); rc_Namespace c; rc_ServiceName c].

Lemma decide_ne {X Y} `{EqDecision X} (x y : X) (a b : Y) :
  (if decide (x ≠ y) then a else b) = if decide (x = y) then b else a.
Proof. by repeat case_decide. Qed.

Lemma less_last x y : ltb x y = if decide (x = y) then false else ltb x y.
Proof. case_decide; [subst; apply ltb_irrefl | done]. Qed.

Lemma lessCandidate_key a b : lessCandidate a b = less_keys (candidate_key a) (candidate_key b).
Proof. unfold lessCandidate. rewrite !decide_ne, (less_last (rc_ServiceName a)). done. Qed.

Lemma candidate_key_inj a b : candidate_key a = candidate_key b → a = b.
Proof. destruct a as [[] ??], b as [[] ??]. unfold candidate_key. cbn. by intros [= -> -> -> ->]. Qed.

(** The candidates of a snapshot, sorted. *)
Definition sorted_candidates (prefix : bytes) (services : list ServiceInput) : list routeCandidate :=
  SliceStable lessCandidate (omap (candidate_of prefix) services).

Lemma sorted_candidates_perm prefix services services' :
  services ≡ₚ services' → sorted_candidates prefix services = sorted_candidates prefix services'.
Proof.
  intros Hp. apply (SliceStable_deterministic _ candidate_key 4); [apply lessCandidate_key|done|..].
  - intros a b _ _. apply candidate_key_inj.
  - by rewrite Hp.
Qed.

(** How many Services declare a route for [h]. *)
Definition declared_times (prefix : bytes) (services : list ServiceInput) (h : bytes) : Z :=
  zlen (filter (λ r, Host r = h) (omap (route_of prefix) services)).

Lemma filter_map {X Y} (f : X → Y) (P : Y → Prop) `{!∀ y, Decision (P y)} (l : list X) :
  filter P (map f l) = map f (filter (λ x, P (f x)) l).
Proof. induction l as [|x l IH]; [done|]. cbn [map]. rewrite !filter_cons, IH. by case_decide. Qed.

Lemma sorted_count prefix services h :
  count_in (tally candidate_host (sorted_candidates prefix services)) h =
    declared_times prefix services h.
Proof.
  rewrite tally_count. unfold declared_times, sorted_candidates.
  rewrite (SliceStable_perm lessCandidate), <- candidate_route, filter_map. unfold zlen.
  by rewrite length_map.
Qed.

Definition effective_prefix (prefix : bytes) : bytes :=
  if decide (prefix = []) then DefaultAnnotationPrefix else prefix.

Context `{ErrorText}.

Lemma Build_eq services p :
  BuildDiscoveredRoutes services p =
  let prefix := effective_prefix p in
  let candidates := sorted_candidates prefix services in
  let dups := filter (λ c, 1 < declared_times prefix services (candidate_host c)) candidates in
  let skipped := omap (skipped_of prefix) services ++ map duplicate dups in
  {| Routes := map Route (filter (λ c, ¬ 1 < declared_times prefix services (candidate_host c)) candidates);
     Skipped := SliceStable lessSkipped skipped;
     DuplicateHosts := sortedKeys (list_to_set (map candidate_host dups));
     SkippedByReason := tally Reason skipped |}.
Proof.
  unfold BuildDiscoveredRoutes. fold (effective_prefix p). rewrite parse_services_eq. cbn zeta.
  fold (sorted_candidates (effective_prefix p) services).
  assert (∀ l, filter (λ c, 1 < count_in (tally candidate_host
      (sorted_candidates (effective_prefix p) services)) (candidate_host c)) l =
    filter (λ c, 1 < declared_times (effective_prefix p) services (candidate_host c)) l) as ->.
  { intros l. apply list_filter_iff. intros c. by rewrite sorted_count. }
  assert (∀ l, filter (λ c, ¬ 1 < count_in (tally candidate_host
      (sorted_candidates (effective_prefix p) services)) (candidate_host c)) l =
    filter (λ c, ¬ 1 < declared_times (effective_prefix p) services (candidate_host c)) l) as ->.
  { intros l. apply list_filter_iff. intros c. by rewrite sorted_count. }
  done.
Qed.

Lemma declared_times_perm prefix services services' h :
  services ≡ₚ services' → declared_times prefix services h = declared_times prefix services' h.
Proof. intros Hp. unfold declared_times. by rewrite Hp. Qed.

Lemma elem_of_candidates prefix services c :
  c ∈ sorted_candidates prefix services ↔ ∃ s, s ∈ services ∧ candidate_of prefix s = Some c.
Proof. unfold sorted_candidates. rewrite elem_of_SliceStable, list_elem_of_omap. done. Qed.

End lemmas.

(** ** Properties *)

Section properties.
Import kubernetes.
Context `{ErrorText}.

(** A Service becomes a route exactly when it opts in, its name and namespace
    are DNS labels, its host annotation has a normal form, and its port annotation
    is a port from 1 to 65535 that the Service exposes; the backend is then the
    cluster DNS name of the Service with that port. *)
Theorem Parse_iff_declares prefix s r :
  ParseServiceAnnotations prefix s = Routed r ↔ declares prefix s r.
Proof. apply Parse_declares. Qed.

Lemma route_of_Some prefix s r : route_of prefix s = Some r ↔ declares prefix s r.
Proof.
  rewrite <- Parse_declares. unfold route_of. destruct (ParseServiceAnnotations prefix s); naive_solver.
Qed.

Lemma elem_of_Routes services p r :
  r ∈ Routes (BuildDiscoveredRoutes services p) ↔
  (∃ s, s ∈ services ∧ declares (effective_prefix p) s r) ∧
  ¬ 1 < declared_times (effective_prefix p) services (Host r).
Proof.
  rewrite Build_eq. cbn [Routes]. cbn zeta. rewrite list_elem_of_fmap. split.
  - intros (c & -> & [Hn Hc]%list_elem_of_filter). split; [|done].
    apply elem_of_candidates in Hc as (s & Hs & E). exists s. split; [done|].
    unfold candidate_of in E. destruct (route_of _ s) eqn:Er; [|done]. injection E as <-.
    by apply route_of_Some.
  - intros [(s & Hs & Hd%route_of_Some) Hn].
    exists {| Route := r; rc_ServiceName := si_Name s; rc_Namespace := si_Namespace s |}.
    split; [done|]. apply list_elem_of_filter. split; [done|]. apply elem_of_candidates.
    exists s. split; [done|]. unfold candidate_of. by rewrite Hd.
Qed.

Lemma Routes_hosts services p :
  NoDup (map Host (Routes (BuildDiscoveredRoutes services p))) ∧
  StronglySorted (λ h h', ltb h h' = true) (map Host (Routes (BuildDiscoveredRoutes services p))).
Proof.
  rewrite Build_eq. cbn [Routes]. cbn zeta. set (prefix := effective_prefix p).
  change (map Host (map Route ?l)) with (Host <$> (Route <$> l)). rewrite <- list_fmap_compose.
  set (kept := filter _ _).
  assert (NoDup (candidate_host <$> kept)) as Hnd.
  { unfold kept. erewrite (list_filter_iff _ (λ c, ¬ 1 < count_in (tally candidate_host
      (sorted_candidates prefix services)) (candidate_host c))) by (intros c; by rewrite sorted_count).
    apply (tally_unique candidate_host). }
  split; [exact Hnd|]. apply (sorted_strict lessCandidate candidate_host); [| |exact Hnd].
  - intros a b Hne. unfold lessCandidate. rewrite decide_True; [done|]. by apply not_eq_sym.
  - apply StronglySorted_filter.
    apply (SliceStable_sorted _ candidate_key 4); [apply lessCandidate_key | done].
Qed.

Lemma Build_perm services services' p :
  services ≡ₚ services' →
  Routes (BuildDiscoveredRoutes services p) = Routes (BuildDiscoveredRoutes services' p) ∧
  DuplicateHosts (BuildDiscoveredRoutes services p) = DuplicateHosts (BuildDiscoveredRoutes services' p) ∧
  filter (λ c, 1 < declared_times (effective_prefix p) services (candidate_host c))
      (sorted_candidates (effective_prefix p) services) =
  filter (λ c, 1 < declared_times (effective_prefix p) services' (candidate_host c))
      (sorted_candidates (effective_prefix p) services').
Proof.
  intros Hp. rewrite !Build_eq. cbn [Routes DuplicateHosts]. cbn zeta.
  set (prefix := effective_prefix p). rewrite (sorted_candidates_perm prefix _ _ Hp).
  rewrite (list_filter_iff (λ c, 1 < declared_times prefix services (candidate_host c))
    (λ c, 1 < declared_times prefix services' (candidate_host c)))
    by (intros c; by rewrite (declared_times_perm _ _ _ _ Hp)).
  rewrite (list_filter_iff (λ c, ¬ 1 < declared_times prefix services (candidate_host c))
    (λ c, ¬ 1 < declared_times prefix services' (candidate_host c)))
    by (intros c; by rewrite (declared_times_perm _ _ _ _ Hp)).
  done.
Qed.

Lemma filter_length_split {A} (P : A → Prop) `{!∀ x, Decision (P x)} (l : list A) :
  (length (filter (λ x, ¬ P x) l) + length (filter P l) = length l)%nat.
Proof.
  induction l as [|x l IH]; [done|]. rewrite !filter_cons. cbn [length].
  repeat case_decide; cbn [length]; try done; lia.
Qed.

Lemma parse_accounts prefix services :
  (length (omap (candidate_of prefix) services) + length (omap (skipped_of prefix) services)
   = length services)%nat.
Proof.
  induction services as [|s services IH]; cbn; [done|].
  unfold candidate_of at 1, skipped_of at 1, route_of at 1.
  destruct (ParseServiceAnnotations prefix s); cbn; lia.
Qed.

(** C24: a snapshot holds exactly the unambiguous routes: those that some Service
    declares and whose host no second Service declares. Their hosts are distinct
    and in increasing order. *)
Theorem Build_exact services p :
  (∀ r, r ∈ Routes (BuildDiscoveredRoutes services p) ↔
        (∃ s, s ∈ services ∧ declares (effective_prefix p) s r) ∧
        declared_times (effective_prefix p) services (Host r) = 1) ∧
  NoDup (map Host (Routes (BuildDiscoveredRoutes services p))) ∧
  StronglySorted (λ h h', ltb h h' = true) (map Host (Routes (BuildDiscoveredRoutes services p))).
Proof.
  set (prefix := effective_prefix p). split_and!.
  - intros r. rewrite elem_of_Routes. fold prefix. split; intros [(s & Hs & Hd) Hn]; (split; [by exists s|]).
    + assert (0 < declared_times prefix services (Host r)); [|lia].
      unfold declared_times. assert (r ∈ filter (λ r', Host r' = Host r) (omap (route_of prefix) services)) as Hin.
      { apply list_elem_of_filter. split; [done|]. apply list_elem_of_omap. exists s.
        split; [done|]. by apply route_of_Some. }
      destruct (filter _ _); [by apply elem_of_nil in Hin|]. unfold zlen. cbn. lia.
    + lia.
  - apply Routes_hosts.
  - apply Routes_hosts.
Qed.

(** The snapshot does not depend on the order in which the Services come - in
    the watch, on the iteration order of a map: the same routes in the same order,
    the same list of ambiguous hosts, the same count of skipped Services for every
    reason. *)
Theorem Build_order_irrelevant services services' p :
  services ≡ₚ services' →
  Routes (BuildDiscoveredRoutes services p) = Routes (BuildDiscoveredRoutes services' p) ∧
  DuplicateHosts (BuildDiscoveredRoutes services p) = DuplicateHosts (BuildDiscoveredRoutes services' p) ∧
  ∀ reason, count_in (SkippedByReason (BuildDiscoveredRoutes services p)) reason =
            count_in (SkippedByReason (BuildDiscoveredRoutes services' p)) reason.
Proof.
  intros Hp. pose proof (Build_perm services services' p Hp) as (H1 & H2 & H3).
  split_and!; [done..|]. intros reason. rewrite !Build_eq. cbn [SkippedByReason]. cbn zeta.
  apply tally_perm. rewrite H3. apply Permutation_app; [by rewrite Hp | done].
Qed.

(** No Service is lost: each is either the source of a route or reported as
    skipped, once, and the counts by reason add up to the reports. *)
Theorem Build_accounts services p :
  zlen (Routes (BuildDiscoveredRoutes services p)) +
  zlen (Skipped (BuildDiscoveredRoutes services p)) = zlen services ∧
  ∀ reason, count_in (SkippedByReason (BuildDiscoveredRoutes services p)) reason =
            zlen (filter (λ s, Reason s = reason) (Skipped (BuildDiscoveredRoutes services p))).
Proof.
  rewrite Build_eq. cbn [Routes Skipped SkippedByReason]. cbn zeta.
  set (prefix := effective_prefix p). split.
  - rewrite (SliceStable_perm lessSkipped). unfold zlen.
    rewrite length_app, !length_map.
    assert (length (omap (candidate_of prefix) services) + length (omap (skipped_of prefix) services)
            = length services)%nat as Hlen by apply parse_accounts.
    assert (length (sorted_candidates prefix services) = length (omap (candidate_of prefix) services)) as Hs.
    { apply Permutation_length, SliceStable_perm. }
    pose proof (filter_length_split
      (λ c, 1 < declared_times prefix services (candidate_host c)) (sorted_candidates prefix services)).
    lia.
  - intros reason. rewrite tally_count. by rewrite (SliceStable_perm lessSkipped).
Qed.

(** ** The watch *)

(** A map of Services is iterated in any order. *)
Definition iterates (order : tracked → list ServiceInput) : Prop :=
  ∀ m, order m ≡ₚ (map_to_list m).*2.

Lemma updateSink_order p order order' services :
  iterates order → iterates order' →
  Routes (updateSink p order services) = Routes (updateSink p order' services).
Proof. intros H1 H2. apply Build_perm. by rewrite (H1 services), (H2 services). Qed.

Lemma watch_loop_order namespace p order order' services signals :
  iterates order → iterates order' →
  map Routes (watch_loop namespace p order services signals).1 =
    map Routes (watch_loop namespace p order' services signals).1 ∧
  (watch_loop namespace p order services signals).2 =
    (watch_loop namespace p order' services signals).2.
Proof.
  intros H1 H2. revert services. induction signals as [|s signals IH]; intros services; [done|].
  destruct s as [|[]|event]; try done. cbn [watch_loop].
  destruct (applyWatchEvent namespace services event) as [services'|]; [|done].
  specialize (IH services'). destruct (watch_loop _ _ order _ _), (watch_loop _ _ order' _ _).
  cbn in *. destruct IH as [-> ->]. split; [|done]. f_equal. by apply updateSink_order.
Qed.

(** Whatever order Go iterates the map of tracked Services in, a run of the
    watch publishes the same sequence of routes and ends the same way. *)
Theorem Run_order_irrelevant namespace p order order' listed watch_err signals :
  iterates order → iterates order' →
  map Routes (Run namespace p order listed watch_err signals).1 =
    map Routes (Run namespace p order' listed watch_err signals).1 ∧
  (Run namespace p order listed watch_err signals).2 =
    (Run namespace p order' listed watch_err signals).2.
Proof.
  intros H1 H2. unfold Run. destruct (initialServices _ _) as [services|]; [|done].
  destruct watch_err as [[? []]|]; [done..|].
  pose proof (watch_loop_order namespace p order order' services signals H1 H2) as [Ha Hb].
  destruct (watch_loop _ _ order _ _), (watch_loop _ _ order' _ _). cbn in *. rewrite Ha, Hb.
  split; [|done]. f_equal. by apply updateSink_order.
Qed.

(** What an event says about the Service with the key [k], given what was known. *)
Definition learns (k : bytes) (known : option ServiceInput) (event : Event) : option ServiceInput :=
  match ev_Object event with
  | Some svc =>
      if decide (serviceKey (svc_Namespace svc) (svc_Name svc) = k) then
        match ev_Type event with
        | Added | Modified => ToServiceInput (Some svc)
        | Deleted => None
        | _ => known
        end
      else known
  | None => known
  end.

Lemma applyWatchEvent_learns namespace services event :
  ev_Type event ≠ ErrorEvent →
  ∃ services', applyWatchEvent namespace services event = Ok services' ∧
    ∀ k, services' !! k = learns k (services !! k) event.
Proof.
  intros Hne. unfold applyWatchEvent, learns.
  destruct event as [ty [svc|]]; cbn [ev_Type ev_Object] in *; [|destruct ty; eauto; done].
  set (key := serviceKey _ _).
  destruct ty; try done; try (eexists; split; [done|]; intros k; by case_decide);
    try (destruct (ToServiceInput (Some svc)) as [input|]); (eexists; split; [done|]); intros k;
    (destruct (decide (key = k)) as [<-|Hk];
     [rewrite ?lookup_insert_eq, ?lookup_delete_eq; done
     |rewrite ?lookup_insert_ne, ?lookup_delete_ne by done; done]).
Qed.

Lemma Run_current namespace p order items events :
  Forall (λ e, ev_Type e ≠ ErrorEvent) events →
  ∃ published services,
    Run namespace p order (Ok items) None (map Received events) = (published, None) ∧
    length published = S (length events) ∧
    last published = Some (updateSink p order services) ∧
    ∀ k, services !! k = fold_left (learns k) events (track_list items !! k).
Proof.
  intros Hev. unfold Run, initialServices.
  assert (∀ m, ∃ published services,
    watch_loop namespace p order m (map Received events) = (published, None) ∧
    length published = length events ∧
    last (updateSink p order m :: published) = Some (updateSink p order services) ∧
    ∀ k, services !! k = fold_left (learns k) events (m !! k)) as Hloop.
  { induction Hev as [|e events He Hev IH]; intros m; [by exists [], m|].
    cbn [map watch_loop fold_left].
    destruct (applyWatchEvent_learns namespace m e He) as (m' & -> & Hm').
    destruct (IH m') as (published & services & E & Hlen & Hlast & Hs). rewrite E.
    exists (updateSink p order m' :: published), services. cbn [length]. split_and!.
    - done.
    - by rewrite Hlen.
    - by rewrite last_cons_cons.
    - intros k. by rewrite Hs, Hm'. }
  destruct (Hloop (track_list items)) as (published & services & -> & Hlen & Hlast & Hs).
  exists (updateSink p order (track_list items) :: published), services. cbn [length].
  by rewrite Hlen.
Qed.

(** C25: after any sequence of watch events the snapshot that was published last is
    built from exactly the current Services: each as the last event about it said,
    or as it was listed at the start. One snapshot is published for the list and
    one for each event, and the watch goes on. *)
Theorem Run_publishes_current namespace p order items events :
  Forall (λ e, ev_Type e ≠ ErrorEvent) events →
  ∃ published services,
    Run namespace p order (Ok items) None (map Received events) = (published, None) ∧
    length published = S (length events) ∧
    last published = Some (updateSink p order services) ∧
    ∀ k, services !! k = fold_left (learns k) events (track_list items !! k).
Proof. apply Run_current. Qed.

End properties.

(** ** Witnesses *)

Section witnesses.
Import kubernetes.

#[local] Instance no_text : ErrorText := λ _, [].

Definition sample_service (name host : bytes) : Service := {|
  svc_Name := name; svc_Namespace := gs"games";
  svc_Annotations := {[ DefaultAnnotationPrefix ++ gs"/enabled" := gs"true";
                        DefaultAnnotationPrefix ++ gs"/host" := host;
                        DefaultAnnotationPrefix ++ gs"/port" := gs"25565" ]};
  svc_Type := gs"ClusterIP";
  svc_Ports := [{| sp_Name := gs"mc"; sp_Port := 25565 |}] |}.

Definition sample_input (name host : bytes) : ServiceInput := {|
  si_Name := name; si_Namespace := gs"games";
  si_Annotations := svc_Annotations (sample_service name host);
  si_Ports := [{| sp_Name := gs"mc"; sp_Port := 25565 |}] |}.

Example sample_snapshot :
  Routes (BuildDiscoveredRoutes
    [sample_input gs"b" gs"B.example.com"; sample_input gs"c" gs"dup.example.com";
     sample_input gs"a" gs"a.example.com"; sample_input gs"d" gs"DUP.example.com."] []) =
  [{| Host := gs"a.example.com"; Backend := gs"a.games.svc.cluster.local:25565" |};
   {| Host := gs"b.example.com"; Backend := gs"b.games.svc.cluster.local:25565" |}].
Proof. vm_compute. reflexivity. Qed.

Lemma Build_order_irrelevant_witness :
  let s1 := sample_input gs"a" gs"a.example.com" in
  let s2 := sample_input gs"b" gs"b.example.com" in
  Routes (BuildDiscoveredRoutes [s1; s2] []) = Routes (BuildDiscoveredRoutes [s2; s1] []).
Proof.
  intros s1 s2. apply (Build_order_irrelevant [s1; s2] [s2; s1] []). apply Permutation_swap.
Defined.

Definition in_order (m : tracked) : list ServiceInput := (map_to_list m).*2.
Definition reversed (m : tracked) : list ServiceInput := reverse (map_to_list m).*2.

Lemma Run_order_irrelevant_witness :
  let listed := Ok [sample_service gs"a" gs"a.example.com"; sample_service gs"b" gs"b.example.com"] in
  map Routes (Run gs"games" [] in_order listed None []).1 =
  map Routes (Run gs"games" [] reversed listed None []).1.
Proof.
  intros listed. apply (Run_order_irrelevant gs"games" [] in_order reversed listed None []).
  - by intros m.
  - intros m. apply reverse_Permutation.
Defined.

Lemma Run_publishes_current_witness :
  ∃ published services,
    Run gs"games" [] in_order (Ok []) None
      (map Received [{| ev_Type := Added; ev_Object := Some (sample_service gs"a" gs"h") |}]) =
      (published, None) ∧
    length published = 2%nat ∧ last published = Some (updateSink [] in_order services).
Proof.
  destruct (Run_publishes_current gs"games" [] in_order []
    [{| ev_Type := Added; ev_Object := Some (sample_service gs"a" gs"h") |}])
    as (published & services & H1 & H2 & H3 & _).
  - constructor; [discriminate | constructor].
  - exists published, services. split; [exact H1|]. split; [exact H2 | exact H3].
Defined.

End witnesses.
