(* ===== verification/Metrics.v ===== *)
(** * The metrics recorder ([internal/metrics])

    The recorder wraps the Prometheus client: a registry of named metrics, each with a
    number of labels, and a value for every series, that is a name with the values of
    its labels. A metric without labels is there from the start, with the value zero; a
    series of a metric with labels appears when it is first used. Registering a name
    twice, giving a metric the wrong number of label values or one that is not UTF-8, and
    adding a negative number to a counter are panics of the client, [None] here. The
    values are whole numbers; of the histograms only the number of observations is kept,
    so that a histogram is one series here where the client exports its buckets, and the
    time of the last synchronisation is an argument. *)
From S2P Require Import Prelude GoUnicode GoStrings GoNet HostAddr Tables GoSort Config Kubernetes.
Open Scope Z_scope.

Module metrics.

(** A series: the name of the metric and the values of its labels. *)
Definition series : Type := bytes * list bytes.

Record Recorder := {
  enabled : bool;
  registry : gmap bytes nat;
  values : gmap series Z
}.

(** The metrics of [NewRecorder], in the order of their registration, and how many
    labels each has. *)
Definition descriptors : list (bytes * nat) := [
  (gs"mc_gateway_connections_total", 2%nat);
  (gs"mc_gateway_backend_dials_total", 2%nat);
  (gs"mc_gateway_fallback_responses_total", 2%nat);
  (gs"mc_gateway_reload_total", 1%nat);
  (gs"mc_gateway_route_decisions_total", 1%nat);
  (gs"mc_gateway_kubernetes_watch_restarts_total", 1%nat);
  (gs"mc_gateway_kubernetes_discovery_errors_total", 1%nat);
  (gs"mc_gateway_kubernetes_skipped_services", 1%nat);
  (gs"mc_gateway_udp_packets_total", 2%nat);
  (gs"mc_gateway_udp_bytes_total", 1%nat);
  (gs"mc_gateway_udp_sessions", 0%nat);
  (gs"mc_gateway_udp_sessions_created_total", 0%nat);
  (gs"mc_gateway_udp_sessions_closed_total", 1%nat);
  (gs"mc_gateway_voicechat_packets_total", 2%nat);
  (gs"mc_gateway_voicechat_bytes_total", 1%nat);
  (gs"mc_gateway_voicechat_sessions", 0%nat);
  (gs"mc_gateway_voicechat_sessions_created_total", 0%nat);
  (gs"mc_gateway_voicechat_sessions_closed_total", 1%nat);
  (gs"mc_gateway_voicechat_registrations", 0%nat);
  (gs"mc_gateway_voicechat_registration_events_total", 1%nat);
  (gs"mc_gateway_voicechat_backend_switches_total", 0%nat);
  (gs"mc_gateway_active_connections", 0%nat);
  (gs"mc_gateway_config_generation", 0%nat);
  (gs"mc_gateway_routes", 0%nat);
  (gs"mc_gateway_kubernetes_watch_running", 0%nat);
  (gs"mc_gateway_kubernetes_last_successful_sync_timestamp_seconds", 0%nat);
  (gs"mc_gateway_kubernetes_discovered_routes", 0%nat);
  (gs"mc_gateway_connection_duration_seconds", 0%nat);
  (gs"mc_gateway_backend_dial_duration_seconds", 0%nat)].

(** [MustRegister]. *)
Fixpoint register (ds : list (bytes * nat)) (m : gmap bytes nat) : option (gmap bytes nat) :=
  match ds with
  | [] => Some m
  | (name, labels) :: rest =>
      match m !! name with
      | Some _ => None
      | None => register rest (<[name := labels]> m)
      end
  end.

(** The series of the metrics without labels, which their constructors make. *)
Definition unlabelled : list series := (λ d, (d.1, [])) <$> filter (λ d, d.2 = 0%nat) descriptors.

Definition NewRecorder (on : bool) : option Recorder :=
  if negb on then Some {| enabled := false; registry := ∅; values := ∅ |}
  else reg ← register descriptors ∅;
       Some {| enabled := true; registry := reg; values := list_to_map ((λ s, (s, 0)) <$> unlabelled) |}.

(** The value of a series; zero before it is first used. *)
Definition value (r : Recorder) (s : series) : Z := default 0 (values r !! s).

(** [WithLabelValues], and changing the series to what [f] makes of its value. It panics
    on a number of values that is not that of the labels, and on one that is not UTF-8. *)
Definition update (r : Recorder) (name : bytes) (labels : list bytes) (f : Z → Z) : option Recorder :=
  match registry r !! name with
  | Some n =>
      if (length labels =? n)%nat && forallb utf8.Valid labels
      then Some {| enabled := enabled r; registry := registry r;
                   values := <[(name, labels) := f (value r (name, labels))]> (values r) |}
      else None
  | None => None
  end.

Definition inc (r : Recorder) (name : bytes) (labels : list bytes) : option Recorder := update r name labels (Z.add 1).
Definition dec (r : Recorder) (name : bytes) (labels : list bytes) : option Recorder := update r name labels (Z.add (-1)).
Definition set (r : Recorder) (name : bytes) (labels : list bytes) (v : Z) : option Recorder :=
  update r name labels (λ _, v).

(** [Counter.Add] panics on a negative number. *)
Definition add (r : Recorder) (name : bytes) (labels : list bytes) (n : Z) : option Recorder :=
  if n <? 0 then None else update r name labels (Z.add n).

(** [if !r.enabled { return }]. *)
Definition guarded (r : Recorder) (k : option Recorder) : option Recorder := if negb (enabled r) then Some r else k.

(** ** The operations *)

Definition SetConfig (r : Recorder) (generation routes : Z) : option Recorder :=
  guarded r (r ← set r gs"mc_gateway_config_generation" [] generation; set r gs"mc_gateway_routes" [] routes).

Definition ConnectionAccepted (r : Recorder) : option Recorder :=
  guarded r (r ← inc r gs"mc_gateway_connections_total" [gs"accepted"; gs"unknown"];
             inc r gs"mc_gateway_active_connections" []).

Definition ConnectionFinished (r : Recorder) (result reason : bytes) : option Recorder :=
  guarded r (r ← inc r gs"mc_gateway_connections_total" [result; reason];
             r ← dec r gs"mc_gateway_active_connections" [];
             inc r gs"mc_gateway_connection_duration_seconds" []).

Definition BackendDialFinished (r : Recorder) (result reason : bytes) : option Recorder :=
  guarded r (r ← inc r gs"mc_gateway_backend_dials_total" [result; reason];
             inc r gs"mc_gateway_backend_dial_duration_seconds" []).

Definition FallbackResponse (r : Recorder) (state reason : bytes) : option Recorder :=
  guarded r (inc r gs"mc_gateway_fallback_responses_total" [state; reason]).

Definition RouteDecision (r : Recorder) (result : bytes) : option Recorder :=
  guarded r (inc r gs"mc_gateway_route_decisions_total" [result]).

Definition Reload (r : Recorder) (result : bytes) : option Recorder :=
  guarded r (inc r gs"mc_gateway_reload_total" [result]).

Definition KubernetesWatchRunning (r : Recorder) (running : bool) : option Recorder :=
  guarded r (if running then set r gs"mc_gateway_kubernetes_watch_running" [] 1
             else set r gs"mc_gateway_kubernetes_watch_running" [] 0).

Definition KubernetesWatchRestart (r : Recorder) (reason : bytes) : option Recorder :=
  guarded r (inc r gs"mc_gateway_kubernetes_watch_restarts_total" [reason]).

(** [now] is the Unix time. *)
Definition KubernetesDiscoverySync (r : Recorder) (discoveredRoutes now : Z) : option Recorder :=
  guarded r (r ← set r gs"mc_gateway_kubernetes_discovered_routes" [] discoveredRoutes;
             set r gs"mc_gateway_kubernetes_last_successful_sync_timestamp_seconds" [] now).

Definition kubernetesSkippedServiceReasons : list bytes := [
  kubernetes.ReasonDisabled; kubernetes.ReasonInvalidPrefix; kubernetes.ReasonInvalidServiceName;
  kubernetes.ReasonInvalidNamespace; kubernetes.ReasonMissingHost; kubernetes.ReasonInvalidHost;
  kubernetes.ReasonMissingPort; kubernetes.ReasonInvalidPort; kubernetes.ReasonPortNotFound;
  kubernetes.ReasonDuplicateHost; kubernetes.ReasonUnknown].

(** The loop of [KubernetesSkippedServicesByReason]; a missing key reads as zero. *)
Fixpoint set_skipped (r : Recorder) (reasons : list bytes) (skipped : gmap bytes Z) : option Recorder :=
  match reasons with
  | [] => Some r
  | reason :: rest =>
      r ← set r gs"mc_gateway_kubernetes_skipped_services" [reason] (default 0 (skipped !! reason));
      set_skipped r rest skipped
  end.

Definition KubernetesSkippedServicesByReason (r : Recorder) (skipped : gmap bytes Z) : option Recorder :=
  guarded r (set_skipped r kubernetesSkippedServiceReasons skipped).

Definition KubernetesDiscoveryError (r : Recorder) (reason : bytes) : option Recorder :=
  guarded r (inc r gs"mc_gateway_kubernetes_discovery_errors_total" [reason]).

Definition UDPPacket (r : Recorder) (direction result : bytes) (n : Z) : option Recorder :=
  guarded r (r ← inc r gs"mc_gateway_udp_packets_total" [direction; result];
             if decide (result = gs"forwarded") then add r gs"mc_gateway_udp_bytes_total" [direction] n
             else Some r).

Definition UDPSessionCreated (r : Recorder) : option Recorder :=
  guarded r (r ← inc r gs"mc_gateway_udp_sessions_created_total" []; inc r gs"mc_gateway_udp_sessions" []).

Definition UDPSessionClosed (r : Recorder) (reason : bytes) : option Recorder :=
  guarded r (r ← inc r gs"mc_gateway_udp_sessions_closed_total" [reason]; dec r gs"mc_gateway_udp_sessions" []).

Definition VoiceChatPacket (r : Recorder) (direction result : bytes) (n : Z) : option Recorder :=
  guarded r (r ← inc r gs"mc_gateway_voicechat_packets_total" [direction; result];
             if decide (result = gs"forwarded") then add r gs"mc_gateway_voicechat_bytes_total" [direction] n
             else Some r).

Definition VoiceChatSessionCreated (r : Recorder) : option Recorder :=
  guarded r (r ← inc r gs"mc_gateway_voicechat_sessions_created_total" [];
             inc r gs"mc_gateway_voicechat_sessions" []).

Definition VoiceChatSessionClosed (r : Recorder) (reason : bytes) : option Recorder :=
  guarded r (r ← inc r gs"mc_gateway_voicechat_sessions_closed_total" [reason];
             dec r gs"mc_gateway_voicechat_sessions" []).

Definition VoiceChatRegistrationsSet (r : Recorder) (count : Z) : option Recorder :=
  guarded r (set r gs"mc_gateway_voicechat_registrations" [] count).

Definition VoiceChatRegistrationEvent (r : Recorder) (result : bytes) : option Recorder :=
  guarded r (inc r gs"mc_gateway_voicechat_registration_events_total" [result]).

Definition VoiceChatBackendSwitch (r : Recorder) : option Recorder :=
  guarded r (inc r gs"mc_gateway_voicechat_backend_switches_total" []).

Create HintDb recorder.
#[export] Hint Unfold SetConfig ConnectionAccepted ConnectionFinished BackendDialFinished FallbackResponse
  RouteDecision Reload KubernetesWatchRunning KubernetesWatchRestart KubernetesDiscoverySync
  KubernetesSkippedServicesByReason KubernetesDiscoveryError UDPPacket UDPSessionCreated UDPSessionClosed
  VoiceChatPacket VoiceChatSessionCreated VoiceChatSessionClosed VoiceChatRegistrationsSet
  VoiceChatRegistrationEvent VoiceChatBackendSwitch guarded : recorder.

(** ** Sequences of operations *)

Inductive op :=
| OSetConfig (generation routes : Z)
| OConnectionAccepted
| OConnectionFinished (result reason : bytes)
| OBackendDialFinished (result reason : bytes)
| OFallbackResponse (state reason : bytes)
| ORouteDecision (result : bytes)
| OReload (result : bytes)
| OWatchRunning (running : bool)
| OWatchRestart (reason : bytes)
| ODiscoverySync (discoveredRoutes now : Z)
| OSkipped (skipped : gmap bytes Z)
| ODiscoveryError (reason : bytes)
| OUDPPacket (direction result : bytes) (n : Z)
| OUDPSessionCreated
| OUDPSessionClosed (reason : bytes)
| OVoicePacket (direction result : bytes) (n : Z)
| OVoiceSessionCreated
| OVoiceSessionClosed (reason : bytes)
| OVoiceRegistrationsSet (count : Z)
| OVoiceRegistrationEvent (result : bytes)
| OVoiceBackendSwitch.

Definition apply (r : Recorder) (o : op) : option Recorder :=
  match o with
  | OSetConfig g n => SetConfig r g n
  | OConnectionAccepted => ConnectionAccepted r
  | OConnectionFinished result reason => ConnectionFinished r result reason
  | OBackendDialFinished result reason => BackendDialFinished r result reason
  | OFallbackResponse state reason => FallbackResponse r state reason
  | ORouteDecision result => RouteDecision r result
  | OReload result => Reload r result
  | OWatchRunning running => KubernetesWatchRunning r running
  | OWatchRestart reason => KubernetesWatchRestart r reason
  | ODiscoverySync n now => KubernetesDiscoverySync r n now
  | OSkipped skipped => KubernetesSkippedServicesByReason r skipped
  | ODiscoveryError reason => KubernetesDiscoveryError r reason
  | OUDPPacket direction result n => UDPPacket r direction result n
  | OUDPSessionCreated => UDPSessionCreated r
  | OUDPSessionClosed reason => UDPSessionClosed r reason
  | OVoicePacket direction result n => VoiceChatPacket r direction result n
  | OVoiceSessionCreated => VoiceChatSessionCreated r
  | OVoiceSessionClosed reason => VoiceChatSessionClosed r reason
  | OVoiceRegistrationsSet count => VoiceChatRegistrationsSet r count
  | OVoiceRegistrationEvent result => VoiceChatRegistrationEvent r result
  | OVoiceBackendSwitch => VoiceChatBackendSwitch r
  end.

Fixpoint applies (r : Recorder) (os : list op) : option Recorder :=
  match os with
  | [] => Some r
  | o :: rest => r ← apply r o; applies r rest
  end.

End metrics.

(** ** Lemmas: series and totals *)

Section totals.
Import metrics.

(** The sum of a metric over all values of its labels. *)
Definition sum_of (m : gmap series Z) (name : bytes) : Z :=
  map_fold (λ s v acc, if decide (s.1 = name) then v + acc else acc) 0 m.

Definition total (r : Recorder) (name : bytes) : Z := sum_of (values r) name.

Definition updated (r : Recorder) (name : bytes) (labels : list bytes) (f : Z → Z) : Recorder := {|
  enabled := enabled r; registry := registry r;
  values := <[(name, labels) := f (value r (name, labels))]> (values r) |}.

Lemma sum_of_delete m s name :
  sum_of m name = sum_of (delete s m) name + (if decide (s.1 = name) then default 0 (m !! s) else 0).
Proof.
  destruct (m !! s) as [v|] eqn:E; cbn.
  - unfold sum_of. rewrite (map_fold_delete_L _ _ s v m); [|intros; repeat case_decide; lia|done].
    case_decide; lia.
  - rewrite delete_id by done. case_decide; lia.
Qed.

Lemma total_updated r name labels f n :
  total (updated r name labels f) n =
  total r n + (if decide (n = name) then f (value r (name, labels)) - value r (name, labels) else 0).
Proof.
  unfold total, updated. cbn [values]. rewrite (sum_of_delete (<[_ := _]> _) (name, labels)), delete_insert_eq.
  rewrite (sum_of_delete (values r) (name, labels) n), lookup_insert_eq.
  cbn [fst]. change (default 0 (Some ?x)) with x.
  destruct (decide (name = n)) as [<-|Hne]; [|rewrite decide_False by done; lia].
  rewrite decide_True by done. change (default 0 (values r !! (name, labels))) with (value r (name, labels)). lia.
Qed.

Lemma value_updated r name labels f s :
  value (updated r name labels f) s = if decide (s = (name, labels)) then f (value r s) else value r s.
Proof.
  unfold value at 1, updated. cbn [values]. case_decide as E; [subst; by rewrite lookup_insert_eq|].
  by rewrite lookup_insert_ne.
Qed.

Lemma value_other r name labels f s : s.1 ≠ name → value (updated r name labels f) s = value r s.
Proof. intros Hn. rewrite value_updated, decide_False; [done|]. by intros ->. Qed.

Lemma value_same r name labels f : value (updated r name labels f) (name, labels) = f (value r (name, labels)).
Proof. by rewrite value_updated, decide_True. Qed.

Lemma total_other r name labels f n : n ≠ name → total (updated r name labels f) n = total r n.
Proof. intros Hn. rewrite total_updated, decide_False by done. lia. Qed.

Lemma total_same r name labels f :
  total (updated r name labels f) name = total r name + (f (value r (name, labels)) - value r (name, labels)).
Proof. by rewrite total_updated, decide_True. Qed.

(** ** Lemmas: no operation panics *)

Lemma register_spec ds m :
  NoDup ds.*1 → (∀ d, d ∈ ds → m !! d.1 = None) →
  ∃ m', register ds m = Some m' ∧ (∀ d, d ∈ ds → m' !! d.1 = Some d.2) ∧
    ∀ k, (k ∉ ds.*1) → m' !! k = m !! k.
Proof.
  revert m. induction ds as [|[name n] ds IH]; intros m Hnd Hm; cbn [register].
  { exists m. split_and!; [done|by intros d ?%elem_of_nil|done]. }
  rewrite fmap_cons in Hnd. apply NoDup_cons in Hnd as [Hn Hnd]. pose proof (Hm (name, n) ltac:(left)) as E0. cbn in E0. rewrite E0.
  destruct (IH (<[name := n]> m) Hnd) as (m' & E & H1 & H2).
  { intros d Hd. apply lookup_insert_None. split; [by apply Hm; right|]. intros ->. apply Hn, list_elem_of_fmap. by exists d. }
  exists m'. split_and!; [done| |].
  - intros d [->|Hd]%elem_of_cons; [|by apply H1]. rewrite H2 by done. apply lookup_insert_eq.
  - intros k [Hk Hk']%not_elem_of_cons. rewrite H2 by done. by rewrite lookup_insert_ne.
Qed.

Fixpoint all_new (l : list bytes) : bool :=
  match l with [] => true | x :: rest => bool_decide (x ∉ rest) && all_new rest end.

Lemma all_new_NoDup l : all_new l = true → NoDup l.
Proof.
  induction l as [|x l IH]; cbn; [constructor|]. intros [Hx%bool_decide_eq_true Hl]%andb_true_iff.
  constructor; [done|by apply IH].
Qed.

Lemma descriptors_distinct : NoDup descriptors.*1.
Proof. apply all_new_NoDup. vm_compute. reflexivity. Qed.

(** A recorder in use. *)
Definition ready (r : Recorder) : Prop :=
  enabled r = true ∧ ∀ d, d ∈ descriptors → registry r !! d.1 = Some d.2.

(** A recorder whose values are all zero, among them those of the metrics without
    labels only. *)
Definition zeroed (r : Recorder) : Prop :=
  (∀ s, value r s = 0) ∧ (∀ name, total r name = 0) ∧ ∀ s, is_Some (values r !! s) ↔ s ∈ unlabelled.

Lemma sum_of_zero m name : (∀ s v, m !! s = Some v → v = 0) → sum_of m name = 0.
Proof.
  induction m as [|s v m Hs IH] using map_ind; intros Hz; [done|].
  rewrite (sum_of_delete _ s), delete_insert_id, lookup_insert_eq by done. rewrite IH.
  - cbn. rewrite (Hz s v) by apply lookup_insert_eq. by case_decide.
  - intros s' v' Hs'. apply (Hz s'). rewrite lookup_insert_ne; [done|]. by intros ->; rewrite Hs in Hs'.
Qed.

Lemma zero_values (l : list series) s :
  (list_to_map ((λ s, (s, 0)) <$> l) : gmap series Z) !! s = if decide (s ∈ l) then Some 0 else None.
Proof.
  induction l as [|x l IH]; [by rewrite decide_False by apply not_elem_of_nil|]. rewrite fmap_cons. cbn [list_to_map foldr].
  destruct (decide (x = s)) as [<-|Hne]; [rewrite lookup_insert_eq, decide_True by left; done|].
  rewrite lookup_insert_ne by done. etrans; [exact IH|]. destruct (decide (s ∈ l)) as [Hin|Hin];
    [rewrite decide_True by by right|rewrite decide_False by (rewrite elem_of_cons; by intros [->|])]; done.
Qed.

Lemma new_ready : ∃ r, NewRecorder true = Some r ∧ ready r ∧ zeroed r.
Proof.
  destruct (register_spec descriptors ∅ descriptors_distinct ltac:(done)) as (m & E & Hm & _).
  destruct (ex_intro (λ v : gmap series Z, v = _ ∧ ∀ s, v !! s = _) _ (conj eq_refl (zero_values unlabelled)))
    as (v & Ev & Hv).
  unfold NewRecorder. cbn [negb]. rewrite E, <- Ev. eexists. split; [reflexivity|]. split; [split; [reflexivity|exact Hm]|].
  split_and!.
  - intros s. unfold value. cbn [values]. rewrite Hv. by case_decide.
  - intros name. apply sum_of_zero. cbn [values]. intros s n. rewrite Hv. case_decide; congruence.
  - intros s. cbn [values]. rewrite Hv. case_decide.
    + split; intros _; [assumption|]. exists 0. reflexivity.
    + split; [intros [n [=]]|contradiction].
Qed.

Definition described (name : bytes) (labels : list bytes) : bool :=
  bool_decide ((name, length labels) ∈ descriptors).

Lemma update_ready r name labels f :
  ready r → described name labels = true → forallb utf8.Valid labels = true →
  update r name labels f = Some (updated r name labels f).
Proof.
  intros [_ Hr] Hd%bool_decide_eq_true Hv. unfold update. apply Hr in Hd. cbn [fst snd] in Hd.
  by rewrite Hd, Nat.eqb_refl, Hv.
Qed.

(** [k] does not panic, and what it gives satisfies [Q]. *)
Definition wp (k : option Recorder) (Q : Recorder → Prop) : Prop := match k with Some r => Q r | None => False end.

Lemma wp_update r name labels f (k : Recorder → option Recorder) Q :
  ready r → described name labels = true → forallb utf8.Valid labels = true →
  wp (k (updated r name labels f)) Q → wp (r ← update r name labels f; k r) Q.
Proof. intros Hr Hn Hv Hk. by rewrite update_ready. Qed.

Lemma wp_update_last r name labels f Q :
  ready r → described name labels = true → forallb utf8.Valid labels = true →
  Q (updated r name labels f) → wp (update r name labels f) Q.
Proof. intros Hr Hn Hv Hk. by rewrite update_ready. Qed.

Lemma wp_add r name labels n Q :
  ready r → 0 ≤ n → described name labels = true → forallb utf8.Valid labels = true →
  Q (updated r name labels (Z.add n)) → wp (add r name labels n) Q.
Proof. intros Hr Hn Hd Hv Hk. unfold add. rewrite (proj2 (Z.ltb_ge n 0)) by done. by apply wp_update_last. Qed.

Lemma ready_updated r name labels f : ready r → ready (updated r name labels f).
Proof. done. Qed.

(** ** Lemmas: the gauges balance *)

(** The gauge of sessions is what was created less what was closed, and the gauge of
    connections what was accepted less what was finished. *)
Record balanced (r : Recorder) : Prop := {
  bal_udp : value r (gs"mc_gateway_udp_sessions", []) =
    total r gs"mc_gateway_udp_sessions_created_total" - total r gs"mc_gateway_udp_sessions_closed_total";
  bal_voice : value r (gs"mc_gateway_voicechat_sessions", []) =
    total r gs"mc_gateway_voicechat_sessions_created_total" - total r gs"mc_gateway_voicechat_sessions_closed_total";
  bal_conns : value r (gs"mc_gateway_active_connections", []) =
    2 * value r (gs"mc_gateway_connections_total", [gs"accepted"; gs"unknown"]) -
    total r gs"mc_gateway_connections_total"
}.

Definition watched : list bytes := [
  gs"mc_gateway_udp_sessions"; gs"mc_gateway_udp_sessions_created_total"; gs"mc_gateway_udp_sessions_closed_total";
  gs"mc_gateway_voicechat_sessions"; gs"mc_gateway_voicechat_sessions_created_total";
  gs"mc_gateway_voicechat_sessions_closed_total"; gs"mc_gateway_active_connections"; gs"mc_gateway_connections_total"].

Lemma balanced_other r name labels f :
  bool_decide (name ∈ watched) = false → balanced r → balanced (updated r name labels f).
Proof.
  intros Hn%bool_decide_eq_false [H1 H2 H3].
  assert (∀ n, bool_decide (n ∈ watched) = true → n ≠ name) as Hw by (intros n Hin%bool_decide_eq_true ->; done).
  split; rewrite !value_other, !total_other by (apply Hw; vm_compute; reflexivity); assumption.
Qed.

(** The label values that an operation is given. *)
Definition texts (o : op) : list bytes :=
  match o with
  | OConnectionFinished a b | OBackendDialFinished a b | OFallbackResponse a b
  | OUDPPacket a b _ | OVoicePacket a b _ => [a; b]
  | ORouteDecision a | OReload a | OWatchRestart a | ODiscoveryError a | OUDPSessionClosed a
  | OVoiceSessionClosed a | OVoiceRegistrationEvent a => [a]
  | _ => []
  end.

(** What the callers keep to: texts are UTF-8, sizes of packets are not negative, and no
    connection is finished as accepted. *)
Definition proper (o : op) : Prop :=
  forallb utf8.Valid (texts o) = true ∧
  match o with
  | OConnectionFinished result _ => result ≠ gs"accepted"
  | OUDPPacket _ _ n | OVoicePacket _ _ n => 0 ≤ n
  | _ => True
  end.

Lemma valid_head a b : forallb utf8.Valid [a; b] = true → forallb utf8.Valid [a] = true.
Proof. cbn [forallb]. by destruct (utf8.Valid a). Qed.

End totals.

(** The label values of an update: given to the operation, or constants. *)
Ltac valid_labels :=
  solve [assumption | eapply valid_head; eassumption | vm_compute; reflexivity].

(** Run the updates of an operation one after the other. *)
Ltac run_updates :=
  repeat first [apply wp_update; [done|vm_compute; reflexivity|valid_labels|]
               | apply wp_update_last; [done|vm_compute; reflexivity|valid_labels|]].

Section balance.
Import metrics.

(** Follow the updates of one or more series through the values and the sums. *)
Ltac differs := apply (bool_decide_unpack _); vm_compute; exact I.

Ltac gauges :=
  repeat first
    [ rewrite value_same | rewrite total_same
    | rewrite value_other by (cbn [fst]; differs) | rewrite total_other by differs ].

Lemma finished_balanced r result reason :
  balanced r → result ≠ gs"accepted" →
  balanced (updated (updated r gs"mc_gateway_connections_total" [result; reason] (Z.add 1))
    gs"mc_gateway_active_connections" [] (Z.add (-1))).
Proof.
  intros [H1 H2 H3] Hne. split; gauges; [lia..|].
  rewrite value_updated, decide_False by (intros E; injection E; congruence). lia.
Qed.

Lemma zeroed_balanced r : zeroed r → balanced r.
Proof. intros (Hv & Ht & _). split; rewrite !Hv, !Ht; reflexivity. Qed.

Ltac balances Hb := destruct Hb as [? ? ?]; split; gauges; lia.

Lemma apply_ready r o : proper o → ready r → balanced r → wp (apply r o) (λ r, ready r ∧ balanced r).
Proof.
  intros [Hv Hp] Hr Hb. pose proof Hr as [Hon _]. destruct o; cbn [apply texts] in *;
    autounfold with recorder; rewrite Hon; cbn [negb].
  all: try by (run_updates; split; [done|]; repeat apply balanced_other).
  - run_updates. split; [done|]. balances Hb.
  - run_updates. split; [done|]. by apply balanced_other, finished_balanced.
  - destruct running; run_updates; (split; [done|by apply balanced_other]).
  - run_updates. case_decide; [apply wp_add; [done..|vm_compute; reflexivity|valid_labels|]|];
      (split; [done|]); by repeat apply balanced_other.
  - run_updates. split; [done|]. balances Hb.
  - run_updates. split; [done|]. balances Hb.
  - run_updates. case_decide; [apply wp_add; [done..|vm_compute; reflexivity|valid_labels|]|];
      (split; [done|]); by repeat apply balanced_other.
  - run_updates. split; [done|]. balances Hb.
  - run_updates. split; [done|]. balances Hb.
Qed.

Lemma applies_ready r os :
  Forall proper os → ready r → balanced r → wp (applies r os) (λ r, ready r ∧ balanced r).
Proof.
  revert r. induction os as [|o os IH]; intros r Hp Hr Hb; cbn [applies]; [done|].
  apply Forall_cons in Hp as [Ho Hp]. pose proof (apply_ready r o Ho Hr Hb) as Ha.
  destruct (apply r o) as [r'|]; [|done]. by apply IH; [|apply Ha..].
Qed.

Lemma applies_disabled r os : enabled r = false → applies r os = Some r.
Proof.
  intros Hr. induction os as [|o os IH]; [done|]. cbn [applies].
  assert (apply r o = Some r) as ->; [|done]. destruct o; cbn [apply];
    autounfold with recorder; by rewrite Hr.
Qed.

Lemma applies_app r os os' r2 :
  applies r (os ++ os') = Some r2 → ∃ r1, applies r os = Some r1 ∧ applies r1 os' = Some r2.
Proof.
  revert r. induction os as [|o os IH]; intros r; cbn [app applies]; [by eauto|].
  intros (r1 & E1 & E)%bind_Some. rewrite E1. by apply IH.
Qed.

(** ** Lemmas: skipped services *)

Lemma set_skipped_values r reasons skipped r' :
  NoDup reasons → set_skipped r reasons skipped = Some r' →
  ∀ reason, value r' (gs"mc_gateway_kubernetes_skipped_services", [reason]) =
    if decide (reason ∈ reasons) then default 0 (skipped !! reason)
    else value r (gs"mc_gateway_kubernetes_skipped_services", [reason]).
Proof.
  revert r. induction reasons as [|x rest IH]; intros r Hnd E reason; cbn [set_skipped] in E.
  { injection E as <-. done. }
  apply NoDup_cons in Hnd as [Hx Hnd]. apply bind_Some in E as (r1 & E1 & E). rewrite (IH r1 Hnd E).
  unfold set, update in E1. destruct (registry r !! _) as [n|]; [|done]. destruct (_ && _); [|done].
  injection E1 as <-. fold (updated r gs"mc_gateway_kubernetes_skipped_services" [x] (λ _, default 0 (skipped !! x))).
  destruct (decide (reason = x)) as [->|Hne].
  - rewrite value_same. destruct (decide (x ∈ rest)) as [|_]; [done|]. by rewrite decide_True by left.
  - assert (value (updated r gs"mc_gateway_kubernetes_skipped_services" [x] (λ _, default 0 (skipped !! x)))
      (gs"mc_gateway_kubernetes_skipped_services", [reason]) =
      value r (gs"mc_gateway_kubernetes_skipped_services", [reason])) as ->.
    { rewrite value_updated. case_decide; [congruence|done]. }
    destruct (decide (reason ∈ rest)); [rewrite decide_True by by right|rewrite decide_False by set_solver]; done.
Qed.

Lemma sum_by_key {A} (f : A → bytes) (keys : list bytes) (l : list A) :
  NoDup keys → Forall (λ x, f x ∈ keys) l →
  foldr Z.add 0 ((λ k, zlen (filter (λ x, f x = k) l)) <$> keys) = zlen l.
Proof.
  revert l. induction keys as [|k keys IH]; intros l Hnd Hl.
  { destruct l as [|x l]; [done|]. apply Forall_cons in Hl as [Hx _]. by apply not_elem_of_nil in Hx. }
  apply NoDup_cons in Hnd as [Hk Hnd]. cbn [fmap list_fmap foldr].
  assert ((λ k', zlen (filter (λ x, f x = k') l)) <$> keys =
    (λ k', zlen (filter (λ x, f x = k') (filter (λ x, f x ≠ k) l))) <$> keys) as ->.
  { apply list_fmap_ext. intros i k' Hi. f_equal. rewrite list_filter_filter. apply list_filter_iff.
    intros x. split; [|tauto]. intros ->. split; [done|]. intros ->. apply Hk. by eapply list_elem_of_lookup_2. }
  rewrite IH; [|done|].
  - unfold zlen. pose proof (filter_length_split (λ x, f x = k) l). lia.
  - apply Forall_forall. intros x [Hx Hin]%list_elem_of_filter. rewrite Forall_forall in Hl. specialize (Hl x Hin). set_solver.
Qed.

(** Every reason for which a service is skipped has a series. *)
Lemma reasons_listed `{ErrorText} services p :
  Forall (λ s, kubernetes.Reason s ∈ kubernetesSkippedServiceReasons)
    (kubernetes.Skipped (kubernetes.BuildDiscoveredRoutes services p)).
Proof.
  rewrite Build_eq. cbn zeta. cbn [kubernetes.Skipped]. rewrite (SliceStable_perm kubernetes.lessSkipped).
  apply Forall_app. split; apply Forall_forall.
  - intros s (svc & Hin & E)%list_elem_of_omap. unfold skipped_of in E.
    destruct (kubernetes.ParseServiceAnnotations _ svc) as [|reason err] eqn:Ep; [done|]. injection E as <-.
    unfold kubernetes.ParseServiceAnnotations in Ep.
    repeat case_match; simplify_eq; apply (bool_decide_unpack _); vm_compute; exact I.
  - intros s (c & -> & _)%list_elem_of_fmap. apply (bool_decide_unpack _). vm_compute. exact I.
Qed.

(** An update keeps to a list of series. *)
Lemma series_updated (known : list series) r name labels f :
  (∀ s, is_Some (values r !! s) → s ∈ known) → (name, labels) ∈ known →
  ∀ s, is_Some (values (updated r name labels f) !! s) → s ∈ known.
Proof.
  intros Hr Hs s. cbn. destruct (decide ((name, labels) = s)) as [<-|]; [done|]. rewrite lookup_insert_ne by done. apply Hr.
Qed.

End balance.

(** Decide a closed fact; follow values and sums through updates. *)
Ltac by_evaluation := apply (bool_decide_unpack _); vm_compute; exact I.

Ltac follow_updates :=
  repeat first
    [ rewrite value_same | rewrite total_same
    | rewrite value_other by (cbn [fst]; by_evaluation) | rewrite total_other by by_evaluation ].

(** ** Properties *)

Section properties.
Import metrics.

(** C40: the recorder never panics for callers that give it UTF-8 texts and sizes of packets
    that are not negative - no name is registered twice and every operation gives its
    metrics as many label values as they have labels - and, when no connection is finished
    with the result [accepted], its gauges balance: after any such operations the sessions
    shown are those created less those closed, for UDP and for voice chat, and the
    connections shown are those accepted less those finished. A recorder that is off
    records nothing. *)
Theorem recorder_balances on os :
  Forall proper os →
  ∃ r0 r, NewRecorder on = Some r0 ∧ applies r0 os = Some r ∧ balanced r ∧ (on = false → values r = ∅).
Proof.
  intros Hp. destruct on.
  - destruct new_ready as (r0 & E0 & Hr & Hz). exists r0.
    pose proof (zeroed_balanced r0 Hz) as Hb.
    pose proof (applies_ready r0 os Hp Hr Hb) as Ha. destruct (applies r0 os) as [r|]; [|destruct Ha].
    destruct Ha as [_ Ha]. exists r. split; [exact E0|]. split; [reflexivity|]. split; [exact Ha|discriminate].
  - eexists _, _. split; [reflexivity|]. split; [by apply applies_disabled|]. split; [by split|reflexivity].
Qed.

(** No skipped service is missing from the metrics: after any operations, when the
    services skipped while building routes are recorded, the series of each reason shows
    how many were skipped for it, and the series add up to all the services that gave no
    route. *)
Theorem skipped_services_shown `{ErrorText} os services p :
  Forall proper os →
  let result := kubernetes.BuildDiscoveredRoutes services p in
  ∃ r0 r, NewRecorder true = Some r0 ∧ applies r0 (os ++ [OSkipped (kubernetes.SkippedByReason result)]) = Some r ∧
  foldr Z.add 0 ((λ reason, value r (gs"mc_gateway_kubernetes_skipped_services", [reason]))
    <$> kubernetesSkippedServiceReasons) = zlen services - zlen (kubernetes.Routes result) ∧
  ∀ reason, reason ∈ kubernetesSkippedServiceReasons →
    value r (gs"mc_gateway_kubernetes_skipped_services", [reason]) =
    zlen (filter (λ s, kubernetes.Reason s = reason) (kubernetes.Skipped result)).
Proof.
  intros Hp result. destruct new_ready as (r0 & E0 & Hr & Hz). exists r0.
  pose proof (zeroed_balanced r0 Hz) as Hb.
  assert (Forall proper (os ++ [OSkipped (kubernetes.SkippedByReason result)])) as Hp' by (apply Forall_app; by repeat constructor).
  pose proof (applies_ready r0 _ Hp' Hr Hb) as Ha. destruct (applies r0 (os ++ _)) as [r|] eqn:E; [|destruct Ha].
  exists r. split; [exact E0|]. split; [reflexivity|]. clear Ha Hp'.
  apply applies_app in E as (r1 & E1 & E). pose proof (applies_ready r0 os Hp Hr Hb) as Ha1. rewrite E1 in Ha1.
  destruct Ha1 as [[Hon _] _]. cbn [applies apply] in E. apply bind_Some in E as (r2 & E & [= <-]).
  unfold KubernetesSkippedServicesByReason, guarded in E. rewrite Hon in E.
  assert (NoDup kubernetesSkippedServiceReasons) as Hnd by (apply all_new_NoDup; vm_compute; reflexivity).
  destruct (Build_accounts services p) as [Hsum Hcount].
  assert (∀ reason, reason ∈ kubernetesSkippedServiceReasons →
    value r2 (gs"mc_gateway_kubernetes_skipped_services", [reason]) =
    zlen (filter (λ s, kubernetes.Reason s = reason) (kubernetes.Skipped result))) as Hval.
  { intros reason Hin. rewrite (set_skipped_values _ _ _ _ Hnd E), decide_True by done. apply Hcount. }
  split; [|exact Hval].
  rewrite (list_fmap_ext _ (λ reason, zlen (filter (λ s, kubernetes.Reason s = reason) (kubernetes.Skipped result)))).
  - rewrite (sum_by_key kubernetes.Reason); [unfold result; lia|done|apply reasons_listed].
  - intros i reason Hi. apply Hval. by eapply list_elem_of_lookup_2.
Qed.

End properties.

(** ** Witnesses *)

Section witnesses.
Import metrics.
#[local] Existing Instance Kubernetes.no_text.

Definition sample_ops : list op :=
  [OConnectionAccepted; OUDPSessionCreated; OConnectionFinished gs"closed" gs"client_close"; OUDPSessionCreated;
   OUDPSessionClosed gs"idle_timeout"].

Lemma sample_proper : Forall proper sample_ops.
Proof. repeat apply Forall_cons_2; [..|constructor]; (split; [vm_compute; reflexivity|]); [done..|discriminate|done|done]. Qed.

Lemma recorder_balances_witness :
  ∃ r0 r, NewRecorder true = Some r0 ∧ applies r0 sample_ops = Some r ∧
    value r (gs"mc_gateway_udp_sessions", []) =
    total r gs"mc_gateway_udp_sessions_created_total" - total r gs"mc_gateway_udp_sessions_closed_total".
Proof.
  destruct (recorder_balances true sample_ops sample_proper) as (r0 & r & H1 & H2 & [H3 _ _] & _).
  exists r0, r. split; [exact H1|]. split; [exact H2|exact H3].
Defined.

(** One of two services is not meant for the gateway. *)
Definition sample_services : list kubernetes.ServiceInput := [
  {| kubernetes.si_Name := gs"db"; kubernetes.si_Namespace := gs"games"; kubernetes.si_Annotations := ∅;
     kubernetes.si_Ports := [] |};
  sample_input gs"lobby" gs"lobby.example.org"].

Lemma skipped_services_shown_witness :
  ∃ r, value r (gs"mc_gateway_kubernetes_skipped_services", [kubernetes.ReasonDisabled]) = 1.
Proof.
  destruct (skipped_services_shown sample_ops sample_services [] sample_proper) as (r0 & r & _ & _ & _ & H1).
  exists r. rewrite H1; [vm_compute; reflexivity|left].
Defined.

End witnesses.
