(* ===== verification/MetricsHttp.v ===== *)
(** * The metrics endpoint ([internal/metrics/http.go])

    [StartHTTP] registers the configured path with an [http.ServeMux], binds the listener
    and serves. [Handle] panics on a pattern it cannot parse, so the parser is written
    out here for patterns that start with a slash, which validation ensures. What the
    Unicode tables say of a rune in the name of a wildcard is a parameter. *)
From S2P Require Import Prelude GoUnicode GoStrings GoNet HostAddr Tables GoSort Config Kubernetes Metrics.
Import gostrings.
Open Scope Z_scope.

(** [unicode.IsLetter] and [unicode.IsDigit]. *)
Class RuneClasses := { IsLetter : Z → bool; IsDigit : Z → bool }.

Module metricshttp.
Import config.

Section mux.
Context `{RuneClasses}.

(** [isValidWildcardName]: a Go identifier. *)
Definition isValidWildcardName (s : bytes) : bool :=
  match fst <$> utf8.runes s with
  | [] => false
  | c :: cs =>
      (IsLetter c || (c =? 0x5F)) && forallb (λ c, IsLetter c || IsDigit c || (c =? 0x5F)) cs
  end.

(** One segment of a pattern: the names seen after it, and whether parsing ends there;
    [rest] says whether something follows. *)
Definition parse_segment (seg : bytes) (rest : bool) (seen : list bytes) : res (list bytes * bool) :=
  match IndexByte seg x7b with
  | None => Ok (seen, false)
  | Some (S _) => Err (errors_New "bad wildcard segment (must start with '{')")
  | Some O =>
      if negb (HasSuffix seg gs"}") then Err (errors_New "bad wildcard segment (must end with '}')")
      else
        let name := take (length seg - 2) (drop 1 seg) in
        if decide (name = gs"$") then
          if rest then Err (errors_New "{$} not at end") else Ok (seen, true)
        else
          let multi := HasSuffix name gs"..." in
          let name := TrimSuffix name gs"..." in
          if multi && rest then Err (errors_New "{...} wildcard not at end")
          else if decide (name = []) then Err (errors_New "empty wildcard")
          else if negb (isValidWildcardName name) then Err (Errorf "bad wildcard name %q" [AStr name] [])
          else if decide (name ∈ seen) then Err (Errorf "duplicate wildcard name %q" [AStr name] [])
          else Ok (name :: seen, false)
  end.

(** The loop over the segments; an empty last one is a trailing slash. *)
Fixpoint parse_segments (segs : list bytes) (seen : list bytes) : option error :=
  match segs with
  | [] => None
  | seg :: rest =>
      match parse_segment seg (negb (bool_decide (rest = []))) seen with
      | Err e => Some e
      | Ok (_, true) => None
      | Ok (seen', false) => parse_segments rest seen'
      end
  end.

(** [parsePattern] of a pattern that starts with a slash: white space would end a method,
    which no slash can be part of. *)
Definition parsePattern (s : bytes) : option error :=
  if ContainsAny s [x20; x09] then Some (Errorf "invalid method %q" [AStr s] [])
  else parse_segments (Split (drop 1 s) x2f) [].

(** An [HTTPServer]: its path; [None] as the outcome is the panic of [Handle]. *)
Definition StartHTTP (m : Metrics) (recorder : option metrics.Recorder) (listen : option error)
    : option (res (option bytes)) :=
  if negb (me_Enabled m) then Some (Ok None)
  else match recorder with
  | None => Some (Err (errors_New "metrics recorder is nil"))
  | Some r =>
      if negb (metrics.enabled r) then Some (Err (errors_New "metrics recorder registry is nil"))
      else match parsePattern (me_Path m) with
      | Some _ => None
      | None =>
          match listen with
          | Some e => Some (Err (Errorf "listen metrics %q: %w" [AStr (me_Listen m)] [e]))
          | None => Some (Ok (Some (me_Path m)))
          end
      end
  end.

(** What the serving goroutine sends on [done] when [Serve] ends with [err]. *)
Definition serve_result (err : error) : option error :=
  if errors_Is "http.ErrServerClosed" err then None else Some err.

End mux.

End metricshttp.

(** ** Lemmas *)

Section lemmas.
Import metricshttp.
Context `{RuneClasses}.

Lemma parse_plain segs seen : Forall (λ seg, x7b ∉ seg) segs → parse_segments segs seen = None.
Proof.
  intros Hs. revert seen. induction Hs as [|seg segs Hseg Hs IH]; intros seen; [done|].
  cbn [parse_segments]. unfold parse_segment. by rewrite IndexByte_None.
Qed.

Lemma Split_elem s c b l : l ∈ Split s c → b ∈ l → b ∈ s.
Proof.
  revert l. induction s as [|a s IH]; intros l; cbn [Split].
  { intros ->%list_elem_of_singleton. by intros ?%elem_of_nil. }
  destruct (decide (a = c)) as [_|_].
  - rewrite elem_of_cons. intros [->|Hl]; [by intros ?%elem_of_nil|]. right. by eapply IH.
  - destruct (Split s c) as [|l0 ls] eqn:E; [by destruct (Split_nonempty s c)|].
    rewrite elem_of_cons. intros [->|Hl].
    + rewrite !elem_of_cons. intros [->|Hb]; [by left|right]. eapply IH; [by left|done].
    + right. eapply IH; [right|]; done.
Qed.

(** A path without white space and braces can be registered. *)
Lemma parsePattern_plain s : ContainsAny s [x20; x09; x7b] = false → parsePattern s = None.
Proof.
  intros Hc. assert (∀ b, b ∈ s → b ∉ [x20; x09; x7b]) as Hb.
  { intros b Hin Hx. apply (not_true_iff_false (ContainsAny s [x20; x09; x7b])) in Hc. apply Hc.
    unfold ContainsAny. apply existsb_exists. exists b. split; [by apply list_elem_of_In|by apply bool_decide_eq_true]. }
  unfold parsePattern. destruct (ContainsAny s [x20; x09]) eqn:E.
  { exfalso. unfold ContainsAny in E. apply existsb_exists in E as (b & Hin%list_elem_of_In & Hx%bool_decide_eq_true).
    apply (Hb b Hin). set_solver. }
  apply parse_plain, Forall_forall. intros seg Hseg Hin. apply (Hb x7b); [|set_solver].
  apply (subseteq_drop 1 s). by eapply Split_elem.
Qed.

End lemmas.

(** ** Properties *)

Section properties.
Import config metricshttp.
Context `{RuneClasses}.

(** What the start of the metrics endpoint does in a gateway whose configuration is
    valid: it serves exactly when it is enabled and its listener is bound, under the
    configured path; the only error is that of the listener; and it panics only on a path
    that has white space or a brace. *)
Theorem metrics_endpoint_starts m listen :
  metrics_ok m →
  ∃ r, metrics.NewRecorder (me_Enabled m) = Some r ∧
  (∀ p, StartHTTP m (Some r) listen = Some (Ok (Some p)) ↔
     me_Enabled m = true ∧ parsePattern (me_Path m) = None ∧ listen = None ∧ p = me_Path m) ∧
  (∀ e, StartHTTP m (Some r) listen = Some (Err e) ↔
     me_Enabled m = true ∧ parsePattern (me_Path m) = None ∧
     ∃ e', listen = Some e' ∧ e = Errorf "listen metrics %q: %w" [AStr (me_Listen m)] [e']) ∧
  (StartHTTP m (Some r) listen = None →
     me_Enabled m = true ∧ HasPrefix (me_Path m) gs"/" = true ∧ ContainsAny (me_Path m) [x20; x09; x7b] = true).
Proof.
  intros Hok. unfold metrics_ok in Hok. destruct (me_Enabled m) eqn:Em.
  - destruct new_ready as (r & -> & [Hon _] & _). exists r. split; [done|]. unfold StartHTTP. rewrite Em, Hon. cbn [negb].
    destruct (Hok eq_refl) as (_ & _ & Hp). destruct (parsePattern (me_Path m)) as [e|] eqn:Ep.
    + split_and!; [by split; [|intros (_ & ? & _)]..|]. intros _. split_and!; [done..|].
      apply not_false_iff_true. intros Hc%parsePattern_plain. congruence.
    + destruct listen as [e|]; (split_and!; [naive_solver..|done]).
  - exists {| metrics.enabled := false; metrics.registry := ∅; metrics.values := ∅ |}. split; [reflexivity|].
    unfold StartHTTP. rewrite Em. cbn [negb]. split_and!; [naive_solver..|done].
Qed.

(** Validation does not keep the gateway from a panic when it starts: there is a
    metrics section that is accepted and whose path a [ServeMux] refuses. *)
Theorem metrics_path_panics :
  ∃ m, metrics_ok m ∧ ∀ r listen, metrics.enabled r = true → StartHTTP m (Some r) listen = None.
Proof.
  exists {| me_Enabled := true; me_Listen := gs":9090"; me_Path := gs"/metrics {v1}" |}. split.
  - intros _. split_and!; [discriminate..|reflexivity].
  - intros r listen Hr. unfold StartHTTP. cbn [me_Enabled negb]. by rewrite Hr.
Qed.

End properties.

(** ** Witnesses *)

Section witnesses.
Import config metricshttp.

#[local] Instance ascii_classes : RuneClasses := {
  IsLetter := λ c, ((0x41 <=? c) && (c <=? 0x5A)) || ((0x61 <=? c) && (c <=? 0x7A));
  IsDigit := λ c, (0x30 <=? c) && (c <=? 0x39)
}.

Definition sample_metrics : Metrics := {|
  me_Enabled := true; me_Listen := gs":9090"; me_Path := gs"/metrics" |}.

(** The path of the defaults is served; one with two wildcards of one name is not a pattern. *)
Lemma metrics_endpoint_starts_witness :
  parsePattern gs"/{a}/{a}" = Some (Errorf "duplicate wildcard name %q" [AStr gs"a"] []) ∧
  parsePattern gs"/{a}/{b...}" = None ∧
  ∃ r, StartHTTP sample_metrics (Some r) None = Some (Ok (Some gs"/metrics")).
Proof.
  split; [vm_compute; reflexivity|]. split; [vm_compute; reflexivity|].
  assert (metrics_ok sample_metrics) as Hok by (intros _; split_and!; [discriminate..|reflexivity]).
  destruct (metrics_endpoint_starts sample_metrics None Hok) as (r & _ & Hs & _). exists r.
  apply (Hs gs"/metrics"). split; [reflexivity|]. split; [reflexivity|]. split; reflexivity.
Defined.

End witnesses.
