(* ===== verification/WatchSupervisor.v ===== *)
(** * Supervising the watch ([internal/discovery/kubernetes], [watch_supervisor.go])

    A watch of the cluster's services ends sooner or later; the supervisor starts it
    again after a delay that grows from failure to failure and falls back when the
    watch has published something. Before the first publication a failure ends the
    supervisor, so that start-up fails fast.

    The delays are computed in [float64]; as in the rate limiter they are an
    interface with an exact instance. *)
From Stdlib Require Import QArith Qround Qpower Lqa.
From S2P Require Import Prelude RateLimit.
Open Scope Z_scope.

Module supervisor.

(** [math.Pow] with an integral exponent, the conversion to an integer, which
    truncates, and a test for equality. *)
Class Float64Conv (F : Type) := {
  f_pow : F → Z → F;
  f_trunc : F → Z;
  f_eqb : F → F → bool
}.

#[export] Instance exact_conv : Float64Conv Q := {
  f_pow := Qpower;
  f_trunc q := Z.quot (Qnum q) (Zpos (Qden q));
  f_eqb := Qeq_bool
}.

Section backoff.
Context {F : Type} `{Float64 F} `{Float64Conv F}.

Record BackoffPolicy := {
  InitialDelay : Z;
  MaxDelay : Z;
  Factor : F;
  Jitter : F
}.

Definition defaultWatchInitialRetryDelay : Z := 1000000000.
Definition defaultWatchMaxRetryDelay : Z := 30000000000.
Definition defaultWatchRetryFactor : F := f_of_int 2.

Definition withDefaults (p : BackoffPolicy) : BackoffPolicy :=
  let initial := if InitialDelay p <=? 0 then defaultWatchInitialRetryDelay else InitialDelay p in
  let max := if MaxDelay p <=? 0 then defaultWatchMaxRetryDelay else MaxDelay p in
  let factor := if f_ltb (Factor p) (f_of_int 1) || f_eqb (Factor p) (f_of_int 1)
                then defaultWatchRetryFactor else Factor p in
  let max := if max <? initial then initial else max in
  let jitter := if f_ltb (Jitter p) (f_of_int 0) then f_of_int 0 else Jitter p in
  let jitter := if f_ltb (f_of_int 1) jitter then f_of_int 1 else jitter in
  {| InitialDelay := initial; MaxDelay := max; Factor := factor; Jitter := jitter |}.

(** [random] is what [rand.Float64] returns. *)
Definition Delay (p : BackoffPolicy) (attempt : Z) (random : F) : Z :=
  let p := withDefaults p in
  let attempt := if attempt <? 1 then 1 else attempt in
  let delayFloat := f_mul (f_of_int (InitialDelay p)) (f_pow (Factor p) (attempt - 1)) in
  let delayFloat := if f_ltb (f_of_int (MaxDelay p)) delayFloat then f_of_int (MaxDelay p) else delayFloat in
  let delay := f_trunc delayFloat in
  if f_eqb (Jitter p) (f_of_int 0) || (delay <=? 0) then delay
  else
    let spread := f_mul (f_of_int delay) (Jitter p) in
    let minDelay := f_sub (f_of_int delay) spread in
    let maxDelay := f_add (f_of_int delay) spread in
    let jittered := f_add minDelay (f_mul random (f_sub maxDelay minDelay)) in
    let jittered := if f_ltb jittered (f_of_int 0) then f_of_int 0 else jittered in
    let jittered := if f_ltb (f_of_int (MaxDelay p)) jittered then f_of_int (MaxDelay p) else jittered in
    f_trunc jittered.

End backoff.

Arguments BackoffPolicy : clear implicits.

(** ** One run of the watch *)

(** What the select of [runOnce] receives: a sync token, the context's end (with the
    error the runner then ends with), or the runner's end (and whether a token was
    still in the channel). *)
Inductive signal :=
| Synced
| CtxDone (err : option error)
| Finished (err : option error) (pending : bool).

(** [runOnce] from the state [synced] on: whether it saw a token, which is when it calls
    [onSync], and the runner's error. [None]: still waiting. *)
Fixpoint runOnce (synced : bool) (signals : list signal) : option (bool * option error) :=
  match signals with
  | [] => None
  | Synced :: rest => runOnce true rest
  | CtxDone err :: _ => Some (synced, err)
  | Finished err pending :: _ => Some (synced || pending, err)
  end.

(** One turn of the loop of [Run]: what is received while the watch runs, whether the
    context is done when it has ended, whether the ready channel is closed then, and
    what [Sleep] returns (and whether the context is done by then). *)
Record turn := {
  t_signals : list signal;
  t_cancelled : bool;
  t_ready : bool;
  t_sleep : option error;
  t_sleep_cancelled : bool
}.

Definition isWatchNormalStop (cancelled : bool) (err : option error) : bool :=
  cancelled ||
  match err with
  | Some e => errors_Is "context.Canceled" e || errors_Is "context.DeadlineExceeded" e
  | None => false
  end.

(** A retry: the error that caused it, its attempt number. *)
Record retry := { r_error : error; r_attempt : Z }.

(** The loop of [Run]: the retries, and how it ends ([None]: it is still running). *)
Fixpoint supervise (initialSyncSeen : bool) (attempt : Z) (turns : list turn)
    : list retry * option (option error) :=
  match turns with
  | [] => ([], None)
  | t :: rest =>
      match runOnce false (t_signals t) with
      | None => ([], None)
      | Some (syncedThisRun, err) =>
          let attempt := if syncedThisRun then 0 else attempt in
          if isWatchNormalStop (t_cancelled t) err then ([], Some None)
          else match err with
          | None => ([], Some None)
          | Some e =>
              if negb syncedThisRun && negb initialSyncSeen && negb (t_ready t) then ([], Some (Some e))
              else
                let attempt := attempt + 1 in
                let r := {| r_error := e; r_attempt := attempt |} in
                match t_sleep t with
                | Some sleepErr =>
                    if isWatchNormalStop (t_sleep_cancelled t) (Some sleepErr) then ([r], Some None)
                    else ([r], Some (Some (Errorf "sleep before Kubernetes watch retry: %w" [] [sleepErr])))
                | None =>
                    let seen := initialSyncSeen || syncedThisRun in
                    let '(retries, fin) := supervise seen attempt rest in (r :: retries, fin)
                end
          end
      end
  end.

(** [Run]; [ready] is whether the ready channel is closed (or there is none). *)
Definition Run (ready : bool) (turns : list turn) : list retry * option (option error) :=
  supervise ready 0 turns.

(** [timerSleeper.Sleep]: the error is the context's, and only when it is done. *)
Definition timer_sleeps (t : turn) : Prop :=
  match t_sleep t with
  | Some e => t_sleep_cancelled t = true
  | None => True
  end.

(** A channel that is closed stays closed. *)
Fixpoint ready_stays (was : bool) (turns : list turn) : Prop :=
  match turns with
  | [] => True
  | t :: rest => (was = true → t_ready t = true) ∧ ready_stays (t_ready t) rest
  end.

End supervisor.

(** ** Lemmas: the loop *)

Section loop.
Import supervisor.

(** The watch of this turn published something. *)
Definition synced_turn (t : turn) : bool :=
  match runOnce false (t_signals t) with Some (b, _) => b | None => false end.

(** The turns since the last one that published something, which is counted. *)
Fixpoint since (recent_first : list turn) : Z :=
  match recent_first with
  | [] => 0
  | t :: before => if synced_turn t then 1 else 1 + since before
  end.

Lemma supervise_attempts seen before turns rs fin :
  supervise seen (since before) turns = (rs, fin) →
  ∀ i r, rs !! i = Some r → r_attempt r = since (rev (take (S i) turns) ++ before).
Proof.
  revert seen before rs. induction turns as [|t turns IH]; intros seen before rs H; cbn in H; [by simplify_eq|].
  destruct (runOnce false (t_signals t)) as [[b err]|] eqn:Er; [|by simplify_eq].
  assert (∀ e, let a := (if b then 0 else since before) + 1 in
    r_attempt {| r_error := e; r_attempt := a |} = since (t :: before)) as Ha.
  { intros e. cbn. unfold synced_turn. rewrite Er. destruct b; lia. }
  destruct (isWatchNormalStop _ _); [by simplify_eq|]. destruct err as [e|]; [|by simplify_eq].
  destruct (_ && _); [by simplify_eq|]. intros i r Hi. destruct (t_sleep t).
  - assert (rs = [{| r_error := e; r_attempt := (if b then 0 else since before) + 1 |}]) as ->
      by (by destruct (isWatchNormalStop _ _); simplify_eq).
    destruct i; [|done]. cbn in Hi. injection Hi as <-. by rewrite Ha.
  - destruct (supervise _ _ turns) as [rs' fin'] eqn:E in H. injection H as <- <-.
    destruct i as [|i]; cbn in Hi; [injection Hi as <-; by rewrite Ha|].
    specialize (Ha e). cbn in Ha. rewrite Ha in E. rewrite (IH (seen || b) (t :: before) rs' E i r Hi). f_equal.
    change (take (S (S i)) (t :: turns)) with (t :: take (S i) turns). cbn [rev]. by rewrite <- app_assoc.
Qed.

Lemma supervise_persists seen was turns attempt rs e :
  seen || was = true → ready_stays was turns → Forall timer_sleeps turns →
  supervise seen attempt turns ≠ (rs, Some (Some e)).
Proof.
  revert seen was attempt rs. induction turns as [|t turns IH]; intros seen was attempt rs Hsw Hr Hs; [done|].
  apply Forall_cons in Hs as [Ht Hs]. destruct Hr as [Hrt Hr]. cbn.
  destruct (runOnce _ _) as [[b err]|]; [|done].
  destruct (isWatchNormalStop _ _); [done|]. destruct err as [e'|]; [|done].
  assert (negb b && negb seen && negb (t_ready t) = false) as ->.
  { destruct seen; [by rewrite andb_false_r|]. cbn in Hsw. rewrite (Hrt Hsw). apply andb_false_r. }
  unfold timer_sleeps in Ht. destruct (t_sleep t) as [se|]; [by rewrite Ht|].
  destruct (supervise _ _ turns) as [rs' fin'] eqn:E. intros [= _ ->]. revert E.
  apply (IH _ (t_ready t)); [|done|done]. destruct seen; [done|]. cbn in *. by rewrite (Hrt Hsw), orb_true_r.
Qed.

End loop.

(** ** Lemmas: the delays, in exact arithmetic *)

Section delays.
Import supervisor.
Open Scope Q_scope.

Lemma ltb_spec (x y : Q) : f_ltb x y = true ↔ x < y.
Proof.
  cbn. rewrite negb_true_iff, <- not_true_iff_false, Qle_bool_iff. split; [apply Qnot_le_lt|apply Qlt_not_le].
Qed.
Lemma ltb_false (x y : Q) : f_ltb x y = false ↔ y <= x.
Proof. cbn. by rewrite negb_false_iff, Qle_bool_iff. Qed.

Lemma trunc_floor (q : Q) : 0 <= q → f_trunc q = Qfloor q.
Proof.
  destruct q as [n d]. unfold Qle. cbn. intros Hn. rewrite Z.quot_div_nonneg; [done|lia|lia].
Qed.

Lemma trunc_range (q : Q) (m : Z) : 0 <= q → q <= inject_Z m → (0 ≤ f_trunc q ≤ m)%Z.
Proof.
  intros H0 Hm. rewrite trunc_floor by done. split.
  - change 0%Z with (Qfloor (inject_Z 0)). by apply Qfloor_resp_le.
  - rewrite <- (Qfloor_Z m). by apply Qfloor_resp_le.
Qed.

Lemma withDefaults_ok (p : BackoffPolicy Q) :
  let p' := withDefaults p in
  (0 < InitialDelay p' ≤ MaxDelay p')%Z ∧ 1 < Factor p' ∧ 0 <= Jitter p' <= 1.
Proof.
  unfold withDefaults. cbn [InitialDelay MaxDelay Factor Jitter].
  unfold defaultWatchInitialRetryDelay, defaultWatchMaxRetryDelay. split_and!.
  - destruct (Z.leb_spec (InitialDelay p) 0); lia.
  - destruct (Z.ltb_spec (if MaxDelay p <=? 0 then 30000000000 else MaxDelay p)
      (if InitialDelay p <=? 0 then 1000000000 else InitialDelay p)); lia.
  - destruct (f_ltb (Factor p) _ || _) eqn:E; [done|]. apply orb_false_iff in E as [E1%ltb_false E2].
    apply Qle_lt_or_eq in E1 as [?|E1]; [done|]. exfalso. cbn in E2, E1.
    apply Qeq_sym, Qeq_bool_iff in E1. congruence.
  - destruct (f_ltb (Jitter p) _) eqn:E; [done|]. apply ltb_false in E.
    destruct (f_ltb _ (Jitter p)) eqn:E'; [done|exact E].
  - destruct (f_ltb (Jitter p) _) eqn:E; [done|].
    destruct (f_ltb _ (Jitter p)) eqn:E'; [done|]. by apply ltb_false in E'.
Qed.

(** The delay of an attempt before jitter, and how it grows. *)
Definition grown (p : BackoffPolicy Q) (k : Z) : Q := inject_Z (InitialDelay p) * Qpower (Factor p) k.
Definition base (p : BackoffPolicy Q) (k : Z) : Z :=
  f_trunc (if f_ltb (inject_Z (MaxDelay p)) (grown p k) then inject_Z (MaxDelay p) else grown p k).

Definition policy_ok (p : BackoffPolicy Q) : Prop :=
  (0 < InitialDelay p ≤ MaxDelay p)%Z ∧ 1 < Factor p ∧ 0 <= Jitter p <= 1.

Lemma inject_pos z : (0 < z)%Z → 0 < inject_Z z.
Proof. unfold Qlt. cbn. lia. Qed.

Lemma grown_mono p k k' : policy_ok p → (k ≤ k')%Z → grown p k <= grown p k'.
Proof.
  intros ([Hi _] & Hf & _) Hk. unfold grown. rewrite !(Qmult_comm (inject_Z _)).
  apply Qmult_le_compat_r; [|by apply Qlt_le_weak, inject_pos].
  apply Qpower_le_compat_l; [done|by apply Qlt_le_weak].
Qed.

Lemma grown_0 p : grown p 0 == inject_Z (InitialDelay p).
Proof. unfold grown. cbn. apply Qmult_1_r. Qed.

Lemma base_floor p k : policy_ok p → (0 ≤ k)%Z → base p k = Z.min (MaxDelay p) (Qfloor (grown p k)).
Proof.
  intros Hp Hk. pose proof Hp as ([Hi Hm] & _).
  assert (0 <= grown p k) as Hg.
  { eapply Qle_trans; [|apply (grown_mono p 0 k Hp Hk)]. rewrite grown_0. by apply Qlt_le_weak, inject_pos. }
  unfold base. destruct (f_ltb _ _) eqn:E.
  - apply ltb_spec, Qlt_le_weak, Qfloor_resp_le in E. rewrite Qfloor_Z in E.
    rewrite trunc_floor, Qfloor_Z by (apply Qlt_le_weak, inject_pos; lia). lia.
  - apply ltb_false, Qfloor_resp_le in E. rewrite Qfloor_Z in E. rewrite trunc_floor by done. lia.
Qed.

Lemma base_bounds p k : policy_ok p → (0 ≤ k)%Z → (InitialDelay p ≤ base p k ≤ MaxDelay p)%Z.
Proof.
  intros Hp Hk. rewrite base_floor by done. destruct Hp as ([Hi Hm] & Hf) eqn:E; clear E.
  assert (InitialDelay p ≤ Qfloor (grown p k))%Z; [|lia]. rewrite <- (Qfloor_Z (InitialDelay p)) at 1.
  apply Qfloor_resp_le. rewrite <- grown_0. by apply grown_mono.
Qed.

Lemma base_mono p k k' : policy_ok p → (0 ≤ k ≤ k')%Z → (base p k ≤ base p k')%Z.
Proof.
  intros Hp Hk. rewrite !base_floor by (done || lia).
  pose proof (Qfloor_resp_le _ _ (grown_mono p k k' Hp (proj2 Hk))). lia.
Qed.

Lemma bernoulli (q : Q) (n : nat) : 1 <= q → 1 + inject_Z (Z.of_nat n) * (q - 1) <= Qpower q (Z.of_nat n).
Proof.
  intros Hq. induction n as [|n IH].
  { change (inject_Z (Z.of_nat 0)) with 0. rewrite Qmult_0_l, Qplus_0_r. apply Qle_refl. }
  rewrite Nat2Z.inj_succ, <- Z.add_1_r, inject_Z_plus, Qpower_plus by (intros E; rewrite E in Hq; done).
  change (Qpower q 1) with q.
  eapply Qle_trans; [|apply Qmult_le_compat_r; [exact IH|by eapply Qle_trans; [|exact Hq]]].
  assert (0 <= inject_Z (Z.of_nat n) * ((q - 1) * (q - 1))) as Hsq.
  { apply Qmult_le_0_compat; [unfold Qle; cbn; lia|]. apply Qmult_le_0_compat; by apply Qle_minus_iff in Hq. }
  change (inject_Z 1) with 1. revert Hsq. generalize (inject_Z (Z.of_nat n)). intros x Hx. lra.
Qed.

(** The delay reaches its maximum and stays there. *)
Lemma base_reaches_max p : policy_ok p → ∃ n, ∀ k, (n ≤ k)%Z → base p k = MaxDelay p.
Proof.
  intros Hp. pose proof Hp as ([Hi Hm] & Hf & _).
  set (d := Factor p - 1). assert (0 < d) as Hd by (by apply Qlt_minus_iff in Hf).
  set (n := Z.to_nat (Qceiling (inject_Z (MaxDelay p) * / d))). exists (Z.of_nat n).
  intros k Hk. rewrite base_floor by (done || lia).
  assert (MaxDelay p ≤ Qfloor (grown p k))%Z; [|lia]. rewrite <- (Qfloor_Z (MaxDelay p)) at 1.
  apply Qfloor_resp_le. eapply Qle_trans; [|by apply grown_mono].
  assert (inject_Z (MaxDelay p) <= Qpower (Factor p) (Z.of_nat n)) as Hpow.
  { eapply Qle_trans; [|apply bernoulli; by apply Qlt_le_weak].
    assert (inject_Z (MaxDelay p) <= inject_Z (Z.of_nat n) * d) as H1.
    { apply (Qmult_le_r _ _ (/ d)); [by apply Qinv_lt_0_compat|].
      rewrite <- Qmult_assoc, Qmult_inv_r, Qmult_1_r by (intros E; rewrite E in Hd; done).
      eapply Qle_trans; [apply Qle_ceiling|]. rewrite <- Zle_Qle. unfold n. lia. }
    eapply Qle_trans; [exact H1|]. rewrite <- (Qplus_0_l (_ * d)) at 1. by apply Qplus_le_compat; [|apply Qle_refl]. }
  unfold grown. eapply Qle_trans; [exact Hpow|]. rewrite <- (Qmult_1_l (Qpower _ _)) at 1.
  apply Qmult_le_compat_r; [rewrite <- (Zle_Qle 1); lia|]. apply Qpower_0_le. by apply Qlt_le_weak, (Qlt_trans _ 1).
Qed.

Lemma Delay_base p n random :
  let p' := withDefaults p in
  Delay p n random =
    let b := base p' (Z.max n 1 - 1) in
    if Qeq_bool (Jitter p') 0 then b else
    let spread := inject_Z b * Jitter p' in
    let j := (inject_Z b - spread) + random * ((inject_Z b + spread) - (inject_Z b - spread)) in
    let j := if f_ltb j 0 then 0 else j in
    f_trunc (if f_ltb (inject_Z (MaxDelay p')) j then inject_Z (MaxDelay p') else j).
Proof.
  intros p'. pose proof (withDefaults_ok p) as Hp. fold p' in Hp. unfold Delay. fold p'. cbn zeta.
  replace (if n <? 1 then 1 else n)%Z with (Z.max n 1) by (destruct (Z.ltb_spec n 1); lia).
  pose proof (base_bounds p' (Z.max n 1 - 1) Hp ltac:(lia)) as Hb. destruct Hp as ([Hi _] & _).
  set (g := f_mul (f_of_int (InitialDelay p')) (f_pow (Factor p') (Z.max n 1 - 1))).
  change (f_trunc (if f_ltb (f_of_int (MaxDelay p')) g then f_of_int (MaxDelay p') else g))
    with (base p' (Z.max n 1 - 1)).
  rewrite (proj2 (Z.leb_gt _ _)) by lia. by rewrite orb_false_r.
Qed.

End delays.

(** ** Properties *)

Section properties.
Import supervisor.

(** With the timer as sleeper, the supervisor ends with an error exactly when start-up
    has failed: nothing was published before it started, and its first watch failed
    with that error, not because of cancellation, without publishing anything. Once
    the watch has published something no failure of it ends the supervisor. *)
Theorem supervisor_fails_iff ready turns e :
  Forall timer_sleeps turns → ready_stays ready turns →
  (Run ready turns).2 = Some (Some e) ↔
  ready = false ∧ ∃ t rest, turns = t :: rest ∧ runOnce false (t_signals t) = Some (false, Some e) ∧
    isWatchNormalStop (t_cancelled t) (Some e) = false ∧ t_ready t = false.
Proof.
  intros Hs Hst. unfold Run. split.
  - intros Hf. assert (∀ seen was a ts, seen || was = true → ready_stays was ts → Forall timer_sleeps ts →
      (supervise seen a ts).2 ≠ Some (Some e)) as Hp.
    { intros seen was a ts ? ? ? E. eapply (supervise_persists seen was ts a (supervise seen a ts).1 e); try done.
      by rewrite <- E, <- surjective_pairing. }
    destruct ready; [by apply (Hp true true) in Hf|]. split; [done|].
    destruct turns as [|t rest]; [done|]. exists t, rest. split; [done|].
    apply Forall_cons in Hs as [Ht Hs]. destruct Hst as [_ Hst]. cbn in Hf.
    destruct (runOnce _ _) as [[b err]|]; [|done]. destruct (isWatchNormalStop _ err) eqn:En; [done|].
    destruct err as [e'|]; [|done]. rewrite andb_true_r in Hf.
    destruct (negb b && negb (t_ready t)) eqn:Eb.
    + cbn in Hf. injection Hf as <-. apply andb_true_iff in Eb as [Eb%negb_true_iff Er%negb_true_iff]. by subst b.
    + exfalso. unfold timer_sleeps in Ht. destruct (t_sleep t) as [se|]; [by rewrite Ht in Hf|].
      destruct (supervise b _ rest) as [rs fin] eqn:E. cbn in Hf. subst fin.
      apply (Hp b (t_ready t) ((if b then 0 else 0) + 1) rest); [by destruct b, (t_ready t)|done|done|].
      by rewrite E.
  - intros (-> & t & rest & -> & Hr & Hn & Hready). cbn. by rewrite Hr, Hn, Hready.
Qed.

(** The attempt number of a retry, from which its delay is computed, is the number of
    watches since the last one that published something, that one included: delays
    start over after a watch that worked and only grow while watches fail. *)
Theorem retries_counted ready turns i r :
  (Run ready turns).1 !! i = Some r → r_attempt r = since (rev (take (S i) turns)).
Proof.
  unfold Run. destruct (supervise ready 0 turns) as [rs fin] eqn:E. intros Hi. cbn in Hi.
  rewrite <- (app_nil_r (rev _)). by eapply (supervise_attempts ready [] turns rs fin).
Qed.

(** In exact arithmetic, whatever the policy and the random number, a delay is never
    negative and never above the policy's maximum; without jitter it is at least the
    initial delay, does not shrink from one attempt to the next, and is the maximum
    from some attempt on. *)
Theorem delays_bounded (p : BackoffPolicy Q) :
  let p' := withDefaults p in
  (∀ n random, 0 ≤ Delay p n random ≤ MaxDelay p') ∧
  (Qeq_bool (Jitter p') 0 = true →
    (∀ n random, InitialDelay p' ≤ Delay p n random) ∧
    (∀ n n' random random', n ≤ n' → Delay p n random ≤ Delay p n' random') ∧
    ∃ n, ∀ k random, n ≤ k → Delay p k random = MaxDelay p').
Proof.
  intros p'. pose proof (withDefaults_ok p) as Hp. fold p' in Hp. fold (policy_ok p') in Hp. split.
  - intros n random. rewrite Delay_base. fold p'. cbn zeta.
    pose proof (base_bounds p' (Z.max n 1 - 1) Hp ltac:(lia)) as Hb. destruct Hp as ([Hi Hm] & _).
    destruct (Qeq_bool _ _); [lia|]. set (j0 := (_ + _)%Q). set (j := if f_ltb j0 0%Q then 0%Q else j0).
    assert (0 <= j)%Q as Hj.
    { unfold j. destruct (f_ltb j0 0%Q) eqn:E; [apply Qle_refl|by apply ltb_false in E]. }
    destruct (f_ltb (inject_Z (MaxDelay p')) j) eqn:E.
    + apply trunc_range; [apply Qlt_le_weak, inject_pos; lia|apply Qle_refl].
    + apply trunc_range; [done|by apply ltb_false].
  - intros Hj. assert (∀ n random, Delay p n random = base p' (Z.max n 1 - 1)) as Hd.
    { intros n random. rewrite Delay_base. fold p'. cbn zeta. by rewrite Hj. }
    split_and!.
    + intros n random. rewrite Hd. by apply base_bounds; [|lia].
    + intros n n' random random' Hn. rewrite !Hd. by apply base_mono; [|lia].
    + destruct (base_reaches_max p' Hp) as [n Hn]. exists (n + 1). intros k random Hk. rewrite Hd. apply Hn. lia.
Qed.

End properties.

(** ** Witnesses *)

Section witnesses.
Import supervisor.

Definition sample_failure : error := Sentinel "kubernetes.ErrServiceWatchClosed".

Definition sample_turn (signals : list signal) : turn := {|
  t_signals := signals; t_cancelled := false; t_ready := false; t_sleep := None; t_sleep_cancelled := false |}.

Definition failing : turn := sample_turn [Finished (Some sample_failure) false].
Definition working : turn := sample_turn [Synced; Finished (Some sample_failure) false].

Lemma supervisor_fails_iff_witness :
  (Run false [failing; working]).2 = Some (Some sample_failure) ∧
  (Run true [failing; working]).2 ≠ Some (Some sample_failure).
Proof.
  assert (Forall timer_sleeps [failing; working]) as Hs by by repeat constructor.
  split.
  - apply (supervisor_fails_iff false [failing; working] sample_failure Hs); [done|]. split; [done|].
    exists failing, [working]. done.
  - vm_compute. discriminate.
Defined.

Lemma retries_counted_witness :
  (Run false [working; failing; failing; working]).1 !! 2%nat = Some {| r_error := sample_failure; r_attempt := 3 |} ∧
  since (rev (take 3 [working; failing; failing; working])) = 3.
Proof.
  split; [reflexivity|]. symmetry.
  apply (retries_counted false [working; failing; failing; working] 2
    {| r_error := sample_failure; r_attempt := 3 |}). reflexivity.
Defined.

(** The gateway's policy: everything by default. *)
Definition default_policy : BackoffPolicy Q := {|
  InitialDelay := 0; MaxDelay := 0; Factor := 0%Q; Jitter := 0%Q |}.

Example default_delays :
  (λ n, Delay default_policy n 0%Q) <$> [1; 2; 3; 4; 5; 6; 7] =
    [1000000000; 2000000000; 4000000000; 8000000000; 16000000000; 30000000000; 30000000000].
Proof. reflexivity. Qed.

End witnesses.
