(* ===== verification/Merge.v ===== *)
(** * Merging static and discovered routes ([internal/discovery])

    Static routes keep their names; a discovered route joins only if it is valid,
    its host is not taken by a static route and no other discovered route claims
    it. The interface to the router is [routes_ok] of Config.v: the merge of valid
    static routes with any discovered routes is again valid. *)
From S2P Require Import Prelude GoUnicode GoStrings GoNet GoIO HostAddr Tables GoSort.
From S2P Require Import BedrockRoute Config Kubernetes.
Import gostrings.
Open Scope Z_scope.

Module discovery.
Import config.

Definition ReasonStaticRoutePrecedence : bytes := gs"static_route_precedence".
Definition ReasonDuplicateDiscovered : bytes := gs"duplicate_discovered_host".
Definition ReasonInvalidDiscovered : bytes := gs"invalid_discovered_route".
Definition ReasonUnknown : bytes := gs"unknown".
Definition RouteSourceStatic : bytes := gs"static".
Definition RouteSourceDiscovered : bytes := gs"discovered".

Record MergeStats := {
  StaticRoutes : Z;
  DiscoveredRoutes : Z;
  MergedRoutes : Z;
  IgnoredDiscoveredRoutes : Z;
  HasDefaultRoute : bool;
  IgnoredByReason : gmap bytes Z
}.

Record IgnoredDiscoveredRoute := {
  ig_Host : bytes; ig_Backend : bytes; ig_Reason : bytes; ig_Err : option error
}.

Record MergeResult := {
  mr_Routes : list Route;
  mr_Ignored : list IgnoredDiscoveredRoute;
  mr_Stats : MergeStats
}.

Record discoveredCandidate := { dc_Host : bytes; dc_Backend : bytes }.

Definition validateBackendPort (port : bytes) : option error :=
  if decide (TrimSpace port = []) then Some (errors_New "must not be empty")
  else
    let bad := Some (errors_New "must be an integer from 1 to 65535") in
    match strconv.Atoi port with
    | Err _ => bad
    | Ok parsed => if (parsed <? 1) || (65535 <? parsed) then bad else None
    end.

Definition isDNSLabel : bytes → bool := config.isDNSLabel.

Definition validateServiceDNSBackend (host : bytes) : option error :=
  match Split host "."%byte with
  | p0 :: p1 :: p2 :: (_ :: _ as domain) =>
      if negb (isDNSLabel p0) || negb (isDNSLabel p1)
      then Some (errors_New "service and namespace must be DNS labels")
      else if decide (p2 ≠ gs"svc") then Some (errors_New "must include svc as the third DNS label")
      else if existsb (λ part, negb (isDNSLabel part)) domain
      then Some (errors_New "cluster domain must be DNS labels")
      else None
  | _ => Some (errors_New "must be service.namespace.svc.<cluster-domain>")
  end.

Definition validateDiscoveredRoute (route : kubernetes.DiscoveredRoute) : res discoveredCandidate :=
  let? host := res_wrap (λ e, Errorf "host: %w" [] [e])
                 (hostaddr.Normalize (kubernetes.Host route)) in
  if decide (TrimSpace (kubernetes.Backend route) = [])
  then Err (errors_New "backend must not be empty")
  else
    let? (backendHost, port) := res_wrap (λ e, Errorf "backend must be host:port: %w" [] [e])
                                  (net.SplitHostPort (kubernetes.Backend route)) in
    match validateBackendPort port with
    | Some e => Err (Errorf "backend port: %w" [] [e])
    | None =>
        let? normalizedBackendHost := res_wrap (λ e, Errorf "backend host: %w" [] [e])
                                        (hostaddr.Normalize backendHost) in
        match validateServiceDNSBackend normalizedBackendHost with
        | Some e => Err (Errorf "backend host: %w" [] [e])
        | None => Ok {| dc_Host := host; dc_Backend := net.JoinHostPort normalizedBackendHost port |}
        end
    end.

Definition lessConfigRoute (left right : Route) : bool :=
  if decide (ServerAddress left ≠ ServerAddress right)
  then ltb (ServerAddress left) (ServerAddress right)
  else ltb (Backend left) (Backend right).

Definition lessDiscoveredCandidate (left right : discoveredCandidate) : bool :=
  if decide (dc_Host left ≠ dc_Host right) then ltb (dc_Host left) (dc_Host right)
  else ltb (dc_Backend left) (dc_Backend right).

(** [if host, err := hostaddr.Normalize(x); err == nil { x = host }]. *)
Definition normalized_or (x : bytes) : bytes :=
  match hostaddr.Normalize x with Ok host => host | Err _ => x end.

(** The static route as it goes into the result. *)
Definition static_route (route : Route) : Route := {|
  ServerAddress := normalized_or (ServerAddress route);
  Aliases := map normalized_or (Aliases route);
  Backend := Backend route; StatusBackend := StatusBackend route;
  StatusOverride_ := StatusOverride_ route; Source := RouteSourceStatic |}.

(** [staticHosts]: the normal forms of all names of the static routes. *)
Definition static_hosts (routes : list Route) : gset bytes :=
  list_to_set (keys hostaddr.Normalize (all_identities routes)).

(** The loop over the discovered routes: candidates and invalid ones, in order. *)
Fixpoint collect (routes : list kubernetes.DiscoveredRoute)
    : list discoveredCandidate * list IgnoredDiscoveredRoute :=
  match routes with
  | [] => ([], [])
  | route :: rest =>
      let '(candidates, ignored) := collect rest in
      match validateDiscoveredRoute route with
      | Err e => (candidates,
                  {| ig_Host := kubernetes.Host route; ig_Backend := kubernetes.Backend route;
                     ig_Reason := ReasonInvalidDiscovered; ig_Err := Some e |} :: ignored)
      | Ok candidate => (candidate :: candidates, ignored)
      end
  end.

Definition discovered_route (c : discoveredCandidate) : Route := {|
  ServerAddress := dc_Host c; Aliases := []; Backend := dc_Backend c; StatusBackend := [];
  StatusOverride_ := None; Source := RouteSourceDiscovered |}.

Definition ignored_duplicate (c : discoveredCandidate) : IgnoredDiscoveredRoute := {|
  ig_Host := dc_Host c; ig_Backend := dc_Backend c; ig_Reason := ReasonDuplicateDiscovered;
  ig_Err := Some (Errorf "host %q is discovered more than once" [AStr (dc_Host c)] []) |}.

Definition ignored_static (c : discoveredCandidate) : IgnoredDiscoveredRoute := {|
  ig_Host := dc_Host c; ig_Backend := dc_Backend c; ig_Reason := ReasonStaticRoutePrecedence;
  ig_Err := Some (Errorf "host %q is already configured by a static route" [AStr (dc_Host c)] []) |}.

(** The loop over the sorted candidates. *)
Fixpoint admit_candidates (hostCounts : gmap bytes Z) (staticHosts : gset bytes)
    (cs : list discoveredCandidate) : list Route * list IgnoredDiscoveredRoute :=
  match cs with
  | [] => ([], [])
  | c :: rest =>
      let '(routes, ignored) := admit_candidates hostCounts staticHosts rest in
      if decide (1 < count_in hostCounts (dc_Host c)) then (routes, ignored_duplicate c :: ignored)
      else if decide (dc_Host c ∈ staticHosts) then (routes, ignored_static c :: ignored)
      else (discovered_route c :: routes, ignored)
  end.

Section merge.
Context `{ErrorText}.

Definition errorString (e : option error) : bytes :=
  match e with None => [] | Some e => error_text e end.

Definition lessIgnored (left right : IgnoredDiscoveredRoute) : bool :=
  if decide (ig_Reason left ≠ ig_Reason right) then ltb (ig_Reason left) (ig_Reason right)
  else if decide (ig_Host left ≠ ig_Host right) then ltb (ig_Host left) (ig_Host right)
  else if decide (ig_Backend left ≠ ig_Backend right) then ltb (ig_Backend left) (ig_Backend right)
  else ltb (errorString (ig_Err left)) (errorString (ig_Err right)).

(** Every reason is a non-empty constant, so the renaming of [addIgnored] never
    applies; the ignored routes are counted by reason as they are added. *)
Definition MergeRoutes (staticRoutes : list Route) (discovered : list kubernetes.DiscoveredRoute)
    (defaultRoute : DefaultRoute) : MergeResult :=
  let '(candidates, invalid) := collect discovered in
  let hostCounts := tally dc_Host candidates in
  let candidates := SliceStable lessDiscoveredCandidate candidates in
  let '(added, refused) := admit_candidates hostCounts (static_hosts staticRoutes) candidates in
  let routes := SliceStable lessConfigRoute (map static_route staticRoutes ++ added) in
  let ignored := SliceStable lessIgnored (invalid ++ refused) in
  {| mr_Routes := routes;
     mr_Ignored := ignored;
     mr_Stats := {|
       StaticRoutes := zlen staticRoutes;
       DiscoveredRoutes := zlen discovered;
       MergedRoutes := zlen routes;
       IgnoredDiscoveredRoutes := zlen ignored;
       HasDefaultRoute := bool_decide (TrimSpace (dr_Backend defaultRoute) ≠ []);
       IgnoredByReason := tally ig_Reason (invalid ++ refused) |} |}.

End merge.

(** ** provider.go: the in-memory provider *)

Record MemoryProvider := { mp_routes : list kubernetes.DiscoveredRoute }.
Definition Update (p : MemoryProvider) (routes : list kubernetes.DiscoveredRoute) : MemoryProvider :=
  {| mp_routes := routes |}.
Definition NewMemoryProvider (routes : list kubernetes.DiscoveredRoute) : MemoryProvider :=
  Update {| mp_routes := [] |} routes.
Definition ProviderRoutes (p : MemoryProvider) : res (list kubernetes.DiscoveredRoute) :=
  Ok (mp_routes p).

End discovery.

(** ** Lemmas *)

Section lemmas.
Import config discovery.

Definition candidate_of (d : kubernetes.DiscoveredRoute) : option discoveredCandidate :=
  res_opt (validateDiscoveredRoute d).

Definition invalid_of (d : kubernetes.DiscoveredRoute) : option IgnoredDiscoveredRoute :=
  match validateDiscoveredRoute d with
  | Ok _ => None
  | Err e => Some {| ig_Host := kubernetes.Host d; ig_Backend := kubernetes.Backend d;
                     ig_Reason := ReasonInvalidDiscovered; ig_Err := Some e |}
  end.

Lemma collect_eq ds : collect ds = (omap candidate_of ds, omap invalid_of ds).
Proof.
  induction ds as [|d ds IH]; cbn; [done|]. rewrite IH. unfold candidate_of, invalid_of.
  by destruct (validateDiscoveredRoute d).
Qed.

(** A candidate has a canonical host and a backend that is an address. *)
Lemma candidate_ok d c :
  validateDiscoveredRoute d = Ok c →
  hostaddr.Normalize (kubernetes.Host d) = Ok (dc_Host c) ∧ hostaddr.canonical (dc_Host c) ∧
  backend_ok (dc_Backend c).
Proof.
  unfold validateDiscoveredRoute. intros H.
  apply res_bind_Ok in H as (host & Hh%res_wrap_Ok & H). case_decide; [done|].
  apply res_bind_Ok in H as ([bh port] & _ & H). unfold validateBackendPort in H.
  case_decide; [done|]. cbn zeta in H. destruct (strconv.Atoi port) as [n|] eqn:En; [|done].
  destruct (_ || _) eqn:Er; [done|]. bool_prop.
  apply res_bind_Ok in H as (nb & Hb%res_wrap_Ok & H).
  destruct (validateServiceDNSBackend nb); [done|]. injection H as <-. cbn. split_and!; [done|..].
  - by eapply Normalize_canonical.
  - eapply backend_ok_join; [by eapply Normalize_canonical | exact En | lia].
Qed.

Lemma canonical_key h : hostaddr.canonical h → hostaddr.Normalize h = Ok h.
Proof. apply Normalize_canonical_fixed. Qed.

(** Writing a name in its normal form does not change its normal form. *)
Lemma normalized_or_same x :
  is_ok (hostaddr.Normalize (normalized_or x)) = is_ok (hostaddr.Normalize x) ∧
  res_opt (hostaddr.Normalize (normalized_or x)) = res_opt (hostaddr.Normalize x).
Proof.
  unfold normalized_or. destruct (hostaddr.Normalize x) as [h|] eqn:E.
  - apply Normalize_canonical, canonical_key in E. by rewrite E.
  - by rewrite E.
Qed.

Lemma keys_normalized hs : keys hostaddr.Normalize (map normalized_or hs) = keys hostaddr.Normalize hs.
Proof.
  unfold keys. induction hs as [|x hs IH]; cbn; [done|].
  rewrite (proj2 (normalized_or_same x)). by rewrite IH.
Qed.

Lemma distinct_normalized hs :
  distinct hostaddr.Normalize (map normalized_or hs) ↔ distinct hostaddr.Normalize hs.
Proof.
  unfold distinct. rewrite keys_normalized. f_equiv. split.
  - intros H h Hh. rewrite <- (proj1 (normalized_or_same h)). apply H. by apply list_elem_of_fmap_2.
  - intros H h' (h & -> & Hh)%list_elem_of_fmap. rewrite (proj1 (normalized_or_same h)). by apply H.
Qed.

Lemma all_identities_static routes :
  all_identities (map static_route routes) = map normalized_or (all_identities routes).
Proof.
  unfold all_identities. induction routes as [|r routes IH]; [done|]. cbn [map concat].
  rewrite IH. rewrite map_app. done.
Qed.

Lemma static_routes_ok routes : routes_ok routes → routes_ok (map static_route routes).
Proof.
  intros [Hd Hr]. split.
  - rewrite all_identities_static. by apply distinct_normalized.
  - apply Forall_map. eapply Forall_impl; [exact Hr|]. by intros r.
Qed.

#[export] Instance all_identities_proper : Proper ((≡ₚ) ==> (≡ₚ)) all_identities.
Proof.
  intros l l' Hp. unfold all_identities. induction Hp; cbn [map concat]; [done|..].
  - by apply Permutation_app.
  - rewrite !app_assoc. apply Permutation_app; [|done]. apply Permutation_app_comm.
  - by etransitivity.
Qed.

#[export] Instance distinct_proper norm : Proper ((≡ₚ) ==> iff) (distinct norm).
Proof. intros l l' Hp. unfold distinct, keys. by setoid_rewrite Hp. Qed.

#[export] Instance routes_ok_proper : Proper ((≡ₚ) ==> iff) routes_ok.
Proof. intros l l' Hp. unfold routes_ok. by rewrite Hp. Qed.

(** A candidate that is admitted: nobody else claims its host. *)
Definition admissible (counts : gmap bytes Z) (taken : gset bytes) (c : discoveredCandidate) : Prop :=
  ¬ 1 < count_in counts (dc_Host c) ∧ dc_Host c ∉ taken.
#[export] Instance admissible_dec counts taken c : Decision (admissible counts taken c).
Proof. apply _. Defined.

Lemma admit_candidates_routes counts taken cs :
  (admit_candidates counts taken cs).1 = map discovered_route (filter (admissible counts taken) cs).
Proof.
  induction cs as [|c cs IH]; [done|]. cbn [admit_candidates]. rewrite filter_cons.
  destruct (admit_candidates counts taken cs) as [routes ignored]. cbn in IH. subst routes.
  repeat case_decide; cbn; try done; unfold admissible in *; exfalso; tauto.
Qed.

Lemma admit_candidates_length counts taken cs :
  (length (admit_candidates counts taken cs).1 + length (admit_candidates counts taken cs).2
   = length cs)%nat.
Proof.
  induction cs as [|c cs IH]; [done|]. cbn [admit_candidates].
  destruct (admit_candidates counts taken cs) as [routes ignored]. cbn in IH.
  repeat case_decide; cbn; lia.
Qed.

(** The routes that discovery adds to [static]. *)
Definition sorted_candidates (ds : list kubernetes.DiscoveredRoute) : list discoveredCandidate :=
  SliceStable lessDiscoveredCandidate (omap candidate_of ds).

Definition admitted (static : list Route) (ds : list kubernetes.DiscoveredRoute)
    : list discoveredCandidate :=
  filter (admissible (tally dc_Host (omap candidate_of ds)) (static_hosts static)) (sorted_candidates ds).

Lemma MergeRoutes_routes `{ErrorText} static ds d :
  mr_Routes (MergeRoutes static ds d) =
    SliceStable lessConfigRoute (map static_route static ++ map discovered_route (admitted static ds)).
Proof.
  unfold MergeRoutes. rewrite collect_eq.
  pose proof (admit_candidates_routes (tally dc_Host (omap candidate_of ds)) (static_hosts static)
                (sorted_candidates ds)) as Ha. fold (sorted_candidates ds).
  destruct (admit_candidates _ _ _) as [added refused]. cbn in Ha |- *. by rewrite Ha.
Qed.

Lemma elem_of_admitted static ds c :
  c ∈ admitted static ds ↔
  (∃ d, d ∈ ds ∧ validateDiscoveredRoute d = Ok c) ∧
  ¬ 1 < count_in (tally dc_Host (omap candidate_of ds)) (dc_Host c) ∧ dc_Host c ∉ static_hosts static.
Proof.
  unfold admitted. rewrite list_elem_of_filter. unfold sorted_candidates.
  rewrite elem_of_SliceStable, list_elem_of_omap. unfold admissible, candidate_of, res_opt.
  split.
  - intros [[H1 H2] (d & Hd & E)]. split; [|done]. exists d. destruct (validateDiscoveredRoute d); by simplify_eq.
  - intros [(d & Hd & E) [H1 H2]]. split; [done|]. exists d. by rewrite E.
Qed.

Lemma NoDup_fmap_filter {A B} (f : A → B) (P : A → Prop) `{!∀ x, Decision (P x)} l :
  NoDup (f <$> l) → NoDup (f <$> filter P l).
Proof.
  induction l as [|x l IH]; [done|]. rewrite fmap_cons. intros [Hx Hnd]%NoDup_cons.
  rewrite filter_cons. case_decide; [|by apply IH]. rewrite fmap_cons. apply NoDup_cons. split; [|by apply IH].
  intros (y & E & [_ Hy]%list_elem_of_filter)%list_elem_of_fmap. apply Hx. rewrite E.
  by apply list_elem_of_fmap_2.
Qed.

Lemma admitted_NoDup static ds : NoDup (dc_Host <$> admitted static ds).
Proof.
  unfold admitted, sorted_candidates.
  set (cs := omap candidate_of ds).
  assert (dc_Host <$> filter (admissible (tally dc_Host cs) (static_hosts static))
            (SliceStable lessDiscoveredCandidate cs) ≡ₚ
          dc_Host <$> filter (λ c, dc_Host c ∉ static_hosts static)
            (filter (λ c, ¬ 1 < count_in (tally dc_Host cs) (dc_Host c)) cs)) as ->.
  { rewrite (SliceStable_perm lessDiscoveredCandidate), list_filter_filter.
    erewrite list_filter_iff; [done|]. intros c. unfold admissible. tauto. }
  pose proof (tally_unique dc_Host cs) as Hu.
  by apply NoDup_fmap_filter.
Qed.

End lemmas.

(** ** Properties *)

Section properties.
Import config discovery.
Context `{ErrorText}.

Lemma keys_admitted static ds :
  keys hostaddr.Normalize (map dc_Host (admitted static ds)) = map dc_Host (admitted static ds) ∧
  distinct hostaddr.Normalize (map dc_Host (admitted static ds)).
Proof.
  assert (∀ h, h ∈ map dc_Host (admitted static ds) → hostaddr.Normalize h = Ok h) as Hc.
  { intros h (c & -> & Hc)%list_elem_of_fmap. apply elem_of_admitted in Hc as [(d & _ & Hd) _].
    apply canonical_key. by apply candidate_ok in Hd as (_ & ? & _). }
  assert (keys hostaddr.Normalize (map dc_Host (admitted static ds)) = map dc_Host (admitted static ds)) as Hk.
  { revert Hc. generalize (map dc_Host (admitted static ds)). induction l as [|h l IH]; intros Hc; [done|].
    rewrite (keys_cons_ok _ h l h) by (apply Hc; by left). f_equal. apply IH. intros. apply Hc. by right. }
  split; [done|]. split; [intros h Hh; by rewrite Hc|]. rewrite Hk. apply admitted_NoDup.
Qed.

Lemma discovered_routes_ok static ds :
  routes_ok (map discovered_route (admitted static ds)).
Proof.
  split.
  - assert (all_identities (map discovered_route (admitted static ds)) = map dc_Host (admitted static ds)) as ->.
    { generalize (admitted static ds). intros l. unfold all_identities.
      induction l as [|c l IH]; [done|]. cbn [map concat]. by rewrite IH. }
    apply keys_admitted.
  - apply Forall_map, Forall_forall. intros c [(d & _ & Hd) _]%elem_of_admitted.
    apply candidate_ok in Hd as (_ & _ & Hb). split_and!; [exact Hb | done | done].
Qed.

Lemma routes_ok_app rs rs' :
  routes_ok rs → routes_ok rs' →
  (∀ k, k ∈ keys hostaddr.Normalize (all_identities rs) →
        k ∉ keys hostaddr.Normalize (all_identities rs')) →
  routes_ok (rs ++ rs').
Proof.
  intros [H1 H2] [H3 H4] Hk. split.
  - assert (all_identities (rs ++ rs') = all_identities rs ++ all_identities rs') as ->.
    { unfold all_identities. by rewrite map_app, concat_app. }
    by apply bedrockroute.distinct_app.
  - by apply Forall_app.
Qed.

Lemma discovered_identities l : all_identities (map discovered_route l) = map dc_Host l.
Proof. unfold all_identities. induction l as [|c l IH]; [done|]. cbn [map concat]. by rewrite IH. Qed.

Lemma MergeRoutes_ok static ds d :
  routes_ok static → routes_ok (mr_Routes (MergeRoutes static ds d)).
Proof.
  intros Hs. rewrite MergeRoutes_routes, (SliceStable_perm lessConfigRoute).
  apply routes_ok_app; [by apply static_routes_ok | apply discovered_routes_ok |].
  intros k. rewrite all_identities_static, keys_normalized, discovered_identities.
  rewrite (proj1 (keys_admitted static ds)). intros Hk (c & -> & Hc)%list_elem_of_fmap.
  apply elem_of_admitted in Hc as (_ & _ & Hn). apply Hn. unfold static_hosts.
  by apply elem_of_list_to_set.
Qed.

(** Merging valid static routes with whatever discovery found gives valid
    routes: every name has a normal form, no two routes answer to the same name,
    every backend is an address. *)
Theorem MergeRoutes_valid static ds d :
  routes_ok static → routes_ok (mr_Routes (MergeRoutes static ds d)).
Proof. apply MergeRoutes_ok. Qed.

(** A name is in [staticHosts] exactly when it is the normal form of a name of a static
    route. *)
Lemma elem_of_static_hosts static h :
  h ∈ static_hosts static ↔ ∃ s i, s ∈ static ∧ i ∈ identities s ∧ hostaddr.Normalize i = Ok h.
Proof.
  unfold static_hosts. rewrite elem_of_list_to_set, elem_of_keys.
  unfold all_identities. setoid_rewrite list_elem_of_In. setoid_rewrite in_concat.
  setoid_rewrite in_map_iff. naive_solver.
Qed.

Lemma config_routes_sorted l :
  StronglySorted (λ r r', less_keys [ServerAddress r'; Backend r'] [ServerAddress r; Backend r] = false)
    (SliceStable lessConfigRoute l).
Proof.
  assert (∀ a b, lessConfigRoute a b = less_keys [ServerAddress a; Backend a] [ServerAddress b; Backend b]) as Hk.
  { intros a b. unfold lessConfigRoute. rewrite decide_ne, (less_last (Backend a)). done. }
  pose proof (SliceStable_sorted lessConfigRoute (λ r, [ServerAddress r; Backend r]) 2 Hk (λ _, eq_refl) l) as Hs.
  induction Hs as [|a l' _ IH Ha]; constructor; [done|].
  eapply Forall_impl; [exact Ha|]. intros b. unfold before. by rewrite Hk.
Qed.

(** C23: the merged routes are, with multiplicity, the static routes, each once and with
    its names in normal form, and one route for each discovered host that is valid, claimed
    once and not the normal form of a static name; they are sorted by address and backend.
    A static route always takes precedence over discovery, and an ambiguous host is served
    by nobody. *)
Theorem MergeRoutes_exact static ds d :
  ∃ added : list discoveredCandidate,
    mr_Routes (MergeRoutes static ds d) ≡ₚ map static_route static ++ map discovered_route added ∧
    NoDup (dc_Host <$> added) ∧
    (∀ c, c ∈ added ↔
       (∃ x, x ∈ ds ∧ validateDiscoveredRoute x = Ok c) ∧
       zlen (filter (λ c', dc_Host c' = dc_Host c) (omap candidate_of ds)) ≤ 1 ∧
       ∀ s h, s ∈ static → h ∈ identities s → hostaddr.Normalize h ≠ Ok (dc_Host c)) ∧
    StronglySorted (λ r r', less_keys [ServerAddress r'; Backend r'] [ServerAddress r; Backend r] = false)
      (mr_Routes (MergeRoutes static ds d)).
Proof.
  rewrite MergeRoutes_routes. exists (admitted static ds). split_and!.
  - apply SliceStable_perm.
  - apply admitted_NoDup.
  - intros c. rewrite elem_of_admitted, tally_count, elem_of_static_hosts.
    split; intros (Hx & Hn & Hs); (split; [done|]; split; [lia|]); naive_solver.
  - apply config_routes_sorted.
Qed.

(** Nothing is lost in the merge: every static route and every discovered route
    is either in the result or reported as ignored, and the statistics say so. *)
Theorem MergeRoutes_accounts static ds d :
  let m := MergeRoutes static ds d in
  zlen (mr_Routes m) + zlen (mr_Ignored m) = zlen static + zlen ds ∧
  MergedRoutes (mr_Stats m) = zlen (mr_Routes m) ∧
  IgnoredDiscoveredRoutes (mr_Stats m) = zlen (mr_Ignored m) ∧
  ∀ reason, count_in (IgnoredByReason (mr_Stats m)) reason =
            zlen (filter (λ i, ig_Reason i = reason) (mr_Ignored m)).
Proof.
  cbn zeta. unfold MergeRoutes. rewrite collect_eq. fold (sorted_candidates ds).
  set (counts := tally dc_Host _).
  pose proof (admit_candidates_length counts (static_hosts static) (sorted_candidates ds)) as Hl.
  destruct (admit_candidates _ _ _) as [added refused]. cbn in Hl |- *. split_and!; [|done|done|].
  - rewrite (SliceStable_perm lessConfigRoute), (SliceStable_perm lessIgnored). unfold zlen.
    rewrite !length_app, length_map.
    assert (length (sorted_candidates ds) + length (omap invalid_of ds) = length ds)%nat.
    { unfold sorted_candidates. rewrite (SliceStable_perm lessDiscoveredCandidate).
      clear. induction ds as [|x ds IH]; [done|]. cbn. unfold candidate_of at 1, invalid_of at 1.
      destruct (validateDiscoveredRoute x); cbn; lia. }
    lia.
  - intros reason. rewrite tally_count. by rewrite (SliceStable_perm lessIgnored).
Qed.

(** The merged routes do not depend on the order in which the discovered routes
    come. *)
Theorem MergeRoutes_order_irrelevant static ds ds' d :
  ds ≡ₚ ds' → mr_Routes (MergeRoutes static ds d) = mr_Routes (MergeRoutes static ds' d).
Proof.
  intros Hp. rewrite !MergeRoutes_routes. do 3 f_equal. unfold admitted.
  assert (sorted_candidates ds = sorted_candidates ds') as ->.
  { apply (SliceStable_deterministic _ (λ c, [dc_Host c; dc_Backend c]) 2); [|done|..].
    - intros a b. unfold lessDiscoveredCandidate. rewrite decide_ne, (less_last (dc_Backend a)). done.
    - intros [] [] _ _. cbn. by intros [= -> ->].
    - by rewrite Hp. }
  apply list_filter_iff. intros c. unfold admissible.
  rewrite (tally_perm dc_Host (omap candidate_of ds) (omap candidate_of ds')); [done|].
  by rewrite Hp.
Qed.

(** ** The routes of a snapshot are valid candidates *)

Lemma isDNSLabel_dns l : config.isDNSLabel l = true →
  hostaddr.dns_label l ∧ forallb no_upper l = true ∧ ("."%byte ∉ l).
Proof.
  unfold config.isDNSLabel. intros Hl. bool_prop.
  rename select (forallb _ l = true) into Hc.
  assert (forallb hostaddr.label_char l = true ∧ forallb no_upper l = true ∧
          forallb (λ c, bool_decide (c ≠ "."%byte)) l = true) as (Hx & Hy & Hz).
  { rewrite !forallb_forall in *. split_and!; intros c Hin; specialize (Hc c Hin);
      revert Hc; revert c Hin; intros c _; revert c; byte_enum. }
  split_and!; [split_and!; try done; lia | done |].
  by eapply forallb_not_elem.
Qed.

Lemma Split_service s :
  config.isDNSLabel (kubernetes.si_Name s) = true → config.isDNSLabel (kubernetes.si_Namespace s) = true →
  Split (kubernetes.serviceDNS s) "."%byte =
    [kubernetes.si_Name s; kubernetes.si_Namespace s; gs"svc"; gs"cluster"; gs"local"].
Proof.
  intros (_ & _ & H1)%isDNSLabel_dns (_ & _ & H2)%isDNSLabel_dns. unfold kubernetes.serviceDNS.
  change gs"." with ["."%byte].
  change (gs".svc.cluster.local") with ("."%byte :: gs"svc.cluster.local"). cbn [app].
  by rewrite !Split_app by done.
Qed.

Lemma serviceDNS_canonical s :
  config.isDNSLabel (kubernetes.si_Name s) = true → config.isDNSLabel (kubernetes.si_Namespace s) = true →
  hostaddr.canonical (kubernetes.serviceDNS s).
Proof.
  intros Hn Hns. pose proof (Split_service s Hn Hns) as Hsp.
  apply isDNSLabel_dns in Hn as (Hn1 & Hn2 & _), Hns as (Hs1 & Hs2 & _). split_and!.
  - unfold kubernetes.serviceDNS. rewrite !length_app. cbn. lia.
  - unfold kubernetes.serviceDNS, hostaddr.MaxHostBytes. rewrite !length_app.
    destruct Hn1 as [? _], Hs1 as [? _]. cbn. lia.
  - unfold kubernetes.serviceDNS. rewrite !forallb_app, Hn2, Hs2. done.
  - right. split.
    + destruct (net.ParseIP _) eqn:E; [|done]. apply ParseIP_text in E as [[Hc _] _].
      unfold kubernetes.serviceDNS in Hc. rewrite !forallb_app in Hc. bool_prop. done.
    + rewrite Hsp. repeat (constructor; [done || (apply check_label_None; reflexivity)|]). constructor.
Qed.

Lemma JoinHostPort_trim h p n : hostaddr.canonical h → strconv.Atoi p = Ok n →
  TrimSpace (net.JoinHostPort h p) = net.JoinHostPort h p.
Proof.
  intros (Hh & _)%canonical_text [Hp _]%Atoi_chars. apply TrimSpace_all_graphic.
  assert (forallb graphic h = true ∧ forallb graphic p = true) as [Eh Ep].
  { split; (eapply forallb_impl; [|eassumption]); [|apply number_char_graphic].
    intros c Hx. unfold host_char in Hx. by bool_prop. }
  unfold net.JoinHostPort. destruct (ContainsByte h _); rewrite !forallb_app, Eh, Ep; done.
Qed.

Lemma JoinHostPort_nonempty h p : net.JoinHostPort h p ≠ [].
Proof. unfold net.JoinHostPort. destruct (ContainsByte h _); [done|]. by destruct h. Qed.

(** The routes of a discovery snapshot are exactly in the form the merge wants:
    every one of them is a valid candidate with the same host and backend, so a
    snapshot route is dropped from the merge only when a static route has its
    host. *)
Theorem snapshot_routes_valid services p r :
  r ∈ kubernetes.Routes (kubernetes.BuildDiscoveredRoutes services p) →
  validateDiscoveredRoute r =
    Ok {| dc_Host := kubernetes.Host r; dc_Backend := kubernetes.Backend r |}.
Proof.
  intros [(s & _ & Hd) _]%elem_of_Routes.
  destruct Hd as [_ _ Hn Hns (hv & _ & _ & Hh) (pv & port & _ & _ & _ & Hp & _ & Hb)].
  pose proof (serviceDNS_canonical s Hn Hns) as Hc.
  assert (strconv.Atoi (strconv.Itoa port) = Ok port) as Ha by (apply Atoi_Itoa; lia).
  destruct (canonical_plain _ Hc) as (Hpl & Htr & Hne).
  destruct (number_plain _ _ Ha) as (Hpl' & Hcol & Htr' & Hne').
  unfold validateDiscoveredRoute. rewrite (canonical_key (kubernetes.Host r))
    by by eapply Normalize_canonical. cbn [res_wrap res_bind].
  rewrite decide_False.
  2:{ rewrite Hb, (JoinHostPort_trim _ _ port) by done. by apply JoinHostPort_nonempty. }
  rewrite Hb, SplitHostPort_Join by done. cbn [res_wrap res_bind].
  unfold validateBackendPort. rewrite decide_False by congruence. rewrite Ha. cbn zeta.
  rewrite (proj2 (Z.ltb_ge _ _)), (proj2 (Z.ltb_ge 65535 _)) by lia. cbn [orb].
  rewrite (canonical_key _ Hc). cbn [res_wrap res_bind].
  unfold validateServiceDNSBackend, isDNSLabel. rewrite Split_service by done.
  change (kubernetes.isDNSLabel) with config.isDNSLabel in *. rewrite Hn, Hns. cbn [negb orb].
  done.
Qed.

End properties.

(** ** Witnesses *)

Section witnesses.
Import config discovery.

#[local] Instance no_text : ErrorText := λ _, [].

Definition sample_discovered : list kubernetes.DiscoveredRoute :=
  [{| kubernetes.Host := gs"play.example.com"; kubernetes.Backend := gs"x.games.svc.cluster.local:1" |};
   {| kubernetes.Host := gs"New.example.com"; kubernetes.Backend := gs"y.games.svc.cluster.local:2" |}].

Example sample_merge :
  map (λ r, (ServerAddress r, Source r))
    (mr_Routes (MergeRoutes [sample_route] sample_discovered (DefaultRoute_ Defaults))) =
  [(gs"new.example.com", gs"discovered"); (gs"play.example.com", gs"static")].
Proof. vm_compute. reflexivity. Qed.

Lemma sample_routes_ok : routes_ok [sample_route].
Proof. apply (check_routes_ok 0 [sample_route] ∅). vm_compute. reflexivity. Qed.

Lemma MergeRoutes_valid_witness :
  routes_ok (mr_Routes (MergeRoutes [sample_route] sample_discovered (DefaultRoute_ Defaults))).
Proof. apply (MergeRoutes_valid [sample_route]). exact sample_routes_ok. Defined.

Lemma MergeRoutes_order_irrelevant_witness :
  mr_Routes (MergeRoutes [sample_route] sample_discovered (DefaultRoute_ Defaults)) =
  mr_Routes (MergeRoutes [sample_route] (reverse sample_discovered) (DefaultRoute_ Defaults)).
Proof.
  apply (MergeRoutes_order_irrelevant [sample_route] sample_discovered (reverse sample_discovered)).
  apply Permutation_swap.
Defined.

Lemma snapshot_routes_valid_witness :
  validateDiscoveredRoute
    {| kubernetes.Host := gs"a.example.com"; kubernetes.Backend := gs"a.games.svc.cluster.local:25565" |} =
  Ok {| dc_Host := gs"a.example.com"; dc_Backend := gs"a.games.svc.cluster.local:25565" |}.
Proof.
  apply (snapshot_routes_valid [Kubernetes.sample_input gs"a" gs"a.example.com"] []
    {| kubernetes.Host := gs"a.example.com"; kubernetes.Backend := gs"a.games.svc.cluster.local:25565" |}).
  assert (kubernetes.Routes (kubernetes.BuildDiscoveredRoutes
      [Kubernetes.sample_input gs"a" gs"a.example.com"] []) =
    [{| kubernetes.Host := gs"a.example.com"; kubernetes.Backend := gs"a.games.svc.cluster.local:25565" |}])
    as -> by (vm_compute; reflexivity).
  apply list_elem_of_here.
Defined.

End witnesses.
