(* ===== verification/Router.v ===== *)
(** * The Java router ([internal/router])

    A map from the normal forms of all route names to the routes. The reference is
    a scan of the configured routes ([select_spec]). *)
From S2P Require Import Prelude GoUnicode GoStrings GoNet GoIO HostAddr Tables.
From S2P Require Import Config Kubernetes Merge.
Import gostrings.
Open Scope Z_scope.

Module router.
Import config.

Definition ErrNoRoute : error := Sentinel "router.ErrNoRoute".
Definition ErrInvalidServerAddress : error := Sentinel "router.ErrInvalidServerAddress".

Definition MatchKindCanonical : bytes := gs"canonical".
Definition MatchKindAlias : bytes := gs"alias".
Definition MatchKindDefault : bytes := gs"default".
Definition RouteSourceDefault : bytes := gs"default".

Record routeEntry := { route : Route; matchKind : bytes }.

Record Router := {
  routes : gmap bytes routeEntry;
  defaultBackend : bytes;
  unknownHostPolicy : bytes
}.

Record Selection := {
  sel_Backend : bytes;
  sel_StatusBackend : bytes;
  MatchedBy : bytes;
  MatchKind : bytes;
  RouteSource : bytes;
  CanonicalServerAddress : bytes;
  sel_StatusOverride : option StatusOverride
}.

(** A copy of the override; a value has no identity here. *)
Definition cloneStatusOverride (o : option StatusOverride) : option StatusOverride := o.

(** The route as it is stored, once its address is normalised. *)
Definition stored (r : Route) (normalized : bytes) : Route := {|
  ServerAddress := normalized; Aliases := Aliases r; Backend := Backend r;
  StatusBackend := StatusBackend r; StatusOverride_ := cloneStatusOverride (StatusOverride_ r);
  Source := if decide (Source r = []) then discovery.RouteSourceStatic else Source r |}.

(** The loop over the aliases of a route. *)
Fixpoint add_aliases (r : Route) (aliases : list bytes) (m : gmap bytes routeEntry)
    : res (gmap bytes routeEntry) :=
  match aliases with
  | [] => Ok m
  | alias :: rest =>
      let? normalizedAlias := hostaddr.Normalize alias in
      add_aliases r rest (<[normalizedAlias := {| route := r; matchKind := MatchKindAlias |}]> m)
  end.

(** The loop over the routes. *)
Fixpoint add_routes (rs : list Route) (m : gmap bytes routeEntry) : res (gmap bytes routeEntry) :=
  match rs with
  | [] => Ok m
  | r :: rest =>
      let? normalized := hostaddr.Normalize (ServerAddress r) in
      let r' := stored r normalized in
      let m := <[normalized := {| route := r'; matchKind := MatchKindCanonical |}]> m in
      let? m := add_aliases r' (Aliases r) m in
      add_routes rest m
  end.

Definition New `{Env} (cfg : Config) : res Router :=
  match Validate cfg with
  | (Some e, _) => Err e
  | (None, cfg) =>
      let? m := add_routes (Routes cfg) ∅ in
      Ok {| routes := m; defaultBackend := dr_Backend (DefaultRoute_ cfg);
            unknownHostPolicy := UnknownHostPolicy cfg |}
  end.

(** The selection of a stored entry, and of the default route. *)
Definition selection (entry : routeEntry) : Selection :=
  let r := route entry in {|
  sel_Backend := Backend r; sel_StatusBackend := StatusBackend r; MatchedBy := gs"route";
  MatchKind := matchKind entry; RouteSource := Source r;
  CanonicalServerAddress := ServerAddress r;
  sel_StatusOverride := cloneStatusOverride (StatusOverride_ r) |}.

Definition default_selection (backend : bytes) : Selection := {|
  sel_Backend := backend; sel_StatusBackend := []; MatchedBy := gs"default";
  MatchKind := MatchKindDefault; RouteSource := RouteSourceDefault;
  CanonicalServerAddress := []; sel_StatusOverride := None |}.

Definition Select (r : Router) (serverAddress : bytes) : res Selection :=
  match hostaddr.Normalize serverAddress with
  | Err e => Err (Errorf "%w: %w" [] [ErrInvalidServerAddress; e])
  | Ok address =>
      match routes r !! address with
      | Some entry => Ok (selection entry)
      | None =>
          if decide (unknownHostPolicy r = UnknownHostDefault ∧ defaultBackend r ≠ [])
          then Ok (default_selection (defaultBackend r))
          else Err (Errorf "%w: %q" [AStr address] [ErrNoRoute])
      end
  end.

(** ** Specification: a scan of the routes *)

Definition normal_form (h : bytes) : bytes :=
  match hostaddr.Normalize h with Ok k => k | Err _ => [] end.

(** The entries of one route, under its raw names. *)
Definition route_entries (r : Route) : list (bytes * routeEntry) :=
  let r' := stored r (normal_form (ServerAddress r)) in
  (ServerAddress r, {| route := r'; matchKind := MatchKindCanonical |})
  :: map (λ a, (a, {| route := r'; matchKind := MatchKindAlias |})) (Aliases r).

Definition entries (rs : list Route) : list (bytes * routeEntry) := concat (map route_entries rs).

Definition select_spec (cfg : Config) (serverAddress : bytes) : res Selection :=
  match hostaddr.Normalize serverAddress with
  | Err e => Err (Errorf "%w: %w" [] [ErrInvalidServerAddress; e])
  | Ok address =>
      match owner hostaddr.Normalize (entries (Routes cfg)) address with
      | Some entry => Ok (selection entry)
      | None =>
          if decide (UnknownHostPolicy cfg = UnknownHostDefault ∧ dr_Backend (DefaultRoute_ cfg) ≠ [])
          then Ok (default_selection (dr_Backend (DefaultRoute_ cfg)))
          else Err (Errorf "%w: %q" [AStr address] [ErrNoRoute])
      end
  end.

(** ** Lemmas *)

Lemma entries_names rs : (entries rs).*1 = all_identities rs.
Proof.
  unfold entries, all_identities. induction rs as [|r rs IH]; [done|].
  cbn [map concat]. rewrite fmap_app, IH. f_equal. unfold route_entries, identities. cbn. f_equal.
  generalize (Aliases r). intros l. induction l as [|a l IHl]; cbn; by f_equal.
Qed.

Lemma add_aliases_eq r aliases m :
  (∀ a, a ∈ aliases → is_ok (hostaddr.Normalize a) = true) →
  add_aliases r aliases m =
    Ok (insert_all hostaddr.Normalize
          (map (λ a, (a, {| route := r; matchKind := MatchKindAlias |})) aliases) m).
Proof.
  revert m. induction aliases as [|a aliases IH]; intros m Hok; [done|]. cbn.
  destruct (hostaddr.Normalize a) as [k|e] eqn:E.
  - cbn. apply IH. intros b Hb. apply Hok. by right.
  - specialize (Hok a ltac:(left)). by rewrite E in Hok.
Qed.

Lemma add_routes_eq rs m :
  (∀ h, h ∈ all_identities rs → is_ok (hostaddr.Normalize h) = true) →
  add_routes rs m = Ok (insert_all hostaddr.Normalize (entries rs) m).
Proof.
  revert m. induction rs as [|r rs IH]; intros m Hok; [done|]. cbn [add_routes].
  change (all_identities (r :: rs)) with (identities r ++ all_identities rs) in Hok.
  change (entries (r :: rs)) with (route_entries r ++ entries rs).
  rewrite insert_all_app. unfold route_entries, normal_form. cbn [insert_all].
  destruct (hostaddr.Normalize (ServerAddress r)) as [k|e] eqn:E.
  - cbn [res_bind]. rewrite add_aliases_eq.
    + cbn [res_bind]. apply IH. intros h Hh. apply Hok, elem_of_app. by right.
    + intros a Ha. apply Hok, elem_of_app. left. by right.
  - specialize (Hok (ServerAddress r)). rewrite E in Hok. discriminate Hok.
    apply elem_of_app. left. by left.
Qed.

End router.

Section properties.
Import config router.
Context `{Env} `{!EnvLaws}.

Lemma New_eq cfg :
  config_ok cfg →
  New cfg = Ok {| routes := insert_all hostaddr.Normalize (entries (Routes cfg)) ∅;
                  defaultBackend := dr_Backend (DefaultRoute_ cfg);
                  unknownHostPolicy := UnknownHostPolicy cfg |}.
Proof.
  intros Hok. pose proof (proj2 (Validate_ok cfg) Hok) as Hv. unfold New.
  destruct (Validate cfg) as [e c'] eqn:E. cbn in Hv. subst e.
  apply Validate_tokens in E as ->. cbn [Routes with_voice DefaultRoute_ UnknownHostPolicy].
  rewrite add_routes_eq; [done|]. apply (ok_routes _ Hok).
Qed.

(** A router can be built from a configuration exactly when it is valid: once
    [Validate] accepts, building the table cannot fail. *)
Theorem New_iff_valid cfg : is_ok (New cfg) = true ↔ config_ok cfg.
Proof.
  split.
  - rewrite <- Validate_ok. unfold New. destruct (Validate cfg) as [[e|] c']; done.
  - intros Hok. by rewrite New_eq.
Qed.

Lemma New_inv cfg r : New cfg = Ok r → config_ok cfg.
Proof.
  rewrite <- Validate_ok. unfold New. destruct (Validate cfg) as [[e|] c']; done.
Qed.

(** C17: for every requested address the router answers what a scan of the configured
    routes would answer: the route one of whose names has the same normal form as
    the request, else the default backend if the policy allows one, else
    [ErrNoRoute]; and [ErrInvalidServerAddress] for an address without a normal
    form. *)
Theorem Select_refines_routes cfg r addr :
  New cfg = Ok r → Select r addr = select_spec cfg addr.
Proof.
  intros HN. pose proof (New_inv _ _ HN) as Hok. rewrite New_eq in HN by done. injection HN as <-.
  unfold Select, select_spec. cbn [routes defaultBackend unknownHostPolicy].
  destruct (hostaddr.Normalize addr) as [k|]; [|done].
  rewrite insert_all_lookup by (rewrite entries_names; apply (ok_routes _ Hok)).
  rewrite lookup_empty. by destruct (owner _ _ k).
Qed.

(** Every name of every route, in any spelling with the same normal form, leads
    to that route's backend. *)
Theorem Select_finds_route cfg r rt name addr :
  New cfg = Ok r → rt ∈ Routes cfg → name ∈ identities rt →
  res_opt (hostaddr.Normalize addr) = res_opt (hostaddr.Normalize name) →
  ∃ sel, Select r addr = Ok sel ∧ sel_Backend sel = Backend rt ∧
         sel_StatusBackend sel = StatusBackend rt ∧
         hostaddr.Normalize (ServerAddress rt) = Ok (CanonicalServerAddress sel).
Proof.
  intros HN Hrt Hname Haddr. pose proof (New_inv _ _ HN) as Hok. pose proof (ok_routes _ Hok) as [Hd _].
  assert (∀ h, h ∈ identities rt → ∃ k, hostaddr.Normalize h = Ok k) as Hnorm.
  { intros h Hh. apply is_ok_spec, Hd. unfold all_identities. apply list_elem_of_In, in_concat.
    exists (identities rt). split; [apply in_map|]; by apply list_elem_of_In. }
  destruct (Hnorm name Hname) as [k Ek]. destruct (Hnorm (ServerAddress rt) ltac:(left)) as [ks Eks].
  rewrite Ek in Haddr. destruct (hostaddr.Normalize addr) as [k'|] eqn:Ea; [|done].
  injection Haddr as ->.
  assert (∃ kind, (name, {| route := stored rt ks; matchKind := kind |}) ∈ entries (Routes cfg)) as [kind Hin].
  { assert (∃ kind, (name, {| route := stored rt ks; matchKind := kind |}) ∈ route_entries rt) as [kind Hin].
    { unfold route_entries, normal_form. rewrite Eks. apply elem_of_cons in Hname as [->|Ha].
      - eexists. by left.
      - eexists. right. apply list_elem_of_fmap. by exists name. }
    exists kind. unfold entries. apply list_elem_of_In, in_concat. exists (route_entries rt).
    split; [apply in_map|]; by apply list_elem_of_In. }
  rewrite New_eq in HN by done. injection HN as <-. unfold Select. cbn [routes]. rewrite Ea.
  rewrite insert_all_lookup by by rewrite entries_names.
  rewrite (owner_in _ _ name {| route := stored rt ks; matchKind := kind |} k)
    by (rewrite ?entries_names; done).
  eexists. split; [done|]. by rewrite Eks.
Qed.

(** The route an entry of the table comes from. *)
Lemma entries_route rs h e : (h, e) ∈ entries rs → ∃ rt, rt ∈ rs ∧
  Backend (route e) = Backend rt ∧ StatusBackend (route e) = StatusBackend rt.
Proof.
  intros Hin. unfold entries in Hin. apply list_elem_of_In, in_concat in Hin as (l & Hl & Hin).
  apply in_map_iff in Hl as (rt & <- & Hrt). apply list_elem_of_In in Hin, Hrt. exists rt.
  unfold route_entries in Hin.
  by apply elem_of_cons in Hin as [[= _ ->]|(a & [= _ ->] & _)%list_elem_of_fmap].
Qed.

Lemma table_backends_ok cfg addr sel :
  config_ok cfg →
  Select {| routes := insert_all hostaddr.Normalize (entries (Routes cfg)) ∅;
            defaultBackend := dr_Backend (DefaultRoute_ cfg);
            unknownHostPolicy := UnknownHostPolicy cfg |} addr = Ok sel →
  backend_ok (sel_Backend sel) ∧ (sel_StatusBackend sel ≠ [] → backend_ok (sel_StatusBackend sel)).
Proof.
  intros Hok. unfold Select. destruct (hostaddr.Normalize addr) as [k|]; [|done].
  cbn [routes defaultBackend unknownHostPolicy].
  rewrite insert_all_lookup by (rewrite entries_names; apply (ok_routes _ Hok)). rewrite lookup_empty.
  destruct (owner _ _ k) as [e|] eqn:Eo.
  - intros [= <-]. apply owner_Some_in in Eo as (h & Hin & _).
    apply entries_route in Hin as (rt & Hrt & Eb & Es).
    pose proof (ok_routes _ Hok) as [_ Hr]. rewrite Forall_forall in Hr.
    destruct (Hr rt Hrt) as (Hb & Hs & _). cbn. rewrite Eb, Es. split; [done | tauto].
  - case_decide as Hdef; [|done]. intros [= <-]. destruct (ok_default _ Hok) as [_ Hd].
    split; [by apply Hd, Hdef | done].
Qed.

(** Whatever is selected, both the backend and the status backend if there is
    one, is an address that passed validation. *)
Theorem Select_backend_ok cfg r addr sel :
  New cfg = Ok r → Select r addr = Ok sel →
  backend_ok (sel_Backend sel) ∧ (sel_StatusBackend sel ≠ [] → backend_ok (sel_StatusBackend sel)).
Proof.
  intros HN. pose proof (New_inv _ _ HN) as Hok. rewrite New_eq in HN by done. injection HN as <-.
  by apply table_backends_ok.
Qed.

End properties.

(** ** Witnesses *)

Section witnesses.
Import config router.
#[local] Existing Instance Config.sample_env.
#[local] Existing Instance Config.sample_env_laws.

Lemma sample_config_ok : config_ok sample_config.
Proof. apply Validate_ok. exact sample_valid. Qed.

Lemma sample_router : ∃ r, New sample_config = Ok r.
Proof. eexists. apply New_eq, sample_config_ok. Qed.

Lemma New_iff_valid_witness : is_ok (New sample_config) = true.
Proof. apply (New_iff_valid sample_config). exact sample_config_ok. Defined.

Lemma Select_refines_routes_witness :
  ∃ r, New sample_config = Ok r ∧
    res_opt (Select r gs"PLAY.example.net") = res_opt (select_spec sample_config gs"PLAY.example.net").
Proof.
  destruct sample_router as [r E]. exists r. split; [exact E|].
  by rewrite (Select_refines_routes sample_config r (gs"PLAY.example.net") E).
Defined.

Lemma Select_finds_route_witness :
  ∃ r sel, New sample_config = Ok r ∧ Select r gs"PLAY.example.net" = Ok sel ∧
    sel_Backend sel = gs"mc.default.svc:25565".
Proof.
  destruct sample_router as [r E].
  destruct (Select_finds_route sample_config r sample_route (gs"play.example.net.")
              (gs"PLAY.example.net") E) as (sel & H1 & H2 & _).
  - apply list_elem_of_here.
  - right. apply list_elem_of_here.
  - vm_compute. reflexivity.
  - exists r, sel. split; [exact E|]. split; [exact H1 | exact H2].
Defined.

Definition sample_table : Router := {|
  routes := insert_all hostaddr.Normalize (entries [sample_route]) ∅;
  defaultBackend := []; unknownHostPolicy := UnknownHostDeny |}.

Lemma Select_backend_ok_witness :
  ∃ sel, Select sample_table gs"play.example.com" = Ok sel ∧ backend_ok (sel_Backend sel).
Proof.
  assert (New sample_config = Ok sample_table) as E by exact (New_eq _ sample_config_ok).
  assert (is_ok (Select sample_table gs"play.example.com") = true) as Hs by (vm_compute; reflexivity).
  apply is_ok_spec in Hs as [sel Hs]. exists sel. split; [exact Hs|].
  apply (Select_backend_ok sample_config sample_table _ sel E Hs).
Defined.

End witnesses.
