(* ===== verification/Server.v ===== *)
(** * The gateway's routing state ([internal/proxy], snapshots and reloads)

    A server publishes an immutable state behind an atomic pointer: the static
    configuration, the configuration with the discovered routes merged in, the
    router built from it, the client policy and the rate limiter. Reloads and
    discovery updates build a new snapshot and publish it under [snapshotMu]; what
    they read before they take the lock (a file, a provider) is an argument of the
    critical section, so an interleaving of reloads and updates is a sequence of
    the commits below. *)
From Stdlib Require Import Floats.SpecFloat.
From S2P Require Import Prelude GoUnicode GoStrings GoNet GoIO HostAddr Tables GoSort.
From S2P Require Import McProto ClientPolicy ProxyProtocol RateLimit Config Kubernetes Merge Router.
Import gostrings.
Open Scope Z_scope.

Module proxy.
Import config.

(** ** Snapshots *)

Record RouteSnapshot := {
  StaticConfig : Config;
  SnapConfig : Config;
  SnapRouter : option router.Router;
  DiscoveryMerge : discovery.MergeResult;
  DiscoveredRoutes : list kubernetes.DiscoveredRoute
}.

Definition with_routes (c : Config) (rs : list Route) : Config := {|
  Listen := Listen c; HandshakeTimeout := HandshakeTimeout c;
  BackendDialTimeout := BackendDialTimeout c; ClientPolicy_ := ClientPolicy_ c;
  ClientRateLimit_ := ClientRateLimit_ c; ProxyProtocol_ := ProxyProtocol_ c;
  ScalerWebhook_ := ScalerWebhook_ c; ConfigReload_ := ConfigReload_ c;
  Availability_ := Availability_ c; Metrics_ := Metrics_ c; UDPRelay_ := UDPRelay_ c;
  Bedrock_ := Bedrock_ c; VoiceChat_ := VoiceChat_ c; Fallback_ := Fallback_ c;
  Discovery_ := Discovery_ c; DefaultRoute_ := DefaultRoute_ c; Routes := rs;
  UnknownHostPolicy := UnknownHostPolicy c |}.

(** [cloneConfig] and [cloneRouteSnapshot] copy slices and pointed-to values; on
    values they are the identity. *)
Definition cloneConfig (c : Config) : Config := c.
Definition cloneRouteSnapshot (s : RouteSnapshot) : RouteSnapshot := s.

Section snapshots.
Context `{Env} `{ErrorText}.

Definition BuildRouteSnapshot (cfg : Config) (discovered : list kubernetes.DiscoveredRoute)
    : res RouteSnapshot :=
  match Validate cfg with
  | (Some e, _) => Err e
  | (None, cfg) =>
      let merge := discovery.MergeRoutes (Routes cfg) discovered (DefaultRoute_ cfg) in
      let mergedConfig := with_routes (cloneConfig cfg) (discovery.mr_Routes merge) in
      let? routeTable := router.New mergedConfig in
      Ok {| StaticConfig := cloneConfig cfg; SnapConfig := mergedConfig;
            SnapRouter := Some routeTable; DiscoveryMerge := merge;
            DiscoveredRoutes := discovered |}
  end.

(** A provider is what its [Routes] method returns; nil is [None]. *)
Definition provider : Type := option (res (list kubernetes.DiscoveredRoute)).

Definition discoveredRoutesFromProvider (p : provider) : res (list kubernetes.DiscoveredRoute) :=
  match p with
  | None => Ok []
  | Some routes => routes
  end.

Definition RebuildRouteSnapshot (cfg : Config) (p : provider) : res RouteSnapshot :=
  match Validate cfg with
  | (Some e, _) => Err e
  | (None, cfg) =>
      match p with
      | None => BuildRouteSnapshot cfg []
      | Some (Err e) => Err e
      | Some (Ok discovered) => BuildRouteSnapshot cfg discovered
      end
  end.

End snapshots.

(** ** The published state *)

Record serverState := {
  generation : Z;
  staticConfig : Config;
  cfg : Config;
  routeTable : router.Router;
  clientPolicy : clientpolicy.Policy;
  clientRateLimit : ratelimit.Limiter spec_float;
  trustedProxies : list netip.Prefix;
  discoveryMerge : discovery.MergeResult;
  discoveredRoutes : list kubernetes.DiscoveredRoute
}.

(** What the operations below tell the metrics recorder. *)
Inductive metric :=
| MReload (success : bool)
| MSetConfig (generation : Z)
| MDiscoverySync (routes : Z)
| MDiscoveryError (reason : bytes).

Record Server := {
  state : serverState;
  limits : mcproto.Limits;
  metrics : list metric;
  listenAddress : bytes
}.

(** [None] is a panic: the policy or the proxies were not validated. *)
Definition newServerState (gen : Z) (static c : Config) (r : router.Router)
    (merge : discovery.MergeResult) (discovered : list kubernetes.DiscoveredRoute)
    : option serverState :=
  match clientpolicy.New (cp_Allow (ClientPolicy_ c)) (cp_Deny (ClientPolicy_ c)),
        proxyprotocol.ParseCIDRs (pp_TrustedProxies (ProxyProtocol_ c)) with
  | Ok policy, Ok trusted =>
      let l := ClientRateLimit_ c in
      Some {| generation := gen; staticConfig := cloneConfig static; cfg := c; routeTable := r;
              clientPolicy := policy; trustedProxies := trusted;
              clientRateLimit := ratelimit.New {|
                ratelimit.Enabled := rl_Enabled l;
                ratelimit.ConnectionsPerSecond := rl_ConnectionsPerSecond l;
                ratelimit.Burst := rl_Burst l;
                ratelimit.IdleTimeout := rl_IdleTimeout l;
                ratelimit.MaxEntries := rl_MaxEntries l |};
              discoveryMerge := merge; discoveredRoutes := discovered |}
  | _, _ => None
  end.

(** The static configuration of a snapshot, which [NewServer] and [UpdateConfig]
    leave empty. *)
Definition snapshot_static (s : RouteSnapshot) : Config :=
  if decide (Listen (StaticConfig s) = []) then SnapConfig s else StaticConfig s.

(** [newServer]; [None] is a panic (a nil router, or an invalid configuration). *)
Definition newServer (snapshot : RouteSnapshot) : option Server :=
  let snapshot := cloneRouteSnapshot snapshot in
  let static := snapshot_static snapshot in
  let c := SnapConfig snapshot in
  match SnapRouter snapshot with
  | None => None
  | Some r =>
      st ← newServerState 1 static c r (DiscoveryMerge snapshot) (DiscoveredRoutes snapshot);
      Some {| state := st; limits := mcproto.DefaultLimits; listenAddress := Listen c;
              metrics := MSetConfig 1 ::
                (if kd_Enabled (di_Kubernetes (Discovery_ static))
                 then [MDiscoverySync (zlen (DiscoveredRoutes snapshot))] else []) |}
  end.

Definition NewServerFromSnapshot (snapshot : RouteSnapshot) : option Server := newServer snapshot.

Definition record (s : Server) (m : metric) : Server := {|
  state := state s; limits := limits s; metrics := metrics s ++ [m];
  listenAddress := listenAddress s |}.

(** [updateRouteSnapshotLocked]; [None] is a panic. *)
Definition updateRouteSnapshotLocked (s : Server) (snapshot : RouteSnapshot) : option Server :=
  let snapshot := cloneRouteSnapshot snapshot in
  match SnapRouter snapshot with
  | None => None
  | Some r =>
      let gen := int_wrap 64 (generation (state s) + 1) in
      st ← newServerState gen (snapshot_static snapshot) (SnapConfig snapshot) r
             (DiscoveryMerge snapshot) (DiscoveredRoutes snapshot);
      Some (record {| state := st; limits := limits s; metrics := metrics s;
                      listenAddress := listenAddress s |} (MSetConfig gen))
  end.

Definition UpdateRouteSnapshot : Server → RouteSnapshot → option Server := updateRouteSnapshotLocked.

Definition stateToSnapshot (st : serverState) : RouteSnapshot := {|
  StaticConfig := staticConfig st; SnapConfig := cfg st; SnapRouter := Some (routeTable st);
  DiscoveryMerge := discoveryMerge st; DiscoveredRoutes := discoveredRoutes st |}.

Definition Snapshot (s : Server) : RouteSnapshot := cloneRouteSnapshot (stateToSnapshot (state s)).

Definition KubernetesDiscoveryErrorReasonUnknown : bytes := gs"unknown".
Definition KubernetesDiscoveryErrorReasonRebuildFailed : bytes := gs"rebuild_failed".

(** ** Reloads and discovery updates. A result is [None] for a panic, else the
    error and the server afterwards. *)

Section updates.
Context `{Env} `{ErrorText}.

Definition reloadConfigLocked (s : Server) (c : Config) (discovered : list kubernetes.DiscoveredRoute)
    : option (option error * Server) :=
  match BuildRouteSnapshot c discovered with
  | Err e => Some (Some e, record s (MReload false))
  | Ok snapshot =>
      s' ← updateRouteSnapshotLocked s snapshot;
      Some (None, record s' (MReload true))
  end.

(** [ReloadFile], given what [config.LoadFile] returned. *)
Definition ReloadFile (s : Server) (loaded : res Config) : option (option error * Server) :=
  match loaded with
  | Err e => Some (Some e, record s (MReload false))
  | Ok c => reloadConfigLocked s c (discoveredRoutes (state s))
  end.

Definition ReloadConfigWithDiscovery (s : Server) (c : Config) (p : provider)
    : option (option error * Server) :=
  match discoveredRoutesFromProvider p with
  | Err e => Some (Some e, record s (MReload false))
  | Ok discovered => reloadConfigLocked s c discovered
  end.

Definition ctx_err : error := Sentinel "context.Canceled".

(** [UpdateDiscoveredRoutes]; [done1], [done2] and [done3] say whether the context
    is done at the three places where the code looks. *)
Definition UpdateDiscoveredRoutes (s : Server) (p : provider) (done1 done2 done3 : bool)
    : option (option error * Server) :=
  if done1 then Some (Some ctx_err, s)
  else match discoveredRoutesFromProvider p with
  | Err e => Some (Some e, record s (MDiscoveryError KubernetesDiscoveryErrorReasonUnknown))
  | Ok discovered =>
      if done2 then Some (Some ctx_err, s)
      else match BuildRouteSnapshot (staticConfig (state s)) discovered with
      | Err e => Some (Some e, record s (MDiscoveryError KubernetesDiscoveryErrorReasonRebuildFailed))
      | Ok snapshot =>
          if done3 then Some (Some ctx_err, s)
          else
            s' ← updateRouteSnapshotLocked s snapshot;
            Some (None, record s' (MDiscoverySync (zlen discovered)))
      end
  end.

(** ** The operations as steps *)

Inductive op :=
| OReloadFile (loaded : res Config)
| OReloadWith (c : Config) (p : provider)
| OUpdateDiscovered (p : provider) (done1 done2 done3 : bool).

Definition apply_op (s : Server) (o : op) : option (option error * Server) :=
  match o with
  | OReloadFile loaded => ReloadFile s loaded
  | OReloadWith c p => ReloadConfigWithDiscovery s c p
  | OUpdateDiscovered p d1 d2 d3 => UpdateDiscoveredRoutes s p d1 d2 d3
  end.

(** The servers a running gateway can get to, from a configuration that was valid
    at the start, by any sequence of operations. *)
Inductive reachable : Server → Prop :=
| reach_start c discovered snapshot s :
    BuildRouteSnapshot c discovered = Ok snapshot → newServer snapshot = Some s → reachable s
| reach_op s o e s' : reachable s → apply_op s o = Some (e, s') → reachable s'.

End updates.

End proxy.

(** ** Lemmas *)

Section lemmas.
Import config proxy.
Context `{Env} `{!EnvLaws} `{ErrorText}.

Lemma config_ok_with_routes c rs : config_ok c → routes_ok rs → config_ok (with_routes c rs).
Proof. intros [] Hrs. by constructor. Qed.

Lemma Validate_accepts c : config_ok c → Validate c = (None, with_voice c (give_tokens (VoiceChat_ c))).
Proof.
  intros Hok. pose proof (proj2 (Validate_ok c) Hok) as Hv.
  destruct (Validate c) as [e c'] eqn:E. cbn in Hv. subst e. by apply Validate_tokens in E as ->.
Qed.

(** The configuration with the voice tokens in place. *)
Definition tokened (c : Config) : Config := with_voice c (give_tokens (VoiceChat_ c)).

Lemma tokened_ok c : config_ok c → config_ok (tokened c).
Proof. intros Hok. eapply config_ok_tokens, Validate_accepts, Hok. Qed.

Lemma tokened_again c : tokened (tokened c) = tokened c.
Proof. unfold tokened. destruct c. unfold with_voice. cbn. f_equal. apply give_tokens_again. Qed.

(** The snapshot of a valid configuration. *)
Definition merged (c : Config) (ds : list kubernetes.DiscoveredRoute) : Config :=
  with_routes (tokened c) (discovery.mr_Routes (discovery.MergeRoutes (Routes c) ds (DefaultRoute_ c))).

Definition table (c : Config) : router.Router := {|
  router.routes := insert_all hostaddr.Normalize (router.entries (Routes c)) ∅;
  router.defaultBackend := dr_Backend (DefaultRoute_ c);
  router.unknownHostPolicy := UnknownHostPolicy c |}.

Definition snapshot_of (c : Config) (ds : list kubernetes.DiscoveredRoute) : RouteSnapshot := {|
  StaticConfig := tokened c; SnapConfig := merged c ds; SnapRouter := Some (table (merged c ds));
  DiscoveryMerge := discovery.MergeRoutes (Routes c) ds (DefaultRoute_ c);
  DiscoveredRoutes := ds |}.

Lemma merged_ok c ds : config_ok c → config_ok (merged c ds).
Proof.
  intros Hok. apply config_ok_with_routes; [by apply tokened_ok|].
  apply MergeRoutes_ok, (ok_routes _ Hok).
Qed.

Lemma BuildRouteSnapshot_eq c ds : config_ok c → BuildRouteSnapshot c ds = Ok (snapshot_of c ds).
Proof.
  intros Hok. unfold BuildRouteSnapshot. rewrite Validate_accepts by done. cbn zeta.
  change (Routes (with_voice c _)) with (Routes c).
  change (DefaultRoute_ (with_voice c _)) with (DefaultRoute_ c).
  fold (tokened c). unfold cloneConfig. fold (merged c ds).
  by rewrite (New_eq (merged c ds)) by by apply merged_ok.
Qed.

Lemma BuildRouteSnapshot_inv c ds snap :
  BuildRouteSnapshot c ds = Ok snap → config_ok c ∧ snap = snapshot_of c ds.
Proof.
  intros HB. assert (config_ok c) as Hok.
  { apply Validate_ok. unfold BuildRouteSnapshot in HB. by destruct (Validate c) as [[e|] c']. }
  split; [done|]. rewrite BuildRouteSnapshot_eq in HB by done. by injection HB as <-.
Qed.

(** The limiter has every setting of the configuration. *)
Definition limiter_of (l : ClientRateLimit) (c : ratelimit.Config spec_float) : Prop :=
  ratelimit.Enabled c = rl_Enabled l ∧ ratelimit.ConnectionsPerSecond c = rl_ConnectionsPerSecond l ∧
  ratelimit.Burst c = rl_Burst l ∧ ratelimit.IdleTimeout c = rl_IdleTimeout l ∧
  ratelimit.MaxEntries c = rl_MaxEntries l.

(** What a published state always satisfies: it is the snapshot of its own static
    configuration and discovered routes, with the policy, the trusted proxies and
    a rate limiter of that configuration. *)
Record consistent (st : serverState) : Prop := {
  con_static : config_ok (staticConfig st);
  con_tokens : tokened (staticConfig st) = staticConfig st;
  con_snapshot : stateToSnapshot st = snapshot_of (staticConfig st) (discoveredRoutes st);
  con_policy : clientpolicy.New (cp_Allow (ClientPolicy_ (staticConfig st)))
                 (cp_Deny (ClientPolicy_ (staticConfig st))) = Ok (clientPolicy st);
  con_proxies : proxyprotocol.ParseCIDRs (pp_TrustedProxies (ProxyProtocol_ (staticConfig st)))
                = Ok (trustedProxies st);
  con_limiter : limiter_of (ClientRateLimit_ (staticConfig st)) (ratelimit.cfg (clientRateLimit st));
  con_limiter_bounded : ratelimit.bounded (clientRateLimit st)
}.

Lemma snapshot_static_of c ds : config_ok c → snapshot_static (snapshot_of c ds) = tokened c.
Proof.
  intros Hok. unfold snapshot_static, snapshot_of. cbn [StaticConfig SnapConfig].
  rewrite decide_False; [done|]. change (Listen (tokened c)) with (Listen c). intros E.
  apply (ok_listen _ Hok). by rewrite E.
Qed.

(** The state made of a snapshot of a valid configuration. *)
Lemma newServerState_of gen c ds :
  config_ok c →
  ∃ st, newServerState gen (tokened c) (merged c ds) (table (merged c ds))
          (discovery.MergeRoutes (Routes c) ds (DefaultRoute_ c)) ds = Some st ∧
    consistent st ∧ generation st = gen ∧ staticConfig st = tokened c ∧ discoveredRoutes st = ds.
Proof.
  intros Hok. unfold newServerState.
  change (ClientPolicy_ (merged c ds)) with (ClientPolicy_ c).
  change (ProxyProtocol_ (merged c ds)) with (ProxyProtocol_ c).
  pose proof (ok_policy _ Hok) as Hp. pose proof (ok_proxies _ Hok) as Hx.
  apply is_ok_spec in Hp as [policy Hp], Hx as [trusted Hx]. rewrite Hp, Hx.
  eexists. split; [done|]. split; [|done]. constructor; cbn [staticConfig discoveredRoutes clientPolicy
    trustedProxies clientRateLimit]; try done.
  - by apply tokened_ok.
  - apply tokened_again.
  - unfold stateToSnapshot, snapshot_of. cbn. unfold cloneConfig.
    unfold merged. rewrite tokened_again. done.
  - apply New_bounded.
Qed.

Lemma newServer_of c ds :
  config_ok c →
  ∃ s, newServer (snapshot_of c ds) = Some s ∧ consistent (state s) ∧ generation (state s) = 1 ∧
       staticConfig (state s) = tokened c ∧ discoveredRoutes (state s) = ds.
Proof.
  intros Hok. destruct (newServerState_of 1 c ds Hok) as (st & E & Hc & Hrest).
  unfold newServer, cloneRouteSnapshot. cbn zeta. rewrite snapshot_static_of by done.
  cbn [SnapRouter SnapConfig DiscoveryMerge DiscoveredRoutes snapshot_of]. rewrite E.
  eexists. split; [done|]. by cbn.
Qed.

Lemma updateRouteSnapshotLocked_of s c ds :
  config_ok c →
  ∃ s', updateRouteSnapshotLocked s (snapshot_of c ds) = Some s' ∧ consistent (state s') ∧
        generation (state s') = int_wrap 64 (generation (state s) + 1) ∧
        staticConfig (state s') = tokened c ∧ discoveredRoutes (state s') = ds ∧
        listenAddress s' = listenAddress s.
Proof.
  intros Hok.
  destruct (newServerState_of (int_wrap 64 (generation (state s) + 1)) c ds Hok) as (st & E & Hc & Hrest).
  unfold updateRouteSnapshotLocked, cloneRouteSnapshot. cbn zeta. rewrite snapshot_static_of by done.
  cbn [SnapRouter SnapConfig DiscoveryMerge DiscoveredRoutes snapshot_of]. rewrite E.
  eexists. split; [done|]. cbn. destruct Hrest as (? & ? & ?). done.
Qed.

Lemma reloadConfigLocked_cases s c ds :
  (config_ok c ∧ ∃ s', reloadConfigLocked s c ds = Some (None, s') ∧ consistent (state s') ∧
     generation (state s') = int_wrap 64 (generation (state s) + 1) ∧
     staticConfig (state s') = tokened c ∧ discoveredRoutes (state s') = ds) ∨
  (¬ config_ok c ∧ ∃ e s', reloadConfigLocked s c ds = Some (Some e, s') ∧ state s' = state s).
Proof.
  unfold reloadConfigLocked. destruct (BuildRouteSnapshot c ds) as [snap|e] eqn:E.
  - left. apply BuildRouteSnapshot_inv in E as [Hok ->]. split; [done|].
    destruct (updateRouteSnapshotLocked_of s c ds Hok) as (s' & -> & Hc & Hg & Hs & Hd & _).
    eexists. split; [done|]. by cbn.
  - right. split; [|by eexists _, _]. intros Hok. by rewrite BuildRouteSnapshot_eq in E.
Qed.

(** What an operation may do to the state. *)
Definition outcome (s : Server) (e : option error) (s' : Server) : Prop :=
  match e with
  | Some _ => state s' = state s
  | None => consistent (state s') ∧ generation (state s') = int_wrap 64 (generation (state s) + 1)
  end.

Lemma apply_op_outcome s o :
  consistent (state s) → ∃ e s', apply_op s o = Some (e, s') ∧ outcome s e s'.
Proof.
  intros Hc. assert (∀ c ds, ∃ e s', reloadConfigLocked s c ds = Some (e, s') ∧ outcome s e s') as Hrel.
  { intros c ds. destruct (reloadConfigLocked_cases s c ds)
      as [(_ & s' & E & Hc' & Hg & _)|(_ & e & s' & E & Hs)].
    - by exists None, s'.
    - by exists (Some e), s'. }
  destruct o as [[c|e]|c p|p d1 d2 d3]; cbn [apply_op].
  - apply Hrel.
  - by exists (Some e), (record s (MReload false)).
  - unfold ReloadConfigWithDiscovery. destruct (discoveredRoutesFromProvider p) as [ds|e]; [apply Hrel|].
    by exists (Some e), (record s (MReload false)).
  - unfold UpdateDiscoveredRoutes. destruct d1; [by exists (Some ctx_err), s|].
    destruct (discoveredRoutesFromProvider p) as [ds|e];
      [|eexists (Some e), _; split; [done|]; done].
    destruct d2; [by exists (Some ctx_err), s|].
    rewrite BuildRouteSnapshot_eq by apply (con_static _ Hc).
    destruct d3; [by exists (Some ctx_err), s|].
    destruct (updateRouteSnapshotLocked_of s (staticConfig (state s)) ds (con_static _ Hc))
      as (s' & -> & Hc' & Hg & _).
    eexists None, _. split; [done|]. by split.
Qed.

Lemma reachable_consistent_state s : reachable s → consistent (state s).
Proof.
  induction 1 as [c ds snap s HB HN | s o e s' Hr IH Hop].
  - apply BuildRouteSnapshot_inv in HB as [Hok ->].
    destruct (newServer_of c ds Hok) as (s0 & E & Hc & _). by simplify_eq.
  - destruct (apply_op_outcome s o IH) as (e0 & s0 & E & Ho). rewrite E in Hop. simplify_eq.
    destruct e; [by rewrite Ho|]. by destruct Ho.
Qed.

End lemmas.

(** ** Properties *)

Section properties.
Import config proxy.
Context `{Env} `{!EnvLaws} `{ErrorText}.

(** A snapshot can be built from a configuration and discovered routes exactly
    when the configuration is valid: no set of discovered routes, however wrong, can
    make it fail. *)
Theorem BuildRouteSnapshot_iff_valid c ds : is_ok (BuildRouteSnapshot c ds) = true ↔ config_ok c.
Proof.
  split.
  - intros [snap E]%is_ok_spec. by apply BuildRouteSnapshot_inv in E as [? _].
  - intros Hok. by rewrite BuildRouteSnapshot_eq.
Qed.

(** In every state a running gateway can publish, the router, the client policy
    and the trusted proxies are those of the static configuration merged with the
    discovered routes, and the rate limiter is within its bound. *)
Theorem reachable_consistent s : reachable s → consistent (state s).
Proof. apply reachable_consistent_state. Qed.

(** C5: a reload or a discovery update never panics, and it is all or nothing: if it
    reports an error the published state is the old one, and otherwise the new
    state is consistent and its generation is the next one. *)
Theorem operations_atomic s o :
  reachable s → ∃ e s', apply_op s o = Some (e, s') ∧ outcome s e s'.
Proof. intros Hr. by apply apply_op_outcome, reachable_consistent_state. Qed.

Lemma discovery_update_ok s ds :
  reachable s →
  ∃ s', UpdateDiscoveredRoutes s (Some (Ok ds)) false false false = Some (None, s') ∧
        reachable s' ∧ discoveredRoutes (state s') = ds ∧
        staticConfig (state s') = staticConfig (state s) ∧
        generation (state s') = int_wrap 64 (generation (state s) + 1).
Proof.
  intros Hr. pose proof (reachable_consistent_state s Hr) as Hc.
  assert (∃ s', UpdateDiscoveredRoutes s (Some (Ok ds)) false false false = Some (None, s') ∧
    discoveredRoutes (state s') = ds ∧ staticConfig (state s') = staticConfig (state s) ∧
    generation (state s') = int_wrap 64 (generation (state s) + 1)) as (s' & E & Hrest).
  { unfold UpdateDiscoveredRoutes. cbn [discoveredRoutesFromProvider].
    rewrite BuildRouteSnapshot_eq by apply (con_static _ Hc).
    destruct (updateRouteSnapshotLocked_of s (staticConfig (state s)) ds (con_static _ Hc))
      as (s' & -> & _ & Hg & Hs & Hd & _).
    eexists. split; [done|]. cbn. rewrite Hs. by rewrite (con_tokens _ Hc). }
  exists s'. split; [done|]. split; [|done].
  by eapply (reach_op s (OUpdateDiscovered (Some (Ok ds)) false false false)).
Qed.

(** A running gateway accepts every discovery update that is not cancelled: the
    discovered routes are replaced, the static configuration stays. *)
Theorem discovery_update_succeeds s ds :
  reachable s →
  ∃ s', UpdateDiscoveredRoutes s (Some (Ok ds)) false false false = Some (None, s') ∧
        reachable s' ∧ discoveredRoutes (state s') = ds ∧
        staticConfig (state s') = staticConfig (state s) ∧
        generation (state s') = int_wrap 64 (generation (state s) + 1).
Proof. apply discovery_update_ok. Qed.

(** A configuration file reload keeps the discovered routes and installs the new
    static configuration, if it is valid; an invalid or unreadable one changes
    nothing. *)
Theorem reload_file_exact s c :
  reachable s →
  (config_ok c → ∃ s', ReloadFile s (Ok c) = Some (None, s') ∧
     staticConfig (state s') = tokened c ∧
     discoveredRoutes (state s') = discoveredRoutes (state s) ∧
     listenAddress s' = listenAddress s) ∧
  (¬ config_ok c → ∃ e s', ReloadFile s (Ok c) = Some (Some e, s') ∧ state s' = state s).
Proof.
  intros Hr. unfold ReloadFile. split; intros Hok.
  - unfold reloadConfigLocked. rewrite BuildRouteSnapshot_eq by done.
    destruct (updateRouteSnapshotLocked_of s c (discoveredRoutes (state s)) Hok)
      as (s' & -> & _ & _ & Hs & Hd & Hl).
    eexists. split; [done|]. by cbn.
  - destruct (reloadConfigLocked_cases s c (discoveredRoutes (state s)))
      as [[? _]|(_ & e & s' & E & Hs)]; [done|]. by exists e, s'.
Qed.

Lemma consistent_table st : consistent st →
  routeTable st = table (merged (staticConfig st) (discoveredRoutes st)) ∧
  config_ok (merged (staticConfig st) (discoveredRoutes st)).
Proof.
  intros Hc. split.
  - pose proof (con_snapshot _ Hc) as E. apply (f_equal SnapRouter) in E. by injection E.
  - apply merged_ok, (con_static _ Hc).
Qed.

(** C6: a static route is always served: in every reachable state, whatever was
    discovered, each name of a static route leads to its configured backend. *)
Theorem static_route_always_served s rt name addr :
  reachable s → rt ∈ Routes (staticConfig (state s)) → name ∈ identities rt →
  res_opt (hostaddr.Normalize addr) = res_opt (hostaddr.Normalize name) →
  ∃ sel, router.Select (routeTable (state s)) addr = Ok sel ∧
         router.sel_Backend sel = Backend rt ∧ router.RouteSource sel = discovery.RouteSourceStatic.
Proof.
  intros Hr Hrt Hname Haddr. destruct (consistent_table _ (reachable_consistent_state s Hr)) as [-> Hok].
  set (c := staticConfig (state s)) in *. set (ds := discoveredRoutes (state s)) in *.
  pose proof (con_static _ (reachable_consistent_state s Hr)) as Hst.
  pose proof (ok_routes _ Hok) as [Hd _]. pose proof (ok_routes _ Hst) as [Hd0 _].
  assert (is_ok (hostaddr.Normalize name) = true) as [k Ek]%is_ok_spec.
  { apply Hd0. unfold all_identities. apply list_elem_of_In, in_concat. exists (identities rt).
    split; [apply in_map|]; by apply list_elem_of_In. }
  rewrite Ek in Haddr. destruct (hostaddr.Normalize addr) as [k'|] eqn:Ea; [|done]. injection Haddr as ->.
  assert (discovery.static_route rt ∈ Routes (merged c ds)) as Hin.
  { cbn [merged with_routes Routes]. rewrite MergeRoutes_routes, elem_of_SliceStable, elem_of_app.
    left. by apply list_elem_of_fmap_2. }
  assert (∃ n kind, hostaddr.Normalize n = Ok k ∧
    (n, {| router.route := router.stored (discovery.static_route rt)
             (router.normal_form (ServerAddress (discovery.static_route rt)));
           router.matchKind := kind |}) ∈ router.entries (Routes (merged c ds))) as (n & kind & En & He).
  { assert (hostaddr.Normalize (discovery.normalized_or name) = Ok k) as En.
    { unfold discovery.normalized_or. rewrite Ek. by eapply canonical_key, Normalize_canonical. }
    exists (discovery.normalized_or name).
    assert (∃ kind, (discovery.normalized_or name, {| router.route := router.stored (discovery.static_route rt)
             (router.normal_form (ServerAddress (discovery.static_route rt)));
           router.matchKind := kind |}) ∈ router.route_entries (discovery.static_route rt)) as [kind Hk].
    { apply elem_of_cons in Hname as [->|Ha]; [eexists; by left|]. eexists. right.
      apply list_elem_of_fmap. exists (discovery.normalized_or name). split; [done|].
      by apply list_elem_of_fmap_2. }
    exists kind. split; [done|]. unfold router.entries. apply list_elem_of_In, in_concat.
    exists (router.route_entries (discovery.static_route rt)).
    split; [apply in_map|]; by apply list_elem_of_In. }
  unfold router.Select. rewrite Ea. unfold table. cbn [router.routes].
  rewrite insert_all_lookup by by rewrite router.entries_names.
  erewrite owner_in; [|by rewrite router.entries_names|exact He|exact En].
  eexists. split; [done|]. split; [done|]. done.
Qed.

End properties.

(** ** Witnesses *)

Section witnesses.
Import config proxy.
#[local] Existing Instance Config.sample_env.
#[local] Existing Instance Config.sample_env_laws.
#[local] Instance no_text : ErrorText := λ _, [].

Lemma sample_started :
  ∃ s, newServer (snapshot_of sample_config sample_discovered) = Some s ∧ reachable s ∧
       staticConfig (state s) = tokened sample_config.
Proof.
  destruct (newServer_of sample_config sample_discovered sample_config_ok) as (s & E & _ & _ & Hs & _).
  exists s. split; [done|]. split; [|done].
  eapply reach_start; [|exact E]. apply BuildRouteSnapshot_eq, sample_config_ok.
Qed.

Lemma BuildRouteSnapshot_iff_valid_witness :
  is_ok (BuildRouteSnapshot sample_config sample_discovered) = true.
Proof. apply (BuildRouteSnapshot_iff_valid sample_config). exact sample_config_ok. Defined.

Lemma reachable_consistent_witness :
  ∃ s, newServer (snapshot_of sample_config sample_discovered) = Some s ∧ consistent (state s).
Proof.
  destruct sample_started as (s & E & Hr & _). exists s. split; [exact E|].
  exact (reachable_consistent s Hr).
Defined.

Lemma operations_atomic_witness :
  ∃ s e s', newServer (snapshot_of sample_config []) = Some s ∧
    apply_op s (OReloadFile (Err io.EOF)) = Some (e, s') ∧ outcome s e s'.
Proof.
  destruct (newServer_of sample_config [] sample_config_ok) as (s & E & _).
  assert (reachable s) as Hr.
  { eapply reach_start; [|exact E]. apply BuildRouteSnapshot_eq, sample_config_ok. }
  destruct (operations_atomic s (OReloadFile (Err io.EOF)) Hr) as (e & s' & H1 & H2).
  exists s, e, s'. split; [exact E|]. split; [exact H1 | exact H2].
Defined.

Lemma discovery_update_succeeds_witness :
  ∃ s s', reachable s ∧
    UpdateDiscoveredRoutes s (Some (Ok sample_discovered)) false false false = Some (None, s').
Proof.
  destruct sample_started as (s & _ & Hr & _).
  destruct (discovery_update_succeeds s sample_discovered Hr) as (s' & H & _).
  exists s, s'. split; [exact Hr | exact H].
Defined.

Lemma reload_file_exact_witness :
  ∃ s s', reachable s ∧ ReloadFile s (Ok sample_config) = Some (None, s').
Proof.
  destruct sample_started as (s & _ & Hr & _).
  destruct (reload_file_exact s sample_config Hr) as [Hok _].
  destruct (Hok sample_config_ok) as (s' & H & _).
  exists s, s'. split; [exact Hr | exact H].
Defined.

Lemma static_route_always_served_witness :
  ∃ s sel, reachable s ∧ router.Select (routeTable (state s)) gs"play.EXAMPLE.com." = Ok sel ∧
    router.sel_Backend sel = gs"mc.default.svc:25565".
Proof.
  destruct sample_started as (s & _ & Hr & Hs).
  destruct (static_route_always_served s sample_route (gs"Play.Example.com") (gs"play.EXAMPLE.com.") Hr)
    as (sel & H1 & H2 & _).
  - rewrite Hs. apply list_elem_of_here.
  - apply list_elem_of_here.
  - vm_compute. reflexivity.
  - exists s, sel. split; [exact Hr|]. split; [exact H1 | exact H2].
Defined.

End witnesses.
