(* ===== verification/ConfigStore.v ===== *)
(** * Copies of a configuration ([internal/proxy], [cloneConfig]) and what they share

    The rest of the development has configurations as values. In Go a configuration holds
    references: slices, pointers and maps. [cloneConfig] makes new ones for the client
    policy, the routes and the fallback switches, so that a copy and its original do not
    share those; it leaves shared the trusted proxies, the webhook's headers, the probed
    backends, the Bedrock routes with their hosts and the map of voice backends, into which
    validation writes tokens. This file has the references: a store of objects,
    configurations that point into it, the copy, and the writes of validation. *)
From Stdlib Require Import Floats.SpecFloat.
From S2P Require Import Prelude GoUnicode GoStrings GoNet GoIO HostAddr Tables GoSort.
From S2P Require Import McProto ClientPolicy ProxyProtocol RateLimit Config Kubernetes Merge Router Server.
Open Scope Z_scope.

Module configstore.
Import config.

(** ** The store *)

Definition loc : Type := nat.

(** A [Route] struct in an array: its strings, its alias slice, its override pointer. *)
Record route := {
  r_fields : Route;
  r_Aliases : option loc;
  r_Override : option loc
}.

(** A [BedrockRoute] struct in an array, with its host slice. *)
Record broute := { b_Name : bytes; b_Hosts : option loc; b_Backend : bytes }.

Inductive obj :=
| Strings (l : list bytes)
| RouteArray (l : list route)
| OverrideStruct (o : StatusOverride)
| BoolCell (b : bool)
| HeaderMap (m : gmap bytes bytes)
| ProbedArray (l : list AvailabilityBackend)
| BedrockArray (l : list broute)
| BackendMap (m : gmap bytes VoiceBackend).

(** Locations from [next] on are free. *)
Record store := { objs : gmap loc obj; next : loc }.

Definition alloc (o : obj) (σ : store) : option loc * store :=
  (Some (next σ), {| objs := <[next σ := o]> (objs σ); next := S (next σ) |}).

Definition write (l : loc) (o : obj) (σ : store) : store := {| objs := <[l := o]> (objs σ); next := next σ |}.

(** Reading through a reference; nil reads as nothing. *)
Definition deref (σ : store) (p : option loc) : option obj := l ← p; objs σ !! l.

Definition strings_at (σ : store) (p : option loc) : list bytes :=
  match deref σ p with Some (Strings l) => l | _ => [] end.
Definition routes_at (σ : store) (p : option loc) : list route :=
  match deref σ p with Some (RouteArray l) => l | _ => [] end.
Definition override_at (σ : store) (p : option loc) : option StatusOverride :=
  match deref σ p with Some (OverrideStruct o) => Some o | _ => None end.
Definition bool_at (σ : store) (p : option loc) : option bool :=
  match deref σ p with Some (BoolCell b) => Some b | _ => None end.
Definition headers_at (σ : store) (p : option loc) : gmap bytes bytes :=
  match deref σ p with Some (HeaderMap m) => m | _ => ∅ end.
Definition probed_at (σ : store) (p : option loc) : list AvailabilityBackend :=
  match deref σ p with Some (ProbedArray l) => l | _ => [] end.
Definition bedrock_at (σ : store) (p : option loc) : list broute :=
  match deref σ p with Some (BedrockArray l) => l | _ => [] end.
Definition backends_at (σ : store) (p : option loc) : gmap bytes VoiceBackend :=
  match deref σ p with Some (BackendMap m) => m | _ => ∅ end.

(** ** Configurations as Go has them *)

(** The references that a copy shares with its original: [ProxyProtocol.TrustedProxies],
    [ScalerWebhook.Headers], [Availability.Backends], [Bedrock.Routes] and
    [VoiceChat.Backends]. *)
Record shared_refs := {
  s_Trusted : option loc;
  s_Headers : option loc;
  s_Probed : option loc;
  s_Bedrock : option loc;
  s_Backends : option loc
}.

(** The references of a configuration, and everything else in it. *)
Record cfg := {
  cs_rest : Config;
  cs_Allow : option loc;
  cs_Deny : option loc;
  cs_Routes : option loc;
  cs_LoginDenied : option loc;
  cs_StatusDenied : option loc;
  cs_shared : shared_refs
}.

Definition cs_Backends (c : cfg) : option loc := s_Backends (cs_shared c).

Definition route_value (σ : store) (r : route) : Route := {|
  ServerAddress := ServerAddress (r_fields r); Aliases := strings_at σ (r_Aliases r);
  Backend := Backend (r_fields r); StatusBackend := StatusBackend (r_fields r);
  StatusOverride_ := override_at σ (r_Override r); Source := Source (r_fields r) |}.

Definition fallback_value (f : Fallback) (login status : option bool) : Fallback :=
  let l := fb_Login f in
  let s := fb_Status f in {|
  fb_Enabled := fb_Enabled f;
  fb_Login := {| fl_Enabled := fl_Enabled l; fl_RespondOnRouteDenied := login; fl_Message := fl_Message l |};
  fb_Status := {| fs_Enabled := fs_Enabled s; fs_RespondOnRouteDenied := status;
    fs_RespondOnBackendFailure := fs_RespondOnBackendFailure s; fs_MOTD := fs_MOTD s;
    fs_ProtocolName := fs_ProtocolName s; fs_ProtocolVersion := fs_ProtocolVersion s;
    fs_MaxPlayers := fs_MaxPlayers s; fs_OnlinePlayers := fs_OnlinePlayers s |} |}.

Definition with_backends (v : VoiceChat) (m : gmap bytes VoiceBackend) : VoiceChat := {|
  vc_Enabled := vc_Enabled v; vc_Listen := vc_Listen v; vc_Registration := vc_Registration v;
  vc_Session := vc_Session v; vc_Backends := m |}.

Definition with_headers (w : ScalerWebhook) (m : gmap bytes bytes) : ScalerWebhook := {|
  sw_Enabled := sw_Enabled w; sw_URL := sw_URL w; sw_Timeout := sw_Timeout w; sw_Headers := m |}.

Definition with_probed (a : Availability) (l : list AvailabilityBackend) : Availability := {|
  av_Enabled := av_Enabled a; av_Interval := av_Interval a; av_Timeout := av_Timeout a;
  av_ControlURL := av_ControlURL a; av_TokenEnv := av_TokenEnv a; av_Backends := l |}.

Definition with_bedrock (b : Bedrock) (l : list BedrockRoute) : Bedrock := {|
  be_Enabled := be_Enabled b; be_Mode := be_Mode b; be_Listen := be_Listen b;
  be_DefaultBackend := be_DefaultBackend b; be_SessionTimeout := be_SessionTimeout b; be_Routes := l |}.

Definition broute_value (σ : store) (b : broute) : BedrockRoute := {|
  br_Name := b_Name b; br_Hosts := strings_at σ (b_Hosts b); br_Backend := b_Backend b |}.

(** The configuration that a reader of the store sees. *)
Definition value (σ : store) (c : cfg) : Config :=
  let r := cs_rest c in
  let s := cs_shared c in {|
  Listen := Listen r; HandshakeTimeout := HandshakeTimeout r; BackendDialTimeout := BackendDialTimeout r;
  ClientPolicy_ := {| cp_Allow := strings_at σ (cs_Allow c); cp_Deny := strings_at σ (cs_Deny c) |};
  ClientRateLimit_ := ClientRateLimit_ r;
  ProxyProtocol_ := {| pp_TrustedProxies := strings_at σ (s_Trusted s) |};
  ScalerWebhook_ := with_headers (ScalerWebhook_ r) (headers_at σ (s_Headers s));
  ConfigReload_ := ConfigReload_ r;
  Availability_ := with_probed (Availability_ r) (probed_at σ (s_Probed s));
  Metrics_ := Metrics_ r; UDPRelay_ := UDPRelay_ r;
  Bedrock_ := with_bedrock (Bedrock_ r) (broute_value σ <$> bedrock_at σ (s_Bedrock s));
  VoiceChat_ := with_backends (VoiceChat_ r) (backends_at σ (s_Backends s));
  Fallback_ := fallback_value (Fallback_ r) (bool_at σ (cs_LoginDenied c)) (bool_at σ (cs_StatusDenied c));
  Discovery_ := Discovery_ r; DefaultRoute_ := DefaultRoute_ r;
  Routes := route_value σ <$> routes_at σ (cs_Routes c); UnknownHostPolicy := UnknownHostPolicy r |}.

(** ** The copy *)

(** [append([]string(nil), s...)]: nil for an empty slice, else a new array. *)
Definition copy_strings (p : option loc) (σ : store) : option loc * store :=
  match strings_at σ p with [] => (None, σ) | l => alloc (Strings l) σ end.

(** [if p != nil { v := *p; p = &v }]. *)
Definition copy_override (p : option loc) (σ : store) : option loc * store :=
  match override_at σ p with None => (None, σ) | Some o => alloc (OverrideStruct o) σ end.

Definition copy_bool (p : option loc) (σ : store) : option loc * store :=
  match bool_at σ p with None => (None, σ) | Some b => alloc (BoolCell b) σ end.

(** The body of the loop over the routes, and the loop. *)
Definition copy_route (r : route) (σ : store) : route * store :=
  let '(aliases, σ) := copy_strings (r_Aliases r) σ in
  let '(override, σ) := copy_override (r_Override r) σ in
  ({| r_fields := r_fields r; r_Aliases := aliases; r_Override := override |}, σ).

Fixpoint copy_each (rs : list route) (σ : store) : list route * store :=
  match rs with
  | [] => ([], σ)
  | r :: rest =>
      let '(r', σ) := copy_route r σ in
      let '(rest', σ) := copy_each rest σ in (r' :: rest', σ)
  end.

Definition copy_routes (p : option loc) (σ : store) : option loc * store :=
  match routes_at σ p with
  | [] => (None, σ)
  | rs => let '(rs', σ) := copy_each rs σ in alloc (RouteArray rs') σ
  end.

Definition cloneConfig (c : cfg) (σ : store) : cfg * store :=
  let '(allow, σ) := copy_strings (cs_Allow c) σ in
  let '(deny, σ) := copy_strings (cs_Deny c) σ in
  let '(routes, σ) := copy_routes (cs_Routes c) σ in
  let '(login, σ) := copy_bool (cs_LoginDenied c) σ in
  let '(status, σ) := copy_bool (cs_StatusDenied c) σ in
  ({| cs_rest := cs_rest c; cs_Allow := allow; cs_Deny := deny; cs_Routes := routes;
      cs_LoginDenied := login; cs_StatusDenied := status; cs_shared := cs_shared c |}, σ).

(** ** Validation *)

(** [Validate] writes the tokens into the map its configuration points to. *)
Definition Validate `{Env} (c : cfg) (σ : store) : option error * store :=
  let '(e, c') := config.Validate (value σ c) in
  (e, match cs_Backends c with
      | Some l => write l (BackendMap (vc_Backends (VoiceChat_ c'))) σ
      | None => σ
      end).

(** ** Start-up *)

(** Where the main goroutine is: before [startVoiceChat], in its loop over the backends,
    or past it. *)
Inductive phase := BeforeVoice | IteratingVoice | VoiceStarted.

(** The configuration [run] starts the parts from, the static configuration of the
    published state, and the map that a validation in the watch's goroutine is writing. *)
Record gateway := {
  g_store : store;
  g_cfg : cfg;
  g_static : cfg;
  g_main : phase;
  g_writing : option loc
}.

(** [BuildRouteSnapshot] copies the loaded configuration twice, and puts the routes of the
    merge into the first copy; [newServer] copies the static configuration again. *)
Definition start (c : cfg) (routes : option loc) (σ : store) : gateway :=
  let '(merged, σ) := cloneConfig c σ in
  let '(static, σ) := cloneConfig c σ in
  let '(static, σ) := cloneConfig static σ in {|
  g_store := σ;
  g_cfg := {| cs_rest := cs_rest merged; cs_Allow := cs_Allow merged; cs_Deny := cs_Deny merged; cs_Routes := routes;
              cs_LoginDenied := cs_LoginDenied merged; cs_StatusDenied := cs_StatusDenied merged;
              cs_shared := cs_shared merged |};
  g_static := static; g_main := BeforeVoice; g_writing := None |}.

(** With discovery, the watch's goroutine runs beside the main one: an update validates
    the static configuration, which with voice chat enabled and no error writes every
    backend into its map, copies it for the snapshot and publishes a copy of that. The
    main goroutine starts the voice chat. *)
Inductive step `{Env} : gateway → gateway → Prop :=
| update_begins g :
    g_writing g = None → kd_Enabled (di_Kubernetes (Discovery_ (cs_rest (g_static g)))) = true →
    vc_Enabled (VoiceChat_ (cs_rest (g_static g))) = true →
    (config.Validate (value (g_store g) (g_static g))).1 = None →
    step g {| g_store := g_store g; g_cfg := g_cfg g; g_static := g_static g; g_main := g_main g;
              g_writing := cs_Backends (g_static g) |}
| update_ends g σ1 c2 σ2 c3 σ3 :
    is_Some (g_writing g) → Validate (g_static g) (g_store g) = (None, σ1) →
    cloneConfig (g_static g) σ1 = (c2, σ2) → cloneConfig c2 σ2 = (c3, σ3) →
    step g {| g_store := σ3; g_cfg := g_cfg g; g_static := c3; g_main := g_main g; g_writing := None |}
| voice_begins g :
    g_main g = BeforeVoice → vc_Enabled (VoiceChat_ (cs_rest (g_cfg g))) = true →
    step g {| g_store := g_store g; g_cfg := g_cfg g; g_static := g_static g; g_main := IteratingVoice;
              g_writing := g_writing g |}
| voice_ends g :
    g_main g = IteratingVoice →
    step g {| g_store := g_store g; g_cfg := g_cfg g; g_static := g_static g; g_main := VoiceStarted;
              g_writing := g_writing g |}.

(** One goroutine iterates over a map another one is writing; when Go's runtime notices, it
    ends the process. *)
Definition conflict (g : gateway) : Prop :=
  g_main g = IteratingVoice ∧ is_Some (g_writing g) ∧ g_writing g = cs_Backends (g_cfg g).

End configstore.

(** ** Lemmas *)

Section lemmas.
Import config configstore.

(** What a configuration refers to: what a copy of it shares - the map of voice backends
    and the rest, with the hosts of the Bedrock routes -, and what a copy has of its own,
    with the references of the routes. *)
Definition shared_rest (σ : store) (s : shared_refs) : list (option loc) :=
  [s_Trusted s; s_Headers s; s_Probed s; s_Bedrock s] ++ (b_Hosts <$> bedrock_at σ (s_Bedrock s)).

Definition shared (σ : store) (c : cfg) : list (option loc) := cs_Backends c :: shared_rest σ (cs_shared c).

Definition owned (σ : store) (c : cfg) : list (option loc) :=
  [cs_Allow c; cs_Deny c; cs_Routes c; cs_LoginDenied c; cs_StatusDenied c] ++
  (r_Aliases <$> routes_at σ (cs_Routes c)) ++ (r_Override <$> routes_at σ (cs_Routes c)).

Definition reaches (σ : store) (c : cfg) (l : loc) : Prop := Some l ∈ shared σ c ++ owned σ c.

(** All of it has been allocated. *)
Definition below (σ : store) (c : cfg) : Prop := ∀ l, reaches σ c l → (l < next σ)%nat.

Lemma deref_same σ σ' p : (∀ l, p = Some l → objs σ' !! l = objs σ !! l) → deref σ' p = deref σ p.
Proof. intros H. destruct p as [l|]; [cbn; by apply H|done]. Qed.

(** What is seen depends only on what is reached. *)
Lemma value_unchanged σ σ' c :
  (∀ l, reaches σ c l → objs σ' !! l = objs σ !! l) →
  value σ' c = value σ c ∧ owned σ' c = owned σ c ∧ shared σ' c = shared σ c.
Proof.
  intros Hs. assert (∀ p, p ∈ shared σ c ++ owned σ c → deref σ' p = deref σ p) as Hd.
  { intros p Hp. apply deref_same. intros l ->. by apply Hs. }
  assert (∀ p, p ∈ shared σ c → deref σ' p = deref σ p) as Hds by (intros; apply Hd, elem_of_app; by left).
  assert (∀ p, p ∈ owned σ c → deref σ' p = deref σ p) as Hdo by (intros; apply Hd, elem_of_app; by right).
  assert (routes_at σ' (cs_Routes c) = routes_at σ (cs_Routes c)) as Hr.
  { unfold routes_at. rewrite Hdo; [done|]. unfold owned. set_solver. }
  assert (bedrock_at σ' (s_Bedrock (cs_shared c)) = bedrock_at σ (s_Bedrock (cs_shared c))) as Hb.
  { unfold bedrock_at. rewrite Hds; [done|]. unfold shared, shared_rest. set_solver. }
  split_and!; [|unfold owned; by rewrite Hr|unfold shared, shared_rest; by rewrite Hb].
  unfold value. rewrite Hr, Hb.
  assert ((route_value σ' <$> routes_at σ (cs_Routes c)) = (route_value σ <$> routes_at σ (cs_Routes c))) as ->.
  { apply list_fmap_ext. intros i r Hi. apply list_elem_of_lookup_2 in Hi. unfold route_value, strings_at, override_at.
    rewrite !Hdo; [done|..]; unfold owned; rewrite !elem_of_app; right;
      [right|left]; by apply list_elem_of_fmap_2. }
  assert ((broute_value σ' <$> bedrock_at σ (s_Bedrock (cs_shared c))) =
          (broute_value σ <$> bedrock_at σ (s_Bedrock (cs_shared c)))) as ->.
  { apply list_fmap_ext. intros i r Hi. apply list_elem_of_lookup_2 in Hi. unfold broute_value, strings_at.
    rewrite Hds; [done|]. unfold shared, shared_rest. right. apply elem_of_app. right. by apply list_elem_of_fmap_2. }
  unfold strings_at, bool_at, headers_at, probed_at, backends_at.
  rewrite (Hdo (cs_Allow c)), (Hdo (cs_Deny c)), (Hdo (cs_LoginDenied c)), (Hdo (cs_StatusDenied c))
    by (unfold owned; set_solver).
  rewrite (Hds (s_Trusted (cs_shared c))), (Hds (s_Headers (cs_shared c))), (Hds (s_Probed (cs_shared c))),
    (Hds (s_Backends (cs_shared c))) by (unfold shared, shared_rest, cs_Backends; set_solver). done.
Qed.

(** A later store: what was allocated is unchanged. *)
Definition extends (σ σ' : store) : Prop :=
  (next σ ≤ next σ')%nat ∧ ∀ l, (l < next σ)%nat → objs σ' !! l = objs σ !! l.

#[local] Instance extends_preorder : PreOrder extends.
Proof.
  split; [by split|]. intros σ1 σ2 σ3 [H1 H2] [H3 H4]. split; [lia|]. intros l Hl. rewrite H4 by lia. by apply H2.
Qed.

Definition ptr_below (σ : store) (p : option loc) : Prop := ∀ l, p = Some l → (l < next σ)%nat.
Definition ptr_new (σ σ' : store) (p : option loc) : Prop := ∀ l, p = Some l → (next σ ≤ l < next σ')%nat.

Lemma deref_extends σ σ' p : extends σ σ' → ptr_below σ p → deref σ' p = deref σ p.
Proof. intros [_ H] Hp. apply deref_same. intros l E. by apply H, Hp. Qed.

Lemma ptr_new_below σ σ' p : ptr_new σ σ' p → ptr_below σ' p.
Proof. intros H l E. by apply H. Qed.

Lemma ptr_below_extends σ σ' p : extends σ σ' → ptr_below σ p → ptr_below σ' p.
Proof. intros [H _] Hp l E. specialize (Hp l E). lia. Qed.

Lemma ptr_new_weaken σ0 σ σ' σ1 p : extends σ0 σ → extends σ' σ1 → ptr_new σ σ' p → ptr_new σ0 σ1 p.
Proof. intros [H0 _] [H1 _] Hp l E. specialize (Hp l E). lia. Qed.

Lemma alloc_extends o σ p σ' : alloc o σ = (p, σ') → extends σ σ' ∧ ptr_new σ σ' p ∧ deref σ' p = Some o.
Proof.
  intros [= <- <-]. split_and!; [split; [cbn; lia|]|by intros l [= <-]; cbn; lia|cbn; apply lookup_insert_eq].
  intros l Hl. cbn. apply lookup_insert_ne. lia.
Qed.

(** [f] copies what [read] sees through a reference into new objects. *)
Definition copies {A} (f : option loc → store → option loc * store) (read : store → option loc → A) : Prop :=
  ∀ p σ p' σ', f p σ = (p', σ') → extends σ σ' ∧ ptr_new σ σ' p' ∧ read σ' p' = read σ p.

Lemma nil_new σ σ' : ptr_new σ σ' None.
Proof. by intros l. Qed.

Lemma copy_strings_copies : copies copy_strings strings_at.
Proof.
  intros p σ p' σ'. unfold copy_strings. destruct (strings_at σ p) as [|a l]; [by intros [= <- <-]|].
  intros (? & ? & E)%alloc_extends. split_and!; [done..|]. unfold strings_at. by rewrite E.
Qed.

Lemma copy_override_copies : copies copy_override override_at.
Proof.
  intros p σ p' σ'. unfold copy_override. destruct (override_at σ p) as [o|]; [|by intros [= <- <-]].
  intros (? & ? & E)%alloc_extends. split_and!; [done..|]. unfold override_at. by rewrite E.
Qed.

Lemma copy_bool_copies : copies copy_bool bool_at.
Proof.
  intros p σ p' σ'. unfold copy_bool. destruct (bool_at σ p) as [b|]; [|by intros [= <- <-]].
  intros (? & ? & E)%alloc_extends. split_and!; [done..|]. unfold bool_at. by rewrite E.
Qed.

(** The references of a route. *)
Definition route_ptrs (P : option loc → Prop) (r : route) : Prop := P (r_Aliases r) ∧ P (r_Override r).

Lemma route_value_extends σ σ' r : extends σ σ' → route_ptrs (ptr_below σ) r → route_value σ' r = route_value σ r.
Proof.
  intros He [Ha Ho]. unfold route_value, strings_at, override_at. by rewrite !(deref_extends σ σ') by done.
Qed.

Lemma route_ptrs_impl (P Q : option loc → Prop) r : (∀ p, P p → Q p) → route_ptrs P r → route_ptrs Q r.
Proof. intros H [? ?]. split; auto. Qed.

Lemma copy_route_spec r σ r' σ' :
  route_ptrs (ptr_below σ) r → copy_route r σ = (r', σ') →
  extends σ σ' ∧ route_ptrs (ptr_new σ σ') r' ∧ route_value σ' r' = route_value σ r.
Proof.
  intros [Ha Ho] E. unfold copy_route in E.
  destruct (copy_strings _ σ) as [a σ1] eqn:E1. apply copy_strings_copies in E1 as (X1 & N1 & V1).
  destruct (copy_override _ σ1) as [o σ2] eqn:E2. apply copy_override_copies in E2 as (X2 & N2 & V2).
  injection E as <- <-. split; [by etrans|]. split.
  - split; cbn; (eapply ptr_new_weaken; [| |done]); done.
  - unfold route_value. cbn. f_equal.
    + rewrite <- V1. unfold strings_at. by rewrite (deref_extends σ1) by eauto using ptr_new_below.
    + rewrite V2. unfold override_at. by rewrite (deref_extends σ).
Qed.

Lemma copy_each_spec rs σ rs' σ' :
  Forall (route_ptrs (ptr_below σ)) rs → copy_each rs σ = (rs', σ') →
  extends σ σ' ∧ Forall (route_ptrs (ptr_new σ σ')) rs' ∧ route_value σ' <$> rs' = route_value σ <$> rs.
Proof.
  revert σ rs' σ'. induction rs as [|r rs IH]; intros σ rs' σ' Hb E; cbn [copy_each] in E.
  { injection E as <- <-. by split_and!. }
  apply Forall_cons in Hb as [Hr Hb]. destruct (copy_route r σ) as [r1 σ1] eqn:E1.
  apply copy_route_spec in E1 as (X1 & N1 & V1); [|done]. destruct (copy_each rs σ1) as [rs1 σ2] eqn:E2.
  injection E as <- <-. apply IH in E2 as (X2 & N2 & V2).
  2: { eapply Forall_impl; [exact Hb|]. intros x. apply route_ptrs_impl. intros p. by apply ptr_below_extends. }
  split; [by etrans|]. split.
  - constructor.
    + eapply route_ptrs_impl; [|exact N1]. intros p. by apply ptr_new_weaken.
    + eapply Forall_impl; [exact N2|]. intros x. apply route_ptrs_impl. intros p. by apply ptr_new_weaken.
  - rewrite !fmap_cons, V2. f_equal.
    + rewrite <- V1. apply route_value_extends; [done|]. eapply route_ptrs_impl; [|exact N1].
      intros p. apply ptr_new_below.
    + apply list_fmap_ext. intros i x Hx. apply route_value_extends; [done|]. rewrite Forall_forall in Hb.
      eapply Hb, list_elem_of_lookup_2, Hx.
Qed.

Lemma copy_routes_spec p σ p' σ' :
  Forall (route_ptrs (ptr_below σ)) (routes_at σ p) → copy_routes p σ = (p', σ') →
  extends σ σ' ∧ ptr_new σ σ' p' ∧ Forall (route_ptrs (ptr_new σ σ')) (routes_at σ' p') ∧
  route_value σ' <$> routes_at σ' p' = route_value σ <$> routes_at σ p.
Proof.
  intros Hb. unfold copy_routes. destruct (routes_at σ p) as [|r rs].
  { intros [= <- <-]. split_and!; [done|apply nil_new|constructor|done]. }
  destruct (copy_each (r :: rs) σ) as [rs1 σ1] eqn:E1. apply copy_each_spec in E1 as (X1 & N1 & V1); [|done].
  intros (X2 & N2 & E2)%alloc_extends.
  assert (routes_at σ' p' = rs1) as -> by (unfold routes_at; by rewrite E2).
  split; [by etrans|].
  split; [eapply ptr_new_weaken; [exact X1|reflexivity|exact N2]|]. split.
  - eapply Forall_impl; [exact N1|]. intros x. apply route_ptrs_impl. intros q. by apply ptr_new_weaken.
  - rewrite <- V1. apply list_fmap_ext. intros i x Hx. apply route_value_extends; [done|].
    rewrite Forall_forall in N1. eapply route_ptrs_impl; [|eapply N1, list_elem_of_lookup_2, Hx].
    intros q. apply ptr_new_below.
Qed.

Lemma below_spec σ c :
  below σ c ↔ Forall (ptr_below σ) (shared σ c) ∧ Forall (ptr_below σ) (owned σ c).
Proof.
  unfold below, reaches, ptr_below. setoid_rewrite elem_of_app. rewrite !Forall_forall. naive_solver.
Qed.

Lemma owned_routes (P : option loc → Prop) σ c :
  Forall P (owned σ c) ↔
  (P (cs_Allow c) ∧ P (cs_Deny c) ∧ P (cs_Routes c) ∧ P (cs_LoginDenied c) ∧ P (cs_StatusDenied c)) ∧
  Forall (route_ptrs P) (routes_at σ (cs_Routes c)).
Proof.
  unfold owned, route_ptrs. rewrite !Forall_app, !Forall_fmap, Forall_and. repeat rewrite Forall_cons. rewrite Forall_nil.
  unfold compose. naive_solver.
Qed.

(** What is read through an allocated reference stays. *)
Lemma reads_extend σ σ' p :
  extends σ σ' → ptr_below σ p →
  strings_at σ' p = strings_at σ p ∧ routes_at σ' p = routes_at σ p ∧ bool_at σ' p = bool_at σ p.
Proof.
  intros He Hp. unfold strings_at, routes_at, bool_at. by rewrite (deref_extends σ σ' p He Hp).
Qed.

(** What is seen of the shared parts stays. *)
Definition shared_value (σ : store) (s : shared_refs) :=
  (strings_at σ (s_Trusted s), headers_at σ (s_Headers s), probed_at σ (s_Probed s),
   broute_value σ <$> bedrock_at σ (s_Bedrock s), backends_at σ (s_Backends s)).

Lemma shared_extends σ σ' c :
  extends σ σ' → Forall (ptr_below σ) (shared σ c) → shared_value σ' (cs_shared c) = shared_value σ (cs_shared c).
Proof.
  intros He Hb. rewrite Forall_forall in Hb. unfold shared, shared_rest in Hb.
  assert (∀ p, p ∈ shared σ c → deref σ' p = deref σ p) as Hd by (intros; by apply deref_extends, Hb).
  unfold shared_value, strings_at, headers_at, probed_at, backends_at, bedrock_at.
  rewrite (Hd (s_Trusted (cs_shared c))), (Hd (s_Headers (cs_shared c))), (Hd (s_Probed (cs_shared c))),
    (Hd (s_Bedrock (cs_shared c))), (Hd (s_Backends (cs_shared c)))
    by (unfold shared, shared_rest, cs_Backends; set_solver).
  fold (bedrock_at σ (s_Bedrock (cs_shared c))). do 2 f_equal.
  apply list_fmap_ext. intros i r Hi%list_elem_of_lookup_2. unfold broute_value, strings_at. rewrite Hd; [done|].
  unfold shared, shared_rest. right. apply elem_of_app. right. by apply list_elem_of_fmap_2.
Qed.

Lemma routes_extend σ σ' rs :
  extends σ σ' → Forall (route_ptrs (ptr_below σ)) rs → route_value σ' <$> rs = route_value σ <$> rs.
Proof.
  intros He Hb. apply list_fmap_ext. intros i x Hx. apply route_value_extends; [done|].
  rewrite Forall_forall in Hb. eapply Hb, list_elem_of_lookup_2, Hx.
Qed.

Lemma routes_below σ σ' rs :
  extends σ σ' → Forall (route_ptrs (ptr_below σ)) rs → Forall (route_ptrs (ptr_below σ')) rs.
Proof.
  intros He Hb. eapply Forall_impl; [exact Hb|]. intros x. apply route_ptrs_impl. intros p. by apply ptr_below_extends.
Qed.

Lemma routes_new_below σ σ' rs : Forall (route_ptrs (ptr_new σ σ')) rs → Forall (route_ptrs (ptr_below σ')) rs.
Proof. intros Hb. eapply Forall_impl; [exact Hb|]. intros x. apply route_ptrs_impl. intros p. apply ptr_new_below. Qed.

(** The copy in one statement: the store grows, what the copy owns is new, and the copy
    has the value of the original. *)
Lemma cloneConfig_spec c σ c' σ' :
  below σ c → cloneConfig c σ = (c', σ') →
  extends σ σ' ∧ Forall (ptr_new σ σ') (owned σ' c') ∧ cs_shared c' = cs_shared c ∧ value σ' c' = value σ c.
Proof.
  intros [Hbk ((Ha & Hd & Hr & Hl & Hs) & Hrs)%owned_routes]%below_spec E. unfold cloneConfig in E.
  destruct (copy_strings _ σ) as [a σ1] eqn:E1. apply copy_strings_copies in E1 as (X1 & N1 & V1).
  destruct (copy_strings _ σ1) as [d σ2] eqn:E2. apply copy_strings_copies in E2 as (X2 & N2 & V2).
  assert (extends σ σ2) as X02 by (by etrans).
  destruct (reads_extend σ σ2 _ X02 Hr) as (_ & Hrt & _).
  destruct (copy_routes _ σ2) as [rs σ3] eqn:E3. apply copy_routes_spec in E3 as (X3 & N3 & P3 & V3).
  2: { rewrite Hrt. by eapply routes_below. }
  destruct (copy_bool _ σ3) as [lo σ4] eqn:E4. apply copy_bool_copies in E4 as (X4 & N4 & V4).
  destruct (copy_bool _ σ4) as [st σ5] eqn:E5. apply copy_bool_copies in E5 as (X5 & N5 & V5).
  injection E as <- <-. assert (extends σ σ3) as X03 by (by etrans). assert (extends σ3 σ5) as X35 by (by etrans).
  assert (extends σ2 σ5) as X25 by (by etrans). assert (extends σ1 σ5) as X15 by (by etrans).
  assert (extends σ σ4) as X04 by (by etrans). assert (extends σ σ5) as X05 by (by etrans).
  destruct (reads_extend σ1 σ5 a X15 (ptr_new_below _ _ _ N1)) as (Va & _).
  destruct (reads_extend σ2 σ5 d X25 (ptr_new_below _ _ _ N2)) as (Vd & _).
  destruct (reads_extend σ3 σ5 rs X35 (ptr_new_below _ _ _ N3)) as (_ & Vr & _).
  destruct (reads_extend σ4 σ5 lo X5 (ptr_new_below _ _ _ N4)) as (_ & _ & Vl).
  split; [done|]. split; [|split; [done|]].
  - apply owned_routes. cbn [cs_Allow cs_Deny cs_Routes cs_LoginDenied cs_StatusDenied]. rewrite Vr.
    split; [split_and!|eapply Forall_impl; [exact P3|]; intros x; apply route_ptrs_impl; intros p;
                       by apply ptr_new_weaken].
    all: eapply ptr_new_weaken; [| |done]; done.
  - pose proof (shared_extends σ σ5 c X05 Hbk) as Hsh. injection Hsh as S1 S2 S3 S4 S5.
    unfold value. cbn. rewrite S1, S2, S3, S4, S5. f_equal.
    + rewrite Va, V1, Vd, V2. by rewrite (proj1 (reads_extend σ σ1 _ X1 Hd)).
    + rewrite Vl, V4, V5. destruct (reads_extend σ σ3 _ X03 Hl) as (_ & _ & ->).
      by destruct (reads_extend σ σ4 _ X04 Hs) as (_ & _ & ->).
    + rewrite Vr, (routes_extend σ3 σ5) by eauto using routes_new_below. rewrite V3, Hrt. by apply routes_extend.
Qed.

Lemma clone_rest c σ c' σ' : cloneConfig c σ = (c', σ') → cs_rest c' = cs_rest c.
Proof. unfold cloneConfig. intros E. by repeat case_match; simplify_eq. Qed.

Lemma below_extends σ σ' c : extends σ σ' → below σ c → below σ' c ∧ value σ' c = value σ c.
Proof.
  intros He Hc. destruct (value_unchanged σ σ' c) as (Hv & Ho & Hs); [intros l Hl; apply He, Hc, Hl|].
  split; [|done]. intros l Hl. unfold reaches in Hl. rewrite Ho, Hs in Hl. specialize (Hc l Hl). destruct He. lia.
Qed.

End lemmas.

(** ** Properties *)

Section properties.
Import config configstore.
Context `{Env} `{!EnvLaws}.

(** C11: What a copied configuration shares with its original, and what not. The copy has
    the original's value, and copying changes no configuration that exists. The copy shares
    the trusted proxies, the headers of the webhook, the probed backends, the Bedrock routes
    with their hosts and the map of voice backends. All else is its own: no write to what
    the copy owns - the lists of the client policy, the routes with their aliases and status
    overrides, the two fallback switches - is seen through a configuration that existed
    before, and no write to what such a configuration refers to is seen through the copy
    unless it is to one of the shared parts. *)
Theorem clone_independent c q σ c' σ' l o :
  below σ c → below σ q → cloneConfig c σ = (c', σ') →
  value σ' c' = proxy.cloneConfig (value σ c) ∧ value σ' q = value σ q ∧
  cs_shared c' = cs_shared c ∧ shared σ' c' = shared σ c ∧
  (Some l ∈ owned σ' c' → value (write l o σ') q = value σ q) ∧
  (reaches σ q l → Some l ∉ shared σ c → value (write l o σ') c' = value σ c).
Proof.
  intros Hc Hq E. destruct (cloneConfig_spec c σ c' σ' Hc E) as ([Hn Hx] & Hnew & Hb & Hv).
  destruct (value_unchanged σ σ' q) as (Hvq & Hoq & Hsq); [intros l' Hl'; apply Hx, Hq, Hl'|].
  destruct (value_unchanged σ σ' c) as (_ & _ & Hsc); [intros l' Hl'; apply Hx, Hc, Hl'|].
  assert (shared σ' c' = shared σ c) as Hsh by (rewrite <- Hsc; unfold shared, cs_Backends; by rewrite Hb).
  rewrite Forall_forall in Hnew. split_and!; [done..|intros Hl|intros Hl Hne].
  - rewrite <- Hvq. apply value_unchanged. intros l' Hl'. apply lookup_insert_ne. intros <-.
    unfold reaches in Hl'. rewrite Hoq, Hsq in Hl'. specialize (Hq l Hl'). specialize (Hnew _ Hl l eq_refl). lia.
  - rewrite <- Hv. apply value_unchanged. intros l' Hl'. apply lookup_insert_ne. intros <-. specialize (Hq l Hl).
    unfold reaches in Hl'. rewrite Hsh in Hl'. apply elem_of_app in Hl' as [?|Hl']; [done|].
    specialize (Hnew _ Hl' l eq_refl). lia.
Qed.

(** Validation reaches every configuration that shares the map of voice backends: it
    gives the one it is called on the value that validation of values gives, and puts
    the same tokens into every other that points to the same map, changing nothing else
    in it. *)
Theorem validation_shared c q σ e σ' l :
  cs_Backends c = Some l → cs_Backends q = Some l →
  (Some l ∉ shared_rest σ (cs_shared c) ++ owned σ c) → (Some l ∉ shared_rest σ (cs_shared q) ++ owned σ q) →
  Validate c σ = (e, σ') →
  (e, value σ' c) = config.Validate (value σ c) ∧
  value σ' q = with_voice (value σ q)
    (with_backends (VoiceChat_ (value σ q)) (vc_Backends (VoiceChat_ (value σ' c)))).
Proof.
  intros Hc Hq Hoc Hoq E. unfold Validate in E. destruct (config.Validate (value σ c)) as [e1 c1] eqn:Ev.
  rewrite Hc in E. injection E as <- <-. set (m := vc_Backends (VoiceChat_ c1)).
  assert (∀ x, cs_Backends x = Some l → (Some l ∉ shared_rest σ (cs_shared x) ++ owned σ x) →
    value (write l (BackendMap m) σ) x = with_voice (value σ x) (with_backends (VoiceChat_ (value σ x)) m)) as Hx.
  { intros x Hx Hox.
    set (x0 := {| cs_rest := cs_rest x; cs_Allow := cs_Allow x; cs_Deny := cs_Deny x; cs_Routes := cs_Routes x;
                  cs_LoginDenied := cs_LoginDenied x; cs_StatusDenied := cs_StatusDenied x;
                  cs_shared := {| s_Trusted := s_Trusted (cs_shared x); s_Headers := s_Headers (cs_shared x);
                    s_Probed := s_Probed (cs_shared x); s_Bedrock := s_Bedrock (cs_shared x); s_Backends := None |} |}).
    destruct (value_unchanged σ (write l (BackendMap m) σ) x0) as [E0 _].
    { intros l' [?|Hl']%elem_of_cons; [done|]. apply lookup_insert_ne. intros <-. done. }
    assert (∀ τ, value τ x = with_voice (value τ x0) (with_backends (VoiceChat_ (value τ x0)) (backends_at τ (Some l)))) as Hd.
    { intros τ. unfold value. unfold cs_Backends in Hx. rewrite Hx. done. }
    rewrite !Hd, E0. unfold with_voice, with_backends. cbn. do 2 f_equal. unfold backends_at. cbn.
    by rewrite lookup_insert_eq. }
  split; [|by rewrite !Hx]. f_equal. rewrite Hx by done. unfold m.
  assert (c1 = with_voice (value σ c) (VoiceChat_ c1) ∧
          VoiceChat_ c1 = with_backends (VoiceChat_ (value σ c)) (vc_Backends (VoiceChat_ c1))) as [E1 E2].
  { unfold config.Validate in Ev. destruct (validateVoiceChat _) as [ve v] eqn:Evv. injection Ev as _ <-. split; [done|].
    unfold validateVoiceChat in Evv. destruct (negb _); [by injection Evv as _ <-|].
    destruct (voice_backends _ _ _). by injection Evv as _ <-. }
  by rewrite <- E2, <- E1.
Qed.

(** What starting keeps of the loaded configuration. *)
Lemma start_spec c routes σ :
  below σ c →
  let g := start c routes σ in
  (cs_Backends (g_cfg g) = cs_Backends c ∧ cs_Backends (g_static g) = cs_Backends c) ∧
  (cs_rest (g_cfg g) = cs_rest c ∧ cs_rest (g_static g) = cs_rest c) ∧
  value (g_store g) (g_static g) = value σ c.
Proof.
  intros Hc. unfold start. destruct (cloneConfig c σ) as [c1 σ1] eqn:E1. destruct (cloneConfig c σ1) as [c2 σ2] eqn:E2.
  destruct (cloneConfig c2 σ2) as [c3 σ3] eqn:E3.
  pose proof (clone_rest _ _ _ _ E1). pose proof (clone_rest _ _ _ _ E2). pose proof (clone_rest _ _ _ _ E3).
  destruct (cloneConfig_spec _ _ _ _ Hc E1) as (X1 & _ & B1 & _).
  destruct (below_extends σ σ1 c X1 Hc) as [Hc1 V0].
  destruct (cloneConfig_spec _ _ _ _ Hc1 E2) as (X2 & N2 & B2 & V2).
  assert (below σ2 c2) as Hc2.
  { apply below_spec. split; [|eapply Forall_impl; [exact N2|apply ptr_new_below]].
    destruct (value_unchanged σ1 σ2 c) as (_ & _ & Hs2); [intros l Hl; apply X2, Hc1, Hl|].
    assert (shared σ2 c2 = shared σ1 c) as -> by (rewrite <- Hs2; unfold shared, cs_Backends; by rewrite B2).
    apply below_spec in Hc1 as [Hb _]. eapply Forall_impl; [exact Hb|]. intros p. by apply ptr_below_extends. }
  destruct (cloneConfig_spec _ _ _ _ Hc2 E3) as (_ & _ & B3 & V3).
  unfold cs_Backends. cbn. split_and!; congruence.
Qed.

(** C15: Starting can end in a fatal error: for every valid configuration with discovery
    and voice chat enabled there is a run in which the loop of [startVoiceChat] iterates
    over the map of voice backends while an update of the watch writes it, because the
    copies share the map and validation writes it. *)
Theorem startup_map_conflict c routes σ :
  below σ c → (config.Validate (value σ c)).1 = None →
  kd_Enabled (di_Kubernetes (Discovery_ (cs_rest c))) = true → vc_Enabled (VoiceChat_ (cs_rest c)) = true →
  is_Some (cs_Backends c) →
  ∃ g, rtc step (start c routes σ) g ∧ conflict g.
Proof.
  intros Hc Hok Hk Hv Hb. destruct (start_spec c routes σ Hc) as ((E1 & E2) & (E3 & E4) & Ev). eexists. split.
  - eapply rtc_l; [apply update_begins; [|rewrite ?E4, ?Ev; try done..]|].
    { unfold start. by repeat case_match. }
    eapply rtc_l; [apply voice_begins; [|cbn; by rewrite E3]|apply rtc_refl]. unfold start. by repeat case_match.
  - split_and!; cbn; [done|by rewrite E2|by rewrite E1, E2].
Qed.

End properties.

(** ** Witnesses *)

Section witnesses.
Import config configstore.
#[local] Existing Instance Config.sample_env.
#[local] Existing Instance Config.sample_env_laws.

(** An allow list, a route with an alias, and the voice backends of the sample. *)
Definition sample_route : route := {|
  r_fields := {| ServerAddress := gs"lobby.example.org"; Aliases := []; Backend := gs"lobby:25565";
                 StatusBackend := []; StatusOverride_ := None; Source := [] |};
  r_Aliases := Some 3%nat; r_Override := None |}.

Definition sample_store : store := {|
  objs := {[0%nat := BackendMap (vc_Backends (VoiceChat_ sample_config)); 1%nat := Strings [gs"10.0.0.0/8"];
            2%nat := RouteArray [sample_route]; 3%nat := Strings [gs"hub.example.org"];
            4%nat := Strings [gs"192.0.2.0/24"]]};
  next := 5%nat |}.

(** Trusted proxies and voice backends; the rest is empty. *)
Definition sample_shared : shared_refs := {|
  s_Trusted := Some 4%nat; s_Headers := None; s_Probed := None; s_Bedrock := None; s_Backends := Some 0%nat |}.

Definition sample_cfg : cfg := {|
  cs_rest := sample_config; cs_Allow := Some 1%nat; cs_Deny := None; cs_Routes := Some 2%nat;
  cs_LoginDenied := None; cs_StatusDenied := None; cs_shared := sample_shared |}.

Lemma sample_below : below sample_store sample_cfg.
Proof.
  intros l Hl. unfold reaches in Hl. change (shared sample_store sample_cfg ++ owned sample_store sample_cfg)
    with ([Some 0; Some 4; None; None; None; Some 1; None; Some 2; None; None; Some 3; None]%nat : list (option loc)) in Hl.
  change (next sample_store) with 5%nat. repeat (apply elem_of_cons in Hl as [Hl|Hl]; [simplify_eq; lia|]).
  by apply elem_of_nil in Hl.
Qed.

(** Emptying the alias list of the copy leaves the original as it was. *)
Lemma clone_independent_witness :
  ∃ c' σ', cloneConfig sample_cfg sample_store = (c', σ') ∧
    value (write 6%nat (Strings []) σ') sample_cfg = value sample_store sample_cfg.
Proof.
  destruct (cloneConfig sample_cfg sample_store) as [c' σ'] eqn:E. exists c', σ'. split; [reflexivity|].
  destruct (clone_independent sample_cfg sample_cfg sample_store c' σ' 6%nat (Strings []) sample_below sample_below E)
    as (_ & _ & _ & _ & Hw & _). apply Hw.
  assert (owned (cloneConfig sample_cfg sample_store).2 (cloneConfig sample_cfg sample_store).1 =
    [Some 5; None; Some 7; None; None; Some 6; None]%nat) as Ho by (vm_compute; reflexivity).
  rewrite E in Ho. cbn [fst snd] in Ho. rewrite Ho. apply (bool_decide_unpack _). vm_compute. exact I.
Defined.

Lemma validation_shared_witness :
  ∃ e σ', Validate sample_cfg sample_store = (e, σ') ∧
    (e, value σ' sample_cfg) = config.Validate (value sample_store sample_cfg).
Proof.
  destruct (Validate sample_cfg sample_store) as [e σ'] eqn:E. exists e, σ'. split; [reflexivity|].
  assert (Some 0%nat ∉ shared_rest sample_store (cs_shared sample_cfg) ++ owned sample_store sample_cfg) as Hn
    by (apply (bool_decide_unpack _); vm_compute; exact I).
  exact (proj1 (validation_shared sample_cfg sample_cfg sample_store e σ' 0%nat eq_refl eq_refl Hn Hn E)).
Defined.

(** The sample with discovery switched on. *)
Definition watched_cfg : cfg := {|
  cs_rest := {| Listen := Listen sample_config; HandshakeTimeout := HandshakeTimeout sample_config;
    BackendDialTimeout := BackendDialTimeout sample_config; ClientPolicy_ := ClientPolicy_ sample_config;
    ClientRateLimit_ := ClientRateLimit_ sample_config; ProxyProtocol_ := ProxyProtocol_ sample_config;
    ScalerWebhook_ := ScalerWebhook_ sample_config; ConfigReload_ := ConfigReload_ sample_config;
    Availability_ := Availability_ sample_config; Metrics_ := Metrics_ sample_config;
    UDPRelay_ := UDPRelay_ sample_config; Bedrock_ := Bedrock_ sample_config;
    VoiceChat_ := VoiceChat_ sample_config; Fallback_ := Fallback_ sample_config;
    Discovery_ := {| di_Kubernetes := {| kd_Enabled := true; kd_Namespace := gs"games";
      kd_Mode := KubernetesDiscoveryModeAnnotations; kd_AnnotationPrefix := DefaultKubernetesAnnotationPrefix |} |};
    DefaultRoute_ := DefaultRoute_ sample_config; Routes := Routes sample_config;
    UnknownHostPolicy := UnknownHostPolicy sample_config |};
  cs_Allow := Some 1%nat; cs_Deny := None; cs_Routes := Some 2%nat;
  cs_LoginDenied := None; cs_StatusDenied := None; cs_shared := sample_shared |}.

Lemma watched_below : below sample_store watched_cfg.
Proof. exact sample_below. Qed.

Lemma startup_map_conflict_witness :
  ∃ g, rtc step (start watched_cfg (Some 2%nat) sample_store) g ∧ conflict g.
Proof.
  apply (startup_map_conflict watched_cfg (Some 2%nat) sample_store watched_below); [|reflexivity..|exists 0%nat; reflexivity].
  vm_compute. reflexivity.
Defined.

End witnesses.
