(* ===== verification/DiscoveryCmd.v ===== *)
(** * Discovery in the command ([cmd/mc-gateway], [discovery_*.go])

    How the gateway's command puts the cluster's services to use: once at start-up, on
    every reload of the configuration, and all the time through the supervised watch,
    whose snapshots go through a sink into the server. What the cluster and the
    service-account files answer is a record of type [cluster]. *)
From S2P Require Import Prelude GoUnicode GoStrings GoNet GoIO HostAddr Tables GoSort.
From S2P Require Import McProto ClientPolicy ProxyProtocol RateLimit Config Kubernetes WatchSupervisor.
From S2P Require Import Merge Router Server.
Import gostrings.
Open Scope Z_scope.

Module discoverycmd.
Import config proxy.

(** [discoveryStartupDeps] and the cluster behind them: reading a file, the errors of
    the in-cluster configuration and of the client, and the services of a namespace. *)
Record cluster := {
  cl_readFile : bytes → res bytes;
  cl_inClusterConfig : option error;
  cl_newClient : option error;
  cl_list : bytes → res (list kubernetes.Service)
}.

Record startupDiscoveryReport := {
  sd_Services : list kubernetes.ServiceInput;
  sd_Result : kubernetes.Result
}.

Section commands.
Context `{Env} `{ErrorText}.

(** ** discovery_startup.go *)

Definition buildStartupDiscoveryReport (cl : cluster) (kc : KubernetesDiscovery) : res startupDiscoveryReport :=
  match kubernetes.ResolveNamespace (kd_Namespace kc) [] (cl_readFile cl) with
  | Err e => Err (Errorf "resolve Kubernetes discovery namespace: %w" [] [e])
  | Ok namespace =>
      match cl_inClusterConfig cl with
      | Some e => Err (Errorf "create in-cluster Kubernetes config: %w" [] [e])
      | None =>
          match cl_newClient cl with
          | Some e => Err (Errorf "create Kubernetes Service lister: %w" [] [e])
          | None =>
              match kubernetes.ListServices (cl_list cl namespace) with
              | Err e => Err (Errorf "list Kubernetes Services in resolved namespace: %w" [] [e])
              | Ok services =>
                  Ok {| sd_Services := services;
                        sd_Result := kubernetes.BuildDiscoveredRoutes services (kd_AnnotationPrefix kc) |}
              end
          end
      end
  end.

(** A provider that holds the routes of a result. *)
Definition snapshot_provider (result : kubernetes.Result) : provider :=
  Some (kubernetes.ProviderRoutes (kubernetes.NewSnapshotProviderFromResult result)).

Record startupLoadResult := {
  sl_Snapshot : RouteSnapshot;
  sl_DiscoveryReport : option startupDiscoveryReport
}.

(** [loaded] is what [config.LoadFile] returned. *)
Definition loadStartupWithDiscovery (cl : cluster) (loaded : res Config) : res startupLoadResult :=
  let? cfg := loaded in
  let kc := di_Kubernetes (Discovery_ cfg) in
  if negb (kd_Enabled kc) then
    let? snapshot := RebuildRouteSnapshot cfg None in
    Ok {| sl_Snapshot := snapshot; sl_DiscoveryReport := None |}
  else
    let? report := buildStartupDiscoveryReport cl kc in
    let? snapshot := RebuildRouteSnapshot cfg (snapshot_provider (sd_Result report)) in
    Ok {| sl_Snapshot := snapshot; sl_DiscoveryReport := Some report |}.

(** ** discovery_reload.go *)

(** [cloneKubernetesDiscoveryResult] copies; on values it is the identity. *)
Definition cloneKubernetesDiscoveryResult (r : kubernetes.Result) : kubernetes.Result := r.

(** The steps of [buildReloadDiscoveryReport] are those of the start-up. *)
Definition buildReloadDiscoveryReport (cl : cluster) (kc : KubernetesDiscovery) : res kubernetes.Result :=
  let? report := buildStartupDiscoveryReport cl kc in
  Ok (cloneKubernetesDiscoveryResult (sd_Result report)).

(** The skipped services that are recorded after a reload or an update, by reason. *)
Definition skipped_metric : Type := option (gmap bytes Z).

(** [kubernetesReloadReloader.ReloadFile]: the discovery settings are those of the
    start-up. [None] is a panic. *)
Definition ReloadFile (kc : KubernetesDiscovery) (cl : cluster) (s : Server) (loaded : res Config)
    : option (option error * Server * skipped_metric) :=
  if negb (kd_Enabled kc) then
    '(e, s') ← proxy.ReloadFile s loaded; Some (e, s', None)
  else match loaded with
  | Err e => Some (Some e, record s (MReload false), None)
  | Ok cfg =>
      match buildReloadDiscoveryReport cl kc with
      | Err e => Some (Some e, record s (MReload false), None)
      | Ok result =>
          '(e, s') ← ReloadConfigWithDiscovery s cfg (snapshot_provider result);
          Some (e, s', match e with Some _ => None | None => Some (kubernetes.SkippedByReason result) end)
      end
  end.

(** ** discovery_runtime.go: the sink *)

(** Whether the ready channel is closed and whether a token is in the synced channel,
    which has room for one. *)
Record runtimeDiscoverySink := { rs_ready : bool; rs_synced : bool }.

Definition newRuntimeDiscoverySink : runtimeDiscoverySink := {| rs_ready := false; rs_synced := false |}.

(** Whether the context is done at the three places where the update looks. *)
Definition dones : Type := bool * bool * bool.

(** [UpdateResult] and [update]. *)
Definition UpdateResult (s : Server) (sink : runtimeDiscoverySink) (result : kubernetes.Result) (d : dones)
    : option (Server * runtimeDiscoverySink * skipped_metric) :=
  let '(d1, d2, d3) := d in
  '(e, s') ← UpdateDiscoveredRoutes s (snapshot_provider result) d1 d2 d3;
  Some (s', {| rs_ready := true; rs_synced := true |},
        match e with Some _ => None | None => Some (kubernetes.SkippedByReason result) end).

(** The snapshots of a watch, one after the other. *)
Fixpoint publish (s : Server) (sink : runtimeDiscoverySink) (results : list (kubernetes.Result * dones))
    : option (Server * runtimeDiscoverySink) :=
  match results with
  | [] => Some (s, sink)
  | (result, d) :: rest => '(s', sink', _) ← UpdateResult s sink result d; publish s' sink' rest
  end.

Definition kubernetesWatchRestartReason (e : error) : bytes :=
  if errors_Is "kubernetes.ErrServiceListFailed" e then gs"list_failed"
  else if errors_Is "kubernetes.ErrServiceWatchClosed" e then gs"watch_closed"
  else if errors_Is "kubernetes.ErrServiceWatchError" e then gs"watch_error"
  else if errors_Is "kubernetes.ErrServiceWatchSetupFailed" e then gs"watch_setup_failed"
  else gs"unknown".

Definition kubernetesDiscoveryErrorReason (e : error) : bytes :=
  if errors_Is "kubernetes.ErrServiceListFailed" e then gs"initial_list_failed"
  else if errors_Is "kubernetes.ErrServiceWatchClosed" e then gs"watch_closed"
  else if errors_Is "kubernetes.ErrServiceWatchError" e then gs"watch_error"
  else if errors_Is "kubernetes.ErrServiceWatchSetupFailed" e then gs"watch_setup_failed"
  else gs"unknown".

(** ** discovery_runtime.go: the start *)

(** What is set up before the watch is started: nothing when discovery is off, else the
    namespace to watch, or an error with the reason recorded for it. The updater is
    the server, and the supervisor's options are complete. *)
Definition prepareRuntimeDiscovery (cl : cluster) (kc : KubernetesDiscovery)
    : res (option bytes) * option bytes :=
  if negb (kd_Enabled kc) then (Ok None, None)
  else match kubernetes.ResolveNamespace (kd_Namespace kc) [] (cl_readFile cl) with
  | Err e => (Err (Errorf "resolve Kubernetes discovery namespace: %w" [] [e]),
              Some gs"namespace_resolution_failed")
  | Ok namespace =>
      match cl_inClusterConfig cl with
      | Some e => (Err (Errorf "create in-cluster Kubernetes config: %w" [] [e]),
                   Some gs"incluster_config_failed")
      | None =>
          match cl_newClient cl with
          | Some e => (Err (Errorf "create Kubernetes client: %w" [] [e]), Some gs"unknown")
          | None =>
              match kubernetes.NewServiceWatchController namespace with
              | Some e => (Err (Errorf "create Kubernetes Service watch controller: %w" [] [e]), None)
              | None => (Ok (Some namespace), None)
              end
          end
      end
  end.

(** A watch as the supervisor sees it: it sends a token for what it publishes. *)
Definition turn_of (published : list kubernetes.Result) (err : option error) (cancelled ready : bool)
    : supervisor.turn := {|
  supervisor.t_signals := [supervisor.Finished err (negb (bool_decide (published = [])))];
  supervisor.t_cancelled := cancelled; supervisor.t_ready := ready;
  supervisor.t_sleep := None; supervisor.t_sleep_cancelled := false |}.

(** The last select of [startKubernetesRuntimeDiscovery]: the sink is ready, the
    supervisor has ended, or the context is done. *)
Inductive started := Running | Failed (e : error).

Inductive starts (ready : bool) (ended : option (option error)) (ctx : option error) : started → Prop :=
| starts_ready : ready = true → starts ready ended ctx Running
| starts_stopped :
    ended = Some None →
    starts ready ended ctx
      (Failed (errors_New "Kubernetes Service watch controller stopped before becoming ready"))
| starts_failed e : ended = Some (Some e) → starts ready ended ctx (Failed e)
| starts_cancelled e : ctx = Some e → starts ready ended ctx (Failed e).

End commands.

End discoverycmd.

(** ** Lemmas *)

Section lemmas.
Import config proxy discoverycmd.
Context `{Env} `{!EnvLaws} `{ErrorText}.

(** A name of a route of a valid configuration leads to the route's backend. *)
Lemma route_served c rt n e addr k :
  config_ok c → rt ∈ Routes c → (n, e) ∈ router.route_entries rt → hostaddr.Normalize n = Ok k →
  hostaddr.Normalize addr = Ok k → Source rt ≠ [] →
  ∃ sel, router.Select (table c) addr = Ok sel ∧ router.sel_Backend sel = Backend rt ∧
    router.RouteSource sel = Source rt.
Proof.
  intros Hok Hrt He En Ea Hsrc. pose proof (ok_routes _ Hok) as [Hd _]. unfold router.Select. rewrite Ea. unfold table.
  cbn [router.routes]. rewrite insert_all_lookup by by rewrite router.entries_names.
  erewrite owner_in; [|by rewrite router.entries_names| |exact En].
  2:{ unfold router.entries. apply list_elem_of_In, in_concat. exists (router.route_entries rt).
      split; [apply in_map|]; apply list_elem_of_In; [exact Hrt|exact He]. }
  eexists. split; [done|].
  assert (∃ addr' kind, e = {| router.route := router.stored rt addr'; router.matchKind := kind |}) as (a & kd & ->).
  { apply elem_of_cons in He as [[= _ ->]|(a & [= _ ->] & _)%list_elem_of_fmap]; by eexists _, _. }
  cbn. by rewrite decide_False.
Qed.

Lemma NoDup_count {A} (f : A → bytes) k l : NoDup (f <$> l) → zlen (filter (λ x, f x = k) l) ≤ 1.
Proof.
  induction l as [|x l IH]; intros Hnd; [done|]. cbn in Hnd. apply NoDup_cons in Hnd as [Hx Hnd].
  destruct (decide (f x = k)) as [E|E]; [|rewrite filter_cons_False by done; by apply IH].
  rewrite filter_cons_True by done.
  assert (filter (λ x, f x = k) l = []) as ->; [|done].
  apply elem_of_nil_inv. intros y [Ey Hy]%list_elem_of_filter. apply Hx. rewrite E, <- Ey.
  by apply list_elem_of_fmap_2.
Qed.

(** The routes of a snapshot are admitted unless their host is static. *)
Lemma snapshot_admitted static services p r :
  let ds := kubernetes.Routes (kubernetes.BuildDiscoveredRoutes services p) in
  r ∈ ds → (kubernetes.Host r ∉ discovery.static_hosts static) →
  {| discovery.dc_Host := kubernetes.Host r; discovery.dc_Backend := kubernetes.Backend r |} ∈ admitted static ds.
Proof.
  intros ds Hr Hs. apply elem_of_admitted. split; [exists r; split; [done|by eapply snapshot_routes_valid]|].
  split; [|done]. rewrite tally_count.
  assert (omap Merge.candidate_of ds = (λ r, {| discovery.dc_Host := kubernetes.Host r;
    discovery.dc_Backend := kubernetes.Backend r |}) <$> ds) as ->.
  { assert (∀ r, r ∈ ds → Merge.candidate_of r = Some {| discovery.dc_Host := kubernetes.Host r;
      discovery.dc_Backend := kubernetes.Backend r |}) as Hv.
    { intros d Hd. unfold Merge.candidate_of. by rewrite (snapshot_routes_valid services p). }
    clear Hr. induction ds as [|d ds' IH]; [done|]. cbn. rewrite Hv by left. f_equal. apply IH.
    intros d' ?. apply Hv. by right. }
  pose proof (NoDup_count (discovery.dc_Host) (kubernetes.Host r) ((λ r, {| discovery.dc_Host := kubernetes.Host r;
    discovery.dc_Backend := kubernetes.Backend r |}) <$> ds)) as Hc.
  rewrite <- list_fmap_compose in Hc. specialize (Hc (proj1 (Routes_hosts services p))).
  unfold zlen in Hc |- *. cbn [discovery.dc_Host]. lia.
Qed.

(** In a published state whose discovered routes are a snapshot's, each of them is
    served under its host, unless a static route has it. *)
Lemma snapshot_served st services p r addr :
  consistent st → discoveredRoutes st = kubernetes.Routes (kubernetes.BuildDiscoveredRoutes services p) →
  r ∈ discoveredRoutes st → (kubernetes.Host r ∉ discovery.static_hosts (Routes (staticConfig st))) →
  hostaddr.Normalize addr = Ok (kubernetes.Host r) →
  ∃ sel, router.Select (routeTable st) addr = Ok sel ∧ router.sel_Backend sel = kubernetes.Backend r ∧
    router.RouteSource sel = discovery.RouteSourceDiscovered.
Proof.
  intros Hc Hds Hr Hs Ha. destruct (consistent_table st Hc) as [-> Hok].
  pose proof (snapshot_admitted (Routes (staticConfig st)) services p r) as Had. cbn zeta in Had.
  rewrite Hds in Hr. specialize (Had Hr Hs). rewrite Hds in Hok |- *.
  set (cd := {| discovery.dc_Host := _; discovery.dc_Backend := _ |}) in Had.
  eapply (route_served _ (discovery.discovered_route cd)); [exact Hok| | | |exact Ha|done].
  - cbn [merged with_routes Routes]. rewrite MergeRoutes_routes, elem_of_SliceStable, elem_of_app. right.
    by apply list_elem_of_fmap_2.
  - left.
  - cbn. by eapply canonical_key, Normalize_canonical.
Qed.

(** Publishing snapshots that are not cancelled installs the last of them. *)
Lemma publish_last s sink results result :
  reachable s → last results = Some result →
  ∃ s' sink', publish s sink ((λ r, (r, (false, false, false))) <$> results) = Some (s', sink') ∧
    reachable s' ∧ rs_ready sink' = true ∧ discoveredRoutes (state s') = kubernetes.Routes result ∧
    staticConfig (state s') = staticConfig (state s).
Proof.
  revert s sink. induction results as [|r results IH]; intros s sink Hr Hl; [done|]. cbn [fmap list_fmap publish].
  unfold UpdateResult. destruct (discovery_update_ok s (kubernetes.Routes r) Hr) as (s1 & E & Hr1 & Hd & Hst & _).
  unfold snapshot_provider, kubernetes.ProviderRoutes, kubernetes.NewSnapshotProviderFromResult,
    kubernetes.NewSnapshotProvider. cbn [kubernetes.sp_routes]. rewrite E. cbn [mbind option_bind].
  destruct results as [|r' results].
  - cbn in Hl. injection Hl as ->. eexists _, _. split; [done|]. by rewrite Hst.
  - rewrite last_cons_cons in Hl. destruct (IH s1 {| rs_ready := true; rs_synced := true |} Hr1 Hl)
      as (s' & sink' & E' & Hr' & Hready & Hd' & Hst'). exists s', sink'. rewrite E'. by rewrite Hst', Hst.
Qed.

Lemma buildReload_inv cl kc result :
  buildReloadDiscoveryReport cl kc = Ok result →
  ∃ ns items, cl_list cl ns = Ok items ∧
    result = kubernetes.BuildDiscoveredRoutes (omap (λ svc, kubernetes.ToServiceInput (Some svc)) items)
               (kd_AnnotationPrefix kc).
Proof.
  unfold buildReloadDiscoveryReport, buildStartupDiscoveryReport. intros E.
  destruct (kubernetes.ResolveNamespace _ _ _) as [ns|]; [|done]. destruct (cl_inClusterConfig cl); [done|].
  destruct (cl_newClient cl); [done|]. unfold kubernetes.ListServices in E.
  destruct (cl_list cl ns) as [items|] eqn:El; [|done]. cbn in E. injection E as <-. by exists ns, items.
Qed.

(** A valid configuration without discovery loads. *)
Lemma startup_static cl c :
  config_ok c → kd_Enabled (di_Kubernetes (Discovery_ c)) = false →
  loadStartupWithDiscovery cl (Ok c) =
    Ok {| sl_Snapshot := snapshot_of (tokened c) []; sl_DiscoveryReport := None |}.
Proof.
  intros Hok Hk. unfold loadStartupWithDiscovery. cbn [res_bind]. rewrite Hk. cbn [negb].
  unfold RebuildRouteSnapshot. rewrite (Validate_accepts c Hok). fold (tokened c).
  by rewrite (BuildRouteSnapshot_eq _ [] (tokened_ok c Hok)).
Qed.

(** The snapshot of a start-up is that of the loaded configuration and of the services
    that were listed. *)
Lemma startup_snapshot cl loaded r :
  loadStartupWithDiscovery cl loaded = Ok r →
  ∃ c, loaded = Ok c ∧ config_ok c ∧
    sl_Snapshot r = snapshot_of (tokened c)
      match sl_DiscoveryReport r with None => [] | Some report => kubernetes.Routes (sd_Result report) end.
Proof.
  unfold loadStartupWithDiscovery. intros E. destruct loaded as [c|]; [|done]. cbn [res_bind] in E.
  assert (∀ ds snap, RebuildRouteSnapshot c ds = Ok snap → config_ok c ∧
    snap = snapshot_of (tokened c) match ds with Some (Ok l) => l | _ => [] end) as Hb.
  { intros ds snap Hsnap. unfold RebuildRouteSnapshot in Hsnap. pose proof (Validate_ok c) as Hv.
    destruct (Validate c) as [[e|] c'] eqn:Ev; [done|]. assert (config_ok c) as Hok by by apply Hv.
    rewrite Validate_accepts in Ev by done. injection Ev as <-. fold (tokened c) in Hsnap. split; [done|].
    destruct ds as [[l|]|]; [|done|]; by apply BuildRouteSnapshot_inv in Hsnap as [_ ->]. }
  exists c. split; [done|]. destruct (negb _).
  - destruct (RebuildRouteSnapshot c None) as [snap|] eqn:Es; [|done]. cbn in E. injection E as <-. by apply Hb in Es.
  - destruct (buildStartupDiscoveryReport _ _) as [report|]; [|done]. cbn [res_bind] in E.
    destruct (RebuildRouteSnapshot c _) as [snap|] eqn:Es; [|done]. cbn in E. injection E as <-. by apply Hb in Es.
Qed.

End lemmas.

(** ** Properties *)

Section properties.
Import config proxy discoverycmd.
Context `{Env} `{!EnvLaws} `{ErrorText}.

(** C4: Discovery end to end, for one undisturbed run of the watch: the services have been
    listed, the events received are no error events, the watch is not cancelled, no reload
    comes in between (which can undo what the watch published, see [reload_can_undo_watch])
    and the environment answers every validation alike, so that a configuration that was
    valid stays valid. Then the gateway it publishes to routes every host that exactly one
    of the current services declares, and that no static route has, to the backend this
    service declares; the static configuration is untouched and the start-up is told that
    discovery is ready. *)
Theorem service_becomes_route s sink namespace p order items events :
  reachable s → Forall (λ e, kubernetes.ev_Type e ≠ kubernetes.ErrorEvent) events →
  ∃ published services s' sink',
    kubernetes.Run namespace p order (Ok items) None (map kubernetes.Received events) = (published, None) ∧
    publish s sink ((λ r, (r, (false, false, false))) <$> published) = Some (s', sink') ∧
    reachable s' ∧ rs_ready sink' = true ∧ staticConfig (state s') = staticConfig (state s) ∧
    (∀ k, services !! k = fold_left (learns k) events (kubernetes.track_list items !! k)) ∧
    ∀ svc r addr,
      svc ∈ order services → declares (effective_prefix p) svc r →
      ¬ 1 < declared_times (effective_prefix p) (order services) (kubernetes.Host r) →
      (kubernetes.Host r ∉ discovery.static_hosts (Routes (staticConfig (state s)))) →
      hostaddr.Normalize addr = Ok (kubernetes.Host r) →
      ∃ sel, router.Select (routeTable (state s')) addr = Ok sel ∧
        router.sel_Backend sel = kubernetes.Backend r ∧
        router.RouteSource sel = discovery.RouteSourceDiscovered.
Proof.
  intros Hr Hev. destruct (Run_current namespace p order items events Hev) as (published & services & E & _ & Hl & Hs).
  destruct (publish_last s sink published _ Hr Hl) as (s' & sink' & Ep & Hr' & Hready & Hd & Hst).
  exists published, services, s', sink'. split_and!; [done..|]. intros svc r addr Hin Hdec Hone Hsta Ha.
  eapply (snapshot_served (state s') (order services) p); [by apply reachable_consistent_state|done| |by rewrite Hst|done].
  rewrite Hd. apply elem_of_Routes. split; [by exists svc|done].
Qed.

(** C26: A reload of a gateway that discovers services lists them again: it never panics;
    if it reports an error nothing of the published state has changed and no metric
    of skipped services is recorded; otherwise the loaded configuration is in place
    together with the routes of the services that were listed, or, without
    discovery, with the routes discovered before. *)
Theorem reload_relists kc cl s loaded :
  reachable s →
  ∃ e s' m, ReloadFile kc cl s loaded = Some (e, s', m) ∧
  match e with
  | Some _ => state s' = state s ∧ m = None
  | None => ∃ c, loaded = Ok c ∧ config_ok c ∧ consistent (state s') ∧ staticConfig (state s') = tokened c ∧
      if kd_Enabled kc then
        ∃ ns items, cl_list cl ns = Ok items ∧
          let result := kubernetes.BuildDiscoveredRoutes
                          (omap (λ svc, kubernetes.ToServiceInput (Some svc)) items) (kd_AnnotationPrefix kc) in
          discoveredRoutes (state s') = kubernetes.Routes result ∧ m = Some (kubernetes.SkippedByReason result)
      else discoveredRoutes (state s') = discoveredRoutes (state s) ∧ m = None
  end.
Proof.
  intros Hr. unfold ReloadFile. destruct (kd_Enabled kc); cbn [negb].
  - destruct loaded as [c|e]; [|by eexists (Some e), _, _].
    destruct (buildReloadDiscoveryReport cl kc) as [result|e] eqn:Er; [|by eexists (Some e), _, _].
    apply buildReload_inv in Er as (ns & items & El & ->). set (result := kubernetes.BuildDiscoveredRoutes _ _).
    unfold ReloadConfigWithDiscovery, snapshot_provider. cbn [discoveredRoutesFromProvider kubernetes.ProviderRoutes].
    cbn [kubernetes.sp_routes kubernetes.NewSnapshotProviderFromResult kubernetes.NewSnapshotProvider].
    destruct (reloadConfigLocked_cases s c (kubernetes.Routes result))
      as [(Hok & s' & -> & Hc & _ & Hst & Hd)|(_ & e & s' & -> & Hs)]; cbn [mbind option_bind].
    + eexists None, s', _. split; [done|]. exists c. split_and!; [done..|]. by exists ns, items.
    + by eexists (Some e), s', _.
  - unfold proxy.ReloadFile. destruct loaded as [c|e]; [|by eexists (Some e), _, _].
    destruct (reloadConfigLocked_cases s c (discoveredRoutes (state s)))
      as [(Hok & s' & -> & Hc & _ & Hst & Hd)|(_ & e & s' & -> & Hs)]; cbn [mbind option_bind].
    + eexists None, s', _. split; [done|]. by exists c.
    + by eexists (Some e), s', _.
Qed.

(** A start that loads its configuration has a server: the snapshot of the loaded
    configuration and the services listed does not make the server panic, whatever
    the services declare, and the server is one all other properties speak of. *)
Theorem startup_serves cl loaded r :
  loadStartupWithDiscovery cl loaded = Ok r →
  ∃ c s, loaded = Ok c ∧ config_ok c ∧ newServer (sl_Snapshot r) = Some s ∧ reachable s ∧
    discoveredRoutes (state s) =
      match sl_DiscoveryReport r with
      | None => []
      | Some report => kubernetes.Routes (sd_Result report)
      end.
Proof.
  intros (c & -> & Hok & Hs)%startup_snapshot. rewrite Hs. pose proof (tokened_ok c Hok) as Hok'.
  destruct (newServer_of (tokened c) match sl_DiscoveryReport r with
    | None => [] | Some report => kubernetes.Routes (sd_Result report) end Hok') as (s & En & _ & _ & _ & Hd).
  exists c, s. split_and!; [done..| |exact Hd].
  eapply reach_start; [by apply BuildRouteSnapshot_eq|exact En].
Qed.

(** When the first list of the services fails, for another reason than cancellation,
    nothing is published, the supervisor does not retry, and the start of the
    gateway fails with that error, unless its context ends first. *)
Theorem startup_fails_fast namespace p order e rest ctx o :
  errors_Is "context.Canceled" e = false → errors_Is "context.DeadlineExceeded" e = false →
  ∃ e', kubernetes.Run namespace p order (Err e) None [] = ([], Some (Some e')) ∧
    errors_Is "kubernetes.ErrServiceListFailed" e' = true ∧
    supervisor.Run false (turn_of [] (Some e') false false :: rest) = ([], Some (Some e')) ∧
    (starts false (Some (Some e')) ctx o → o = Failed e' ∨ ∃ c, ctx = Some c ∧ o = Failed c).
Proof.
  intros Hc Hd. eexists. split; [reflexivity|]. split; [done|]. split.
  - cbn. by rewrite Hc, Hd.
  - intros Hs. inversion Hs; subst; simplify_eq; [by left|right; by eexists].
Qed.

(** A reload can undo what the watch has published: when the services are listed for
    a reload, then change, and the watch publishes the change before the reload takes
    the server's lock, the gateway ends up with the routes of the old list. *)
Theorem reload_can_undo_watch s c new old :
  reachable s → config_ok c →
  ∃ s1 sink s2,
    publish s newRuntimeDiscoverySink [(new, (false, false, false))] = Some (s1, sink) ∧
    discoveredRoutes (state s1) = kubernetes.Routes new ∧
    ReloadConfigWithDiscovery s1 c (snapshot_provider old) = Some (None, s2) ∧
    discoveredRoutes (state s2) = kubernetes.Routes old.
Proof.
  intros Hr Hok. destruct (publish_last s newRuntimeDiscoverySink [new] new Hr eq_refl)
    as (s1 & sink & E & _ & _ & Hd & _). exists s1, sink.
  destruct (reloadConfigLocked_cases s1 c (kubernetes.Routes old)) as [(_ & s2 & E2 & _ & _ & _ & Hd2)|[? _]]; [|done].
  exists s2. done.
Qed.

End properties.

(** ** Witnesses *)

Section witnesses.
Import config proxy discoverycmd.
#[local] Existing Instance Config.sample_env.
#[local] Existing Instance Config.sample_env_laws.
#[local] Existing Instance Server.no_text.

Definition sample_event : kubernetes.Event :=
  {| kubernetes.ev_Type := kubernetes.Added;
     kubernetes.ev_Object := Some (sample_service gs"lobby" gs"lobby.example.org") |}.

Definition sample_cluster : cluster := {|
  cl_readFile := λ _, Ok gs"games"; cl_inClusterConfig := None; cl_newClient := None;
  cl_list := λ _, Ok [sample_service gs"lobby" gs"lobby.example.org"] |}.

Definition sample_discovery : KubernetesDiscovery :=
  {| kd_Enabled := true; kd_Namespace := gs"games"; kd_Mode := []; kd_AnnotationPrefix := [] |}.

Lemma service_becomes_route_witness :
  ∃ s s' sink' published,
    reachable s ∧
    kubernetes.Run gs"games" [] in_order (Ok []) None (map kubernetes.Received [sample_event]) = (published, None) ∧
    publish s newRuntimeDiscoverySink ((λ r, (r, (false, false, false))) <$> published) = Some (s', sink') ∧
    rs_ready sink' = true.
Proof.
  destruct sample_started as (s & _ & Hr & _).
  destruct (service_becomes_route s newRuntimeDiscoverySink gs"games" [] in_order [] [sample_event] Hr)
    as (published & services & s' & sink' & H1 & H2 & _ & H3 & _).
  - constructor; [discriminate|constructor].
  - exists s, s', sink', published. split; [exact Hr|]. split; [exact H1|]. split; [exact H2|exact H3].
Defined.

Lemma reload_relists_witness :
  ∃ s e s' m, reachable s ∧ ReloadFile sample_discovery sample_cluster s (Ok sample_config) = Some (e, s', m).
Proof.
  destruct sample_started as (s & _ & Hr & _).
  destruct (reload_relists sample_discovery sample_cluster s (Ok sample_config) Hr) as (e & s' & m & E & _).
  exists s, e, s', m. split; [exact Hr|exact E].
Defined.

Lemma startup_serves_witness :
  ∃ r s, loadStartupWithDiscovery sample_cluster (Ok sample_config) = Ok r ∧ newServer (sl_Snapshot r) = Some s.
Proof.
  pose proof (startup_static sample_cluster sample_config sample_config_ok eq_refl) as E.
  destruct (startup_serves sample_cluster (Ok sample_config) _ E) as (c & s & _ & _ & Hs & _).
  eexists _, s. split; [exact E|exact Hs].
Defined.

Lemma startup_fails_fast_witness :
  ∃ e', kubernetes.Run gs"games" [] in_order (Err (errors_New "forbidden")) None [] = ([], Some (Some e')) ∧
    supervisor.Run false [turn_of [] (Some e') false false] = ([], Some (Some e')).
Proof.
  destruct (startup_fails_fast gs"games" [] in_order (errors_New "forbidden") [] None Running) as (e' & H1 & _ & H2 & _);
    [reflexivity|reflexivity|].
  exists e'. split; [exact H1|exact H2].
Defined.

Lemma reload_can_undo_watch_witness :
  let new := kubernetes.BuildDiscoveredRoutes
    (omap (λ svc, kubernetes.ToServiceInput (Some svc)) [sample_service gs"lobby" gs"lobby.example.org"]) [] in
  let old := kubernetes.BuildDiscoveredRoutes [] [] in
  ∃ s s1 sink s2,
    reachable s ∧ publish s newRuntimeDiscoverySink [(new, (false, false, false))] = Some (s1, sink) ∧
    length (discoveredRoutes (state s1)) = 1%nat ∧
    ReloadConfigWithDiscovery s1 sample_config (snapshot_provider old) = Some (None, s2) ∧
    discoveredRoutes (state s2) = [].
Proof.
  cbv zeta. set (new := kubernetes.BuildDiscoveredRoutes _ _). set (old := kubernetes.BuildDiscoveredRoutes [] []).
  destruct sample_started as (s & _ & Hr & _).
  destruct (reload_can_undo_watch s sample_config new old Hr sample_config_ok) as (s1 & sink & s2 & H1 & H2 & H3 & H4).
  exists s, s1, sink, s2. split; [exact Hr|]. split; [exact H1|].
  split; [rewrite H2; vm_compute; reflexivity|]. split; [exact H3|]. rewrite H4. vm_compute. reflexivity.
Defined.

End witnesses.
