(* ===== verification/DiscoveryRun.v ===== *)
(** * The running watch ([cmd/mc-gateway/discovery_runtime.go]): its goroutine and its metrics

    [startKubernetesRuntimeDiscovery] runs the supervisor in a goroutine of its own, which
    records that the watch runs, what made it restart and how it ended, and reports its
    end on a channel of capacity one; the caller waits until the first snapshot is there,
    and [Stop] cancels the watch and waits for the report. *)
From S2P Require Import Prelude GoUnicode GoStrings GoNet GoIO HostAddr Tables GoSort.
From S2P Require Import RateLimit Config Kubernetes Metrics WatchSupervisor Merge Router Server DiscoveryCmd.
Open Scope Z_scope.

Module discoveryrun.
Import metrics discoverycmd.

(** ** What the goroutine records *)

(** The [OnRetry] callback. *)
Definition retry_ops (r : supervisor.retry) : list op :=
  [OWatchRestart (kubernetesWatchRestartReason (supervisor.r_error r));
   ODiscoveryError (kubernetesDiscoveryErrorReason (supervisor.r_error r))].

(** After the supervisor has returned [err]; [cancelled] is whether the context is done. *)
Definition end_ops (err : option error) (cancelled : bool) : list op :=
  OWatchRunning false ::
  match err with
  | Some e => if cancelled then [] else [ODiscoveryError (kubernetesDiscoveryErrorReason e)]
  | None => []
  end.

(** The whole goroutine, for the retries and the end that the supervisor has. *)
Definition watch_ops (run : list supervisor.retry * option (option error)) (cancelled : bool) : list op :=
  [OWatchRunning true] ++ concat (retry_ops <$> run.1) ++
  match run.2 with Some err => end_ops err cancelled | None => [] end.

(** The reasons a series can have. *)
Definition restart_reasons : list bytes :=
  [gs"list_failed"; gs"watch_closed"; gs"watch_error"; gs"watch_setup_failed"; gs"unknown"].
Definition error_reasons : list bytes :=
  [gs"initial_list_failed"; gs"watch_closed"; gs"watch_error"; gs"watch_setup_failed"; gs"unknown"].

Definition watch_series : list series :=
  unlabelled ++
  ((λ r, (gs"mc_gateway_kubernetes_watch_restarts_total", [r])) <$> restart_reasons) ++
  ((λ r, (gs"mc_gateway_kubernetes_discovery_errors_total", [r])) <$> error_reasons).

(** ** Starting and stopping *)

(** The caller: in the last [select] of the start; with a running watch; with an error;
    waiting in [Stop]; after it. *)
Inductive caller := Selecting | Watching | Refused (e : error) | Stopping | Stopped.

(** [finished]: the supervisor has returned and its result was sent; [done]: the channel. *)
Record state := {
  who : caller;
  ready : bool;
  cancelled : bool;
  finished : bool;
  done : list (option error)
}.

Definition start : state := {| who := Selecting; ready := false; cancelled := false; finished := false; done := [] |}.

Definition call (s : state) (c : caller) (cancel : bool) (ch : list (option error)) : state := {|
  who := c; ready := ready s; cancelled := cancelled s || cancel; finished := finished s; done := ch |}.

(** The context ends, and with it the watch's; the watch publishes its first snapshot; the
    supervisor ends, sooner or later when it is cancelled; the [select] takes one of its
    cases ([ctx] is the error of the context, when it is done); [Stop] cancels and
    receives. *)
Inductive step : state → state → Prop :=
| step_cancel s : step s (call s (who s) true (done s))
| step_ready s :
    finished s = false →
    step s {| who := who s; ready := true; cancelled := cancelled s; finished := false; done := done s |}
| step_finish s err :
    finished s = false →
    step s {| who := who s; ready := ready s; cancelled := cancelled s; finished := true; done := done s ++ [err] |}
| step_watching s : who s = Selecting → ready s = true → step s (call s Watching false (done s))
| step_failed s err ch :
    who s = Selecting → done s = err :: ch →
    step s (call s (Refused (default (errors_New "Kubernetes Service watch controller stopped before becoming ready") err))
              true ch)
| step_ctx s ctx : who s = Selecting → cancelled s = true → step s (call s (Refused ctx) true (done s))
| step_stop s : who s = Watching → step s (call s Stopping true (done s))
| step_stopped s err ch : who s = Stopping → done s = err :: ch → step s (call s Stopped false ch).

End discoveryrun.

(** ** Lemmas *)

Section lemmas.
Import metrics discoverycmd discoveryrun.

Lemma restart_reason_listed e : kubernetesWatchRestartReason e ∈ restart_reasons.
Proof. unfold kubernetesWatchRestartReason. repeat case_match; apply (bool_decide_unpack _); vm_compute; exact I. Qed.

Lemma error_reason_listed e : kubernetesDiscoveryErrorReason e ∈ error_reasons.
Proof. unfold kubernetesDiscoveryErrorReason. repeat case_match; apply (bool_decide_unpack _); vm_compute; exact I. Qed.

(** The operations of the goroutine, how often they restart and how often they err. *)
Definition watch_op (o : op) : Prop :=
  match o with
  | OWatchRunning _ => True
  | OWatchRestart reason => reason ∈ restart_reasons
  | ODiscoveryError reason => reason ∈ error_reasons
  | _ => False
  end.

Definition running_after (v : Z) (o : op) : Z := match o with OWatchRunning b => if b then 1 else 0 | _ => v end.
Definition restarts (o : op) : Z := match o with OWatchRestart _ => 1 | _ => 0 end.
Definition errors (o : op) : Z := match o with ODiscoveryError _ => 1 | _ => 0 end.

Record watch_shows (r : Recorder) (v res err : Z) : Prop := {
  ws_ready : metrics.enabled r = true ∧ ∀ d, d ∈ descriptors → registry r !! d.1 = Some d.2;
  ws_series : ∀ s, is_Some (values r !! s) → s ∈ watch_series;
  ws_running : value r (gs"mc_gateway_kubernetes_watch_running", []) = v;
  ws_restarts : total r gs"mc_gateway_kubernetes_watch_restarts_total" = res;
  ws_errors : total r gs"mc_gateway_kubernetes_discovery_errors_total" = err
}.

Lemma restart_series e : e ∈ restart_reasons → (gs"mc_gateway_kubernetes_watch_restarts_total", [e]) ∈ watch_series.
Proof. intros Hx. unfold watch_series. rewrite !elem_of_app, !list_elem_of_fmap. right. left. by exists e. Qed.

Lemma error_series e : e ∈ error_reasons → (gs"mc_gateway_kubernetes_discovery_errors_total", [e]) ∈ watch_series.
Proof. intros Hx. unfold watch_series. rewrite !elem_of_app, !list_elem_of_fmap. right. right. by exists e. Qed.

Lemma running_series : (gs"mc_gateway_kubernetes_watch_running", []) ∈ watch_series.
Proof. by_evaluation. Qed.

(** The reasons are constants of the code, in UTF-8. *)
Lemma reason_valid e reasons :
  forallb utf8.Valid reasons = true → e ∈ reasons → forallb utf8.Valid [e] = true.
Proof. rewrite !forallb_forall. intros Hv He x [<-|[]]. by apply Hv, list_elem_of_In. Qed.

Lemma watch_op_shows r o v res err :
  watch_shows r v res err → watch_op o →
  wp (apply r o) (λ r', watch_shows r' (running_after v o) (res + restarts o) (err + errors o)).
Proof.
  intros [Hr Hs Hv Hre He] Ho. pose proof Hr as [Hon _].
  assert (forallb utf8.Valid (texts o) = true) as Hval
    by (destruct o; try contradiction; first [done | eapply reason_valid; [|exact Ho]; vm_compute; reflexivity]).
  destruct o; try contradiction; cbn [apply texts] in *; autounfold with recorder; rewrite Hon; cbn [negb];
    [destruct running| |]; run_updates; split; try exact Hr;
    cbn [running_after restarts errors]; follow_updates; try lia; apply series_updated; try exact Hs.
  - exact running_series.
  - exact running_series.
  - by apply restart_series.
  - by apply error_series.
Qed.

Lemma watch_ops_show r os v res err :
  watch_shows r v res err → Forall watch_op os →
  ∃ r', applies r os = Some r' ∧
    watch_shows r' (foldl running_after v os) (res + foldr (λ o n, restarts o + n) 0 os)
                   (err + foldr (λ o n, errors o + n) 0 os).
Proof.
  revert r v res err. induction os as [|o os IH]; intros r v res err Hr Hos; cbn [applies foldl foldr].
  { exists r. by rewrite !Z.add_0_r. }
  apply Forall_cons in Hos as [Ho Hos]. pose proof (watch_op_shows r o v res err Hr Ho) as Ha.
  destruct (apply r o) as [r1|]; [|destruct Ha]. destruct (IH r1 _ _ _ Ha Hos) as (r' & E & Hr').
  exists r'. split; [exact E|]. by rewrite !Z.add_assoc.
Qed.

Lemma new_watch_shows : ∃ r, NewRecorder true = Some r ∧ watch_shows r 0 0 0.
Proof.
  destruct new_ready as (r & E & Hr & Hv & Ht & Hs). exists r. split; [exact E|]. split; [exact Hr|..]; [|apply Hv|apply Ht..].
  intros s Hin%Hs. unfold watch_series. rewrite elem_of_app. left. exact Hin.
Qed.

(** The operations of the goroutine in these terms. *)
Lemma watch_ops_known run c : Forall watch_op (watch_ops run c).
Proof.
  unfold watch_ops, end_ops. repeat apply Forall_app_2; [by repeat constructor|..].
  - induction run.1 as [|r rs IH]; [constructor|]. rewrite fmap_cons. cbn [concat]. apply Forall_app_2; [|done].
    apply Forall_cons_2; [apply restart_reason_listed|]. apply Forall_cons_2; [apply error_reason_listed|constructor].
  - destruct run.2 as [[e|]|]; [destruct c|..]; try by repeat constructor.
    apply Forall_cons_2; [done|]. apply Forall_cons_2; [apply error_reason_listed|constructor].
Qed.

Definition erred (fin : option (option error)) (c : bool) : Z :=
  match fin with Some (Some _) => if c then 0 else 1 | _ => 0 end.

Lemma retries_counted_ops rs rest v :
  foldl running_after v (concat (retry_ops <$> rs) ++ rest) = foldl running_after v rest ∧
  foldr (λ o n, restarts o + n) 0 (concat (retry_ops <$> rs) ++ rest) =
    zlen rs + foldr (λ o n, restarts o + n) 0 rest ∧
  foldr (λ o n, errors o + n) 0 (concat (retry_ops <$> rs) ++ rest) = zlen rs + foldr (λ o n, errors o + n) 0 rest.
Proof.
  induction rs as [|r rs (IH1 & IH2 & IH3)]; [done|]. rewrite fmap_cons. cbn [concat].
  unfold retry_ops at 1 3 5. cbn [app foldl foldr running_after restarts errors]. rewrite IH1, IH2, IH3.
  unfold zlen. cbn [length]. split_and!; [done|lia..].
Qed.

Lemma watch_ops_counts rs fin c v :
  foldl running_after v (watch_ops (rs, fin) c) = (if fin is Some _ then 0 else 1) ∧
  foldr (λ o n, restarts o + n) 0 (watch_ops (rs, fin) c) = zlen rs ∧
  foldr (λ o n, errors o + n) 0 (watch_ops (rs, fin) c) = zlen rs + erred fin c.
Proof.
  unfold watch_ops. cbn [fst snd app foldl foldr running_after restarts errors].
  destruct (retries_counted_ops rs match fin with Some err => end_ops err c | None => [] end 1) as (-> & -> & ->).
  destruct fin as [[e|]|]; [destruct c|..]; cbn; split_and!; lia.
Qed.

(** ** Lemmas: the caller and the goroutine *)

(** Whoever watches, or waits in [Stop], has not received the report yet; once stopped
    the goroutine is done. *)
Definition inv (s : state) : Prop :=
  match who s with
  | Selecting | Watching => length (done s) = (if finished s then 1 else 0)%nat
  | Stopping => length (done s) = (if finished s then 1 else 0)%nat ∧ cancelled s = true
  | Stopped => finished s = true ∧ done s = []
  | Refused _ => (length (done s) ≤ 1)%nat ∧ cancelled s = true ∧ (finished s = false → done s = [])
  end.

Lemma run_step_inv s s' : step s s' → inv s → inv s'.
Proof.
  unfold inv. intros Hs Hi. destruct Hs; destruct s as [w rd ca fi cs]; cbn in *; subst; cbn in *.
  - destruct w; rewrite ?orb_true_r; naive_solver.
  - destruct w; naive_solver.
  - destruct w; rewrite ?length_app; cbn; naive_solver lia.
  - done.
  - destruct fi; cbn in Hi; [|lia]. split_and!; [lia|by rewrite orb_true_r|done].
  - rewrite ?orb_true_r. destruct fi; split_and!; try lia; try done. intros _. by apply nil_length_inv.
  - by rewrite orb_true_r.
  - destruct Hi as [Hi _]. destruct fi; cbn in Hi; [|lia]. split; [done|]. apply nil_length_inv. lia.
Qed.

Lemma runs_inv_run s : rtc step start s → inv s.
Proof.
  intros Hs. assert (inv start) as H0 by done. induction Hs as [|s0 s1 s2 H1 _ IH]; [done|]. by eapply IH, run_step_inv.
Qed.

End lemmas.

(** ** Properties *)

Section properties.
Import metrics discoverycmd discoveryrun.

(** The metrics of the watch say what it does: for everything the watch and its
    supervisor can do, no call of the recorder panics, besides the metrics without labels only ten series
    exist, the
    watch is shown as running exactly until the supervisor has returned, there is one
    restart for each retry, and one error for each retry and one more when the
    supervisor ends with an error although it was not cancelled. *)
Theorem watch_recorded seen attempt turns c :
  let run := supervisor.supervise seen attempt turns in
  length watch_series = (length unlabelled + 10)%nat ∧
  ∃ r0 r, NewRecorder true = Some r0 ∧ applies r0 (watch_ops run c) = Some r ∧
    (∀ s, is_Some (values r !! s) → s ∈ watch_series) ∧
    value r (gs"mc_gateway_kubernetes_watch_running", []) = (if run.2 is Some _ then 0 else 1) ∧
    total r gs"mc_gateway_kubernetes_watch_restarts_total" = zlen run.1 ∧
    total r gs"mc_gateway_kubernetes_discovery_errors_total" = zlen run.1 + erred run.2 c.
Proof.
  cbv zeta. destruct (supervisor.supervise seen attempt turns) as [retries fin]. cbn [fst snd].
  split; [vm_compute; reflexivity|]. destruct new_watch_shows as (r0 & E0 & H0). exists r0.
  destruct (watch_ops_show r0 _ 0 0 0 H0 (watch_ops_known (retries, fin) c)) as (r & E & [_ Hs Hv Hr He]).
  destruct (watch_ops_counts retries fin c 0) as (E1 & E2 & E3). rewrite E1, E2, E3 in *.
  exists r. split; [exact E0|]. split; [exact E|]. split; [exact Hs|]. split_and!; [exact Hv|lia..].
Qed.

(** C35: [Stop] is safe to call: in every interleaving of the start, the watch and [Stop],
    the report of the goroutine is never lost, so that [Stop] always gets it once the
    supervisor has ended - which it is told to -, and when [Stop] has returned the
    goroutine has ended; the goroutine is never stuck on its report. *)
Theorem stop_waits_for_watch s :
  rtc step start s →
  (length (done s) ≤ 1)%nat ∧
  (finished s = false → done s = []) ∧
  (who s = Stopping → cancelled s = true ∧
     (finished s = true → ∃ s', step s s' ∧ who s' = Stopped) ∧
     (finished s = false → ∃ s', step s s' ∧ finished s' = true)) ∧
  (who s = Stopped → finished s = true).
Proof.
  intros Hs%runs_inv_run. unfold inv in Hs.
  assert ((length (done s) ≤ 1)%nat ∧ (finished s = false → done s = [])) as [H1 H2].
  { destruct (who s); destruct_and?; destruct (finished s); (split; [|first [done | by intros _; apply nil_length_inv | auto]]);
      try lia. rewrite H0. cbn. lia. }
  split; [done|]. split; [done|]. split; intros Hw; rewrite Hw in Hs; [|by destruct Hs].
  destruct Hs as [Hl Hc]. split; [done|]. split; intros Hf; rewrite Hf in Hl.
  - destruct (done s) as [|err ch] eqn:E; [done|]. eexists. split; [by apply (step_stopped s err ch)|done].
  - eexists. split; [by apply (step_finish s None)|done].
Qed.

End properties.

(** ** Witnesses *)

Section witnesses.
Import discoveryrun.

(** A watch that becomes ready, then fails, and is stopped afterwards. *)
Lemma stop_waits_for_watch_witness :
  ∃ s, rtc step start s ∧ who s = Stopped ∧ finished s = true.
Proof.
  set (s := {| who := Stopped; ready := true; cancelled := true; finished := true; done := [] |}).
  assert (rtc step start s) as Hs.
  { eapply rtc_l; [by apply step_ready|]. eapply rtc_l; [by apply step_watching|].
    eapply rtc_l; [by apply (step_finish _ (Some (errors_New "watch failed")))|].
    eapply rtc_l; [by apply step_stop|]. eapply rtc_l; [by apply (step_stopped _ (Some (errors_New "watch failed")) [])|]. apply rtc_refl. }
  exists s. split; [exact Hs|]. split; [reflexivity|].
  destruct (stop_waits_for_watch s Hs) as (_ & _ & _ & H). apply H. reflexivity.
Defined.

End witnesses.
