(* ===== verification/Main.v ===== *)
(** * The command ([cmd/mc-gateway/main.go])

    How the gateway's parts are started from the validated configuration, and how the
    process comes to an end: a part that fails to start takes those started before it
    with it, and when one of the running parts ends the others are closed and waited
    for. What the network answers when a part resolves names and binds its listeners
    is a record of type [network]. *)
From S2P Require Import Prelude GoUnicode GoStrings GoNet GoIO HostAddr Tables GoSort.
From S2P Require Import McProto SessionPool UdpRelay VoicePacket VoiceChat ClientPolicy ProxyProtocol RateLimit.
From S2P Require Import BedrockRoute BedrockProxy Config Kubernetes Metrics Merge Router Server DiscoveryCmd.
Import gostrings.
Open Scope Z_scope.

Module gateway.
Import config.

(** [net.ResolveUDPAddr], and the errors of binding a UDP and a RakNet listener. *)
Record network := {
  n_resolve : bytes → res net.UDPAddr;
  n_listenUDP : bytes → option error;
  n_listenRakNet : bytes → option error
}.

Definition udpRelayRuntime : Type := udprelay.Relay * udprelay.staticBackendResolver.

Definition startUDPRelay (n : network) (c : Config) : res (option udpRelayRuntime) :=
  let u := UDPRelay_ c in
  if negb (ur_Enabled u) then Ok None
  else
    let? relay := udprelay.New (err_of (n_resolve n (ur_Listen u)))
      (udprelay.NewStaticBackendResolver (n_resolve n) (ur_Backend u)) (n_listenUDP n (ur_Listen u))
      {| udprelay.Listen := ur_Listen u; udprelay.Backend := ur_Backend u;
         udprelay.IdleTimeout := ur_IdleTimeout u; udprelay.BackendDialTimeout := ur_BackendDialTimeout u;
         udprelay.MaxSessions := ur_MaxSessions u; udprelay.MaxPacketSize := ur_MaxPacketSize u |} in
    Ok (Some relay).

(** The Bedrock part is a host proxy or a relay with a resolver of named backends. *)
Inductive bedrockRuntime {P : Type} :=
| HostProxy (proxy : bedrockproxy.Proxy P)
| Forward (relay : udprelay.Relay) (resolver : udprelay.namedBackendResolver).
Arguments bedrockRuntime : clear implicits.

Definition host_route (r : BedrockRoute) : bedrockroute.Route := {|
  bedrockroute.Name := br_Name r; bedrockroute.Hosts := br_Hosts r; bedrockroute.Backend := br_Backend r |}.

Definition named_route (r : BedrockRoute) : udprelay.NamedBackendRoute := {|
  udprelay.nr_Name := br_Name r; udprelay.nr_Backend := br_Backend r |}.

Definition startBedrock {P} (n : network) (c : Config) : res (option (bedrockRuntime P)) :=
  let b := Bedrock_ c in
  if negb (be_Enabled b) then Ok None
  else
    let mode := if decide (be_Mode b = []) then BedrockModeUDPForward else be_Mode b in
    if decide (mode = BedrockModeHostProxy) then
      let? proxy := bedrockproxy.New
        {| bedrockproxy.Listen := be_Listen b; bedrockproxy.DefaultBackend := be_DefaultBackend b;
           bedrockproxy.Routes := map host_route (be_Routes b);
           bedrockproxy.BackendDialTimeout := BackendDialTimeout c |} (n_listenRakNet n (be_Listen b)) in
      Ok (Some (HostProxy proxy))
    else
      let? resolver := udprelay.NewNamedBackendResolver (n_resolve n) (be_DefaultBackend b)
        (map named_route (be_Routes b)) in
      let? relay := udprelay.New (err_of (n_resolve n (be_Listen b))) (Ok resolver) (n_listenUDP n (be_Listen b))
        {| udprelay.Listen := be_Listen b; udprelay.Backend := [];
           udprelay.IdleTimeout := be_SessionTimeout b; udprelay.BackendDialTimeout := BackendDialTimeout c;
           udprelay.MaxSessions := MaxUDPRelaySessions; udprelay.MaxPacketSize := MaxUDPRelayPacketSize |} in
      Ok (Some (Forward relay.1 relay.2)).

(** The map of the backends of [voicechat.Config]: address and token. *)
Definition voice_backends_of (m : gmap bytes VoiceBackend) : gmap bytes (bytes * bytes) :=
  (λ b, (vb_UDP b, Token b)) <$> m.

(** [visit] is the order in which [NewRuntime] visits that map. *)
Definition startVoiceChat (n : network) (visit : gmap bytes (bytes * bytes) → list (bytes * (bytes * bytes)))
    (c : Config) : res (option voice.Runtime) :=
  let v := VoiceChat_ c in
  let reg := vc_Registration v in
  let ses := vc_Session v in
  if negb (vc_Enabled v) then Ok None
  else
    let? runtime := voice.NewRuntime (n_resolve n) (n_listenUDP n (vc_Listen v))
      {| voice.Listen := vc_Listen v; voice.RegistrationListen := vr_Listen reg;
         voice.RegistrationTTL := vr_RegistrationTTL reg; voice.RequestTimeout := vr_RequestTimeout reg;
         voice.MaxRegistrations := vr_MaxRegistrations reg; voice.IdleTimeout := vs_IdleTimeout ses;
         voice.BackendDialTimeout := vs_BackendDialTimeout ses; voice.MaxSessions := vs_MaxSessions ses;
         voice.MaxPacketSize := vs_MaxPacketSize ses |}
      (visit (voice_backends_of (vc_Backends v))) in
    Ok (Some runtime).

(** ** Starting and stopping the parts *)

(** The parts that deliver an error, or none, on a channel when they end. *)
Inductive part := Metrics | UDP | Bedrock | Voice.

(** What the main goroutine does to bring the process to an end. Receiving from the
    channel of a part, or of the proxy, waits until the part has ended. *)
Inductive action :=
| Cancel
| ClosePart (p : part)
| AwaitPart (p : part)
| ShutdownProxy
| AwaitProxy.

Section stopping.
(** Which parts are running; and whether the metrics server has ended by itself when
    [waitMetricsShutdown] looks, so that it is not shut down. *)
Context (ended : bool) (running : part → bool).

(** [waitMetricsShutdown], [waitUDPRelayShutdown], [waitBedrockShutdown] and
    [waitVoiceChatShutdown]. *)
Definition wait (p : part) : list action :=
  if running p then
    match p with
    | Metrics => if ended then [AwaitPart p] else [ClosePart p; AwaitPart p]
    | _ => [ClosePart p; AwaitPart p]
    end
  else [].

(** Which channel [waitForServers] receives from first, with what was received. *)
Inductive arrival :=
| ProxyEnded (e : option error)
| PartEnded (p : part) (e : option error).

(** [waitForServers]: the actions, and the error it returns; [proxyErr] is what the
    proxy's channel gives. *)
Definition waitForServers (a : arrival) (proxyErr : option error) : list action * option error :=
  match a with
  | ProxyEnded e => ([Cancel] ++ wait Voice ++ wait Bedrock ++ wait UDP ++ wait Metrics, e)
  | PartEnded Metrics e =>
      ([Cancel] ++ wait Voice ++ wait Bedrock ++ wait UDP ++ [ShutdownProxy; AwaitProxy],
       match e with Some _ => e | None => proxyErr end)
  | PartEnded UDP e => ([Cancel] ++ wait Voice ++ wait Bedrock ++ [ShutdownProxy] ++ wait Metrics, e)
  | PartEnded Bedrock e => ([Cancel] ++ wait Voice ++ wait UDP ++ [ShutdownProxy] ++ wait Metrics, e)
  | PartEnded Voice e => ([Cancel] ++ wait Bedrock ++ wait UDP ++ [ShutdownProxy] ++ wait Metrics, e)
  end.

End stopping.

(** What the starts give: an error, or whether the part is running. *)
Record attempts := {
  a_metrics : res bool;
  a_udp : res bool;
  a_bedrock : res bool;
  a_voice : res bool;
  a_availability : option error;
  a_watch : option error
}.

Definition only (m u b v : bool) (p : part) : bool :=
  match p with Metrics => m | UDP => u | Bedrock => b | Voice => v end.

(** The starts of [run] after discovery: the running parts, or the error and the
    actions before it is returned. *)
Definition start_parts (ended : bool) (a : attempts) : (part → bool) + (error * list action) :=
  match a_metrics a with
  | Err e => inr (e, [])
  | Ok m =>
      match a_udp a with
      | Err e => inr (e, [Cancel] ++ wait ended (only m false false false) Metrics)
      | Ok u =>
          match a_bedrock a with
          | Err e => let r := only m u false false in inr (e, [Cancel] ++ wait ended r UDP ++ wait ended r Metrics)
          | Ok b =>
              match a_voice a with
              | Err e => let r := only m u b false in inr (e, [Cancel] ++ wait ended r Bedrock ++ wait ended r UDP ++ wait ended r Metrics)
              | Ok v =>
                  let r := only m u b v in
                  let undo := [Cancel] ++ wait ended r Voice ++ wait ended r Bedrock ++ wait ended r UDP ++ wait ended r Metrics in
                  match a_availability a with
                  | Some e => inr (e, undo)
                  | None => match a_watch a with Some e => inr (e, undo) | None => inl r end
                  end
              end
          end
      end
  end.

(** [run] after discovery: the actions until it returns, and its error. *)
Definition run (ended : bool) (a : attempts) (first : arrival) (proxyErr : option error) : list action * option error :=
  match start_parts ended a with
  | inr (e, actions) => (actions, Some e)
  | inl running =>
      let '(actions, e) := waitForServers ended running first proxyErr in
      (actions, match e with
                | Some err => if errors_Is "context.Canceled" err then None else e
                | None => None
                end)
  end.

(** ** Discovery metrics and reload signals *)

(** [recordStartupDiscoveryMetrics]; [None] is a panic of the recorder. *)
Definition recordStartupDiscoveryMetrics (r : metrics.Recorder)
    (report : option discoverycmd.startupDiscoveryReport) : option metrics.Recorder :=
  match report with
  | None => Some r
  | Some rep => metrics.KubernetesSkippedServicesByReason r (kubernetes.SkippedByReason (discoverycmd.sd_Result rep))
  end.

Section signals.
Context `{Env} `{ErrorText}.

(** The loop of [serveReloadSignals]: whether a signal is in the channel, which has room
    for one; how many signals the process got, and how many of them it had got when the
    last reload began; the server. *)
Record signal_loop := { sl_pending : bool; sl_got : nat; sl_seen : nat; sl_server : proxy.Server }.

(** A signal arrives, and is dropped if one is already waiting; or the loop takes the
    one that waits and reloads, whatever the file and the cluster have by then. *)
Inductive serveReloadSignals (kc : KubernetesDiscovery) : signal_loop → signal_loop → Prop :=
| signal_arrives l :
    serveReloadSignals kc l {| sl_pending := true; sl_got := S (sl_got l); sl_seen := sl_seen l; sl_server := sl_server l |}
| signal_taken l cl loaded e s' m :
    sl_pending l = true → discoverycmd.ReloadFile kc cl (sl_server l) loaded = Some (e, s', m) →
    serveReloadSignals kc l {| sl_pending := false; sl_got := sl_got l; sl_seen := sl_got l; sl_server := s' |}.

End signals.

End gateway.

(** ** Lemmas: the parts start *)

#[local] Existing Instance udprelay.static_resolver.
#[local] Existing Instance udprelay.named_resolver.

Section starting.
Import config gateway.
Context `{Env}.

(** The address of a backend resolves to one that can be a backend. *)
Definition resolves (n : network) (backend : bytes) : Prop :=
  ∃ addr, n_resolve n backend = Ok addr ∧ udprelay.validateBackendAddr addr = None.

Definition binds (n : network) (listen : bytes) : Prop :=
  is_ok (n_resolve n listen) = true ∧ n_listenUDP n listen = None ∧ n_listenRakNet n listen = None.

(** The network gives the enabled parts what they ask for. *)
Record serves (n : network) (c : Config) : Prop := {
  serves_udp : ur_Enabled (UDPRelay_ c) = true →
    binds n (ur_Listen (UDPRelay_ c)) ∧ resolves n (ur_Backend (UDPRelay_ c));
  serves_bedrock : be_Enabled (Bedrock_ c) = true →
    binds n (be_Listen (Bedrock_ c)) ∧ resolves n (be_DefaultBackend (Bedrock_ c)) ∧
    Forall (λ r, resolves n (br_Backend r)) (be_Routes (Bedrock_ c));
  serves_voice : vc_Enabled (VoiceChat_ c) = true →
    binds n (vc_Listen (VoiceChat_ c)) ∧ map_Forall (λ _ b, resolves n (vb_UDP b)) (vc_Backends (VoiceChat_ c))
}.

Lemma resolveBackend_resolves n b : resolves n b → ∃ addr, udprelay.resolveBackend (n_resolve n) b = Ok addr.
Proof. intros (addr & E & Hv). exists addr. unfold udprelay.resolveBackend. by rewrite E, Hv. Qed.

(** [udprelay.New] with positive limits and a network that binds. *)
Lemma relay_new {R} n (cfg : udprelay.Config) (r : R) :
  binds n (udprelay.Listen cfg) → 0 < udprelay.IdleTimeout cfg → 0 < udprelay.BackendDialTimeout cfg →
  0 < udprelay.MaxSessions cfg → 0 < udprelay.MaxPacketSize cfg →
  ∃ relay, udprelay.New (err_of (n_resolve n (udprelay.Listen cfg))) (Ok r) (n_listenUDP n (udprelay.Listen cfg)) cfg
             = Ok (relay, r).
Proof.
  intros (Hr & Hl & _) H1 H2 H3 H4. unfold udprelay.New.
  rewrite !(proj2 (Z.leb_gt _ _)) by done. rewrite (proj2 (err_of_None _) Hr), Hl. cbn. by eexists.
Qed.

Lemma resolve_routes_ok n routes m :
  NoDup (br_Name <$> routes) → Forall (λ r, resolves n (br_Backend r)) routes →
  (∀ r, r ∈ routes → m !! br_Name r = None) →
  is_ok (udprelay.resolve_routes (n_resolve n) (map named_route routes) m) = true.
Proof.
  revert m. induction routes as [|r routes IH]; intros m Hnd Hf Hm; [done|].
  rewrite fmap_cons in Hnd. apply NoDup_cons in Hnd as [Hr Hnd]. apply Forall_cons in Hf as [Hb Hf].
  cbn. rewrite (Hm r) by left. destruct (resolveBackend_resolves n _ Hb) as [addr ->].
  apply IH; [done..|]. intros r' Hr'. apply lookup_insert_None. split; [by apply Hm; right|].
  intros E. apply Hr. rewrite E. by apply list_elem_of_fmap_2.
Qed.

Lemma startUDPRelay_ok n c :
  udp_relay_ok (UDPRelay_ c) → serves n c →
  ∃ r, startUDPRelay n c = Ok r ∧ (is_Some r ↔ ur_Enabled (UDPRelay_ c) = true) ∧
    ∀ relay resolver, r = Some (relay, resolver) →
      udprelay.ResolverLaws resolver ∧ udprelay.reachable resolver (relay, []).
Proof.
  intros Hok Hn. unfold startUDPRelay. destruct (ur_Enabled (UDPRelay_ c)) eqn:En; cbn [negb].
  2: { exists None. split_and!; [done|by rewrite is_Some_alt|done]. }
  destruct (Hok En) as (_ & _ & ? & ? & ? & ?). destruct (serves_udp _ _ Hn En) as [Hb Hr].
  destruct (udprelay.NewStaticBackendResolver (n_resolve n) (ur_Backend (UDPRelay_ c))) as [resolver|] eqn:Es.
  2: { unfold udprelay.NewStaticBackendResolver in Es. by destruct (resolveBackend_resolves n _ Hr) as [? E]; rewrite E in Es. }
  set (cfg := {| udprelay.Listen := _ |}).
  destruct (relay_new n cfg resolver Hb) as [relay E]; try (cbn; lia). cbn [udprelay.Listen cfg] in E.
  change (udprelay.Listen cfg) with (ur_Listen (UDPRelay_ c)) in E. rewrite E. cbn [res_bind].
  eexists. split_and!; [done|by split|]. intros ? ? [= <- <-]. split; [by eapply static_laws|].
  by eapply udprelay.reach_new.
Qed.

Lemma all_hosts_of routes : bedrockroute.all_hosts (map host_route routes) = bedrock_hosts_of routes.
Proof. unfold bedrockroute.all_hosts, bedrock_hosts_of. by rewrite map_map. Qed.

(** What the start of the Bedrock part gives, in each of its modes. *)
Definition bedrock_started {P} (c : Config) (r : bedrockRuntime P) : Prop :=
  match r with
  | HostProxy p =>
      be_Mode (Bedrock_ c) = BedrockModeHostProxy ∧
      ∃ cfg, bedrockproxy.New cfg None = Ok p ∧ bedrockproxy.Routes cfg = map host_route (be_Routes (Bedrock_ c))
  | Forward relay resolver =>
      be_Mode (Bedrock_ c) ≠ BedrockModeHostProxy ∧
      udprelay.ResolverLaws resolver ∧ udprelay.reachable resolver (relay, [])
  end.

Lemma startBedrock_ok {P} n c :
  bedrock_ok (Bedrock_ c) → 0 < BackendDialTimeout c → serves n c →
  ∃ r, startBedrock (P := P) n c = Ok r ∧ (is_Some r ↔ be_Enabled (Bedrock_ c) = true) ∧
    ∀ b, r = Some b → bedrock_started c b.
Proof.
  intros Hok Ht Hn. unfold startBedrock. destruct (be_Enabled (Bedrock_ c)) eqn:En; cbn [negb].
  2: { exists None. split_and!; [done|by rewrite is_Some_alt|done]. }
  destruct (Hok En) as (_ & _ & _ & _ & Hnd & Hd & ? & _).
  destruct (serves_bedrock _ _ Hn En) as (Hb & Hdef & Hroutes).
  assert (be_Mode (Bedrock_ c) = BedrockModeHostProxy ↔
    (if decide (be_Mode (Bedrock_ c) = []) then BedrockModeUDPForward else be_Mode (Bedrock_ c)) = BedrockModeHostProxy)
    as Hmode by (destruct (decide (be_Mode (Bedrock_ c) = [])) as [Eb|]; [by rewrite Eb|done]).
  destruct (decide ((if decide (be_Mode (Bedrock_ c) = []) then _ else _) = BedrockModeHostProxy)) as [Em|Em].
  - set (cfg := {| bedrockproxy.Listen := _ |}).
    destruct (bedrockproxy.New cfg (n_listenRakNet n (be_Listen (Bedrock_ c)))) as [p|] eqn:E.
    + eexists. split_and!; [done|by split|]. intros ? [= <-]. split; [by apply Hmode|]. exists cfg.
      destruct Hb as (_ & _ & Hl). by rewrite Hl in E.
    + exfalso. unfold bedrockproxy.New in E. cbn [bedrockproxy.BackendDialTimeout cfg] in E.
      rewrite (proj2 (Z.leb_gt _ _)) in E by done. destruct Hb as (_ & _ & Hl). rewrite Hl in E.
      pose proof (proj2 (NewRouter_total (bedrockproxy.DefaultBackend cfg) (bedrockproxy.Routes cfg))) as Hr.
      cbn [bedrockproxy.Routes cfg] in Hr. rewrite all_hosts_of in Hr. specialize (Hr Hd).
      cbn [bedrockproxy.Routes cfg] in E. by destruct (bedrockroute.NewRouter _ _).
  - unfold udprelay.NewNamedBackendResolver. destruct (resolveBackend_resolves n _ Hdef) as [addr Ea].
    pose proof (resolve_routes_ok n (be_Routes (Bedrock_ c)) ∅ Hnd Hroutes ltac:(done)) as Hr.
    destruct (udprelay.resolve_routes _ _ _) as [m|] eqn:Er; [|done]. rewrite Ea. cbn [res_bind].
    set (resolver := {| udprelay.nb_defaultBackend := addr |}). set (cfg := {| udprelay.Listen := _ |}).
    destruct (relay_new n cfg resolver Hb) as [relay E]; [cbn; lia|done..|].
    change (udprelay.Listen cfg) with (be_Listen (Bedrock_ c)) in E. rewrite E. cbn [res_bind].
    eexists. split_and!; [done|by split|]. intros ? [= <-]. split; [by rewrite Hmode|].
    split; [|by eapply udprelay.reach_new]. eapply (named_laws (n_resolve n) (be_DefaultBackend (Bedrock_ c))).
    unfold udprelay.NewNamedBackendResolver. rewrite Ea. cbn [res_bind]. by rewrite Er.
Qed.

(** The loop over the voice backends accepts backends that resolve, and keeps their
    tokens in the order of the visit. *)
Lemma add_backends_ok n bs m ts :
  Forall (λ kv, resolves n kv.2.1) bs →
  ∃ m', voice.add_backends (n_resolve n) bs m ts = Ok (m', ts ++ ((λ kv, (kv.1, kv.2.2)) <$> bs)).
Proof.
  revert m ts. induction bs as [|[id [udp token]] bs IH]; intros m ts Hf; cbn [voice.add_backends].
  { exists m. by rewrite app_nil_r. }
  apply Forall_cons in Hf as [(addr & E & Hv) Hf]. cbn in E. rewrite E.
  change (voice.validateBackendAddr addr) with (udprelay.validateBackendAddr addr). rewrite Hv.
  destruct (IH (<[id := addr]> m) (ts ++ [(id, token)]) Hf) as [m' ->]. exists m'. by rewrite <- app_assoc.
Qed.

Lemma startVoiceChat_ok n visit c :
  voice_ok (VoiceChat_ c) → serves n c → (∀ m, visit m ≡ₚ map_to_list m) →
  ∃ r, startVoiceChat n visit c = Ok r ∧ (is_Some r ↔ vc_Enabled (VoiceChat_ c) = true) ∧
    ∀ rt, r = Some rt → voice.reachable (n_resolve n) (rt, []).
Proof.
  intros Hok Hn Hvisit. unfold startVoiceChat. destruct (vc_Enabled (VoiceChat_ c)) eqn:En; cbn [negb].
  2: { exists None. split_and!; [done|by rewrite is_Some_alt|done]. }
  destruct (Hok En) as ((_ & _ & ? & ? & ? & ? & ? & ? & ? & Hne) & _ & _).
  destruct (serves_voice _ _ Hn En) as [(Hr & Hl & _) Hbs].
  set (bs := visit _). set (cfg := {| voice.Listen := _ |}).
  assert (voice.check_config cfg (length bs) = None) as Hcfg.
  { unfold voice.check_config. cbn. rewrite !(proj2 (Z.leb_gt _ _)) by lia.
    assert (length bs ≠ 0%nat) as Hlen; [|by apply Nat.eqb_neq in Hlen as ->].
    unfold bs. rewrite (Permutation_length (Hvisit _)), length_map_to_list. unfold voice_backends_of.
    rewrite map_size_fmap. by apply map_size_non_empty_iff. }
  assert (Forall (λ kv, resolves n kv.2.1) bs) as Hres.
  { unfold bs. rewrite (Hvisit _). apply Forall_forall. intros [id [udp token]] Hin%elem_of_map_to_list.
    unfold voice_backends_of in Hin. apply lookup_fmap_Some in Hin as (b & [= <- <-] & Hb). by apply (Hbs id). }
  destruct (voice.NewRuntime (n_resolve n) (n_listenUDP n (vc_Listen (VoiceChat_ c))) cfg bs) as [rt|] eqn:E.
  - eexists. split_and!; [done|by split|]. intros ? [= <-]. by eapply voice.reach_new.
  - exfalso. unfold voice.NewRuntime in E. rewrite Hcfg, Hl in E. cbn [voice.Listen cfg] in E.
    destruct (n_resolve n (vc_Listen _)); [|done]. destruct (add_backends_ok n bs ∅ [] Hres) as [m' Em].
    rewrite Em in E. done.
Qed.

End starting.

(** ** Lemmas: tokens *)

Section tokens.
Import config gateway proxy discoverycmd.
Context `{Env} `{!EnvLaws} `{ErrorText}.

Lemma add_backends_all_tokens resolve bs m ts m' ts' :
  voice.add_backends resolve bs m ts = Ok (m', ts') → ts' = ts ++ ((λ kv, (kv.1, kv.2.2)) <$> bs).
Proof.
  revert m ts. induction bs as [|[id [udp token]] bs IH]; intros m ts; cbn [voice.add_backends].
  { intros [= _ <-]. by rewrite app_nil_r. }
  destruct (resolve udp) as [addr|]; [|done]. destruct (voice.validateBackendAddr addr); [done|].
  intros ->%IH. by rewrite <- app_assoc.
Qed.

(** The tokens of a started voice runtime are those of the configuration. *)
Lemma started_tokens n visit c rt id t :
  (∀ m, visit m ≡ₚ map_to_list m) → startVoiceChat n visit c = Ok (Some rt) →
  (id, t) ∈ voice.tokens rt ↔ ∃ b, vc_Backends (VoiceChat_ c) !! id = Some b ∧ Token b = t.
Proof.
  intros Hv. unfold startVoiceChat. destruct (negb _); [done|]. intros E.
  apply res_bind_Ok in E as (rt' & E & [= <-]). unfold voice.NewRuntime in E.
  destruct (voice.check_config _ _); [done|]. destruct (n_resolve _ _); [|done]. destruct (n_listenUDP _ _); [done|].
  apply res_bind_Ok in E as ([m' ts'] & E%add_backends_all_tokens & [= <-]). cbn [voice.tokens]. rewrite E. cbn [app].
  rewrite list_elem_of_fmap. unfold voice_backends_of. split.
  - intros ([id' [u t']] & [= -> ->] & Hin). rewrite (Hv _), elem_of_map_to_list, lookup_fmap_Some in Hin.
    destruct Hin as (b & [= _ <-] & Hb). by exists b.
  - intros (b & Hb & <-). exists (id, (vb_UDP b, Token b)). split; [done|].
    rewrite (Hv _), elem_of_map_to_list, lookup_fmap_Some. by exists b.
Qed.

(** A token that is unique in the table identifies its backend. *)
Lemma authenticate_unique r rest id :
  (id, TrimSpace rest) ∈ voice.tokens r → (∀ id', (id', TrimSpace rest) ∈ voice.tokens r → id' = id) →
  voice.authenticate r (gs"Bearer " ++ rest) = Some id.
Proof.
  intros Hin Huniq. unfold voice.authenticate, TrimPrefix, HasPrefix.
  rewrite bool_decide_eq_true_2 by by eexists. cbn [negb]. rewrite drop_app_length.
  destruct (filter _ (voice.tokens r)) as [|[id' t] l] eqn:E.
  - assert ((id, TrimSpace rest) ∈ filter (λ c, c.2 = TrimSpace rest) (voice.tokens r)) as Hx
      by by apply list_elem_of_filter.
    rewrite E in Hx. by apply not_elem_of_nil in Hx.
  - assert ((id', t) ∈ filter (λ c, c.2 = TrimSpace rest) (voice.tokens r)) as Hx by (rewrite E; left).
    apply list_elem_of_filter in Hx as [Et Hx]. cbn in Et. subst t. cbn. by rewrite (Huniq id' Hx).
Qed.

End tokens.

(** ** Lemmas: stopping *)

Section stopping.
Import gateway.

(** The channels: which parts have still to deliver their result, whether the proxy has,
    and whether everything was told to stop. *)
Record channels := { c_parts : part → bool; c_proxy : bool; c_stopping : bool }.

Definition take_part (ch : channels) (p : part) : channels := {|
  c_parts := λ q, match p, q with
                  | Metrics, Metrics | UDP, UDP | Bedrock, Bedrock | Voice, Voice => false
                  | _, _ => c_parts ch q
                  end;
  c_proxy := c_proxy ch; c_stopping := c_stopping ch |}.

(** The actions, one after the other. [None]: the process waits for ever, because
    nothing is told to stop or because the result was already taken. [Close] of a part and
    [Shutdown] of the proxy are taken to return; what the latter waits for is in Accept.v. *)
Fixpoint perform (actions : list action) (ch : channels) : option channels :=
  match actions with
  | [] => Some ch
  | Cancel :: rest =>
      perform rest {| c_parts := c_parts ch; c_proxy := c_proxy ch; c_stopping := true |}
  | AwaitPart p :: rest => if c_stopping ch && c_parts ch p then perform rest (take_part ch p) else None
  | AwaitProxy :: rest =>
      if c_stopping ch && c_proxy ch
      then perform rest {| c_parts := c_parts ch; c_proxy := false; c_stopping := true |} else None
  | (ClosePart _ | ShutdownProxy) :: rest => perform rest ch
  end.

(** The parts that were started before a start failed. *)
Definition is_true (r : res bool) : bool := match r with Ok b => b | Err _ => false end.

Definition begun (a : attempts) (p : part) : bool :=
  match p with
  | Metrics => is_true (a_metrics a)
  | UDP => is_ok (a_metrics a) && is_true (a_udp a)
  | Bedrock => is_ok (a_metrics a) && is_ok (a_udp a) && is_true (a_bedrock a)
  | Voice => is_ok (a_metrics a) && is_ok (a_udp a) && is_ok (a_bedrock a) && is_true (a_voice a)
  end.

(** The channels when the process leaves its [select], having received [first]. *)
Definition after_arrival (running : part → bool) (first : arrival) : channels :=
  match first with
  | ProxyEnded _ => {| c_parts := running; c_proxy := false; c_stopping := false |}
  | PartEnded p _ => take_part {| c_parts := running; c_proxy := true; c_stopping := false |} p
  end.

Definition may_arrive (running : part → bool) (first : arrival) : Prop :=
  match first with ProxyEnded _ => True | PartEnded p _ => running p = true end.

End stopping.

(** ** Properties *)

Section properties.
Import config gateway proxy discoverycmd.
Context `{Env} `{!EnvLaws} `{ErrorText}.

(** C12: validation is enough to start: from a configuration that was loaded, the UDP
    relay, the Bedrock part and the voice chat each start exactly when they are enabled,
    in a state their own properties speak of, provided that the network resolves the
    backends, resolves the listen addresses and lets them be bound; nothing else the
    starts check can fail. *)
Theorem valid_config_starts {P} cl loaded r n visit :
  loadStartupWithDiscovery cl loaded = Ok r → serves n (SnapConfig (sl_Snapshot r)) →
  (∀ m, visit m ≡ₚ map_to_list m) →
  let c := SnapConfig (sl_Snapshot r) in
  (∃ u, startUDPRelay n c = Ok u ∧ (is_Some u ↔ ur_Enabled (UDPRelay_ c) = true) ∧
     ∀ relay resolver, u = Some (relay, resolver) →
       udprelay.ResolverLaws resolver ∧ udprelay.reachable resolver (relay, [])) ∧
  (∃ b, startBedrock (P := P) n c = Ok b ∧ (is_Some b ↔ be_Enabled (Bedrock_ c) = true) ∧
     ∀ x, b = Some x → bedrock_started c x) ∧
  (∃ v, startVoiceChat n visit c = Ok v ∧ (is_Some v ↔ vc_Enabled (VoiceChat_ c) = true) ∧
     ∀ rt, v = Some rt → voice.reachable (n_resolve n) (rt, [])).
Proof.
  intros (c & -> & Hok & Hs)%startup_snapshot Hn Hv. rewrite Hs in *.
  set (ds := match sl_DiscoveryReport r with None => _ | Some _ => _ end) in *.
  pose proof (merged_ok (tokened c) ds (tokened_ok c Hok)) as Hm.
  change (SnapConfig (snapshot_of (tokened c) ds)) with (merged (tokened c) ds) in *. cbv zeta. split_and!.
  - apply startUDPRelay_ok; [apply (ok_udp _ Hm)|done].
  - apply startBedrock_ok; [apply (ok_bedrock _ Hm)|apply (ok_dial _ Hm)|done].
  - apply startVoiceChat_ok; [apply (ok_voice _ Hm)|done|done].
Qed.

(** C13: a token identifies its backend from the environment to the registration API: in
    the runtime that is started from a loaded configuration, a request is taken for the
    backend [id] exactly when it bears, after trimming, the token that the environment
    variable configured for [id] holds. *)
Theorem configured_token_authenticates cl loaded r n visit rt auth id :
  loadStartupWithDiscovery cl loaded = Ok r → (∀ m, visit m ≡ₚ map_to_list m) →
  startVoiceChat n visit (SnapConfig (sl_Snapshot r)) = Ok (Some rt) →
  voice.authenticate rt auth = Some id ↔
  ∃ c b rest, loaded = Ok c ∧ vc_Backends (VoiceChat_ c) !! id = Some b ∧
    auth = gs"Bearer " ++ rest ∧ TrimSpace rest = Getenv (vb_TokenEnv b).
Proof.
  intros (c & -> & Hok & Hs)%startup_snapshot Hv Hst. rewrite Hs in Hst.
  set (ds := match sl_DiscoveryReport r with None => _ | Some _ => _ end) in *.
  pose proof (started_tokens n visit (merged (tokened c) ds) rt) as Ht.
  change (SnapConfig (snapshot_of (tokened c) ds)) with (merged (tokened c) ds) in *.
  change (VoiceChat_ (merged (tokened c) ds)) with (VoiceChat_ (tokened (tokened c))) in Ht. rewrite tokened_again in Ht.
  assert (vc_Enabled (VoiceChat_ c) = true) as Hen.
  { unfold startVoiceChat in Hst. change (VoiceChat_ (merged (tokened c) ds)) with (VoiceChat_ (tokened (tokened c))) in Hst.
    rewrite tokened_again in Hst. cbn [tokened with_voice VoiceChat_] in Hst. unfold give_tokens in Hst.
    destruct (vc_Enabled (VoiceChat_ c)) eqn:En; [done|]. by rewrite En in Hst. }
  assert (∀ i t, (i, t) ∈ voice.tokens rt ↔
    ∃ b, vc_Backends (VoiceChat_ c) !! i = Some b ∧ Getenv (vb_TokenEnv b) = t) as Htok.
  { intros i t. rewrite (Ht i t Hv Hst). cbn [tokened with_voice VoiceChat_]. unfold give_tokens. rewrite Hen. cbn.
    setoid_rewrite lookup_fmap_Some. naive_solver. }
  destruct (ok_voice _ Hok Hen) as (_ & _ & Hd). split.
  - intros (rest & -> & Hin)%authenticate_token. apply Htok in Hin as (b & Hb & E). by exists c, b, rest.
  - intros (c' & b & rest & [= <-] & Hb & -> & Et). apply authenticate_unique.
    + apply Htok. by exists b.
    + intros id' (b' & Hb' & E)%Htok. eapply Hd; [exact Hb'|exact Hb|congruence].
Qed.

(** C14: the process waits for what it started and for nothing else: whichever start
    fails, and whichever part ends first, the main goroutine only waits for parts that
    run, after telling everything to stop, and for each of them once; when it returns,
    every part that was started has delivered its result, and the proxy has delivered
    its own or has been told to shut down. (How long [Shutdown] waits for connections is
    not in question here; Accept.v says what it waits for.) *)
Theorem process_stops_cleanly ended a :
  match start_parts ended a with
  | inr (e, actions) =>
      ∃ ch, perform actions {| c_parts := begun a; c_proxy := false; c_stopping := false |} = Some ch ∧
        (∀ p, actions ≠ [] → c_parts ch p = false) ∧ (actions = [] → ∀ p, begun a p = false)
  | inl running =>
      (∀ p, running p = begun a p) ∧
      ∀ first proxyErr, may_arrive running first →
        let '(actions, e) := waitForServers ended running first proxyErr in
        ∃ ch, perform actions (after_arrival running first) = Some ch ∧ (∀ p, c_parts ch p = false) ∧
          (c_proxy ch = false ∨ ShutdownProxy ∈ actions)
  end.
Proof.
  destruct a as [[m|?] [u|?] [b|?] [v|?] [?|] [?|]]; cbn.
  all: try (destruct ended, m; try destruct u; try destruct b; try destruct v; eexists;
            (split; [reflexivity|split; [intros [] ?; reflexivity|discriminate]])).
  all: try (eexists; (split; [reflexivity|split; [done|intros _ []; reflexivity]])).
  split; [by intros []|]. intros first proxyErr Hfirst.
  destruct ended, m, u, b, v, first as [e|[] e]; try discriminate Hfirst.
  all: eexists; (split; [reflexivity|split; [intros []; reflexivity|]]); first [by left | right; cbn; set_solver].
Qed.

(** No reload signal is lost: although the channel has room for one only, whenever
    none is waiting the last reload began after every signal that arrived. *)
Theorem signals_honoured kc s l :
  rtc (serveReloadSignals kc) {| sl_pending := false; sl_got := 0; sl_seen := 0; sl_server := s |} l →
  (sl_seen l ≤ sl_got l)%nat ∧ (sl_pending l = false → sl_seen l = sl_got l).
Proof.
  intros Hl. remember {| sl_pending := false; sl_got := 0; sl_seen := 0; sl_server := s |} as l0 eqn:E0.
  assert ((sl_seen l0 ≤ sl_got l0)%nat ∧ (sl_pending l0 = false → sl_seen l0 = sl_got l0)) as Hi by (by rewrite E0).
  clear E0 s. induction Hl as [|l0 l1 l2 Hs _ IH]; [done|]. apply IH. destruct Hs; cbn in *; [|done].
  split; [lia|done].
Qed.

End properties.

(** ** Witnesses *)

Section witnesses.
Import config gateway proxy discoverycmd.
#[local] Existing Instance Config.sample_env.
#[local] Existing Instance Config.sample_env_laws.
#[local] Existing Instance Server.no_text.

Definition sample_network : network := {|
  n_resolve := λ _, Ok UdpRelay.sample_addr; n_listenUDP := λ _, None; n_listenRakNet := λ _, None |}.

Lemma sample_serves c : serves sample_network c.
Proof.
  assert (∀ b, resolves sample_network b) as Hr.
  { intros b. exists UdpRelay.sample_addr. split; [reflexivity|vm_compute; reflexivity]. }
  split; intros _; unfold binds; split_and!; try done; [by apply Forall_true|by intros ? ? ?].
Qed.

Definition sample_result : startupLoadResult :=
  {| sl_Snapshot := snapshot_of (tokened sample_config) []; sl_DiscoveryReport := None |}.

Lemma sample_loaded : loadStartupWithDiscovery sample_cluster (Ok sample_config) = Ok sample_result.
Proof. exact (startup_static sample_cluster sample_config sample_config_ok eq_refl). Qed.

Lemma sample_voice_started :
  ∃ rt, startVoiceChat sample_network map_to_list (SnapConfig (sl_Snapshot sample_result)) = Ok (Some rt).
Proof.
  pose proof (merged_ok (tokened sample_config) [] (tokened_ok _ sample_config_ok)) as Hm.
  destruct (startVoiceChat_ok sample_network map_to_list (SnapConfig (sl_Snapshot sample_result)) (ok_voice _ Hm)
    (sample_serves _) (λ m, reflexivity _)) as (v & E & Hs & _).
  destruct v as [rt|]; [by exists rt|]. destruct Hs as [_ Hs]. destruct Hs as [x Hx]; [|done]. vm_compute. reflexivity.
Qed.

Lemma valid_config_starts_witness :
  ∃ v, startVoiceChat sample_network map_to_list (SnapConfig (sl_Snapshot sample_result)) = Ok v ∧
    (is_Some v ↔ vc_Enabled (VoiceChat_ (SnapConfig (sl_Snapshot sample_result))) = true).
Proof.
  destruct (valid_config_starts (P := nat) sample_cluster (Ok sample_config) sample_result sample_network map_to_list
    sample_loaded (sample_serves _) (λ m, reflexivity _)) as (_ & _ & v & E & Hs & _).
  exists v. split; [exact E|exact Hs].
Defined.

Lemma configured_token_authenticates_witness :
  ∃ rt, startVoiceChat sample_network map_to_list (SnapConfig (sl_Snapshot sample_result)) = Ok (Some rt) ∧
    voice.authenticate rt gs"Bearer  secret" = Some gs"a".
Proof.
  destruct sample_voice_started as [rt E]. exists rt. split; [exact E|].
  apply (configured_token_authenticates sample_cluster (Ok sample_config) sample_result sample_network map_to_list
    rt gs"Bearer  secret" gs"a" sample_loaded (λ m, reflexivity _) E).
  exists sample_config. eexists. exists gs" secret". split; [reflexivity|].
  split; [vm_compute; reflexivity|]. split; [reflexivity|]. vm_compute. reflexivity.
Defined.

(** The UDP relay and the voice chat run with the metrics server; the relay fails first. *)
Definition sample_attempts : attempts := {|
  a_metrics := Ok true; a_udp := Ok true; a_bedrock := Ok false; a_voice := Ok true;
  a_availability := None; a_watch := None |}.

Lemma process_stops_cleanly_witness :
  ∃ ch, perform (waitForServers false (begun sample_attempts) (PartEnded UDP None) None).1
          (after_arrival (begun sample_attempts) (PartEnded UDP None)) = Some ch ∧ ∀ p, c_parts ch p = false.
Proof.
  destruct (process_stops_cleanly false sample_attempts) as [_ H].
  destruct (H (PartEnded UDP None) None eq_refl) as (ch & Hp & Hc & _). exists ch. split; [exact Hp|exact Hc].
Defined.

End witnesses.
