(* ===== verification/ConfigWatch.v ===== *)
(** * Watching the configuration file ([internal/configwatch])

    The watcher listens to changes in the directory of the configuration file, waits
    until they have calmed down, and reloads the file if its digest has changed. The
    file system and [fsnotify] are outside: [disk] is what reading the file gives; a
    change of it makes the watched directory report the name that was changed - the file
    itself, or the link [..data] that Kubernetes swaps -, under the path [fsnotify]
    documents, the watched directory and the name; and [fsnotify] may lose events when its
    queue overflows. SHA-256 is a parameter; [path/filepath] is modelled as on Unix. *)
From S2P Require Import Prelude GoUnicode GoStrings HostAddr.
Import gostrings.
Open Scope Z_scope.

(** ** Paths *)

Module filepath.

Definition slash : byte := "/"%byte.

(** One element of the path goes onto the stack of those kept. *)
Definition clean_step (rooted : bool) (stack : list bytes) (c : bytes) : list bytes :=
  if decide (c = [] ∨ c = gs".") then stack
  else if decide (c = gs"..") then
    match stack with
    | top :: rest => if decide (top = gs"..") then c :: stack else rest
    | [] => if rooted then [] else [c]
    end
  else c :: stack.

Definition elements (rooted : bool) (path : bytes) : list bytes :=
  fold_left (clean_step rooted) (Split path slash) [].

Definition rooted (path : bytes) : bool :=
  match path with c :: _ => bool_decide (c = slash) | [] => false end.

Definition Clean (path : bytes) : bytes :=
  let kept := rev (elements (rooted path) path) in
  if rooted path then slash :: Join kept slash
  else match kept with [] => gs"." | _ => Join kept slash end.

(** The path up to its last separator, and what follows it. *)
Definition Dir (path : bytes) : bytes :=
  match LastIndexByte path slash with
  | Some i => Clean (take (S i) path)
  | None => Clean []
  end.

Fixpoint strip_slashes (reversed : bytes) : bytes :=
  match reversed with
  | c :: rest => if decide (c = slash) then strip_slashes rest else reversed
  | [] => []
  end.

Definition Base (path : bytes) : bytes :=
  match path with
  | [] => gs"."
  | _ =>
      let path := rev (strip_slashes (rev path)) in
      let path := match LastIndexByte path slash with Some i => drop (S i) path | None => path end in
      match path with [] => [slash] | _ => path end
  end.

End filepath.

Section filepath_lemmas.
Import filepath.

(** A stack as [Clean] leaves it: proper names, and [..] only at the bottom of a path
    that is not rooted. *)
Fixpoint tidy (rooted : bool) (stack : list bytes) : Prop :=
  match stack with
  | [] => True
  | c :: rest =>
      c ≠ [] ∧ c ≠ gs"." ∧ (slash ∉ c) ∧ tidy rooted rest ∧
      ((c = gs"..") → (rooted = false ∧ match rest with [] => True | top :: _ => top = gs".." end))
  end.

Lemma clean_step_tidy r stack c : slash ∉ c → tidy r stack → tidy r (clean_step r stack c).
Proof.
  intros Hc Ht. unfold clean_step. case_decide as H1; [done|]. case_decide as H2.
  - subst c. destruct stack as [|top rest]; [by destruct r|]. case_decide; [|by destruct Ht as (_ & _ & _ & ? & _)].
    subst top. cbn [tidy] in *. destruct Ht as (? & ? & ? & Ht & Hr). specialize (Hr eq_refl). tauto.
  - cbn. split_and!; [tauto|tauto|done|done|done].
Qed.

Lemma elements_tidy r path : tidy r (elements r path).
Proof.
  unfold elements. assert (∀ cs stack, Forall (λ c, slash ∉ c) cs → tidy r stack → tidy r (fold_left (clean_step r) cs stack)) as H.
  { induction cs as [|c cs IH]; intros stack Hcs Ht; [done|]. apply Forall_cons in Hcs as [? ?].
    by apply IH, clean_step_tidy. }
  apply H; [apply Split_pieces|done].
Qed.

(** Elements that are tidy are kept as they are. *)
Lemma tidy_kept r stack : tidy r stack → fold_left (clean_step r) (rev stack) [] = stack.
Proof.
  induction stack as [|c rest IH]; [done|]. intros (H1 & H2 & H3 & Ht & Hr). cbn [rev]. rewrite fold_left_app, IH by done.
  cbn. unfold clean_step. rewrite decide_False by tauto. case_decide as E; [|done].
  destruct (Hr E) as [-> Htop]. destruct rest as [|top rest]; [done|]. by rewrite decide_True.
Qed.

Lemma Split_Join_slash ls : Forall (λ c, slash ∉ c) ls → ls ≠ [] → Split (Join ls slash ++ [slash]) slash = ls ++ [[]].
Proof.
  induction 1 as [|c ls Hc Hls IH]; [done|]. intros _. destruct (decide (ls = [])) as [->|Hne].
  - cbn [Join]. by rewrite Split_app.
  - rewrite Join_cons, <- app_assoc by done. cbn [app]. by rewrite Split_app, IH.
Qed.

Lemma tidy_pieces r stack : tidy r stack → Forall (λ c, slash ∉ c) (rev stack).
Proof.
  intros Ht. apply Forall_rev. induction stack as [|c rest IH]; [done|]. destruct Ht as (_ & _ & ? & ? & _).
  constructor; [done|by apply IH].
Qed.

Lemma LastIndexByte_absent s c : LastIndexByte s c = None → c ∉ s.
Proof.
  induction s as [|b s IH]; cbn; [set_solver|]. destruct (LastIndexByte s c); [done|]. case_decide; [done|]. set_solver.
Qed.

(** A cleaned path with a separator after it is cleaned to itself. *)
Lemma Clean_again path : Clean (Clean path ++ [slash]) = Clean path.
Proof.
  pose proof (elements_tidy (rooted path) path) as Ht. pose proof (tidy_pieces _ _ Ht) as Hp.
  pose proof (tidy_kept _ _ Ht) as Hk. unfold Clean at 2 3.
  destruct (rooted path) eqn:Er; set (stack := elements _ path) in *; clearbody stack.
  - unfold Clean. cbn [app rooted]. rewrite bool_decide_true by done. unfold elements. do 2 f_equal.
    cbn [Split]. rewrite decide_True by done. destruct (decide (rev stack = [])) as [E|Hne].
    + rewrite E in *. cbn in Hk. by subst stack.
    + rewrite Split_Join_slash by done. cbn [fold_left]. change (clean_step true [] []) with (@nil bytes).
      by rewrite fold_left_app, Hk.
  - destruct (rev stack) as [|c cs] eqn:E; [done|]. unfold Clean.
    assert (rooted (Join (c :: cs) slash ++ [slash]) = false) as ->.
    { apply Forall_cons in Hp as [Hc _]. assert (c ≠ []) as Hne.
      { assert (c ∈ stack) as Hin by (apply list_elem_of_In, in_rev; rewrite E; by left). clear -Ht Hin.
        induction stack as [|d rest IH]; [by apply elem_of_nil in Hin|]. destruct Ht as (? & _ & _ & ? & _).
        apply elem_of_cons in Hin as [->|?]; [done|by apply IH]. }
      destruct c as [|x c]; [done|]. destruct cs; cbn; apply bool_decide_false; set_solver. }
    unfold elements. rewrite Split_Join_slash, fold_left_app, Hk by done.
    change (fold_left (clean_step false) [[]] stack) with stack. by rewrite E.
Qed.

Lemma Dir_join dir n : slash ∉ n → Dir (dir ++ slash :: n) = Clean (dir ++ [slash]).
Proof.
  intros Hn. unfold Dir. rewrite LastIndexByte_app by done. f_equal.
  change (dir ++ slash :: n) with (dir ++ [slash] ++ n). rewrite app_assoc, take_app_length'; [done|].
  rewrite length_app. cbn. lia.
Qed.

Lemma strip_nothing n : n ≠ [] → slash ∉ n → ∀ s, strip_slashes (rev n ++ s) = rev n ++ s.
Proof.
  intros Hne Hn s. destruct (rev n) as [|c cs] eqn:E.
  - apply (f_equal (@rev byte)) in E. rewrite rev_involutive in E. done.
  - cbn. rewrite decide_False; [done|]. intros ->. apply Hn. apply list_elem_of_In, in_rev. rewrite E. by left.
Qed.

Lemma Base_join dir n : n ≠ [] → slash ∉ n → Base (dir ++ slash :: n) = n.
Proof.
  intros Hne Hn. unfold Base. destruct (dir ++ slash :: n) as [|c cs] eqn:E; [by destruct dir|]. rewrite <- E. clear E c cs.
  assert (rev (strip_slashes (rev (dir ++ slash :: n))) = dir ++ slash :: n) as ->.
  { rewrite rev_app_distr. cbn [rev]. rewrite <- app_assoc, strip_nothing by done.
    rewrite !rev_app_distr, !rev_involutive. by rewrite <- app_assoc. }
  rewrite LastIndexByte_app by done. rewrite drop_app_ge by lia.
  replace (S (length dir) - length dir)%nat with 1%nat by lia. cbn. by destruct n.
Qed.

(** [Base] is the separator or a name. *)
Lemma Base_name path : Base path = [slash] ∨ Base path ≠ [] ∧ slash ∉ Base path.
Proof.
  unfold Base. destruct path as [|c cs]; [right; split; [done|]; intros H%list_elem_of_singleton; discriminate|]. set (q := rev _). clearbody q. clear c cs.
  destruct (LastIndexByte q slash) as [i|] eqn:E.
  - destruct (drop (S i) q) as [|c cs] eqn:Ed; [by left|]. right. split; [done|]. rewrite <- Ed. clear Ed.
    revert i E. induction q as [|b q IH]; intros i; cbn [LastIndexByte]; [done|].
    destruct (LastIndexByte q slash) as [j|] eqn:Ej.
    + intros [= <-]. cbn [drop]. by apply IH.
    + case_decide; [|done]. intros [= <-]. cbn [drop]. by apply LastIndexByte_absent.
  - destruct q as [|c cs] eqn:Eq; [by left|]. right. split; [done|]. by apply LastIndexByte_absent.
Qed.

End filepath_lemmas.

Module configwatch.
Import filepath.

Section watcher.
Context {D : Type} `{EqDecision D} (Sum256 : bytes → D).

Record resolvedPath := { rp_path : bytes; rp_dir : bytes; rp_fileName : bytes }.

(** [abs] is the result of [filepath.Abs]. *)
Definition absolutePath (abs : res bytes) : res resolvedPath :=
  match abs with
  | Err e => Err (Errorf "resolve config watch path: %w" [] [e])
  | Ok p => Ok {| rp_path := p; rp_dir := Dir p; rp_fileName := Base p |}
  end.

Definition isConfigEvent (w : resolvedPath) (name : bytes) : bool :=
  if decide (Dir name ≠ rp_dir w) then false
  else bool_decide (Base name ∈ [rp_fileName w; gs"..data"; gs"..data_tmp"]).

(** [fileDigest], given what [os.ReadFile] returns. *)
Definition fileDigest (content : res bytes) : res D :=
  match content with Err e => Err e | Ok data => Ok (Sum256 data) end.

(** The checks and the reading of [Start]; [created], [added] are the errors of
    [fsnotify.NewWatcher] and of watching the directory, and the digest is read
    between them. *)
Definition Start (path : bytes) (debounce : Z) (reload_given : bool) (created : option error) (abs : res bytes) (content : res bytes)
    (added : option error) : res (resolvedPath * D) :=
  if decide (path = []) then Err (errors_New "config watch path is empty")
  else if debounce <=? 0 then Err (errors_New "config watch debounce must be positive")
  else if negb reload_given then Err (errors_New "config watch reload function is nil")
  else match created with
  | Some e => Err (Errorf "create config watcher: %w" [] [e])
  | None =>
      let? w := absolutePath abs in
      match fileDigest content with
      | Err e => Err (Errorf "read initial config watch file: %w" [] [e])
      | Ok digest =>
          match added with
          | Some e => Err (Errorf "watch config directory %q: %w" [AStr (rp_dir w)] [e])
          | None => Ok (w, digest)
          end
      end
  end.

(** The name under which [fsnotify] reports the entry [n] of the watched directory. *)
Definition event_name (w : resolvedPath) (n : bytes) : bytes := rp_dir w ++ slash :: n.

(** What a change of the contents makes the directory report, among other things: the
    file itself when it was written, renamed or replaced; the link [..data] when the
    directory of versions beneath a projected ConfigMap was swapped. *)
Inductive reported (w : resolvedPath) (names : list bytes) : Prop :=
| file_changed : event_name w (rp_fileName w) ∈ names → reported w names
| data_swapped : event_name w gs"..data" ∈ names → reported w names.

(** The state: the disk, whether the directory is watched yet, the events that are on
    their way to [run], whether some were lost, whether the timer is set, the digest that
    [run] keeps, whether it is about to call [reload], the reloads so far - the digest each
    was called for and what it then read -, and whether [run] has returned. *)
Record state := {
  disk : res bytes;
  watching : bool;
  events : list bytes;
  lost : bool;
  timer : bool;
  digest : D;
  reloading : bool;
  reloads : list (D * res bytes);
  stopped : bool
}.

(** What [run] does with an event; when the timer has expired; and the call of
    [reload], which reads the file again. *)
Definition on_event (w : resolvedPath) (st : state) (name : bytes) (rest : list bytes) : state := {|
  disk := disk st; watching := watching st; events := rest; lost := lost st;
  timer := timer st || isConfigEvent w name;
  digest := digest st; reloading := reloading st; reloads := reloads st; stopped := stopped st |}.

Definition on_timer (st : state) : state :=
  let st' d r := {| disk := disk st; watching := watching st; events := events st; lost := lost st; timer := false;
                    digest := d; reloading := r; reloads := reloads st; stopped := stopped st |} in
  match fileDigest (disk st) with
  | Err _ => st' (digest st) false
  | Ok updated => if decide (updated = digest st) then st' (digest st) false else st' updated true
  end.

Definition on_reload (st : state) : state := {|
  disk := disk st; watching := watching st; events := events st; lost := lost st; timer := timer st;
  digest := digest st; reloading := false; reloads := reloads st ++ [(digest st, disk st)];
  stopped := stopped st |}.

Definition change (st : state) (content : res bytes) (noticed : list bytes) : state := {|
  disk := content; watching := watching st;
  events := if watching st then events st ++ noticed else events st; lost := lost st;
  timer := timer st; digest := digest st; reloading := reloading st; reloads := reloads st;
  stopped := stopped st |}.

Definition watch (st : state) : state := {|
  disk := disk st; watching := true; events := events st; lost := lost st; timer := timer st; digest := digest st;
  reloading := reloading st; reloads := reloads st; stopped := stopped st |}.

Definition stop (st : state) : state := {|
  disk := disk st; watching := watching st; events := events st; lost := lost st; timer := timer st; digest := digest st;
  reloading := reloading st; reloads := reloads st; stopped := true |}.

(** The queue of [fsnotify] overflows and keeps only [kept]. *)
Definition overflow (st : state) (kept : list bytes) : state := {|
  disk := disk st; watching := watching st; events := kept; lost := true; timer := timer st; digest := digest st;
  reloading := reloading st; reloads := reloads st; stopped := stopped st |}.

(** [run] is in its [select]. *)
Definition selecting (st : state) : bool := negb (stopped st) && negb (reloading st).

(** What [run] does by itself: it receives an event, finds the timer expired, or calls
    [reload]. *)
Inductive own (w : resolvedPath) : state → state → Prop :=
| step_event st name rest :
    selecting st = true → watching st = true → events st = name :: rest → own w st (on_event w st name rest)
| step_timer st : selecting st = true → timer st = true → own w st (on_timer st)
| step_reload st : reloading st = true → own w st (on_reload st).

(** What happens to it: the contents change and the directory reports it, or reports
    something else; events are lost; the directory becomes watched; an error of [fsnotify],
    which is only logged; the end of the context. *)
Inductive env (w : resolvedPath) : state → state → Prop :=
| step_change st content names : reported w names → env w st (change st content names)
| step_noise st names : env w st (change st (disk st) names)
| step_overflow st kept : kept ⊆ events st → env w st (overflow st kept)
| step_watch st : env w st (watch st)
| step_error st : selecting st = true → env w st st
| step_stop st : selecting st = true → env w st (stop st).

Definition step (w : resolvedPath) (st st' : state) : Prop := own w st st' ∨ env w st st'.

(** The state after the digest of [data] was read, before the directory is watched. *)
Definition initial (data : bytes) : state := {|
  disk := Ok data; watching := false; events := []; lost := false; timer := false; digest := Sum256 data; reloading := false;
  reloads := []; stopped := false |}.

End watcher.

Arguments state : clear implicits.

End configwatch.

(** ** Properties *)

Section properties.
Import filepath configwatch.
Context {D : Type} `{EqDecision D} (Sum256 : bytes → D) (abs : bytes) (w : resolvedPath).
Context (Habs : absolutePath (Ok abs) = Ok w) (Hfile : rp_fileName w ≠ [slash]).

Local Abbreviation step := (configwatch.step Sum256 w).
Local Abbreviation own := (configwatch.own Sum256 w).
Local Abbreviation steps := (rtc (configwatch.step Sum256 w)).

(** The watched directory reports its entries in the directory of the file. *)
Lemma isConfigEvent_entry n : n ≠ [] → slash ∉ n →
  isConfigEvent w (event_name w n) = bool_decide (n ∈ [rp_fileName w; gs"..data"; gs"..data_tmp"]).
Proof.
  intros Hne Hn. unfold isConfigEvent, event_name. rewrite Dir_join, Base_join by done.
  injection Habs as <-. cbn [rp_dir rp_fileName]. rewrite decide_False; [done|]. intros H. apply H.
  unfold Dir. destruct (LastIndexByte abs slash); apply Clean_again.
Qed.

(** What is reported of a change is an event for the configuration. *)
Lemma reported_noticed names : reported w names → Exists (λ name, isConfigEvent w name = true) names.
Proof.
  intros Hr. apply Exists_exists. destruct Hr as [Hin|Hin]; eexists; (split; [exact Hin|]).
  - destruct (Base_name abs) as [E|[Hne Hn]]; [by injection Habs as <-|].
    rewrite isConfigEvent_entry by by injection Habs as <-. apply bool_decide_true. by left.
  - rewrite isConfigEvent_entry; [|done|].
    + apply bool_decide_true. right. by left.
    + apply (bool_decide_unpack _). vm_compute. exact I.
Qed.

(** A change that has not been seen yet is on its way, unless events were lost. *)
Definition on_its_way (st : state D) : Prop :=
  watching st = true ∧
  (lost st = false → ∀ data, disk st = Ok data → Sum256 data ≠ digest st →
    timer st = true ∨ Exists (λ name, isConfigEvent w name = true) (events st)).

(** The digests that [reload] has been called for, the first one included and the
    one it is about to be called for. *)
Definition ordered (first : bytes) (st : state D) : list D :=
  Sum256 first :: (reloads st).*1 ++ (if reloading st then [digest st] else []).

(** The digest is that of the last reload, and no reload repeats the one before. *)
Definition follows (first : bytes) (st : state D) : Prop :=
  last (ordered first st) = Some (digest st) ∧
  ∀ i a b, ordered first st !! i = Some a → ordered first st !! S i = Some b → a ≠ b.

(** Nothing is left to do: no reload is under way, no timer set, no event waiting. *)
Definition at_rest (st : state D) : Prop :=
  watching st = true ∧ timer st = false ∧ events st = [] ∧ reloading st = false.

Lemma distinct_snoc (l : list D) d :
  (∀ i a b, l !! i = Some a → l !! S i = Some b → a ≠ b) → (∀ x, last l = Some x → x ≠ d) →
  ∀ i a b, (l ++ [d]) !! i = Some a → (l ++ [d]) !! S i = Some b → a ≠ b.
Proof.
  intros Hl Hd i a b Ha Hb. apply lookup_app_Some in Hb as [Hb|[Hlen Hb]].
  - apply (Hl i); [|done]. rewrite lookup_app_l in Ha; [done|]. apply lookup_lt_Some in Hb. lia.
  - apply list_lookup_singleton_Some in Hb as [Hi <-].
    apply Hd. rewrite last_lookup. rewrite lookup_app_l in Ha by lia. rewrite <- Ha. f_equal. lia.
Qed.

Lemma ordered_reload first st : reloading st = true → ordered first (on_reload st) = ordered first st.
Proof. intros Hr. unfold ordered, on_reload. cbn. by rewrite Hr, fmap_app, app_nil_r. Qed.

Lemma step_follows first st st' : step st st' → follows first st → follows first st'.
Proof.
  intros [Hs|Hs] Hf; [|by destruct Hs]. destruct Hs as [|st Hsel _|st Hr]; [exact Hf| |].
  2: { unfold follows. by rewrite ordered_reload. }
  apply andb_true_iff in Hsel as [_ Hr%negb_true_iff].
  unfold on_timer. destruct (fileDigest _ _) as [d|]; [destruct (decide _) as [|Hne]|];
    try (unfold follows, ordered in *; cbn in *; by rewrite Hr in Hf).
  destruct Hf as [Hd Hn]. unfold follows, ordered in *. rewrite Hr, app_nil_r in Hd, Hn. cbn [reloads reloading digest].
  rewrite app_comm_cons, last_snoc. split; [done|]. apply distinct_snoc; [exact Hn|].
  intros x Hx. rewrite Hx in Hd. by injection Hd as ->.
Qed.

Lemma step_on_its_way st st' : step st st' → on_its_way st → on_its_way st'.
Proof.
  intros [Hs|Hs] [Hw Hi].
  - destruct Hs as [st name rest _ _ He|st _ _|st]; unfold on_its_way in *; cbn in *; [|unfold on_timer|done].
    + split; [done|]. intros Hl data Hd Hne. destruct (Hi Hl data Hd Hne) as [->|Hex]; [by left|].
      rewrite He, Exists_cons in Hex. destruct Hex as [->|Hex]; [left; apply orb_true_r|by right].
    + destruct (disk st) as [data|]; cbn; [|done].
      destruct (decide _) as [E|]; cbn; (split; [done|]); intros _ ? [= <-] ?; by rewrite ?E in *.
  - destruct Hs as [st content names Hn|st names|st kept _|st|st|st]; unfold on_its_way in *; cbn in *; rewrite ?Hw in *;
      try done; (split; [done|]); intros Hl data Hd Hne.
    + right. apply Exists_app. right. by apply reported_noticed.
    + destruct (Hi Hl data Hd Hne); [by left|right]. apply Exists_app. by left.
Qed.

(** The steps of [run] come to an end, and where they do it has returned or is at rest. *)
Definition work (st : state D) : nat :=
  3 * length (events st) + (if timer st then 2 else 0) + (if reloading st then 1 else 0).

Lemma own_works st st' : own st st' → (work st' < work st)%nat.
Proof.
  intros Hs. unfold work. destruct Hs as [st name rest _ _ He|st Hsel Ht|st Hr]; cbn -[Nat.mul].
  - rewrite He. cbn. destruct (timer st), (isConfigEvent w name), (reloading st); cbn; lia.
  - apply andb_true_iff in Hsel as [_ Hr%negb_true_iff]. unfold on_timer. rewrite Ht, Hr.
    destruct (fileDigest _ _); [destruct (decide _)|]; cbn -[Nat.mul]; lia.
  - rewrite Hr. lia.
Qed.

Lemma idle_at_rest st :
  watching st = true → stopped st = false → (∀ st', ¬ own st st') → at_rest st.
Proof.
  intros Hw Hst Hno. assert (reloading st = false) as Hr.
  { destruct (reloading st) eqn:E; [by destruct (Hno _ (step_reload _ _ st E))|done]. }
  assert (selecting st = true) as Hsel by (unfold selecting; by rewrite Hst, Hr).
  split_and!; [done| | |done].
  - destruct (timer st) eqn:E; [by destruct (Hno _ (step_timer _ _ st Hsel E))|done].
  - destruct (events st) as [|n rest] eqn:E; [done|]. by destruct (Hno _ (step_event _ _ st n rest Hsel Hw E)).
Qed.

Lemma watched_run first st :
  steps (watch (initial Sum256 first)) st → on_its_way st ∧ follows first st.
Proof.
  intros Hs. assert (on_its_way (watch (initial Sum256 first)) ∧ follows first (watch (initial Sum256 first))) as H0.
  { split; [split; [done|intros _ ? [= <-] Hne; by destruct Hne]|]. split; [done|]. intros [|i] a b; done. }
  induction Hs as [|st1 st2 st3 H1 _ IH]; [done|]. apply IH.
  destruct H0. split; [by eapply step_on_its_way|by eapply step_follows].
Qed.

(** C27: The watcher follows the file. Suppose the directory is watched, the path is not
    the root, and each change of the contents is reported under the name of the file or of
    the link [..data]. However changes, events, the timer and reloads interleave, what
    [run] does by itself comes to an end, and unless it has returned it then is at rest. If
    [fsnotify] has lost no event, then at rest, when the file can be read, the last call of
    [reload] was for the digest the file has now (no call was needed if that is the digest
    taken at the start). No two calls in a row are for the same digest. *)
Theorem reloaded_at_rest first st :
  steps (watch (initial Sum256 first)) st →
  Acc (flip own) st ∧
  (stopped st = false → (∀ st', ¬ own st st') → at_rest st) ∧
  (lost st = false → at_rest st → ∀ data, disk st = Ok data →
     default (Sum256 first) (last (reloads st).*1) = Sum256 data) ∧
  (∀ i a b, (Sum256 first :: (reloads st).*1) !! i = Some a →
     (Sum256 first :: (reloads st).*1) !! S i = Some b → a ≠ b).
Proof.
  intros Hs. destruct (watched_run _ _ Hs) as [[Hw Hi] [Hd Hn]]. split_and!.
  - clear. induction st as [st IH] using (induction_ltof1 _ work). constructor. intros st' Hs'. by apply IH, own_works.
  - by apply idle_at_rest.
  - intros Hl (_ & Ht & He & Hr) data Hdata. unfold ordered in Hd. rewrite Hr, app_nil_r, last_cons in Hd.
    assert (digest st = Sum256 data) as <-.
    { destruct (decide (Sum256 data = digest st)) as [|Hne]; [done|].
      destruct (Hi Hl data Hdata Hne) as [|Hex]; [congruence|]. rewrite He in Hex. by apply Exists_nil in Hex. }
    destruct (last (reloads st).*1); by injection Hd.
  - intros i a b Ha Hb. unfold ordered in Hn. rewrite app_comm_cons in Hn.
    apply (Hn i); apply lookup_app_l_Some; [exact Ha|exact Hb].
Qed.

(** A change that happens after the digest was taken and before the directory is
    watched is missed: there is a run that comes to rest with a changed file and has
    never called [reload]. *)
Theorem early_change_missed first changed :
  ∃ st, steps (initial Sum256 first) st ∧ at_rest st ∧ lost st = false ∧ disk st = Ok changed ∧ reloads st = [].
Proof.
  eexists. split.
  - eapply rtc_l; [right; apply (step_change _ _ (Ok changed) [event_name w (rp_fileName w)]), file_changed; by left|].
    eapply rtc_l; [right; apply step_watch|]. apply rtc_refl.
  - done.
Qed.

(** When [fsnotify] loses events, the error it reports is only logged: [run] comes to
    rest with a changed file and has never called [reload]. *)
Theorem overflow_missed first changed :
  ∃ st, steps (watch (initial Sum256 first)) st ∧ at_rest st ∧ disk st = Ok changed ∧ reloads st = [].
Proof.
  eexists. split.
  - eapply rtc_l; [right; apply (step_change _ _ (Ok changed) [event_name w (rp_fileName w)]), file_changed; by left|].
    eapply rtc_l; [right; apply (step_overflow _ _ []), list_subseteq_nil|].
    eapply rtc_l; [right; by apply step_error|]. apply rtc_refl.
  - done.
Qed.

(** A change that is taken back can be missed even when the directory is watched: the
    file becomes [b], and is [c] for the moment in which [reload] reads it, and [b] again
    after that; [run] comes to rest having reloaded [c] although the file is [b]. *)
Theorem reverted_change_missed first b c :
  Sum256 b ≠ Sum256 first →
  ∃ st, steps (watch (initial Sum256 first)) st ∧ at_rest st ∧ lost st = false ∧ disk st = Ok b ∧
    reloads st = [(Sum256 b, Ok c)].
Proof.
  intros Hb. set (n := event_name w (rp_fileName w)).
  assert (reported w [n]) as Hrep by (apply file_changed; by left).
  assert (isConfigEvent w n = true) as Hev.
  { by pose proof (reported_noticed [n] Hrep) as [H|?%Exists_nil]%Exists_cons. }
  set (st1 := on_event w (change (watch (initial Sum256 first)) (Ok b) [n]) n []).
  assert (on_timer Sum256 st1 = {| disk := Ok b; watching := true; events := []; lost := false; timer := false;
    digest := Sum256 b; reloading := true; reloads := []; stopped := false |}) as E1.
  { unfold on_timer. cbn. by rewrite decide_False. }
  set (st2 := change (on_reload (change (on_timer Sum256 st1) (Ok c) [n])) (Ok b) [n]).
  set (st4 := on_event w (on_event w st2 n [n]) n []).
  assert (on_timer Sum256 st4 = {| disk := Ok b; watching := true; events := []; lost := false; timer := false;
    digest := Sum256 b; reloading := false; reloads := [(Sum256 b, Ok c)]; stopped := false |}) as E4.
  { unfold st4, st2. rewrite E1. unfold on_timer. cbn. by rewrite decide_True. }
  exists (on_timer Sum256 st4). rewrite E4. split; [rewrite <- E4|done].
  eapply rtc_l; [right; by apply step_change|]. eapply rtc_l; [left; by apply (step_event _ _ _ n [])|].
  eapply rtc_l; [left; apply step_timer; [done|exact Hev]|]. eapply rtc_l; [right; by apply step_change|].
  eapply rtc_l; [left; apply (step_reload _ _ (change (on_timer Sum256 st1) (Ok c) [n])); by rewrite E1|].
  eapply rtc_l; [right; by apply step_change|].
  eapply rtc_l; [left; apply (step_event _ _ st2 n [n]); unfold st2; by rewrite E1|].
  eapply rtc_l; [left; apply (step_event _ _ (on_event w st2 n [n]) n []); unfold st2; by rewrite E1|].
  eapply rtc_l; [left; apply (step_timer _ _ st4); [unfold st4, st2; by rewrite E1|cbn; rewrite Hev; apply orb_true_r]|].
  apply rtc_refl.
Qed.

End properties.

(** ** Witnesses *)

Section witnesses.
Import filepath configwatch.

Definition sample_path : resolvedPath :=
  {| rp_path := gs"/c/config.yaml"; rp_dir := gs"/c"; rp_fileName := gs"config.yaml" |}.

Lemma sample_path_abs : absolutePath (Ok gs"/c/config.yaml") = Ok sample_path.
Proof. vm_compute. reflexivity. Qed.

Example Clean_sample : Clean gs"/a/./b//../c/" = gs"/a/c" ∧ Dir gs"/a/b/../x" = gs"/a" ∧ Base gs"/a/b//" = gs"b".
Proof. vm_compute. done. Qed.

(** The link [..data] is swapped. *)
Lemma reloaded_at_rest_witness :
  ∃ st, rtc (step id sample_path) (watch (initial id gs"a")) st ∧ reloads st = [(gs"b", Ok gs"b")] ∧
    default gs"a" (last (reloads st).*1) = gs"b".
Proof.
  set (names := [gs"/c/..data_tmp"; gs"/c/..data"]).
  set (st1 := change (watch (initial id gs"a")) (Ok gs"b") names).
  set (st2 := on_event sample_path (on_event sample_path st1 gs"/c/..data_tmp" [gs"/c/..data"]) gs"/c/..data" []).
  assert (rtc (step id sample_path) (watch (initial id gs"a")) (on_reload (on_timer id st2))) as Hs.
  { eapply rtc_l; [right; apply (step_change _ _ (Ok gs"b") names), data_swapped; right; by left|].
    eapply rtc_l; [left; by apply (step_event _ _ st1 gs"/c/..data_tmp" [gs"/c/..data"])|].
    eapply rtc_l; [left; by apply (step_event _ _ _ gs"/c/..data" [])|]. eapply rtc_l; [left; by apply step_timer|].
    eapply rtc_l; [left; by apply step_reload|]. apply rtc_refl. }
  exists (on_reload (on_timer id st2)). split; [exact Hs|]. split; [vm_compute; reflexivity|].
  apply (reloaded_at_rest id gs"/c/config.yaml" sample_path sample_path_abs ltac:(discriminate) gs"a" _ Hs).
  - reflexivity.
  - vm_compute. repeat split.
  - reflexivity.
Defined.

Lemma reverted_change_missed_witness :
  ∃ st, rtc (step id sample_path) (watch (initial id gs"a")) st ∧ disk st = Ok gs"b" ∧ reloads st = [(gs"b", Ok gs"c")].
Proof.
  destruct (reverted_change_missed id gs"/c/config.yaml" sample_path sample_path_abs ltac:(discriminate) gs"a" gs"b" gs"c")
    as (st & Hs & _ & _ & Hd & Hr); [discriminate|].
  exists st. split; [exact Hs|]. split; [exact Hd|exact Hr].
Defined.

End witnesses.
