(* ===== verification/Conn.v ===== *)
(** * One client connection ([internal/proxy], [handleConn])

    The whole handler of an accepted connection: the PROXY header of a trusted
    peer, the client policy, the rate limiter, the handshake, the route, the
    status override and the fallbacks, the scaler webhook, the dial, the replay of
    the handshake, and the byte proxy. A connection is the bytes that will arrive
    and how its writes and deadline calls will behave; what the world decides
    (the clock, the dial, which side closes first) is the record [world]. *)
From Stdlib Require Import Floats.SpecFloat.
From S2P Require Import Prelude GoUnicode GoStrings GoNet GoIO HostAddr Tables GoSort.
From S2P Require Import McProto ClientPolicy ProxyProtocol RateLimit Config Kubernetes Metrics Merge Router Server.
Import gostrings io.
Open Scope Z_scope.

Module conn.
Import config.
#[local] Existing Instance netip.Addr_eq_dec.
#[local] Existing Instance netip.Addr_countable.

(** ** Metric labels *)

Definition ConnectionResultClosed : bytes := gs"closed".
Definition ConnectionResultDenied : bytes := gs"denied".
Definition ConnectionResultFailed : bytes := gs"failed".
Definition ReasonBackendClose : bytes := gs"backend_close".
Definition ReasonBackendDialFailed : bytes := gs"backend_dial_failed".
Definition ReasonBackendDialTimeout : bytes := gs"backend_dial_timeout".
Definition ReasonClientClose : bytes := gs"client_close".
Definition ReasonClientDenied : bytes := gs"client_denied".
Definition ReasonContextCancelled : bytes := gs"context_cancelled".
Definition ReasonHandshakeMalformed : bytes := gs"handshake_malformed".
Definition ReasonHandshakeTimeout : bytes := gs"handshake_timeout".
Definition ReasonInitialWriteFailed : bytes := gs"initial_write_failed".
Definition ReasonRouteDenied : bytes := gs"route_denied".
Definition ReasonRateLimited : bytes := gs"rate_limited".
Definition ReasonSuccess : bytes := gs"success".
Definition ReasonUnknown : bytes := gs"unknown".
Definition RouteDecisionDefault : bytes := gs"default".
Definition RouteDecisionDenied : bytes := gs"denied".
Definition RouteDecisionMatched : bytes := gs"matched".
Definition FallbackStateLogin : bytes := gs"login".
Definition FallbackStateStatus : bytes := gs"status".

(** ** Errors *)

(** [errors.As] for [net.Error], then [Timeout()]: the first network error of the
    tree; [context.DeadlineExceeded] is one. *)
Fixpoint net_error (e : error) : option bool :=
  match e with
  | Sentinel n => if String.eqb n "context.DeadlineExceeded" then Some true else None
  | NetError timeout _ _ => Some timeout
  | Errorf _ _ ws =>
      (fix first (l : list error) : option bool :=
         match l with
         | [] => None
         | w :: l' => match net_error w with Some b => Some b | None => first l' end
         end) ws
  end.

Definition isTimeout (e : error) : bool := from_option id false (net_error e).

Definition classifyDialError (e : error) : bytes :=
  if errors_Is "context.Canceled" e then ReasonContextCancelled
  else if errors_Is "context.DeadlineExceeded" e || isTimeout e then ReasonBackendDialTimeout
  else ReasonBackendDialFailed.

(** ** Connections *)

(** What will arrive; how the coming [Write] calls behave (the number of bytes
    taken and the error; when the list is exhausted everything is taken); how the
    coming [SetReadDeadline] calls behave; the bytes written so far; the calls of the
    recorder made so far by the goroutine that handles the connection. *)
Record Conn := {
  c_in : reader;
  c_writes : list (nat * option error);
  c_deadlines : list (option error);
  c_out : bytes;
  c_calls : list metrics.op
}.

Definition cx (A : Type) : Type := Conn → res A * Conn.

Definition cx_bind {A B} (m : cx A) (k : A → cx B) : cx B := λ c,
  match m c with
  | (Ok a, c') => k a c'
  | (Err e, c') => (Err e, c')
  end.
Definition cx_ret {A} (a : A) : cx A := λ c, (Ok a, c).
Definition cx_fail {A} (e : error) : cx A := λ c, (Err e, c).

Notation "'con!' p := m 'in' k" := (cx_bind m (λ x, match x with p => k end))
  (at level 10, p pattern, m at level 200, k at level 200,
   format "'[v' 'con!'  p  :=  m  'in'  '/' k ']'") : go_scope.

(** Read from the connection. *)
Definition cx_read {A} (m : rd A) : cx A := λ c,
  let '(x, r) := m (c_in c) in
  (x, {| c_in := r; c_writes := c_writes c; c_deadlines := c_deadlines c; c_out := c_out c;
         c_calls := c_calls c |}).

Definition SetReadDeadline : cx unit := λ c,
  let c' := {| c_in := c_in c; c_writes := c_writes c; c_deadlines := tail (c_deadlines c);
               c_out := c_out c; c_calls := c_calls c |} in
  match c_deadlines c with
  | Some e :: _ => (Err e, c')
  | _ => (Ok tt, c')
  end.

(** One [Write]: how many bytes were taken, the error. *)
Definition Write (data : bytes) (c : Conn) : nat * option error * Conn :=
  let '(n, e) := match c_writes c with
                 | [] => (length data, None)
                 | (n, e) :: _ => (Nat.min n (length data), e)
                 end in
  (n, e, {| c_in := c_in c; c_writes := tail (c_writes c); c_deadlines := c_deadlines c;
            c_out := c_out c ++ take n data; c_calls := c_calls c |}).

(** [writeAll]: every iteration takes a byte or ends, so as many iterations as
    there are bytes are enough (see [writeAll_exact]). *)
Fixpoint write_loop (fuel : nat) (data : bytes) : cx unit := λ c,
  match data, fuel with
  | [], _ => (Ok tt, c)
  | _, O => (Ok tt, c)
  | _, S f =>
      match Write data c with
      | (_, Some e, c') => (Err e, c')
      | (n, None, c') =>
          if (n =? 0)%nat then (Err ErrShortWrite, c') else write_loop f (drop n data) c'
      end
  end.

Definition writeAll (data : bytes) : cx unit := write_loop (length data) data.

(** A call of the recorder. *)
Definition called (o : metrics.op) (c : Conn) : Conn := {|
  c_in := c_in c; c_writes := c_writes c; c_deadlines := c_deadlines c; c_out := c_out c;
  c_calls := c_calls c ++ [o] |}.

Definition count_fallback (st reason : bytes) : cx unit := λ c,
  (Ok tt, called (metrics.OFallbackResponse st reason) c).

(** ** Who the client is *)

(** [net.Addr]: a TCP address with its IP bytes, or another address by its text. *)
Inductive RemoteAddr :=
| TCPAddr (ip : bytes)
| OtherAddr (text : bytes).

Definition addressFromAddr (addr : RemoteAddr) : res netip.Addr :=
  match addr with
  | TCPAddr ip =>
      match netip.AddrFromSlice ip with
      | None => Err (errors_New "parse client TCP address %q")
      | Some parsed => Ok (netip.Unmap parsed)
      end
  | OtherAddr text =>
      match net.SplitHostPort text with
      | Err e => Err (Errorf "split client address %q: %w" [AStr text] [e])
      | Ok (host, _) =>
          match netip.ParseAddr host with
          | Err e => Err (Errorf "parse client address %q: %w" [AStr host] [e])
          | Ok parsed => Ok (netip.Unmap parsed)
          end
      end
  end.

(** ** What a handshake leads to *)

Definition routeDecisionResult (matchedBy : bytes) : bytes :=
  if decide (matchedBy = gs"default") then RouteDecisionDefault else RouteDecisionMatched.

Definition intentName (nextState : Z) : bytes :=
  if nextState =? mcproto.NextStateStatus then gs"status"
  else if nextState =? mcproto.NextStateLogin then gs"login"
  else if nextState =? mcproto.NextStateTransfer then gs"transfer"
  else gs"unknown".

Definition selectedBackend (h : mcproto.Handshake) (sel : router.Selection) : bytes * bytes :=
  if (mcproto.NextState h =? mcproto.NextStateStatus)
     && bool_decide (router.sel_StatusBackend sel ≠ [])
  then (router.sel_StatusBackend sel, gs"status_backend")
  else (router.sel_Backend sel, gs"backend").

Definition statusFallbackEnabled (c : Config) (h : mcproto.Handshake) : bool :=
  fb_Enabled (Fallback_ c) && fs_Enabled (fb_Status (Fallback_ c))
  && (mcproto.NextState h =? mcproto.NextStateStatus).

Definition statusFallbackForRouteDeniedEnabled (c : Config) (h : mcproto.Handshake) : bool :=
  statusFallbackEnabled c h
  && match fs_RespondOnRouteDenied (fb_Status (Fallback_ c)) with None => true | Some b => b end.

Definition statusFallbackForBackendFailureEnabled (c : Config) (h : mcproto.Handshake)
    (reason : bytes) : bool :=
  if negb (statusFallbackEnabled c h) || negb (fs_RespondOnBackendFailure (fb_Status (Fallback_ c)))
  then false
  else bool_decide (reason = ReasonBackendDialFailed) || bool_decide (reason = ReasonBackendDialTimeout).

Definition loginFallbackEnabled (c : Config) (h : mcproto.Handshake) : bool :=
  fb_Enabled (Fallback_ c) && fl_Enabled (fb_Login (Fallback_ c))
  && (mcproto.NextState h =? mcproto.NextStateLogin).

Definition loginFallbackForRouteDeniedEnabled (c : Config) (h : mcproto.Handshake) : bool :=
  loginFallbackEnabled c h
  && match fl_RespondOnRouteDenied (fb_Login (Fallback_ c)) with None => true | Some b => b end.

(** ** Answering the client *)

Definition response_of (name : bytes) (protocol max online : Z) (motd : bytes) : mcproto.StatusResponse := {|
  mcproto.Version := {| mcproto.Name := name; mcproto.Protocol := protocol |};
  mcproto.Players := {| mcproto.Max := max; mcproto.Online := online |};
  mcproto.Description := {| mcproto.Text := motd |} |}.

(** The ping that may follow a status response: a connection that ends or times
    out instead is fine. *)
Definition answer_ping (limits : mcproto.Limits) : cx unit :=
  con! _ := SetReadDeadline in
  λ c, match cx_read (mcproto.ReadPacket (mcproto.MaxPacketLength limits)) c with
       | (Err e, c') => if errors_Is "io.EOF" e || isTimeout e then (Ok tt, c') else (Err e, c')
       | (Ok (packetID, payload), c') =>
           if negb (packetID =? mcproto.StatusPingPacketID) || negb (length payload =? 8)%nat
           then (Err (errors_New "malformed status ping"), c')
           else writeAll (mcproto.BuildStatusPongPacket payload) c'
       end.

(** The status request that must come first. *)
Definition read_status_request (limits : mcproto.Limits) : cx unit :=
  con! _ := SetReadDeadline in
  con! (packetID, payload) := cx_read (mcproto.ReadPacket (mcproto.MaxPacketLength limits)) in
  if negb (packetID =? mcproto.StatusRequestPacketID) || negb (length payload =? 0)%nat
  then cx_fail (errors_New "malformed status request")
  else cx_ret tt.

Definition serveStatusOverride (limits : mcproto.Limits) (o : StatusOverride) : cx unit :=
  con! _ := read_status_request limits in
  con! _ := writeAll (mcproto.BuildStatusResponsePacket
    (response_of (so_ProtocolName o) (so_ProtocolVersion o) (so_MaxPlayers o) (so_OnlinePlayers o)
                 (so_MOTD o))) in
  answer_ping limits.

Definition fallback_response (c : Config) : mcproto.StatusResponse :=
  let st := fb_Status (Fallback_ c) in
  response_of (fs_ProtocolName st) (fs_ProtocolVersion st) (fs_MaxPlayers st) (fs_OnlinePlayers st)
              (fs_MOTD st).

Definition serveStatusFallback (limits : mcproto.Limits) (c : Config) (reason : bytes) : cx unit :=
  con! _ := read_status_request limits in
  con! _ := writeAll (mcproto.BuildStatusResponsePacket (fallback_response c)) in
  con! _ := count_fallback FallbackStateStatus reason in
  answer_ping limits.

Definition serveLoginDisconnectFallback (limits : mcproto.Limits) (c : Config) (h : mcproto.Handshake)
    : cx unit :=
  con! _ := SetReadDeadline in
  con! (packetID, payload) := cx_read (mcproto.ReadPacket (mcproto.MaxPacketLength limits)) in
  if negb (packetID =? mcproto.LoginStartPacketID) then cx_fail (errors_New "malformed login start")
  else match mcproto.ValidateLoginStartPayload (mcproto.ProtocolVersion h) payload with
  | Some e => cx_fail e
  | None =>
      match mcproto.BuildLoginDisconnectPacket (mcproto.ProtocolVersion h)
              (fl_Message (fb_Login (Fallback_ c))) with
      | Err e => cx_fail e
      | Ok response =>
          con! _ := writeAll response in
          count_fallback FallbackStateLogin ReasonRouteDenied
      end
  end.

(** ** Proxying *)

Inductive direction := client_to_backend | backend_to_client.

Record proxyResult := { pr_reason : bytes; pr_direction : option direction; pr_bytesCopied : Z }.

Definition closeReasonForDirection (d : direction) : bytes :=
  match d with backend_to_client => ReasonBackendClose | client_to_backend => ReasonClientClose end.

(** The result of [proxy]: the first of the two copies to end, or the
    cancellation; then both connections are closed and the other copy awaited. *)
Definition proxy_bytes (first : option (direction * Z)) : proxyResult :=
  match first with
  | None => {| pr_reason := ReasonContextCancelled; pr_direction := None; pr_bytesCopied := 0 |}
  | Some (d, n) => {| pr_reason := closeReasonForDirection d; pr_direction := Some d; pr_bytesCopied := n |}
  end.

(** ** The handler *)

Record world := {
  w_remote : RemoteAddr;
  w_now : Z;
  w_iter : gmap netip.Addr (ratelimit.entry spec_float) → list (netip.Addr * ratelimit.entry spec_float);
  (** The dial of an address: an error, or how the writes to the backend behave. *)
  w_dial : bytes → res (list (nat * option error));
  w_proxy : option (direction * Z)
}.

(** What a connection leads to: the labels of [ConnectionFinished]; the scaler event (backend, address, next state); the address dialled;
    the labels of [BackendDialFinished]; the bytes the backend took before the
    proxying; the result of the proxying; the client connection afterwards. *)
Record outcome := {
  oc_result : bytes;
  oc_reason : bytes;
  oc_notified : option (bytes * bytes * Z);
  oc_dialed : option bytes;
  oc_backend : bytes;
  oc_proxied : option proxyResult;
  oc_client : Conn
}.

Definition finish (result reason : bytes) (c : Conn) : outcome := {|
  oc_result := result; oc_reason := reason; oc_notified := None; oc_dialed := None; oc_backend := [];
  oc_proxied := None; oc_client := c |}.

(** From the dial on: [serveStatusFallback] after a failed dial, else the replay of
    the handshake and the proxying. *)
Definition connect (limits : mcproto.Limits) (c : Config) (w : world) (h : mcproto.Handshake)
    (rawHandshake routeAddress : bytes) (sel : router.Selection) (client : Conn) : outcome :=
  let '(backendAddress, _) := selectedBackend h sel in
  let notified := Some (backendAddress, routeAddress, mcproto.NextState h) in
  match w_dial w backendAddress with
  | Err e =>
      let reason := classifyDialError e in
      let client := called (metrics.OBackendDialFinished ConnectionResultFailed reason) client in
      let client' := if statusFallbackForBackendFailureEnabled c h reason
                     then (serveStatusFallback limits c reason client).2 else client in
      {| oc_result := ConnectionResultFailed; oc_reason := reason;
         oc_notified := notified; oc_dialed := Some backendAddress; oc_backend := [];
         oc_proxied := None; oc_client := client' |}
  | Ok writes =>
      let client := called (metrics.OBackendDialFinished ReasonSuccess ReasonSuccess) client in
      let backend := {| c_in := bytes_reader []; c_writes := writes; c_deadlines := [];
                        c_out := []; c_calls := [] |} in
      match writeAll rawHandshake backend with
      | (Err e, b) =>
          {| oc_result := ConnectionResultFailed; oc_reason := ReasonInitialWriteFailed;
             oc_notified := notified; oc_dialed := Some backendAddress; oc_backend := c_out b;
             oc_proxied := None; oc_client := client |}
      | (Ok _, b) =>
          let r := proxy_bytes (w_proxy w) in
          {| oc_result := ConnectionResultClosed; oc_reason := pr_reason r;
             oc_notified := notified; oc_dialed := Some backendAddress; oc_backend := c_out b;
             oc_proxied := Some r; oc_client := client |}
      end
  end.

(** A handshake without a route: a fallback, or nothing. *)
Definition refuse_route (limits : mcproto.Limits) (c : Config) (h : mcproto.Handshake) (client : Conn)
    : outcome :=
  let client := called (metrics.ORouteDecision RouteDecisionDenied) client in
  let client' :=
    if statusFallbackForRouteDeniedEnabled c h
    then (serveStatusFallback limits c ReasonRouteDenied client).2
    else if loginFallbackForRouteDeniedEnabled c h
    then (serveLoginDisconnectFallback limits c h client).2
    else client in
  finish ConnectionResultDenied ReasonRouteDenied client'.

(** From the handshake on. *)
Definition serve (limits : mcproto.Limits) (st : proxy.serverState) (w : world) (client : Conn) : outcome :=
  let c := proxy.cfg st in
  match SetReadDeadline client with
  | (Err _, client) => finish ConnectionResultFailed ReasonUnknown client
  | (Ok _, client) =>
      let '(x, rawHandshake, r) := mcproto.ReadHandshake (c_in client) limits in
      let client := {| c_in := r; c_writes := c_writes client; c_deadlines := c_deadlines client;
                       c_out := c_out client; c_calls := c_calls client |} in
      match x with
      | Err e => finish ConnectionResultDenied
                   (if isTimeout e then ReasonHandshakeTimeout else ReasonHandshakeMalformed) client
      | Ok h =>
          match SetReadDeadline client with
          | (Err _, client) => finish ConnectionResultFailed ReasonUnknown client
          | (Ok _, client) =>
              let routeAddress := mcproto.RouteAddress h in
              match router.Select (proxy.routeTable st) routeAddress with
              | Err _ => refuse_route limits c h client
              | Ok sel =>
                  let client := called (metrics.ORouteDecision (routeDecisionResult (router.MatchedBy sel))) client in
                  match router.sel_StatusOverride sel with
                  | Some o =>
                      if mcproto.NextState h =? mcproto.NextStateStatus then
                        match serveStatusOverride limits o client with
                        | (Err _, client) => finish ConnectionResultFailed ReasonUnknown client
                        | (Ok _, client) => finish ConnectionResultClosed ReasonSuccess client
                        end
                      else connect limits c w h rawHandshake routeAddress sel client
                  | None => connect limits c w h rawHandshake routeAddress sel client
                  end
              end
          end
      end
  end.

(** The address the client is known by, and the connection after the PROXY header
    of a trusted peer. [None] is a header that cannot be read. *)
Definition identify (st : proxy.serverState) (w : world) (client : Conn)
    : option (res netip.Addr) * Conn :=
  match addressFromAddr (w_remote w) with
  | Err e => (Some (Err e), client)
  | Ok addr =>
      if proxyprotocol.Trusted (proxy.trustedProxies st) addr then
        match cx_read proxyprotocol.Read client with
        | (Err _, client) => (None, client)
        | (Ok addr, client) => (Some (Ok addr), client)
        end
      else (Some (Ok addr), client)
  end.

(** The gates: who the client is, the policy, the limiter. The limiter of the state is
    shared by all its connections: it is returned. *)
Definition admission (limits : mcproto.Limits) (st : proxy.serverState) (w : world) (client : Conn)
    : outcome * ratelimit.Limiter spec_float :=
  let limiter := proxy.clientRateLimit st in
  match identify st w client with
  | (None, client) => (finish ConnectionResultDenied ReasonHandshakeMalformed client, limiter)
  | (Some (Err _), client) => (finish ConnectionResultDenied ReasonClientDenied client, limiter)
  | (Some (Ok addr), client) =>
      if negb (clientpolicy.Allows (proxy.clientPolicy st) addr)
      then (finish ConnectionResultDenied ReasonClientDenied client, limiter)
      else
        let '(ok, limiter) := ratelimit.Allow (w_iter w) limiter addr (w_now w) in
        if negb ok then (finish ConnectionResultDenied ReasonRateLimited client, limiter)
        else (serve limits st w client, limiter)
  end.

(** The deferred function: it reads the result and the reason as they are when the
    handler returns. *)
Definition deferred (o : outcome) : outcome := {|
  oc_result := oc_result o; oc_reason := oc_reason o; oc_notified := oc_notified o; oc_dialed := oc_dialed o;
  oc_backend := oc_backend o; oc_proxied := oc_proxied o;
  oc_client := called (metrics.OConnectionFinished (oc_result o) (oc_reason o)) (oc_client o) |}.

Definition handleConn (limits : mcproto.Limits) (st : proxy.serverState) (w : world) (client : Conn)
    : outcome * ratelimit.Limiter spec_float :=
  let client := called metrics.OConnectionAccepted client in
  let '(o, limiter) := admission limits st w client in
  (deferred o, limiter).

(** ** The running gateway *)

Definition put_limiter (s : proxy.Server) (l : ratelimit.Limiter spec_float) : proxy.Server :=
  let st := proxy.state s in {|
  proxy.state := {|
    proxy.generation := proxy.generation st; proxy.staticConfig := proxy.staticConfig st;
    proxy.cfg := proxy.cfg st; proxy.routeTable := proxy.routeTable st;
    proxy.clientPolicy := proxy.clientPolicy st; proxy.clientRateLimit := l;
    proxy.trustedProxies := proxy.trustedProxies st; proxy.discoveryMerge := proxy.discoveryMerge st;
    proxy.discoveredRoutes := proxy.discoveredRoutes st |};
  proxy.limits := proxy.limits s; proxy.metrics := proxy.metrics s;
  proxy.listenAddress := proxy.listenAddress s |}.

(** A connection accepted in the published state: all it changes there is the
    limiter. (One that is still served under an older state works on that state's
    limiter, which nothing else reads any more.) *)
Definition accept (s : proxy.Server) (w : world) (client : Conn) : outcome * proxy.Server :=
  let '(o, l) := handleConn (proxy.limits s) (proxy.state s) w client in (o, put_limiter s l).

(** The gateways that can be running: from the snapshot of a valid configuration, by
    any sequence of reloads, discovery updates and connections. *)
Inductive running `{Env} `{ErrorText} : proxy.Server → Prop :=
| run_start c discovered snapshot s :
    proxy.BuildRouteSnapshot c discovered = Ok snapshot → proxy.newServer snapshot = Some s → running s
| run_op s o e s' : running s → proxy.apply_op s o = Some (e, s') → running s'
| run_conn s w client : running s → ratelimit.iterates (w_iter w) → running (accept s w client).2.

End conn.

(** ** Lemmas *)

Section lemmas.
Import config conn.

(** What a write leaves alone. *)
Definition same_input (c c' : Conn) : Prop :=
  c_in c' = c_in c ∧ c_deadlines c' = c_deadlines c ∧ c_calls c' = c_calls c.

Lemma write_loop_spec fuel data c x c' :
  (length data ≤ fuel)%nat → write_loop fuel data c = (x, c') →
  same_input c c' ∧ ∃ n, c_out c' = c_out c ++ take n data ∧ (x = Ok tt → take n data = data).
Proof.
  revert data c. induction fuel as [|f IH]; intros data c Hl H.
  { destruct data; [|cbn in Hl; lia]. injection H as <- <-. split; [done|]. exists O. by rewrite app_nil_r. }
  destruct data as [|b t]; [injection H as <- <-; split; [done|]; exists O; by rewrite app_nil_r|].
  cbn [write_loop] in H. set (data := b :: t) in *. unfold Write in H.
  set (ne := match c_writes c with [] => _ | _ => _ end) in H. destruct ne as [n e] eqn:En. subst ne.
  destruct e as [e|]; [injection H as <- <-; split; [done|]; by exists n|].
  destruct (n =? 0)%nat eqn:E0; [injection H as <- <-; split; [done|]; by exists n|]. bool_prop.
  apply IH in H as [Hs (k & Ho & Hx)]; [|rewrite length_drop; cbn in *; lia]. cbn in Hs, Ho.
  split; [done|]. exists (n + k)%nat. rewrite Ho, <- app_assoc, take_take_drop. split; [done|].
  intros Hok. rewrite <- take_take_drop, (Hx Hok). apply take_drop.
Qed.

Lemma writeAll_spec data c x c' : writeAll data c = (x, c') →
  same_input c c' ∧ ∃ n, c_out c' = c_out c ++ take n data ∧ (x = Ok tt → take n data = data).
Proof. by apply write_loop_spec. Qed.

(** A connection that takes what it is given. *)
Definition writable (c : Conn) : Prop := c_writes c = [].
Definition no_timers (c : Conn) : Prop := c_deadlines c = [].

Lemma writeAll_writable data c : writable c →
  writeAll data c = (Ok tt, {| c_in := c_in c; c_writes := []; c_deadlines := c_deadlines c;
                               c_out := c_out c ++ data; c_calls := c_calls c |}).
Proof.
  intros Hw. unfold writeAll. destruct data as [|b t]; cbn [length write_loop].
  { rewrite app_nil_r. destruct c; cbn in *. by rewrite Hw. }
  unfold Write. rewrite Hw. cbn [tail]. change (S (length t)) with (length (b :: t)).
  rewrite firstn_all, drop_all. cbn [length Nat.eqb]. by destruct (length t).
Qed.

Lemma SetReadDeadline_spec c x c' : SetReadDeadline c = (x, c') →
  c_in c' = c_in c ∧ c_out c' = c_out c ∧ c_writes c' = c_writes c ∧ c_calls c' = c_calls c.
Proof. unfold SetReadDeadline. destruct (c_deadlines c) as [|[e|] l]; by intros [= <- <-]. Qed.

Lemma cx_bind_eq {A B} (m : cx A) (k : A → cx B) c a c' : m c = (Ok a, c') → cx_bind m k c = k a c'.
Proof. intros E. unfold cx_bind. by rewrite E. Qed.

Lemma cx_bind_inv {A B} (m : cx A) (k : A → cx B) c x c'' :
  cx_bind m k c = (x, c'') →
  (∃ e, m c = (Err e, c'') ∧ x = Err e) ∨ ∃ a c', m c = (Ok a, c') ∧ k a c' = (x, c'').
Proof. unfold cx_bind. destruct (m c) as [[a|e] c']; [eauto|]. intros [= <- <-]. eauto. Qed.

(** Reading the PROXY header of a trusted peer. *)
Lemma identify_spec st w c who c' : identify st w c = (who, c') →
  c_out c' = c_out c ∧ c_writes c' = c_writes c ∧
  ∃ header, consumed (c_in c) (c_in c') header ∧ (length header ≤ 528)%nat ∧
    ((∀ a, addressFromAddr (w_remote w) = Ok a →
        proxyprotocol.Trusted (proxy.trustedProxies st) a = false) → header = []).
Proof.
  unfold identify. destruct (addressFromAddr _) as [a|e].
  2:{ intros [= <- <-]. split_and!; [done..|]. exists []. split_and!; [apply consumed_refl|cbn; lia|done]. }
  destruct (proxyprotocol.Trusted _ a) eqn:Et.
  2:{ intros [= <- <-]. split_and!; [done..|]. exists []. split_and!; [apply consumed_refl|cbn; lia|done]. }
  unfold cx_read. destruct (proxyprotocol.Read (c_in c)) as [x r] eqn:Er.
  destruct (proxyprotocol.Read_takes _ _ _ Er) as (used & Hu & Hl).
  assert (∀ c0 : Conn, c_out c0 = c_out c → c_writes c0 = c_writes c → c_in c0 = r →
    c_out c0 = c_out c ∧ c_writes c0 = c_writes c ∧
    ∃ header, consumed (c_in c) (c_in c0) header ∧ (length header ≤ 528)%nat ∧
    ((∀ a', Ok a = Ok a' → proxyprotocol.Trusted (proxy.trustedProxies st) a' = false) → header = []))
    as Hgo.
  { intros c0 Ho Hw Hi. split_and!; [done..|]. exists used. rewrite Hi. split_and!; [done..|].
    intros Hf. by rewrite (Hf a eq_refl) in Et. }
  destruct x; intros [= <- <-]; by apply Hgo.
Qed.

(** Who the client is, and what of its stream said so. *)
Lemma identify_header st w c a c' : identify st w c = (Some (Ok a), c') →
  c_out c' = c_out c ∧
  ∃ peer header, addressFromAddr (w_remote w) = Ok peer ∧ consumed (c_in c) (c_in c') header ∧
    if proxyprotocol.Trusted (proxy.trustedProxies st) peer
    then proxyprotocol.proxy_header a header else header = [] ∧ a = peer.
Proof.
  unfold identify. destruct (addressFromAddr _) as [peer|e]; [|done].
  destruct (proxyprotocol.Trusted _ peer) eqn:Et.
  - unfold cx_read. destruct (proxyprotocol.Read (c_in c)) as [[b|e] r] eqn:Er; [|done]. intros [= <- <-].
    destruct (proxyprotocol.Read_header _ _ _ Er) as (header & Hc & Hh). split; [done|]. exists peer, header. by rewrite Et.
  - intros [= <- <-]. split; [done|]. exists peer, []. rewrite Et. by split_and!.
Qed.

(** The connection once the handshake has been read up to [r]. *)
Definition with_in (c : Conn) (r : reader) : Conn := {|
  c_in := r; c_writes := c_writes c; c_deadlines := c_deadlines c; c_out := c_out c;
  c_calls := c_calls c |}.

(** Every path to a dial: a handshake that was read, a route that was found, and no
    status override answering instead. *)
Lemma serve_dialed limits st w c a :
  oc_dialed (serve limits st w c) = Some a →
  ∃ h raw r sel c1 c2,
    SetReadDeadline c = (Ok tt, c1) ∧ mcproto.ReadHandshake (c_in c1) limits = (Ok h, raw, r) ∧
    SetReadDeadline (with_in c1 r) = (Ok tt, c2) ∧
    router.Select (proxy.routeTable st) (mcproto.RouteAddress h) = Ok sel ∧
    serve limits st w c = connect limits (proxy.cfg st) w h raw (mcproto.RouteAddress h) sel
      (called (metrics.ORouteDecision (routeDecisionResult (router.MatchedBy sel))) c2).
Proof.
  unfold serve. destruct (SetReadDeadline c) as [[[]|e] c1] eqn:E1; [|done].
  destruct (mcproto.ReadHandshake (c_in c1) limits) as [[[h|e] raw] r] eqn:E2; [|done].
  fold (with_in c1 r). destruct (SetReadDeadline (with_in c1 r)) as [[[]|e] c2] eqn:E3; [|done].
  destruct (router.Select _ _) as [sel|e] eqn:E4; [|done]. intros H.
  exists h, raw, r, sel, c1, c2. split_and!; [done..|].
  destruct (router.sel_StatusOverride sel) as [o|]; [|done].
  destruct (mcproto.NextState h =? _); [|done].
  by destruct (serveStatusOverride limits o _) as [[]].
Qed.

Lemma connect_dialed limits c w h raw addr sel client :
  oc_dialed (connect limits c w h raw addr sel client) = Some (selectedBackend h sel).1.
Proof.
  unfold connect. destruct (selectedBackend h sel) as [b role]. destruct (w_dial w b) as [ws|e]; [|done].
  by destruct (writeAll _ _) as [[]].
Qed.

(** A proxied connection: the backend has the raw handshake, the client nothing. *)
Lemma connect_proxied limits c w h raw addr sel client r :
  oc_proxied (connect limits c w h raw addr sel client) = Some r →
  oc_backend (connect limits c w h raw addr sel client) = raw ∧
  oc_client (connect limits c w h raw addr sel client) =
    called (metrics.OBackendDialFinished ReasonSuccess ReasonSuccess) client.
Proof.
  unfold connect. destruct (selectedBackend h sel) as [b role]. destruct (w_dial w b) as [ws|e]; [|done].
  destruct (writeAll _ _) as [[[]|e] b'] eqn:E; [|done]. intros _. cbn.
  apply writeAll_spec in E as (_ & n & -> & Hn). cbn. by rewrite Hn.
Qed.

(** Identifying the client makes no call of the recorder. *)
Lemma identify_called st w c o :
  identify st w (called o c) = let '(who, c1) := identify st w c in (who, called o c1).
Proof.
  unfold identify. destruct (addressFromAddr _) as [a|e]; [|done].
  destruct (proxyprotocol.Trusted _ a); [|done]. unfold cx_read. cbn [called c_in].
  by destruct (proxyprotocol.Read (c_in c)) as [[] r].
Qed.

Lemma identify_calls st w c who c1 : identify st w c = (who, c1) → c_calls c1 = c_calls c.
Proof.
  unfold identify. destruct (addressFromAddr _) as [a|e]; [|by intros [= <- <-]].
  destruct (proxyprotocol.Trusted _ a); [|by intros [= <- <-]]. unfold cx_read.
  by destruct (proxyprotocol.Read (c_in c)) as [[] r]; intros [= <- <-].
Qed.

(** Every path past the gates. *)
Lemma handleConn_admitted limits st w c o l :
  handleConn limits st w c = (o, l) →
  (oc_dialed o = None ∧ oc_notified o = None ∧ oc_backend o = [] ∧
   oc_proxied o = None ∧ oc_result o = ConnectionResultDenied ∧
   ∃ who c1, identify st w c = (who, c1) ∧
     oc_client o = called (metrics.OConnectionFinished (oc_result o) (oc_reason o))
                     (called metrics.OConnectionAccepted c1)) ∨
  ∃ a c1, identify st w c = (Some (Ok a), c1) ∧
    clientpolicy.Allows (proxy.clientPolicy st) a = true ∧
    ratelimit.Allow (w_iter w) (proxy.clientRateLimit st) a (w_now w) = (true, l) ∧
    o = deferred (serve limits st w (called metrics.OConnectionAccepted c1)).
Proof.
  unfold handleConn, admission. rewrite identify_called. destruct (identify st w c) as [[[a|e]|] c1];
    [|intros [= <- <-]; left; split_and!; try done; by eexists _, _..].
  destruct (clientpolicy.Allows _ a) eqn:Ea; cbn [negb];
    [|intros [= <- <-]; left; split_and!; try done; by eexists _, _].
  destruct (ratelimit.Allow _ _ _ _) as [[] l'] eqn:El; cbn [negb]; intros [= <- <-].
  - right. by exists a, c1.
  - left. split_and!; try done. by eexists _, _.
Qed.

(** ** Lemmas: the answers to a client that behaves *)

Lemma limit_of_max limits : max_packet limits < 2 ^ 31 → mcproto.MaxPacketLength limits < 2 ^ 31.
Proof. unfold max_packet, effective. case_match eqn:E; bool_prop; lia. Qed.

(** The exchanges below are with a client whose packets arrive and who takes what
    is written. *)
Section exchanges.
Context (limits : mcproto.Limits) (Hmax : 9 ≤ max_packet limits < 2 ^ 31).

Lemma SetReadDeadline_ok c : no_timers c → SetReadDeadline c = (Ok tt, c).
Proof. unfold no_timers, SetReadDeadline. destruct c as [? ? l ? ?]. cbn. by intros ->. Qed.

Lemma cx_read_packet c id fields rest e :
  is_int 32 id → zlen (mcproto.WriteVarInt id ++ concat fields) ≤ max_packet limits →
  c_in c = {| r_data := mcproto.BuildPacket id fields ++ rest; r_end := e |} →
  cx_read (mcproto.ReadPacket (mcproto.MaxPacketLength limits)) c =
    (Ok (id, concat fields), with_in c {| r_data := rest; r_end := e |}).
Proof.
  intros Hid Hl Hc. unfold cx_read. rewrite Hc, ReadPacket_BuildPacket; [done|done| |done].
  apply limit_of_max. lia.
Qed.

Lemma read_status_request_ok c rest e :
  no_timers c →
  c_in c = {| r_data := mcproto.BuildPacket mcproto.StatusRequestPacketID [] ++ rest; r_end := e |} →
  read_status_request limits c = (Ok tt, with_in c {| r_data := rest; r_end := e |}).
Proof.
  intros Ht Hc. unfold read_status_request. erewrite cx_bind_eq by by apply SetReadDeadline_ok.
  erewrite cx_bind_eq by (eapply cx_read_packet; [| |exact Hc]; [done|change (zlen _) with 1; lia]).
  done.
Qed.

Lemma answer_ping_ok c ping rest e :
  no_timers c → writable c → length ping = 8%nat →
  c_in c = {| r_data := mcproto.BuildPacket mcproto.StatusPingPacketID [ping] ++ rest; r_end := e |} →
  answer_ping limits c = (Ok tt, {| c_in := {| r_data := rest; r_end := e |}; c_writes := [];
    c_deadlines := c_deadlines c; c_out := c_out c ++ mcproto.BuildStatusPongPacket ping;
    c_calls := c_calls c |}).
Proof.
  intros Ht Hw Hp Hc. unfold answer_ping. erewrite cx_bind_eq by by apply SetReadDeadline_ok. cbn beta iota.
  erewrite cx_read_packet; [| | |exact Hc]; [|done|].
  2:{ cbn [concat]. rewrite app_nil_r. change (mcproto.WriteVarInt _) with [x01]. unfold zlen.
      rewrite length_app, Hp. cbn [length]. lia. }
  cbn [concat]. rewrite app_nil_r, Hp. cbn [Nat.eqb negb orb Z.eqb mcproto.StatusPingPacketID].
  by rewrite writeAll_writable.
Qed.

(** A whole status exchange answered by the fallback. *)
Lemma serveStatusFallback_ok cfg reason c ping rest e :
  no_timers c → writable c → length ping = 8%nat →
  c_in c = {| r_data := mcproto.BuildPacket mcproto.StatusRequestPacketID [] ++
                        mcproto.BuildPacket mcproto.StatusPingPacketID [ping] ++ rest; r_end := e |} →
  serveStatusFallback limits cfg reason c = (Ok tt, {| c_in := {| r_data := rest; r_end := e |};
    c_writes := []; c_deadlines := c_deadlines c;
    c_out := c_out c ++ mcproto.BuildStatusResponsePacket (fallback_response cfg)
                     ++ mcproto.BuildStatusPongPacket ping;
    c_calls := c_calls c ++ [metrics.OFallbackResponse FallbackStateStatus reason] |}).
Proof.
  intros Ht Hw Hp Hc. unfold serveStatusFallback.
  erewrite cx_bind_eq by by apply read_status_request_ok.
  erewrite cx_bind_eq by by apply writeAll_writable.
  erewrite cx_bind_eq by done. cbn beta iota.
  erewrite answer_ping_ok by done. cbn. by rewrite <- app_assoc.
Qed.

(** A login answered by a disconnect. *)
Lemma serveLoginDisconnectFallback_ok cfg h c username uuid rest e :
  no_timers c → writable c → mcproto.ProtocolVersion h = mcproto.ProtocolMinecraft1211 →
  utf8.Valid username = true → TrimSpace username ≠ [] → zlen username ≤ 16 → length uuid = 16%nat →
  34 ≤ max_packet limits →
  c_in c = {| r_data := mcproto.BuildPacket mcproto.LoginStartPacketID
                          [mcproto.EncodeString username; uuid] ++ rest; r_end := e |} →
  ∃ packet, mcproto.BuildLoginDisconnectPacket (mcproto.ProtocolVersion h)
              (fl_Message (fb_Login (Fallback_ cfg))) = Ok packet ∧
  serveLoginDisconnectFallback limits cfg h c = (Ok tt, {| c_in := {| r_data := rest; r_end := e |};
    c_writes := []; c_deadlines := c_deadlines c; c_out := c_out c ++ packet;
    c_calls := c_calls c ++ [metrics.OFallbackResponse FallbackStateLogin ReasonRouteDenied] |}).
Proof.
  intros Ht Hw Hpv Hv Hb Hl Hu Hm Hc. rewrite Hpv. unfold mcproto.BuildLoginDisconnectPacket.
  change (mcproto.LoginDisconnectPacketIDForProtocol _) with (Ok (A := Z) mcproto.LoginDisconnectPacketID).
  cbn [res_bind]. eexists. split; [done|]. unfold serveLoginDisconnectFallback.
  erewrite cx_bind_eq by by apply SetReadDeadline_ok.
  erewrite cx_bind_eq.
  2:{ eapply cx_read_packet; [| |exact Hc]; [done|]. cbn [concat]. rewrite app_nil_r.
      unfold mcproto.EncodeString. change (mcproto.WriteVarInt mcproto.LoginStartPacketID) with [x00].
      unfold zlen in *. rewrite !length_app, Hu.
      rewrite length_WriteVarInt_small by (rewrite int_wrap_id; [lia|lia|apply int32_intro; lia]).
      cbn [length]. lia. }
  cbn beta iota. cbn [negb Z.eqb mcproto.LoginStartPacketID]. rewrite Hpv.
  assert (mcproto.ValidateLoginStartPayload mcproto.ProtocolMinecraft1211
    (concat [mcproto.EncodeString username; uuid]) = None) as ->.
  { unfold mcproto.ValidateLoginStartPayload. cbn [negb Z.eqb mcproto.ProtocolMinecraft1211 concat].
    unfold bytes_reader. rewrite app_nil_r, readString_Encode
      by (unfold mcproto.loginUsernameMaxBytes; done || lia).
    rewrite decide_False by done. cbn [r_data]. by rewrite Hu. }
  unfold mcproto.BuildLoginDisconnectPacket.
  change (mcproto.LoginDisconnectPacketIDForProtocol _) with (Ok (A := Z) mcproto.LoginDisconnectPacketID).
  cbn [res_bind]. by erewrite cx_bind_eq by by apply writeAll_writable.
Qed.

End exchanges.

End lemmas.

(** ** Properties *)

Section properties.
Import config proxy conn.
Context `{Env} `{!EnvLaws} `{ErrorText}.

(** All a connection does to the server is to call the limiter once at most. *)
Lemma accept_limiter s w c :
  (accept s w c).2 = put_limiter s (clientRateLimit (state s)) ∨
  ∃ a, (accept s w c).2 = put_limiter s (ratelimit.Allow (w_iter w) (clientRateLimit (state s)) a (w_now w)).2.
Proof.
  unfold accept, handleConn, admission. destruct (identify _ w _) as [[[a|e]|] c1]; [|by left..].
  destruct (negb _); [by left|]. right. exists a.
  destruct (ratelimit.Allow _ _ _ _) as [[] l']; done.
Qed.

Lemma put_limiter_consistent s l :
  consistent (state s) → ratelimit.cfg l = ratelimit.cfg (clientRateLimit (state s)) →
  ratelimit.bounded l → consistent (state (put_limiter s l)).
Proof. intros [] Hc Hb. constructor; try done. cbn. by rewrite Hc. Qed.

Lemma accept_consistent s w c :
  consistent (state s) → ratelimit.iterates (w_iter w) → consistent (state (accept s w c).2).
Proof.
  intros Hc Hit. pose proof (con_limiter_bounded _ Hc) as Hb.
  destruct (accept_limiter s w c) as [->|[a ->]]; apply put_limiter_consistent; try done.
  - apply (cfg_step _ {| ratelimit.c_iter := w_iter w; ratelimit.c_addr := a; ratelimit.c_now := w_now w |}).
  - by apply (step_bounded _ {| ratelimit.c_iter := w_iter w; ratelimit.c_addr := a; ratelimit.c_now := w_now w |}).
Qed.

Lemma running_consistent_state s : running s → consistent (state s).
Proof.
  induction 1 as [c ds snap s HB HN | s o e s' Hr IH Hop | s w c Hr IH Hit].
  - apply reachable_consistent_state. by eapply reach_start.
  - destruct (apply_op_outcome s o IH) as (e0 & s0 & E & Ho). rewrite E in Hop. simplify_eq.
    destruct e; [by rewrite Ho|]. by destruct Ho.
  - by apply accept_consistent.
Qed.

(** C3: whatever a running gateway goes through - reloads, failed reloads, discovery
    updates, connections, in any order - its published state stays consistent: the
    router, the policy, the trusted proxies and the settings of the limiter (whether it is
    on, its rate, burst, idle timeout and size) are those of the static configuration
    merged with the discovered routes, and the limiter's table is within its bound; and no
    operation panics in it. *)
Theorem running_consistent s : running s →
  consistent (state s) ∧ ∀ o, is_Some (apply_op s o).
Proof.
  intros Hr. pose proof (running_consistent_state s Hr) as Hc. split; [done|]. intros o.
  destruct (apply_op_outcome s o Hc) as (e & s' & E & _). by eexists.
Qed.

(** [writeAll] without an error has written exactly the data, whatever partial
    writes happened on the way; with an error it has written a prefix. It never
    runs out of iterations and never touches what is to be read. *)
Theorem writeAll_exact data c :
  let '(x, c') := writeAll data c in
  same_input c c' ∧
  match x with
  | Ok _ => c_out c' = c_out c ++ data
  | Err _ => ∃ n, c_out c' = c_out c ++ take n data
  end.
Proof.
  destruct (writeAll data c) as [x c'] eqn:E. apply writeAll_spec in E as (Hs & n & Ho & Hx).
  split; [done|]. destruct x as [[]|e]; [|by exists n]. by rewrite Ho, Hx.
Qed.

(** What the client has sent when the two-way copy begins: a header, if the peer is
    trusted, and what the backend has got. *)
Lemma proxied_split limits st w c o l r :
  handleConn limits st w c = (o, l) → oc_proxied o = Some r →
  c_out (oc_client o) = c_out c ∧
  ∃ a peer header, addressFromAddr (w_remote w) = Ok peer ∧
    consumed (c_in c) (c_in (oc_client o)) (header ++ oc_backend o) ∧
    if proxyprotocol.Trusted (trustedProxies st) peer
    then proxyprotocol.proxy_header a header else header = [] ∧ a = peer.
Proof.
  intros Hh Hp. destruct (handleConn_admitted _ _ _ _ _ _ Hh)
    as [(_ & _ & _ & Hn & _)|(a & c1 & Hi & _ & _ & ->)]; [congruence|].
  destruct (identify_header _ _ _ _ _ Hi) as (Ho1 & peer & header & Hpeer & Hc1 & Hhd).
  cbn [deferred oc_proxied oc_backend oc_client called c_in c_out] in *.
  set (c0 := called metrics.OConnectionAccepted c1) in *.
  assert (∃ a', oc_dialed (serve limits st w c0) = Some a') as [a' Hd].
  { revert Hp. unfold serve. repeat case_match; try done; intros _; eexists; apply connect_dialed. }
  destruct (serve_dialed _ _ _ _ _ Hd) as (h & raw & rd & sel & c2 & c3 & E1 & E2 & E3 & _ & E4).
  rewrite E4 in *.
  destruct (connect_proxied _ _ _ _ _ _ _ _ _ Hp) as [-> ->].
  apply SetReadDeadline_spec in E1 as (Ei1 & Eo1 & _), E3 as (Ei3 & Eo3 & _).
  cbn in Ei1, Eo1, Ei3, Eo3. apply ReadHandshake_inv in E2 as [Hc2 _]. split; [cbn [called c_out]; congruence|].
  exists a, peer, header. split_and!; [done| |done]. cbn [called c_in]. rewrite Ei3. eapply consumed_trans; [done|]. by rewrite <- Ei1.
Qed.

(** C1: no client gets to a backend past the gates: whatever reloads, discovery
    updates and connections a running gateway has gone through, an address is dialled only for a client that was identified, that
    the policy allows and the limiter admitted, whose handshake was read and whose
    route was found, and the address is that route's backend (for a status request
    its status backend, if it has one), a valid one. *)
Theorem dialed_only_through_gates limits s w c o l a :
  running s → handleConn limits (state s) w c = (o, l) → oc_dialed o = Some a →
  ∃ addr c1 c2 h raw r sel,
    identify (state s) w c = (Some (Ok addr), c1) ∧
    clientpolicy.Allows (clientPolicy (state s)) addr = true ∧
    ratelimit.Allow (w_iter w) (clientRateLimit (state s)) addr (w_now w) = (true, l) ∧
    c_in c2 = c_in c1 ∧ mcproto.ReadHandshake (c_in c2) limits = (Ok h, raw, r) ∧
    router.Select (routeTable (state s)) (mcproto.RouteAddress h) = Ok sel ∧
    a = (selectedBackend h sel).1 ∧ backend_ok a.
Proof.
  intros Hr Hh Hd. destruct (handleConn_admitted _ _ _ _ _ _ Hh)
    as [(Hn & _)|(addr & c1 & Hi & Ha & Hl & ->)]; [congruence|].
  cbn [deferred oc_dialed] in Hd.
  destruct (serve_dialed _ _ _ _ _ Hd) as (h & raw & rd & sel & c2 & c3 & E1 & E2 & E3 & Es & E4).
  rewrite E4 in Hd. rewrite connect_dialed in Hd. injection Hd as <-.
  apply SetReadDeadline_spec in E1 as (Ei1 & _).
  exists addr, c1, c2, h, raw, rd, sel. split_and!; try done.
  destruct (consistent_table _ (running_consistent_state s Hr)) as [Et Hok]. rewrite Et in Es.
  apply (table_backends_ok _ _ _ Hok) in Es as [Hb Hsb].
  unfold selectedBackend. destruct (_ && _) eqn:Eb; [|done]. cbn.
  apply andb_true_iff in Eb as [_ Hne%bool_decide_eq_true_1]. by apply Hsb.
Qed.

(** A client that is not identified, that the policy denies or that the limiter
    refuses gets nothing: no byte is written to it, nothing of its stream beyond a
    PROXY header is read, no backend is dialled, no scaler is notified, and all that is
    recorded of it is that it was accepted and how it finished. *)
Theorem denied_gets_nothing limits st w c :
  (∀ a c1, identify st w c = (Some (Ok a), c1) →
     clientpolicy.Allows (clientPolicy st) a = false ∨
     (ratelimit.Allow (w_iter w) (clientRateLimit st) a (w_now w)).1 = false) →
  let o := (handleConn limits st w c).1 in
  oc_result o = ConnectionResultDenied ∧ c_out (oc_client o) = c_out c ∧
  oc_dialed o = None ∧ oc_notified o = None ∧
  c_calls (oc_client o) = c_calls c ++
    [metrics.OConnectionAccepted; metrics.OConnectionFinished ConnectionResultDenied (oc_reason o)] ∧
  ∃ header, consumed (c_in c) (c_in (oc_client o)) header ∧ (length header ≤ 528)%nat.
Proof.
  intros Hden. cbn zeta. destruct (handleConn limits st w c) as [o l] eqn:E.
  apply handleConn_admitted in E as [(Hd & Hn & _ & _ & Hres & who & c1 & Hi & Hcl)|(a & c1 & Hi & Ha & Hl & _)].
  - pose proof (identify_calls _ _ _ _ _ Hi) as Hcalls.
    apply identify_spec in Hi as (Ho & _ & header & Hc & Hlen & _). cbn [fst]. rewrite Hcl. cbn [called c_out c_in c_calls].
    rewrite Hres, Hcalls, <- app_assoc. split_and!; try done. by exists header.
  - destruct (Hden a c1 Hi) as [Hf|Hf]; [congruence|]. by rewrite Hl in Hf.
Qed.

(** The labels a connection can finish with. *)
Definition connection_labels : list (bytes * bytes) :=
  [(ConnectionResultDenied, ReasonClientDenied); (ConnectionResultDenied, ReasonRateLimited);
   (ConnectionResultDenied, ReasonHandshakeMalformed); (ConnectionResultDenied, ReasonHandshakeTimeout);
   (ConnectionResultDenied, ReasonRouteDenied);
   (ConnectionResultFailed, ReasonUnknown); (ConnectionResultFailed, ReasonContextCancelled);
   (ConnectionResultFailed, ReasonBackendDialTimeout); (ConnectionResultFailed, ReasonBackendDialFailed);
   (ConnectionResultFailed, ReasonInitialWriteFailed);
   (ConnectionResultClosed, ReasonSuccess); (ConnectionResultClosed, ReasonContextCancelled);
   (ConnectionResultClosed, ReasonBackendClose); (ConnectionResultClosed, ReasonClientClose)].

Definition well_labelled (o : outcome) : Prop :=
  (oc_result o, oc_reason o) ∈ connection_labels ∧
  (is_Some (oc_proxied o) ↔ oc_result o = ConnectionResultClosed ∧ oc_reason o ≠ ReasonSuccess).

Lemma finish_labelled result reason c :
  (result, reason) ∈ connection_labels →
  result ≠ ConnectionResultClosed ∨ reason = ReasonSuccess →
  well_labelled (finish result reason c).
Proof. intros Hin Hc. split; [done|]. cbn. split; [by intros []|]. intros [? ?]. by destruct Hc. Qed.

Lemma connect_labelled limits cfg w h raw addr sel c :
  well_labelled (connect limits cfg w h raw addr sel c).
Proof.
  assert (∀ P : Prop, is_Some (A := proxyResult) None ↔ ConnectionResultFailed = ConnectionResultClosed ∧ P)
    as Hno by (intros P; split; [by intros [] | by intros []]).
  unfold connect, well_labelled. destruct (selectedBackend h sel) as [b role].
  destruct (w_dial w b) as [ws|e].
  - destruct (writeAll _ _) as [[[]|e] b']; cbn [oc_result oc_reason oc_proxied]; (split; [|try apply Hno]).
    + destruct (w_proxy w) as [[[] n]|]; cbn; apply (bool_decide_unpack _); vm_compute; exact I.
    + destruct (w_proxy w) as [[[] n]|]; cbn; (split; [by intros _ | by eexists]).
    + apply (bool_decide_unpack _); vm_compute; exact I.
  - cbn [oc_result oc_reason oc_proxied]. split; [|apply Hno]. unfold classifyDialError.
    repeat case_match; apply (bool_decide_unpack _); vm_compute; exact I.
Qed.

(** Every connection finishes with one of the fourteen pairs of result and reason,
    whatever the client, the backend and the network do; the result is [closed]
    with a reason other than [success] exactly for a connection that was proxied. *)
Theorem connection_labelled limits st w c : well_labelled (handleConn limits st w c).1.
Proof.
  unfold handleConn. destruct (admission limits st w _) as [o l] eqn:E. cbn [fst]. change (well_labelled o).
  revert E. unfold admission.
  assert (∀ result reason c, (result, reason) ∈ connection_labels →
    result ≠ ConnectionResultClosed ∨ reason = ReasonSuccess → well_labelled (finish result reason c))
    as Hf by apply finish_labelled.
  repeat (case_match || (intros [= <- <-])); try (apply Hf;
    [apply (bool_decide_unpack _); vm_compute; exact I | (by left) || (by right)]).
  unfold serve, refuse_route. repeat case_match; try apply connect_labelled;
    try (apply Hf; [apply (bool_decide_unpack _); vm_compute; exact I | (by left) || (by right)]).
Qed.

(** The client of the next two theorems: it sends a handshake within the limits and
    [more] after it, and takes what is written to it. *)
Record sends (limits : mcproto.Limits) (c : Conn) (h : mcproto.Handshake) (more : reader) : Prop := {
  se_writable : writable c;
  se_timers : no_timers c;
  se_handshake : handshake_ok (max_address limits) h;
  se_address : max_address limits < 2 ^ 31;
  se_limit : 34 ≤ max_packet limits < 2 ^ 31;
  se_fits : zlen (mcproto.WriteVarInt mcproto.HandshakePacketID ++ concat (handshake_fields h))
            ≤ max_packet limits;
  se_in : c_in c = {| r_data := handshake_packet h ++ r_data more; r_end := r_end more |}
}.

Lemma serve_refused limits st w c h more :
  sends limits c h more →
  is_ok (router.Select (routeTable st) (mcproto.RouteAddress h)) = false →
  serve limits st w c = refuse_route limits (cfg st) h (with_in c more).
Proof.
  intros [Hw Ht Hok Ha Hm Hf Hin] Hs. unfold serve. rewrite SetReadDeadline_ok by done.
  rewrite Hin, ReadHandshake_packet by (try done; lia). fold (with_in c more).
  destruct more as [d e]. cbn [r_data r_end]. fold (with_in c {| r_data := d; r_end := e |}).
  rewrite SetReadDeadline_ok by done. by destruct (router.Select _ _).
Qed.

(** A status request for an unknown host is answered by the fallback when it is
    enabled: the client gets exactly the configured status response and the pong
    that echoes its ping, no backend is dialled, and the fallback is counted once. *)
Theorem unknown_host_status_answered limits st w c h ping rest e :
  sends limits c h {| r_data := mcproto.BuildPacket mcproto.StatusRequestPacketID [] ++
                                mcproto.BuildPacket mcproto.StatusPingPacketID [ping] ++ rest;
                      r_end := e |} →
  length ping = 8%nat →
  is_ok (router.Select (routeTable st) (mcproto.RouteAddress h)) = false →
  statusFallbackForRouteDeniedEnabled (cfg st) h = true →
  let o := serve limits st w c in
  oc_reason o = ReasonRouteDenied ∧ oc_dialed o = None ∧
  c_in (oc_client o) = {| r_data := rest; r_end := e |} ∧
  c_out (oc_client o) = c_out c ++ mcproto.BuildStatusResponsePacket (fallback_response (cfg st))
                                ++ mcproto.BuildStatusPongPacket ping ∧
  c_calls (oc_client o) = c_calls c ++
    [metrics.ORouteDecision RouteDecisionDenied; metrics.OFallbackResponse FallbackStateStatus ReasonRouteDenied].
Proof.
  intros Hsend Hp Hs Hen. cbn zeta. rewrite (serve_refused _ _ _ _ _ _ Hsend Hs).
  destruct Hsend as [Hw Ht _ _ Hm _ _]. unfold refuse_route. rewrite Hen.
  erewrite serveStatusFallback_ok by (try done; lia). split_and!; try done. cbn. by rewrite <- app_assoc.
Qed.

(** A login for an unknown host is answered by the disconnect message when that
    fallback is enabled and the client speaks the supported protocol: it gets
    exactly that packet, and no backend is dialled. *)
Theorem unknown_host_login_answered limits st w c h username uuid rest e :
  sends limits c h {| r_data := mcproto.BuildPacket mcproto.LoginStartPacketID
                                  [mcproto.EncodeString username; uuid] ++ rest; r_end := e |} →
  mcproto.ProtocolVersion h = mcproto.ProtocolMinecraft1211 →
  utf8.Valid username = true → TrimSpace username ≠ [] → zlen username ≤ 16 → length uuid = 16%nat →
  is_ok (router.Select (routeTable st) (mcproto.RouteAddress h)) = false →
  loginFallbackForRouteDeniedEnabled (cfg st) h = true →
  let o := serve limits st w c in
  oc_reason o = ReasonRouteDenied ∧ oc_dialed o = None ∧
  ∃ packet, mcproto.BuildLoginDisconnectPacket (mcproto.ProtocolVersion h)
              (fl_Message (fb_Login (Fallback_ (cfg st)))) = Ok packet ∧
    c_out (oc_client o) = c_out c ++ packet ∧
    c_calls (oc_client o) = c_calls c ++
      [metrics.ORouteDecision RouteDecisionDenied; metrics.OFallbackResponse FallbackStateLogin ReasonRouteDenied].
Proof.
  intros Hsend Hpv Hv Hb Hl Hu Hs Hen. cbn zeta. rewrite (serve_refused _ _ _ _ _ _ Hsend Hs).
  destruct Hsend as [Hw Ht _ _ Hm _ _]. unfold refuse_route. rewrite Hen.
  assert (statusFallbackForRouteDeniedEnabled (cfg st) h = false) as ->.
  { revert Hen. unfold loginFallbackForRouteDeniedEnabled, loginFallbackEnabled.
    unfold statusFallbackForRouteDeniedEnabled, statusFallbackEnabled.
    destruct (Z.eqb_spec (mcproto.NextState h) mcproto.NextStateLogin) as [->|];
      [|by rewrite !andb_false_r].
    intros _. cbn [Z.eqb mcproto.NextStateStatus mcproto.NextStateLogin Pos.eqb]. by rewrite !andb_false_r. }
  destruct (serveLoginDisconnectFallback_ok limits ltac:(lia) (cfg st) h
    (called (metrics.ORouteDecision RouteDecisionDenied)
      (with_in c {| r_data := mcproto.BuildPacket mcproto.LoginStartPacketID
                      [mcproto.EncodeString username; uuid] ++ rest; r_end := e |}))
    username uuid rest e) as (packet & Ep & ->); try done; [lia|].
  split; [done|]. split; [done|]. exists packet. split_and!; try done. cbn. by rewrite <- app_assoc.
Qed.

End properties.

(** ** Witnesses *)

Section witnesses.
Import config proxy conn.
#[local] Existing Instance Config.sample_env.
#[local] Existing Instance Config.sample_env_laws.
#[local] Instance no_text : ErrorText := λ _, [].

(** A client that sends [data], and a world in which backends answer. *)
Definition sample_client (data : bytes) : Conn := {|
  c_in := {| r_data := data; r_end := EOF |}; c_writes := []; c_deadlines := []; c_out := [];
  c_calls := [] |}.

Definition sample_world : world := {|
  w_remote := TCPAddr [x0a; x00; x00; x01]; w_now := 0; w_iter := map_to_list;
  w_dial := λ _, Ok [(3%nat, None)]; w_proxy := Some (backend_to_client, 5) |}.

Definition login_client : Conn := sample_client (handshake_packet sample_handshake ++ gs"tail").

Lemma sample_running :
  ∃ s, newServer (snapshot_of sample_config []) = Some s ∧ running s.
Proof.
  destruct (newServer_of sample_config [] sample_config_ok) as (s & E & _). exists s. split; [done|].
  eapply run_start; [|exact E]. apply BuildRouteSnapshot_eq, sample_config_ok.
Qed.

(** The login of [login_client], proxied. *)
Lemma sample_proxied :
  ∃ s, newServer (snapshot_of sample_config []) = Some s ∧ running s ∧
    oc_dialed (handleConn mcproto.DefaultLimits (state s) sample_world login_client).1
      = Some gs"mc.default.svc:25565" ∧
    is_Some (oc_proxied (handleConn mcproto.DefaultLimits (state s) sample_world login_client).1).
Proof.
  destruct sample_running as (s & E & Hr). exists s. split; [done|]. split; [done|].
  assert (match newServer (snapshot_of sample_config []) with
          | Some s => let o := (handleConn mcproto.DefaultLimits (state s) sample_world login_client).1 in
              bool_decide (oc_dialed o = Some gs"mc.default.svc:25565")
              && match oc_proxied o with Some _ => true | None => false end
          | None => false end = true) as H by (vm_compute; reflexivity).
  rewrite E in H. cbn zeta in H. apply andb_true_iff in H as [Hd%bool_decide_eq_true_1 Hp].
  split; [done|]. destruct (oc_proxied _); [by eexists | done].
Qed.

Lemma running_consistent_witness : ∃ s, running s ∧ consistent (state s).
Proof.
  destruct sample_running as (s & _ & Hr). exists s. split; [exact Hr|].
  apply (running_consistent s Hr).
Defined.

Lemma dialed_only_through_gates_witness : backend_ok gs"mc.default.svc:25565".
Proof.
  destruct sample_proxied as (s & _ & Hr & Hd & _).
  destruct (handleConn mcproto.DefaultLimits (state s) sample_world login_client) as [o l] eqn:E.
  destruct (dialed_only_through_gates mcproto.DefaultLimits s sample_world login_client o l
              (gs"mc.default.svc:25565") Hr E Hd) as (? & ? & ? & ? & ? & ? & ? & _ & _ & _ & _ & _ & _ & _ & Hb).
  exact Hb.
Defined.

(** A peer whose address is not one. *)
Definition unknown_world : world := {|
  w_remote := OtherAddr gs"pipe"; w_now := 0; w_iter := map_to_list; w_dial := λ _, Ok []; w_proxy := None |}.

Lemma denied_gets_nothing_witness :
  ∃ s, running s ∧
    oc_dialed (handleConn mcproto.DefaultLimits (state s) unknown_world login_client).1 = None.
Proof.
  destruct sample_running as (s & _ & Hr). exists s. split; [exact Hr|].
  assert (∃ e, addressFromAddr (OtherAddr gs"pipe") = Err e) as [e He] by (eexists; vm_compute; reflexivity).
  apply (denied_gets_nothing mcproto.DefaultLimits (state s) unknown_world login_client).
  intros a c1. unfold identify. cbn [w_remote unknown_world]. rewrite He. discriminate.
Defined.

(** The sample configuration with both fallbacks on, and no route at all. *)
Definition fallback_config : Config :=
  let d := Defaults in {|
  Listen := Listen d; HandshakeTimeout := HandshakeTimeout d;
  BackendDialTimeout := BackendDialTimeout d; ClientPolicy_ := ClientPolicy_ d;
  ClientRateLimit_ := ClientRateLimit_ d; ProxyProtocol_ := ProxyProtocol_ d;
  ScalerWebhook_ := ScalerWebhook_ d; ConfigReload_ := ConfigReload_ d;
  Availability_ := Availability_ d; Metrics_ := Metrics_ d; UDPRelay_ := UDPRelay_ d;
  Bedrock_ := Bedrock_ d; VoiceChat_ := VoiceChat_ d;
  Fallback_ := {|
    fb_Enabled := true;
    fb_Login := {| fl_Enabled := true; fl_RespondOnRouteDenied := None; fl_Message := gs"bye" |};
    fb_Status := {|
      fs_Enabled := true; fs_RespondOnRouteDenied := Some true; fs_RespondOnBackendFailure := false;
      fs_MOTD := gs"down"; fs_ProtocolName := gs"mc"; fs_ProtocolVersion := 767;
      fs_MaxPlayers := 0; fs_OnlinePlayers := 0 |} |};
  Discovery_ := Discovery_ d; DefaultRoute_ := DefaultRoute_ d; Routes := [];
  UnknownHostPolicy := UnknownHostPolicy d |}.

Lemma fallback_state :
  ∃ st, newServerState 1 fallback_config fallback_config (table fallback_config)
          (discovery.MergeRoutes [] [] (DefaultRoute_ fallback_config)) [] = Some st ∧
        cfg st = fallback_config ∧ routeTable st = table fallback_config.
Proof. by eexists. Qed.

Definition status_handshake : mcproto.Handshake := {|
  mcproto.ProtocolVersion := 767; mcproto.ServerAddress := gs"Play.Example.com.";
  mcproto.ServerPort := 25565; mcproto.NextState := mcproto.NextStateStatus |}.

Lemma status_handshake_ok : handshake_ok 255 status_handshake.
Proof.
  constructor; [done|done| |done|vm_compute; reflexivity|vm_compute; discriminate|].
  - left.
  - vm_compute. reflexivity.
Defined.

Lemma sample_sends h more :
  handshake_ok 255 h →
  zlen (mcproto.WriteVarInt mcproto.HandshakePacketID ++ concat (handshake_fields h)) ≤ 2048 →
  sends mcproto.DefaultLimits (sample_client (handshake_packet h ++ more)) h
    {| r_data := more; r_end := EOF |}.
Proof. intros Hok Hl. by constructor. Qed.

Definition sample_ping : bytes := gs"12345678".

Definition status_client : Conn :=
  sample_client (handshake_packet status_handshake ++
    mcproto.BuildPacket mcproto.StatusRequestPacketID [] ++
    mcproto.BuildPacket mcproto.StatusPingPacketID [sample_ping] ++ gs"x").

Lemma unknown_host_status_answered_witness :
  ∃ st, cfg st = fallback_config ∧
    oc_reason (serve mcproto.DefaultLimits st sample_world status_client) = ReasonRouteDenied.
Proof.
  destruct fallback_state as (st & _ & Ec & Er). exists st. split; [exact Ec|].
  refine (proj1 (unknown_host_status_answered mcproto.DefaultLimits st sample_world status_client
    status_handshake sample_ping (gs"x") EOF _ _ _ _)).
  - apply sample_sends; [exact status_handshake_ok | vm_compute; discriminate].
  - reflexivity.
  - rewrite Er. vm_compute. reflexivity.
  - rewrite Ec. vm_compute. reflexivity.
Defined.

Definition refused_login : Conn :=
  sample_client (handshake_packet sample_handshake ++
    mcproto.BuildPacket mcproto.LoginStartPacketID
      [mcproto.EncodeString gs"steve"; replicate 16 x00] ++ gs"x").

Lemma unknown_host_login_answered_witness :
  ∃ st, cfg st = fallback_config ∧
    oc_dialed (serve mcproto.DefaultLimits st sample_world refused_login) = None.
Proof.
  destruct fallback_state as (st & _ & Ec & Er). exists st. split; [exact Ec|].
  refine (proj1 (proj2 (unknown_host_login_answered mcproto.DefaultLimits st sample_world refused_login
    sample_handshake (gs"steve") (replicate 16 x00) (gs"x") EOF _ _ _ _ _ _ _ _))).
  - apply sample_sends; [exact sample_handshake_ok | vm_compute; discriminate].
  - reflexivity.
  - vm_compute. reflexivity.
  - vm_compute. discriminate.
  - vm_compute. discriminate.
  - reflexivity.
  - rewrite Er. vm_compute. reflexivity.
  - rewrite Ec. vm_compute. reflexivity.
Defined.

End witnesses.
