(* ===== verification/ConnMetrics.v ===== *)
(** * What connections record ([internal/proxy] and [internal/metrics])

    The calls of the recorder that one connection makes, and what the metrics show after
    any number of connections, however their calls interleave: the documentation promises
    that the number of series stays small whatever clients send. *)
From Stdlib Require Import Floats.SpecFloat.
From S2P Require Import Prelude GoUnicode GoStrings GoNet GoIO HostAddr Tables GoSort.
From S2P Require Import McProto ClientPolicy ProxyProtocol RateLimit Config Kubernetes Metrics Merge Router Server Conn.
Import io.
Open Scope Z_scope.

Module connmetrics.
Import metrics conn.

(** Every series that a connection can make. *)
Definition dial_labels : list (bytes * bytes) := [
  (ReasonSuccess, ReasonSuccess); (ConnectionResultFailed, ReasonContextCancelled);
  (ConnectionResultFailed, ReasonBackendDialTimeout); (ConnectionResultFailed, ReasonBackendDialFailed)].

Definition fallback_labels : list (bytes * bytes) := [
  (FallbackStateStatus, ReasonRouteDenied); (FallbackStateStatus, ReasonBackendDialTimeout);
  (FallbackStateStatus, ReasonBackendDialFailed); (FallbackStateLogin, ReasonRouteDenied)].

Definition route_labels : list bytes := [RouteDecisionDefault; RouteDecisionDenied; RouteDecisionMatched].

(** The series that connections can make, and those that are there from the start. *)
Definition connection_series : list series :=
  [(gs"mc_gateway_connections_total", [gs"accepted"; gs"unknown"])] ++
  ((λ l, (gs"mc_gateway_connections_total", [l.1; l.2])) <$> connection_labels) ++
  ((λ l, (gs"mc_gateway_backend_dials_total", [l.1; l.2])) <$> dial_labels) ++
  ((λ l, (gs"mc_gateway_fallback_responses_total", [l.1; l.2])) <$> fallback_labels) ++
  ((λ l, (gs"mc_gateway_route_decisions_total", [l])) <$> route_labels) ++
  unlabelled.

End connmetrics.

(** ** Lemmas: the calls of one connection *)

Section calls.
Import metrics conn connmetrics.

(** The operations of connections, and which start and finish one. *)
Definition known (o : op) : Prop :=
  match o with
  | OConnectionAccepted => True
  | OConnectionFinished result reason => (result, reason) ∈ connection_labels
  | OBackendDialFinished result reason => (result, reason) ∈ dial_labels
  | OFallbackResponse state reason => (state, reason) ∈ fallback_labels
  | ORouteDecision decision => decision ∈ route_labels
  | _ => False
  end.

Definition started (o : op) : Z := match o with OConnectionAccepted => 1 | _ => 0 end.
Definition finished (o : op) : Z := match o with OConnectionFinished _ _ => 1 | _ => 0 end.
Definition sum_ops (f : op → Z) (os : list op) : Z := foldr (λ o acc, f o + acc) 0 os.

Lemma sum_ops_app f os os' : sum_ops f (os ++ os') = sum_ops f os + sum_ops f os'.
Proof. induction os as [|o os IH]; cbn; [done|]. unfold sum_ops in *. rewrite IH. lia. Qed.

Lemma sum_ops_perm f os os' : os ≡ₚ os' → sum_ops f os = sum_ops f os'.
Proof. unfold sum_ops. induction 1; cbn; lia. Qed.

(** Calls in between: neither the first nor the last one of a connection. *)
Definition between (o : op) : Prop := known o ∧ started o = 0 ∧ finished o = 0.

Lemma between_fallback st reason : (st, reason) ∈ fallback_labels → between (OFallbackResponse st reason).
Proof. by split. Qed.
Lemma between_dial result reason : (result, reason) ∈ dial_labels → between (OBackendDialFinished result reason).
Proof. by split. Qed.
Lemma between_route d : d ∈ route_labels → between (ORouteDecision d).
Proof. by split. Qed.

(** A part of the handler that makes only such calls. *)
Definition makes (c c' : Conn) : Prop := ∃ os, c_calls c' = c_calls c ++ os ∧ Forall between os.
Definition counts {A} (m : cx A) : Prop := ∀ c, makes c (m c).2.

Lemma makes_refl c c' : c_calls c' = c_calls c → makes c c'.
Proof. intros E. exists []. by rewrite app_nil_r. Qed.

Lemma makes_trans c1 c2 c3 : makes c1 c2 → makes c2 c3 → makes c1 c3.
Proof.
  intros (os & E & Hos) (os' & E' & Hos'). exists (os ++ os'). split; [by rewrite E', E, app_assoc|by apply Forall_app_2].
Qed.

Lemma makes_called o c : between o → makes c (called o c).
Proof. intros Ho. exists [o]. split; [done|by apply Forall_singleton]. Qed.

Lemma counts_bind {A B} (m : cx A) (k : A → cx B) : counts m → (∀ a, counts (k a)) → counts (cx_bind m k).
Proof.
  intros Hm Hk c. unfold cx_bind. specialize (Hm c). destruct (m c) as [[a|e] c1]; [|done].
  by eapply makes_trans, Hk.
Qed.

Lemma counts_read {A} (m : rd A) : counts (cx_read m).
Proof. intros c. apply makes_refl. unfold cx_read. by destruct (m (c_in c)). Qed.

Lemma counts_deadline : counts SetReadDeadline.
Proof. intros c. destruct (SetReadDeadline c) eqn:E. apply makes_refl. by apply SetReadDeadline_spec in E as (_ & _ & _ & E). Qed.

Lemma counts_write data : counts (writeAll data).
Proof. intros c. destruct (writeAll data c) eqn:E. apply makes_refl. by apply writeAll_spec in E as [(_ & _ & E) _]. Qed.

Lemma counts_ret {A} (a : A) : counts (cx_ret a).
Proof. intros c. by apply makes_refl. Qed.

Lemma counts_fail {A} e : counts (A := A) (cx_fail e).
Proof. intros c. by apply makes_refl. Qed.

Lemma counts_fallback st reason : (st, reason) ∈ fallback_labels → counts (count_fallback st reason).
Proof. intros Hin c. by apply makes_called, between_fallback. Qed.

Create HintDb counts.
#[local] Hint Resolve counts_bind counts_read counts_deadline counts_write counts_ret counts_fail : counts.

Lemma counts_ping limits : counts (answer_ping limits).
Proof.
  unfold answer_ping. apply counts_bind; [apply counts_deadline|]. intros _ c.
  pose proof (counts_read (mcproto.ReadPacket (mcproto.MaxPacketLength limits)) c) as Hr.
  destruct (cx_read _ c) as [[[id payload]|e] c1]; destruct (_ || _); try exact Hr.
  eapply makes_trans; [exact Hr|apply counts_write].
Qed.

Lemma counts_request limits : counts (read_status_request limits).
Proof.
  unfold read_status_request. apply counts_bind; [apply counts_deadline|]. intros _.
  apply counts_bind; [apply counts_read|]. intros [id payload]. case_match; auto with counts.
Qed.

Lemma counts_status limits cfg reason :
  (FallbackStateStatus, reason) ∈ fallback_labels → counts (serveStatusFallback limits cfg reason).
Proof.
  intros Hin. unfold serveStatusFallback. apply counts_bind; [apply counts_request|]. intros _.
  apply counts_bind; [apply counts_write|]. intros _.
  apply counts_bind; [by apply counts_fallback|]. intros _. apply counts_ping.
Qed.

Lemma counts_override limits o : counts (serveStatusOverride limits o).
Proof.
  unfold serveStatusOverride. apply counts_bind; [apply counts_request|]. intros _.
  apply counts_bind; [apply counts_write|]. intros _. apply counts_ping.
Qed.

Lemma counts_login limits cfg h : counts (serveLoginDisconnectFallback limits cfg h).
Proof.
  unfold serveLoginDisconnectFallback. apply counts_bind; [apply counts_deadline|]. intros _.
  apply counts_bind; [apply counts_read|]. intros [id payload].
  repeat case_match; auto with counts. apply counts_bind; [apply counts_write|]. intros _.
  apply counts_fallback. by_evaluation.
Qed.

Lemma makes_connect limits cfg w h raw addr sel c : makes c (oc_client (connect limits cfg w h raw addr sel c)).
Proof.
  unfold connect. destruct (selectedBackend h sel) as [b role]. destruct (w_dial w b) as [ws|e].
  - destruct (writeAll _ _) as [[[]|e] b']; apply makes_called, between_dial; left.
  - assert ((ConnectionResultFailed, classifyDialError e) ∈ dial_labels) as Hd
      by (unfold classifyDialError; repeat case_match; by_evaluation).
    cbn [oc_client]. eapply makes_trans; [by apply makes_called, between_dial|].
    destruct (statusFallbackForBackendFailureEnabled cfg h _) eqn:Ef; [|by apply makes_refl].
    apply counts_status. unfold statusFallbackForBackendFailureEnabled in Ef. destruct (_ || _); [done|].
    apply orb_true_iff in Ef as [->%bool_decide_eq_true | ->%bool_decide_eq_true]; by_evaluation.
Qed.

Lemma makes_refused limits cfg h c : makes c (oc_client (refuse_route limits cfg h c)).
Proof.
  unfold refuse_route. cbn [oc_client finish].
  eapply makes_trans; [apply (makes_called (ORouteDecision RouteDecisionDenied)), between_route; by_evaluation|].
  repeat case_match; [apply counts_status; left|apply counts_login|by apply makes_refl].
Qed.

Lemma makes_serve limits st w c : makes c (oc_client (serve limits st w c)).
Proof.
  unfold serve. pose proof (counts_deadline c) as H1. destruct (SetReadDeadline c) as [[[]|e] c1]; [|exact H1].
  eapply makes_trans; [exact H1|]. clear H1.
  destruct (mcproto.ReadHandshake _ _) as [[[h|e] raw] r]; [|by apply makes_refl].
  fold (with_in c1 r). pose proof (counts_deadline (with_in c1 r)) as H2.
  destruct (SetReadDeadline (with_in c1 r)) as [[[]|e] c2]; (eapply makes_trans; [exact H2|]); [|by apply makes_refl].
  destruct (router.Select _ _) as [sel|e]; [|apply makes_refused].
  set (d := routeDecisionResult _). assert (d ∈ route_labels) as Hd
    by (unfold d, routeDecisionResult; case_decide; by_evaluation).
  eapply makes_trans; [by apply (makes_called (ORouteDecision d)), between_route|].
  set (c3 := called (ORouteDecision d) c2).
  destruct (router.sel_StatusOverride sel) as [o|]; [|apply makes_connect].
  destruct (_ =? _); [|apply makes_connect].
  pose proof (counts_override limits o c3) as H3. by destruct (serveStatusOverride limits o c3) as [[] c4].
Qed.

(** The recorder's view of a connection: it starts, it makes calls in between, and it
    finishes with the result and the reason of the handler. *)
Lemma connection_calls limits st w c :
  let o := (handleConn limits st w c).1 in
  ∃ os, c_calls (oc_client o) =
          c_calls c ++ [OConnectionAccepted] ++ os ++ [OConnectionFinished (oc_result o) (oc_reason o)] ∧
        Forall between os.
Proof.
  destruct (handleConn limits st w c) as [o l] eqn:E. cbn [fst].
  apply handleConn_admitted in E as [(_ & _ & _ & _ & _ & who & c1 & Hi & ->)|(a & c1 & Hi & _ & _ & ->)];
    apply identify_calls in Hi.
  - exists []. cbn. by rewrite Hi, <- app_assoc.
  - destruct (makes_serve limits st w (called OConnectionAccepted c1)) as (os & E & Hos). exists os.
    split; [|exact Hos]. cbn [deferred oc_client called c_calls oc_result oc_reason]. rewrite E. cbn [called c_calls].
    by rewrite Hi, <- !app_assoc.
Qed.

Lemma between_known os : Forall between os → Forall known os.
Proof. intros Hos. eapply Forall_impl; [exact Hos|]. by intros o []. Qed.

Lemma between_sum os : Forall between os → sum_ops started os = 0 ∧ sum_ops finished os = 0.
Proof.
  induction 1 as [|o os (_ & Hs & Hf) _ [IH1 IH2]]; [done|]. cbn. rewrite Hs, Hf. unfold sum_ops in *. lia.
Qed.

(** One connection makes known calls, starts once and finishes once. *)
Lemma connection_known limits st w c :
  c_calls c = [] → let os := c_calls (oc_client (handleConn limits st w c).1) in
  Forall known os ∧ sum_ops started os = 1 ∧ sum_ops finished os = 1.
Proof.
  intros Hc. cbn zeta. destruct (connection_calls limits st w c) as (os & -> & Hos). rewrite Hc.
  destruct (connection_labelled limits st w c) as [Hl _]. destruct (between_sum os Hos) as [H1 H2].
  rewrite !sum_ops_app, H1, H2. split; [|done]. repeat apply Forall_app_2; [constructor|by repeat constructor| |].
  - by apply between_known.
  - constructor; [exact Hl|constructor].
Qed.

End calls.

(** ** Lemmas: the recorder *)

Section recorded.
Import metrics conn connmetrics.

(** A recorder that has seen connections only: so many accepted, so many finished. *)
Record shows (r : Recorder) (acc fin : Z) : Prop := {
  sh_ready : ready r;
  sh_balanced : balanced r;
  sh_series : ∀ s, is_Some (values r !! s) → s ∈ connection_series;
  sh_accepted : value r (gs"mc_gateway_connections_total", [gs"accepted"; gs"unknown"]) = acc;
  sh_total : total r gs"mc_gateway_connections_total" = acc + fin
}.

(** The series of the labels that are known. *)
Lemma finished_series a b : (a, b) ∈ connection_labels → (gs"mc_gateway_connections_total", [a; b]) ∈ connection_series.
Proof.
  intros Hin. unfold connection_series. rewrite !elem_of_app. right. left. apply list_elem_of_fmap. by exists (a, b).
Qed.

Lemma dial_series a b : (a, b) ∈ dial_labels → (gs"mc_gateway_backend_dials_total", [a; b]) ∈ connection_series.
Proof.
  intros Hin. unfold connection_series. rewrite !elem_of_app. do 2 right. left. apply list_elem_of_fmap. by exists (a, b).
Qed.

Lemma fallback_series a b :
  (a, b) ∈ fallback_labels → (gs"mc_gateway_fallback_responses_total", [a; b]) ∈ connection_series.
Proof.
  intros Hin. unfold connection_series. rewrite !elem_of_app. do 3 right. left. apply list_elem_of_fmap. by exists (a, b).
Qed.

Lemma route_series d : d ∈ route_labels → (gs"mc_gateway_route_decisions_total", [d]) ∈ connection_series.
Proof. intros Hin. unfold connection_series. rewrite !elem_of_app. do 4 right. left. apply list_elem_of_fmap. by exists d. Qed.

Lemma wp_and k P Q : wp k P → wp k Q → wp k (λ r, P r ∧ Q r).
Proof. by destruct k. Qed.

Lemma wp_mono k (P Q : Recorder → Prop) : wp k P → (∀ r, P r → Q r) → wp k Q.
Proof. destruct k; cbn; auto. Qed.

Lemma accepted_series : (gs"mc_gateway_connections_total", [gs"accepted"; gs"unknown"]) ∈ connection_series.
Proof. by_evaluation. Qed.
Lemma active_series : (gs"mc_gateway_active_connections", []) ∈ connection_series.
Proof. by_evaluation. Qed.
Lemma duration_series : (gs"mc_gateway_connection_duration_seconds", []) ∈ connection_series.
Proof. by_evaluation. Qed.
Lemma dial_duration_series : (gs"mc_gateway_backend_dial_duration_seconds", []) ∈ connection_series.
Proof. by_evaluation. Qed.

(** The labels are constants of the code: in UTF-8, and none finishes as accepted. *)
Lemma pair_valid a b (l : list (bytes * bytes)) :
  forallb (λ p, utf8.Valid p.1 && utf8.Valid p.2) l = true → (a, b) ∈ l → forallb utf8.Valid [a; b] = true.
Proof. rewrite forallb_forall. intros Hv Hin%list_elem_of_In%Hv. cbn in *. by rewrite andb_true_r. Qed.

Lemma known_proper o : known o → proper o.
Proof.
  intros Hk. destruct o; try contradiction; split; try exact I; cbn [texts known] in *;
    try (vm_compute; reflexivity); try (eapply pair_valid; [|exact Hk]; vm_compute; reflexivity).
  - intros ->. apply (list_elem_of_fmap_2 fst) in Hk. revert Hk. change (gs"accepted" ∉ fst <$> connection_labels). by_evaluation.
  - revert Hk. rewrite list_elem_of_In. revert result. rewrite <- forallb_forall. vm_compute. reflexivity.
Qed.

Lemma apply_shows r o acc fin :
  shows r acc fin → known o → wp (apply r o) (λ r', shows r' (acc + started o) (fin + finished o)).
Proof.
  intros [Hr Hb Hs Ha Ht] Hk. pose proof Hr as [Hon _].
  pose proof (known_proper o Hk) as Hp. pose proof Hp as [Hval Hne].
  pose proof (apply_ready r o Hp Hr Hb) as Hready.
  assert (wp (apply r o) (λ r',
    (∀ s, is_Some (values r' !! s) → s ∈ connection_series) ∧
    value r' (gs"mc_gateway_connections_total", [gs"accepted"; gs"unknown"]) = acc + started o ∧
    total r' gs"mc_gateway_connections_total" = acc + started o + (fin + finished o))) as Hrest.
  { destruct o; try contradiction; cbn [apply texts] in *; autounfold with recorder; rewrite Hon; cbn [negb]; run_updates; split.
    all: try (repeat apply series_updated; [exact Hs|..]).
    all: try first [exact accepted_series | exact active_series | exact duration_series | exact dial_duration_series
                   | apply finished_series; exact Hk | apply dial_series; exact Hk
                   | apply fallback_series; exact Hk | apply route_series; exact Hk].
    all: cbn [started finished]; split; follow_updates; try lia.
    rewrite value_updated, decide_False by (intros E; injection E; intros; by apply Hne). lia. }
  eapply wp_mono; [exact (wp_and _ _ _ Hready Hrest)|]. intros r1 [[? ?] (? & ? & ?)]. split; assumption.
Qed.

Lemma applies_shows r os acc fin :
  shows r acc fin → Forall known os →
  ∃ r', applies r os = Some r' ∧ shows r' (acc + sum_ops started os) (fin + sum_ops finished os).
Proof.
  revert r acc fin. induction os as [|o os IH]; intros r acc fin Hr Hk; cbn [applies].
  { exists r. split; [done|]. cbn. by rewrite !Z.add_0_r. }
  apply Forall_cons in Hk as [Ho Hk]. pose proof (apply_shows r o acc fin Hr Ho) as Ha.
  destruct (apply r o) as [r1|]; [|destruct Ha]. destruct (IH r1 _ _ Ha Hk) as (r' & E & Hr').
  exists r'. split; [exact E|]. cbn. unfold sum_ops in *. by rewrite !Z.add_assoc.
Qed.

Lemma new_shows : ∃ r, NewRecorder true = Some r ∧ shows r 0 0.
Proof.
  destruct new_ready as (r & E & Hr & Hz). exists r. split; [exact E|]. pose proof (zeroed_balanced r Hz) as Hb.
  destruct Hz as (Hv & Ht & Hs). split; [exact Hr|exact Hb| |apply Hv|apply Ht].
  intros s Hin%Hs. unfold connection_series. rewrite !elem_of_app. do 5 right. exact Hin.
Qed.

End recorded.

(** ** Properties *)

Section properties.
Import metrics conn connmetrics.

(** A connection as the handler meets it: the limits, the state, the world, the client. *)
Definition meeting : Type := mcproto.Limits * proxy.serverState * world * Conn.

Definition outcome_of (m : meeting) : outcome := let '(limits, st, w, c) := m in (handleConn limits st w c).1.

(** The handler of a connection starts with no call made, and makes these. *)
Definition fresh (m : meeting) : Prop := c_calls m.2 = [].
Definition calls_of (m : meeting) : list op := c_calls (oc_client (outcome_of m)).

Lemma meetings_known ms :
  Forall fresh ms → let os := concat (calls_of <$> ms) in
  Forall known os ∧ sum_ops started os = zlen ms ∧ sum_ops finished os = zlen ms.
Proof.
  induction 1 as [|[[[limits st] w] c] ms Hm _ (IH1 & IH2 & IH3)]; [by split_and!|]. cbn zeta. rewrite fmap_cons.
  cbn [concat]. destruct (connection_known limits st w c Hm) as (H1 & H2 & H3).
  split; [by apply Forall_app_2|]. rewrite !sum_ops_app, IH2, IH3. unfold calls_of, outcome_of. cbn zeta in *.
  rewrite H2, H3. unfold zlen. cbn [length]. lia.
Qed.

(** C16: The metrics stay small and come back to rest whatever clients do: after any number
    of connections have been handled, whatever they sent, whatever the network answered
    and however their calls of the recorder interleave, no call has panicked; besides the
    metrics without labels, which are there from the start, there are at most the
    twenty-six series the code names; and the handlers' calls show as many connections as
    accepted as there were, as many as finished, and none as active. *)
Theorem connections_recorded ms ops :
  Forall fresh ms → ops ≡ₚ concat (calls_of <$> ms) →
  length connection_series = (length unlabelled + 26)%nat ∧
  ∃ r0 r, NewRecorder true = Some r0 ∧ applies r0 ops = Some r ∧
    (∀ s, is_Some (values r !! s) → s ∈ connection_series) ∧
    value r (gs"mc_gateway_connections_total", [gs"accepted"; gs"unknown"]) = zlen ms ∧
    total r gs"mc_gateway_connections_total" - zlen ms = zlen ms ∧
    value r (gs"mc_gateway_active_connections", []) = 0.
Proof.
  intros Hf Hp. split; [vm_compute; reflexivity|]. destruct new_shows as (r0 & E0 & H0).
  destruct (meetings_known ms Hf) as (Hk & H1 & H2).
  destruct (applies_shows r0 ops 0 0 H0) as (r & E & [_ [_ _ Hact] Hs Ha Ht]); [by rewrite Hp|].
  exists r0, r. rewrite !(sum_ops_perm _ _ _ Hp) in *. cbn zeta in *. rewrite H1, H2 in *.
  split; [exact E0|]. split; [exact E|]. split; [exact Hs|]. split_and!; lia.
Qed.

End properties.

(** ** Witnesses *)

Section witnesses.
Import metrics conn connmetrics proxy.
#[local] Existing Instance Config.sample_env.
#[local] Existing Instance Config.sample_env_laws.
#[local] Existing Instance Server.no_text.

(** Two clients of a running gateway; the second is accepted before the first is done. *)
Lemma connections_recorded_witness :
  ∃ s r, running s ∧ total r gs"mc_gateway_connections_total" - 2 = 2 ∧
    value r (gs"mc_gateway_active_connections", []) = 0.
Proof.
  destruct sample_running as (s & _ & Hs). exists s.
  set (m := (mcproto.DefaultLimits, state s, sample_world, login_client) : meeting).
  assert (Forall fresh [m; m]) as Hf by (repeat constructor).
  assert (∃ rest, calls_of m = OConnectionAccepted :: rest) as [rest Er].
  { destruct (connection_calls mcproto.DefaultLimits (state s) sample_world login_client) as (os & E & _).
    eexists. exact E. }
  assert (OConnectionAccepted :: OConnectionAccepted :: rest ++ rest ≡ₚ concat (calls_of <$> [m; m])) as Hp.
  { rewrite !fmap_cons. cbn [concat fmap list_fmap]. rewrite app_nil_r, Er. cbn [app].
    apply perm_skip, Permutation_middle. }
  destruct (connections_recorded [m; m] _ Hf Hp) as (_ & r0 & r & _ & _ & _ & _ & Ht & Ha).
  exists r. split; [exact Hs|]. split; [exact Ht|exact Ha].
Defined.

End witnesses.
