(* ===== verification/Pipe.v ===== *)
(** * The two-way copy ([internal/proxy], [proxy] and [copyAndClose])

    Once the handshake is replayed, two goroutines copy bytes between the client
    and the backend, one for each direction, and the handler waits for the first
    of them to end or for the cancellation of its context, closes both
    connections, and waits for the rest. The model is a step relation over the two
    connections, the two copies, the channel [done] and the phase of the handler, so
    that every interleaving is covered. The peers may send for ever, never read and
    never close: a copy ends only when its peer has ended, a write fails, or one of
    its connections was closed here. *)
From S2P Require Import Prelude GoUnicode GoStrings GoNet GoIO Tables McProto ProxyProtocol Config Router Server Conn.
Import io conn.
Open Scope Z_scope.

Module pipe.

(** The two connections, and which of them a copy reads and writes. *)
Inductive endpoint := Client | Backend.

Definition source (d : direction) : endpoint :=
  match d with client_to_backend => Client | backend_to_client => Backend end.
Definition target (d : direction) : endpoint :=
  match d with client_to_backend => Backend | backend_to_client => Client end.

#[export] Instance direction_eq_dec : EqDecision direction.
Proof. solve_decision. Defined.
#[export] Instance endpoint_eq_dec : EqDecision endpoint.
Proof. solve_decision. Defined.

(** One [io.Copy]: what has arrived and was not read, what was read and not yet
    written, what was written, and whether it has ended. *)
Record copier := { src : bytes; held : bytes; dst : bytes; ended : bool }.

(** Where [proxy] is: in its [select]; before it closes the client's connection, and
    the backend's; receiving the remaining results; returned. *)
Inductive phase :=
| Selecting
| Closing (e : endpoint) (remaining : nat) (result : proxyResult)
| Waiting (remaining : nat) (result : proxyResult)
| Returned (result : proxyResult).

(** [sent d]: all that the peer a copy reads from has sent; [over d]: it sends no more;
    [broken e]: writing to this connection fails; [open e]: it was not closed here. *)
Record state := {
  copy : direction → copier;
  sent : direction → bytes;
  over : direction → bool;
  broken : endpoint → bool;
  open : endpoint → bool;
  done : list proxyResult;
  cancelled : bool;
  at_ : phase
}.

Definition upd {A B} `{EqDecision A} (f : A → B) (a : A) (b : B) : A → B := λ x, if decide (x = a) then b else f x.

Definition set_copy (s : state) (d : direction) (c : copier) : state := {|
  copy := upd (copy s) d c; sent := sent s; over := over s; broken := broken s; open := open s;
  done := done s; cancelled := cancelled s; at_ := at_ s |}.

(** [first d]: what had arrived when the copies start. *)
Definition start (first : direction → bytes) : state := {|
  copy := λ d, {| src := first d; held := []; dst := []; ended := false |}; sent := first; over := λ _, false;
  broken := λ _, false; open := λ _, true; done := []; cancelled := false; at_ := Selecting |}.

(** What [copyAndClose] sends. *)
Definition result_of (d : direction) (n : Z) : proxyResult := {|
  pr_reason := closeReasonForDirection d; pr_direction := Some d; pr_bytesCopied := n |}.

Definition cancelled_result : proxyResult := {|
  pr_reason := ReasonContextCancelled; pr_direction := None; pr_bytesCopied := 0 |}.

(** The handler goes on, with what is left in [done]. *)
Definition goto (s : state) (p : phase) (rest : list proxyResult) : state := {|
  copy := copy s; sent := sent s; over := over s; broken := broken s; open := open s; done := rest;
  cancelled := cancelled s; at_ := p |}.

Definition close (s : state) (e : endpoint) : state := {|
  copy := copy s; sent := sent s; over := over s; broken := broken s; open := upd (open s) e false; done := done s;
  cancelled := cancelled s; at_ := at_ s |}.

(** The copy ends, [gave] bytes of what it held written, and sends its result; the
    channel has room for both. ([closeWrite] only tells the peer.) *)
Definition finish_copy (s : state) (d : direction) (gave : nat) : state :=
  let c := copy s d in
  let out := dst c ++ take gave (held c) in
  let s' := set_copy s d {| src := src c; held := drop gave (held c); dst := out; ended := true |} in
  goto s' (at_ s) (done s ++ [result_of d (zlen out)]).

(** What the peers and the context do. *)
Inductive env : state → state → Prop :=
| env_send s d data :
    open s (source d) = true → over s d = false →
    env s {| copy := upd (copy s) d {| src := src (copy s d) ++ data; held := held (copy s d); dst := dst (copy s d);
                                       ended := ended (copy s d) |};
             sent := upd (sent s) d (sent s d ++ data); over := over s; broken := broken s; open := open s;
             done := done s; cancelled := cancelled s; at_ := at_ s |}
| env_over s d :
    over s d = false →
    env s {| copy := copy s; sent := sent s; over := upd (over s) d true; broken := broken s; open := open s;
             done := done s; cancelled := cancelled s; at_ := at_ s |}
| env_break s e :
    broken s e = false →
    env s {| copy := copy s; sent := sent s; over := over s; broken := upd (broken s) e true; open := open s;
             done := done s; cancelled := cancelled s; at_ := at_ s |}
| env_cancel s :
    cancelled s = false →
    env s {| copy := copy s; sent := sent s; over := over s; broken := broken s; open := open s;
             done := done s; cancelled := true; at_ := at_ s |}.

(** What the copies do as long as the connections are open: a chunk is read, and written
    when the peer has room for it. *)
Inductive transfer : state → state → Prop :=
| tr_read s d chunk rest :
    ended (copy s d) = false → held (copy s d) = [] → open s (source d) = true → chunk ≠ [] →
    src (copy s d) = chunk ++ rest →
    transfer s (set_copy s d {| src := rest; held := chunk; dst := dst (copy s d); ended := false |})
| tr_write s d :
    ended (copy s d) = false → held (copy s d) ≠ [] → open s (target d) = true → broken s (target d) = false →
    transfer s (set_copy s d {| src := src (copy s d); held := []; dst := dst (copy s d) ++ held (copy s d); ended := false |}).

(** What happens without the peers:
    - a read fails or finds the end, a write fails;
    - the handler leaves its [select], closes the client's connection and then the
      backend's, receives the remaining results, and returns. *)
Inductive own : state → state → Prop :=
| own_read_ends s d :
    ended (copy s d) = false → held (copy s d) = [] →
    open s (source d) = false ∨ (over s d = true ∧ src (copy s d) = []) →
    own s (finish_copy s d 0)
| own_write_fails s d gave :
    ended (copy s d) = false → held (copy s d) ≠ [] → open s (target d) = false ∨ broken s (target d) = true →
    own s (finish_copy s d gave)
| own_select_cancelled s :
    at_ s = Selecting → cancelled s = true → own s (goto s (Closing Client 2 cancelled_result) (done s))
| own_select_done s r rest :
    at_ s = Selecting → done s = r :: rest → own s (goto s (Closing Client 1 r) rest)
| own_close_client s n r :
    at_ s = Closing Client n r → own s (goto (close s Client) (Closing Backend n r) (done s))
| own_close_backend s n r :
    at_ s = Closing Backend n r → own s (goto (close s Backend) (Waiting n r) (done s))
| own_drain s n r x rest :
    at_ s = Waiting (S n) r → done s = x :: rest → own s (goto s (Waiting n r) rest)
| own_return s r :
    at_ s = Waiting 0 r → own s (goto s (Returned r) (done s)).

Inductive step (s s' : state) : Prop :=
| step_env : env s s' → step s s'
| step_transfer : transfer s s' → step s s'
| step_own : own s s' → step s s'.

End pipe.

(** ** Lemmas *)

Section lemmas.
Import pipe.

Lemma upd_eq {A B} `{EqDecision A} (f : A → B) a b : upd f a b a = b.
Proof. unfold upd. by rewrite decide_True. Qed.
Lemma upd_ne {A B} `{EqDecision A} (f : A → B) a b x : x ≠ a → upd f a b x = f x.
Proof. intros. unfold upd. by rewrite decide_False. Qed.

Definition ended_count (s : state) : nat :=
  (if ended (copy s client_to_backend) then 1 else 0) + (if ended (copy s backend_to_client) then 1 else 0).

(** How many results the handler still has to receive. *)
Definition to_receive (p : phase) : nat :=
  match p with Selecting => 2 | Closing _ n _ | Waiting n _ => n | Returned _ => 0 end.

(** A result is that of an ended copy. *)
Definition true_result (s : state) (r : proxyResult) : Prop :=
  ∃ d, ended (copy s d) = true ∧ r = result_of d (zlen (dst (copy s d))).

Definition settled (s : state) (r : proxyResult) : Prop :=
  (r = cancelled_result ∧ cancelled s = true) ∨ true_result s r.

Definition phase_result (p : phase) : option proxyResult :=
  match p with Selecting => None | Closing _ _ r | Waiting _ r | Returned r => Some r end.

(** Which connections the handler has closed. *)
Definition shut (p : phase) (e : endpoint) : bool :=
  match p with
  | Selecting | Closing Client _ _ => false
  | Closing Backend _ _ => bool_decide (e = Client)
  | Waiting _ _ | Returned _ => true
  end.

(** Either all that was sent has been written, or a connection was closed or broken. *)
Definition whole (s : state) (d : direction) : Prop :=
  (over s d = true ∧ dst (copy s d) = sent s d) ∨ open s (source d) = false ∨ open s (target d) = false ∨
  broken s (target d) = true.

Record inv (s : state) : Prop := {
  inv_flow : ∀ d, ended (copy s d) = false → sent s d = dst (copy s d) ++ held (copy s d) ++ src (copy s d);
  inv_prefix : ∀ d, dst (copy s d) `prefix_of` sent s d;
  inv_whole : ∀ d, ended (copy s d) = true → whole s d;
  inv_count : (ended_count s + to_receive (at_ s) = 2 + length (done s))%nat;
  inv_done : Forall (true_result s) (done s);
  inv_shut : ∀ e, shut (at_ s) e = true → open s e = false;
  inv_result : ∀ r, phase_result (at_ s) = Some r → settled s r
}.

Lemma start_inv first : inv (start first).
Proof. by constructor; try (intros; apply prefix_nil). Qed.

(** Two states in which the results mean the same. *)
Lemma settled_same s s' r :
  (∀ d, ended (copy s d) = true → ended (copy s' d) = true ∧ dst (copy s' d) = dst (copy s d)) →
  (cancelled s = true → cancelled s' = true) →
  (settled s r → settled s' r) ∧ (true_result s r → true_result s' r).
Proof.
  intros Hc Hx. assert (true_result s r → true_result s' r) as Ht.
  { intros (d & He & ->). destruct (Hc d He) as [He' Hd]. exists d. by rewrite Hd. }
  split; [|done]. intros [[-> ?]|?]; [left; auto|right; auto].
Qed.

(** A step that changes one copy, which has not ended and does not end. *)
Lemma inv_copy s s' d :
  inv s → ended (copy s d) = false → ended (copy s' d) = false → (∀ d', d' ≠ d → copy s' d' = copy s d' ∧ sent s' d' = sent s d') →
  sent s' d = dst (copy s' d) ++ held (copy s' d) ++ src (copy s' d) →
  done s' = done s → cancelled s' = cancelled s → at_ s' = at_ s → open s' = open s → over s' = over s →
  broken s' = broken s → inv s'.
Proof.
  intros [Hf Hp Hw Hn Hd Hs Hr] He He' Ho Hflow Ed Ec Ea Eo Eov Eb.
  assert (∀ d', ended (copy s' d') = ended (copy s d')) as Hended.
  { intros d'. destruct (decide (d' = d)) as [->|Hne]; [by rewrite He, He'|]. by destruct (Ho d' Hne) as [-> _]. }
  assert (∀ r, (settled s r → settled s' r) ∧ (true_result s r → true_result s' r)) as Hres.
  { intros r. apply settled_same; [|by rewrite Ec]. intros d' Hd'. destruct (decide (d' = d)) as [->|Hne]; [congruence|].
    by destruct (Ho d' Hne) as [-> _]. }
  constructor.
  - intros d' Hd'. destruct (decide (d' = d)) as [->|Hne]; [done|]. destruct (Ho d' Hne) as [E1 E2]. rewrite E1, E2 in *. by apply Hf.
  - intros d'. destruct (decide (d' = d)) as [->|Hne]; [rewrite Hflow; by apply prefix_app_r|].
    destruct (Ho d' Hne) as [-> ->]. apply Hp.
  - intros d' Hd'. rewrite Hended in Hd'. destruct (Ho d' ltac:(congruence)) as [E1 E2].
    unfold whole. rewrite E1, E2, Eo, Eov, Eb. by apply Hw.
  - unfold ended_count in *. rewrite !Hended, Ed, Ea. done.
  - rewrite Ed. eapply Forall_impl; [exact Hd|]. intros r. apply Hres.
  - rewrite Ea, Eo. done.
  - rewrite Ea. intros r Hx. by apply Hres, Hr.
Qed.

Lemma ended_finish s d gave :
  ended (copy s d) = false → ended_count (finish_copy s d gave) = S (ended_count s).
Proof.
  intros He. unfold ended_count, finish_copy. cbn. unfold upd.
  destruct d; rewrite He; repeat case_decide; try congruence; cbn; lia.
Qed.

Lemma finish_inv s d gave :
  inv s → ended (copy s d) = false →
  (held (copy s d) = [] ∧ over s d = true ∧ src (copy s d) = []) ∨ open s (source d) = false ∨ open s (target d) = false ∨
    broken s (target d) = true →
  inv (finish_copy s d gave).
Proof.
  intros [Hf Hp Hw Hn Hd Hs Hr] He Hwhy. pose proof (ended_finish s d gave He) as Hcount.
  assert (∀ d', d' ≠ d → copy (finish_copy s d gave) d' = copy s d') as Hne by (intros; cbn; by apply upd_ne).
  assert (copy (finish_copy s d gave) d = {| src := src (copy s d); held := drop gave (held (copy s d));
    dst := dst (copy s d) ++ take gave (held (copy s d)); ended := true |}) as Heq by (cbn; apply upd_eq).
  assert (∀ r, (settled s r → settled (finish_copy s d gave) r) ∧ (true_result s r → true_result (finish_copy s d gave) r)) as Hres.
  { intros r. apply settled_same; [|done]. intros d' Hd'. rewrite Hne by congruence. done. }
  constructor.
  - intros d'. destruct (decide (d' = d)) as [->|Hx]; [by rewrite Heq|]. rewrite Hne by done. apply Hf.
  - intros d'. destruct (decide (d' = d)) as [->|Hx]; [|rewrite Hne by done; apply Hp]. rewrite Heq.
    change (sent (finish_copy s d gave)) with (sent s). rewrite (Hf d He). cbn [dst]. apply prefix_app.
    rewrite <- (take_drop gave (held (copy s d))) at 2. rewrite <- app_assoc. by apply prefix_app_r.
  - intros d' Hd'. destruct (decide (d' = d)) as [->|Hx]; [|rewrite Hne in Hd' by done; unfold whole; rewrite Hne by done; by apply Hw].
    unfold whole. rewrite Heq. destruct Hwhy as [(Eh & Eo & Es)|Hwhy]; [|by right]. left. split; [done|].
    change (sent (finish_copy s d gave)) with (sent s). rewrite (Hf d He), Eh, Es. cbn [dst]. by rewrite take_nil.
  - rewrite Hcount. cbn [done at_ finish_copy goto]. rewrite length_app. cbn [length]. lia.
  - cbn [done finish_copy goto]. apply Forall_app. split; [eapply Forall_impl; [exact Hd|]; intros r; apply Hres|].
    apply Forall_singleton. exists d. by rewrite Heq.
  - exact Hs.
  - intros r Hx. by apply Hres, Hr.
Qed.

(** A step of the handler: the copies stay. *)
Lemma goto_inv s s' :
  inv s → copy s' = copy s → sent s' = sent s → cancelled s' = cancelled s →
  (∀ e, open s e = false → open s' e = false) → (∀ d, over s d = true → over s' d = true) →
  (∀ e, broken s e = true → broken s' e = true) →
  (to_receive (at_ s') + length (done s) = to_receive (at_ s) + length (done s'))%nat →
  Forall (true_result s) (done s') → (∀ e, shut (at_ s') e = true → open s' e = false) →
  (∀ r, phase_result (at_ s') = Some r → settled s r) → inv s'.
Proof.
  intros [Hf Hp Hw Hn Hd Hs Hr] Ec Es Ex Ho Hov Hb Hcnt Hd' Hs' Hr'.
  assert (∀ r, (settled s r → settled s' r) ∧ (true_result s r → true_result s' r)) as Hres.
  { intros r. apply settled_same; [|by rewrite Ex]. intros d. by rewrite Ec. }
  constructor; rewrite ?Ec, ?Es; try done.
  - intros d Hx. unfold whole. rewrite Ec, Es. destruct (Hw d Hx) as [[? ?]|[?|[?|?]]]; auto.
  - unfold ended_count in *. rewrite Ec. lia.
  - eapply Forall_impl; [exact Hd'|]. intros r. apply Hres.
  - intros r Hx. by apply Hres, Hr'.
Qed.

Lemma pipe_env_inv s s' : env s s' → inv s → inv s'.
Proof.
  intros Hs Hi. destruct Hs as [s d data Ho Hov|s d Hov|s e Hb|s Hc].
  - destruct (ended (copy s d)) eqn:He.
    + destruct Hi as [Hf Hp Hw Hn Hd Hsh Hr].
      assert (∀ d', ended (upd (copy s) d {| src := src (copy s d) ++ data; held := held (copy s d);
        dst := dst (copy s d); ended := true |} d') = ended (copy s d') ∧
        dst (upd (copy s) d {| src := src (copy s d) ++ data; held := held (copy s d);
        dst := dst (copy s d); ended := true |} d') = dst (copy s d')) as Hsame.
      { intros d'. unfold upd. case_decide; subst; [cbn; by rewrite He|done]. }
      constructor; cbn [copy sent at_ done open].
      * intros d'. destruct (decide (d' = d)) as [->|Hne]; [by rewrite upd_eq|]. rewrite !upd_ne by done. apply Hf.
      * intros d'. destruct (Hsame d') as [_ ->]. unfold upd. case_decide; subst; [|apply Hp]. by apply prefix_app_r.
      * intros d' Hd'. destruct (Hsame d') as [E1 E2]. cbn [copy] in Hd'. rewrite E1 in Hd'. unfold whole. cbn [copy over open broken sent].
        rewrite E2. destruct (Hw d' Hd') as [[Hov' ?]|?]; [|by right]. left. rewrite upd_ne by congruence. done.
      * unfold ended_count in *. cbn [copy]. destruct (Hsame client_to_backend) as [-> _], (Hsame backend_to_client) as [-> _]. done.
      * eapply Forall_impl; [exact Hd|]. intros r (d' & He' & ->). exists d'. cbn [copy]. by destruct (Hsame d') as [-> ->].
      * exact Hsh.
      * intros r Hx. destruct (Hr r Hx) as [?|(d' & He' & ->)]; [by left|]. right. exists d'. cbn [copy]. by destruct (Hsame d') as [-> ->].
    + eapply (inv_copy s _ d); try done; cbn [copy sent].
      * by rewrite upd_eq.
      * intros d' Hne. by rewrite !upd_ne.
      * rewrite !upd_eq. cbn. rewrite (inv_flow _ Hi d He). by rewrite <- !app_assoc.
  - apply (goto_inv s); try done; try (destruct Hi; by auto). intros d' Hd'. cbn [over]. unfold upd. by case_decide.
  - apply (goto_inv s); try done; try (destruct Hi; by auto). intros e' He'. cbn [broken]. unfold upd. by case_decide.
  - destruct Hi as [Hf Hp Hw Hn Hd Hsh Hr]. constructor; try done. intros r Hx. destruct (Hr r Hx) as [[-> _]|?]; [by left|by right].
Qed.

Lemma transfer_inv s s' : transfer s s' → inv s → inv s'.
Proof.
  intros Hs Hi. destruct Hs as [s d chunk rest He Hh Ho Hne Hsrc|s d He Hh Ho Hb].
  - eapply (inv_copy s _ d); try done; cbn [copy sent set_copy].
    + by rewrite upd_eq.
    + intros d' Hd. by rewrite upd_ne.
    + rewrite upd_eq. cbn. by rewrite (inv_flow _ Hi d He), Hh, Hsrc.
  - eapply (inv_copy s _ d); try done; cbn [copy sent set_copy].
    + by rewrite upd_eq.
    + intros d' Hd. by rewrite upd_ne.
    + rewrite upd_eq. cbn. by rewrite (inv_flow _ Hi d He), <- app_assoc.
Qed.

Lemma pipe_own_inv s s' : own s s' → inv s → inv s'.
Proof.
  intros Hs Hi. destruct Hs as [s d He Hh Ho|s d gave He Hh Ho|s Ha Hx|s r rest Ha Hdn|s n r Ha|s n r Ha|s n r x rest Ha Hdn|s r Ha];
    [apply finish_inv; tauto..| | | | | |]; pose proof Hi as [Hf Hp Hw Hn Hd Hsh Hr].
  - apply (goto_inv s); try done; cbn [at_ goto]; [by rewrite Ha|]. intros r [= <-]. by left.
  - rewrite Hdn in Hd. apply Forall_cons in Hd as [Hr0 Hd].
    apply (goto_inv s); try done; cbn [at_ goto done]; [rewrite Ha, Hdn; cbn; lia|]. intros r' [= <-]. by right.
  - apply (goto_inv s); try done; cbn [at_ goto close open done]; [intros e He; unfold upd; by case_decide|by rewrite Ha| |].
    + intros e. cbn. intros ->%bool_decide_eq_true_1. apply upd_eq.
    + intros r'. rewrite Ha in Hr. apply Hr.
  - apply (goto_inv s); try done; cbn [at_ goto close open done]; [intros e He; unfold upd; by case_decide|by rewrite Ha| |].
    + intros [] _; [|apply upd_eq]. rewrite upd_ne by done. apply Hsh. by rewrite Ha.
    + intros r'. rewrite Ha in Hr. apply Hr.
  - rewrite Hdn in Hd. apply Forall_cons in Hd as [Hx Hd]. rewrite Ha in Hsh, Hr.
    apply (goto_inv s); try done. cbn [at_ goto done]. rewrite Ha, Hdn. cbn. lia.
  - rewrite Ha in Hsh, Hr. apply (goto_inv s); try done. cbn [at_ goto done]. by rewrite Ha.
Qed.

Lemma pipe_runs_inv first s : rtc step (start first) s → inv s.
Proof.
  intros Hs. assert (inv (start first)) as H0 by apply start_inv. induction Hs as [|s0 s1 s2 H1 _ IH]; [done|].
  apply IH. destruct H1; eauto using pipe_env_inv, transfer_inv, pipe_own_inv.
Qed.

(** ** Lemmas: termination *)

Definition phase_weight (p : phase) : nat :=
  match p with
  | Selecting => 8 | Closing Client n _ => 5 + n | Closing Backend n _ => 4 + n | Waiting n _ => S n | Returned _ => 0
  end.

(** What the program has left to do on its own: to end the copies and to get the handler
    through. *)
Definition own_weight (s : state) : nat := (2 - ended_count s) + phase_weight (at_ s).

Lemma finish_weight s d gave :
  ended (copy s d) = false → (own_weight (finish_copy s d gave) < own_weight s)%nat.
Proof.
  intros He. unfold own_weight. rewrite ended_finish by done. cbn [at_ finish_copy goto].
  assert (ended_count s < 2)%nat; [|lia]. unfold ended_count. destruct d; rewrite He; case_match; lia.
Qed.

Lemma own_decreases s s' : own s s' → (own_weight s' < own_weight s)%nat.
Proof.
  destruct 1 as [s d He Hh Ho|s d gave He Hh Ho|s Ha Hx|s r rest Ha Hdn|s n r Ha|s n r Ha|s n r x rest Ha Hdn|s r Ha];
    [by apply finish_weight..| | | | | |]; unfold own_weight; cbn [at_ goto close]; rewrite Ha;
    change (ended_count (goto _ _ _)) with (ended_count s); cbn [phase_weight]; lia.
Qed.

(** With both connections closed, nothing but the flags of the environment can change
    beside that. *)
Definition flag (b : bool) : nat := if b then 0 else 1.
Definition closed_weight (s : state) : nat :=
  own_weight s + flag (cancelled s) + (flag (over s client_to_backend) + flag (over s backend_to_client))
  + (flag (broken s Client) + flag (broken s Backend)).

Definition all_closed (s : state) : Prop := ∀ e, open s e = false.

Lemma closed_decreases s s' : all_closed s → step s s' → all_closed s' ∧ (closed_weight s' < closed_weight s)%nat.
Proof.
  intros Hc Hs. destruct Hs as [Hs|Hs|Hs].
  - destruct Hs as [s d data Ho Hov|s d Hov|s e Hb|s Hx]; [by rewrite Hc in Ho|..]; (split; [exact Hc|]);
      unfold closed_weight, own_weight; cbn [ended_count copy at_ over broken cancelled].
    + destruct d; unfold upd; repeat case_decide; try congruence; rewrite Hov; unfold ended_count; cbn; lia.
    + destruct e; unfold upd; repeat case_decide; try congruence; rewrite Hb; unfold ended_count; cbn; lia.
    + rewrite Hx. unfold ended_count. cbn. lia.
  - destruct Hs as [s d chunk rest He Hh Ho Hne Hsrc|s d He Hh Ho Hb]; by rewrite Hc in Ho.
  - pose proof (own_decreases _ _ Hs) as Hw. unfold closed_weight.
    assert (cancelled s' = cancelled s ∧ over s' = over s ∧ broken s' = broken s ∧ all_closed s') as (-> & -> & -> & ?);
      [|by split; [done|lia]].
    destruct Hs; split_and!; try done; intros e'; cbn [open goto close]; unfold upd; case_decide; done || apply Hc.
Qed.

(** Once there is a reason to stop, the program is never stuck: not even when a peer
    sends for ever, or never reads, or never closes. *)
Lemma progress s :
  inv s → cancelled s = true ∨ ended_count s ≠ 0%nat → (∃ r, at_ s = Returned r) ∨ ∃ s', own s s'.
Proof.
  intros [Hf Hp Hw Hn Hd Hsh Hr] Hgo. destruct (at_ s) as [|[] n r|[|n] r|r] eqn:Ea; cbn in Hn.
  - right. destruct (cancelled s) eqn:Ex; [eexists; by apply own_select_cancelled|].
    destruct (done s) as [|x rest] eqn:Ed; [|eexists; by eapply own_select_done].
    cbn in Hn. destruct Hgo as [?|?]; [done|lia].
  - right. eexists. by eapply own_close_client.
  - right. eexists. by eapply own_close_backend.
  - right. eexists. by eapply own_return.
  - right. destruct (done s) as [|x rest] eqn:Ed; [|eexists; by eapply own_drain].
    cbn in Hn. assert (∃ d, ended (copy s d) = false) as [d He].
    { unfold ended_count in Hn. destruct (ended (copy s client_to_backend)) eqn:E1; [|by eexists].
      destruct (ended (copy s backend_to_client)) eqn:E2; [|by eexists]. lia. }
    destruct (decide (held (copy s d) = [])) as [Eh|Eh].
    + eexists. apply (own_read_ends s d); [done..|]. left. by apply Hsh.
    + eexists. apply (own_write_fails s d 0); [done..|]. left. by apply Hsh.
  - left. by exists r.
Qed.

End lemmas.

(** ** Properties *)

Section properties.
Import pipe.

(** In every interleaving of the peers, the two copies, the cancellation and the handler,
    what each side has received is a prefix of what the other sent, in order, with
    nothing lost before the copy ends. *)
Theorem copies_in_order first s d :
  rtc step (start first) s →
  dst (copy s d) `prefix_of` sent s d ∧
  (ended (copy s d) = false → sent s d = dst (copy s d) ++ held (copy s d) ++ src (copy s d)).
Proof. intros Hs%pipe_runs_inv. destruct Hs. auto. Qed.

(** When [proxy] returns, both copies have ended and both connections are closed,
    and its result is what the connection handler works with: the cancellation, if
    the context was cancelled, or the direction that ended, with the number of
    bytes that direction delivered. *)
Theorem proxy_returns_result first s r :
  rtc step (start first) s → at_ s = Returned r →
  all_closed s ∧ (∀ d, ended (copy s d) = true) ∧
  ∃ o, r = proxy_bytes o ∧
    match o with
    | None => cancelled s = true
    | Some (d, n) => n = zlen (dst (copy s d))
    end.
Proof.
  intros Hs%pipe_runs_inv Ha. destruct Hs as [_ _ _ Hn _ Hc Hr]. rewrite Ha in *. cbn in Hn. split; [intros e; by apply Hc|]. split.
  - unfold ended_count in Hn. intros []; repeat case_match; congruence || lia.
  - destruct (Hr r eq_refl) as [[-> Hx]|(d & _ & ->)]; [by exists None|]. by exists (Some (d, zlen (dst (copy s d)))).
Qed.


(** C33: [proxy] comes to an end by itself, whatever the peers do - send for ever, never
    read, never close. Once the context is cancelled or one of the copies has ended, it
    can always go on without them until it returns, and what it does without them is
    finite; once it has closed both connections nothing at all can go on for ever; and
    when it returns both connections are closed and both copies have ended. *)
Theorem proxy_terminates first s :
  rtc step (start first) s →
  (cancelled s = true ∨ ended_count s ≠ 0%nat → (∃ r, at_ s = Returned r) ∨ ∃ s', own s s') ∧
  Acc (flip own) s ∧
  (all_closed s → Acc (flip step) s) ∧
  (∀ r, at_ s = Returned r → all_closed s ∧ ∀ d, ended (copy s d) = true).
Proof.
  intros Hs%pipe_runs_inv. split; [by apply progress|]. split; [|split].
  - clear Hs. induction s as [s IH] using (induction_ltof1 _ own_weight). constructor. intros s' Hs'.
    apply IH, own_decreases, Hs'.
  - clear Hs. induction s as [s IH] using (induction_ltof1 _ closed_weight). intros Hc. constructor. intros s' Hs'.
    destruct (closed_decreases _ _ Hc Hs') as [Hc' Hlt]. by apply IH.
  - intros r Ha. destruct Hs as [_ _ _ Hn _ Hc _]. rewrite Ha in *. cbn in Hn. split; [intros e; by apply Hc|].
    unfold ended_count in Hn. intros []; repeat case_match; congruence || lia.
Qed.

End properties.

(** ** Witnesses *)

Section witnesses.
Import pipe.

(** What had arrived when the copies start. *)
Definition sample_stream (d : direction) : bytes :=
  match d with client_to_backend => [] | backend_to_client => gs"world" end.

(** The backend's bytes are read; the client goes; the connections are closed, which ends
    the other copy while it still holds what it has read. *)
Lemma sample_run :
  ∃ s, rtc step (start sample_stream) s ∧
    at_ s = Returned (result_of client_to_backend 0) ∧ ended_count s = 2%nat ∧ sent s client_to_backend = [].
Proof.
  eexists. split.
  - eapply rtc_l.
    { apply step_transfer, (tr_read _ backend_to_client (gs"wor") (gs"ld")); [done|done|done|discriminate|reflexivity]. }
    eapply rtc_l; [apply step_env, (env_over _ client_to_backend); reflexivity|].
    eapply rtc_l; [apply step_own, (own_read_ends _ client_to_backend); [reflexivity|reflexivity|right; split; reflexivity]|].
    eapply rtc_l; [apply step_own; eapply own_select_done; [reflexivity|cbn; reflexivity]|].
    eapply rtc_l; [apply step_own; eapply own_close_client; reflexivity|].
    eapply rtc_l; [apply step_own; eapply own_close_backend; reflexivity|].
    eapply rtc_l; [apply step_own, (own_write_fails _ backend_to_client 1); [reflexivity|discriminate|left; reflexivity]|].
    eapply rtc_l; [apply step_own; eapply own_drain; [reflexivity|cbn; reflexivity]|].
    eapply rtc_l; [apply step_own; eapply own_return; reflexivity|]. apply rtc_refl.
  - split_and!; reflexivity.
Qed.

Lemma copies_in_order_witness :
  ∃ s, at_ s = Returned (result_of client_to_backend 0) ∧ dst (copy s backend_to_client) `prefix_of` sent s backend_to_client.
Proof.
  destruct sample_run as (s & Hs & Ha & _). exists s. split; [exact Ha|].
  apply (copies_in_order sample_stream s backend_to_client Hs).
Defined.

Lemma proxy_returns_result_witness : ∃ s, at_ s = Returned (result_of client_to_backend 0) ∧ all_closed s.
Proof.
  destruct sample_run as (s & Hs & Ha & _). exists s. split; [exact Ha|].
  apply (proxy_returns_result sample_stream s _ Hs Ha).
Defined.

Lemma proxy_terminates_witness : ∃ s, rtc step (start sample_stream) s ∧ all_closed s ∧ Acc (flip step) s.
Proof.
  destruct sample_run as (s & Hs & Ha & _). exists s. split; [exact Hs|].
  destruct (proxy_terminates sample_stream s Hs) as (_ & _ & Hacc & Hret).
  destruct (Hret _ Ha) as [Hc _]. split; [exact Hc|apply Hacc, Hc].
Defined.


End witnesses.
