(* ===== verification/Accept.v ===== *)
(** * The accept loop ([internal/proxy], [ListenAndServe], [Serve] and [Shutdown])

    One goroutine accepts connections and starts a handler for each, counted by a wait
    group; another closes the listener when the context is done; [Shutdown] may be called
    from a third. The model is a step relation over the three and the handlers, of which
    only the number matters here: what a handler does is the model of one connection
    (Conn.v, Pipe.v). Nothing in this file makes a handler end: that it does is a step of
    the environment, since a handler waits for its client and its backend. *)
From S2P Require Import Prelude GoIO.
Open Scope Z_scope.

Module accept.

(** Where [Serve] is: before it stores its listener; in [Accept]; with an accepted
    connection in hand; after [wg.Add(1)] and before the [go] statement; in [wg.Wait],
    with the error it will return; returned. *)
Inductive phase :=
| Starting | Accepting | InHand | Counted | Waiting (e : option error) | Returned (e : option error).

(** Where a call of [Shutdown] is. *)
Inductive shutdown := NotCalled | Closing | Done.

(** [wg] is the counter of the wait group; [running] the handlers in their body, and
    [deferred] those whose body has returned and which still have to call [wg.Done]. *)
Record state := {
  serve : phase;
  listening : bool;
  cancelled : bool;
  wg : Z;
  running : nat;
  deferred : nat;
  stop : shutdown
}.

Definition start : state := {|
  serve := Starting; listening := true; cancelled := false; wg := 0; running := 0; deferred := 0; stop := NotCalled |}.

(** [ListenAndServe]: the error of the listener, or the start of [Serve]. *)
Definition ListenAndServe (listen : option error) : res state :=
  match listen with Some e => Err e | None => Ok start end.

Definition at_ (s : state) (p : phase) : state := {|
  serve := p; listening := listening s; cancelled := cancelled s; wg := wg s; running := running s;
  deferred := deferred s; stop := stop s |}.

Definition closed (s : state) (l : bool) (st : shutdown) : state := {|
  serve := serve s; listening := l; cancelled := cancelled s; wg := wg s; running := running s;
  deferred := deferred s; stop := st |}.

(** [wg.Add(1)] by [Serve], the [go] statement, the return of a handler's body, and its
    deferred [wg.Done()]. *)
Definition Add (s : state) : state := {|
  serve := Counted; listening := listening s; cancelled := cancelled s; wg := wg s + 1; running := running s;
  deferred := deferred s; stop := stop s |}.
Definition go (s : state) : state := {|
  serve := Accepting; listening := listening s; cancelled := cancelled s; wg := wg s; running := S (running s);
  deferred := deferred s; stop := stop s |}.
Definition body_returned (s : state) : state := {|
  serve := serve s; listening := listening s; cancelled := cancelled s; wg := wg s; running := pred (running s);
  deferred := S (deferred s); stop := stop s |}.
Definition handler_done (s : state) : state := {|
  serve := serve s; listening := listening s; cancelled := cancelled s; wg := wg s - 1; running := running s;
  deferred := pred (deferred s); stop := stop s |}.

(** The error of [Accept]: on a cancelled context or a closed listener [Serve] ends, a
    temporary error is skipped, another one is returned, after the handlers. *)
Definition accept_failed (s : state) (e : error) (closed temporary : bool) : state :=
  if cancelled s || closed then at_ s (Waiting None)
  else if temporary then s
  else at_ s (Waiting (Some e)).

(** What [Shutdown] does before it waits: it closes the listener that [Serve] stored. *)
Definition close_stored (s : state) : bool :=
  match serve s with Starting => listening s | _ => false end.

(** What the process does by itself: [Serve] stores its listener, counts and starts a
    handler, finds its listener closed, and returns once the wait group is at zero; the
    goroutine of [Serve] closes the listener when the context is done; a handler whose
    body has returned calls [wg.Done]; [Shutdown] returns once the wait group is at zero. *)
Inductive own : state → state → Prop :=
| step_begin s : serve s = Starting → own s (at_ s Accepting)
| step_add s : serve s = InHand → own s (Add s)
| step_go s : serve s = Counted → own s (go s)
| step_closed s e : serve s = Accepting → listening s = false → own s (accept_failed s e true false)
| step_return s e : serve s = Waiting e → wg s = 0 → own s (at_ s (Returned e))
| step_close s :
    cancelled s = true → listening s = true → serve s ≠ Starting → own s (closed s false (stop s))
| step_done s : deferred s ≠ 0%nat → own s (handler_done s)
| step_stopped s : stop s = Closing → wg s = 0 → own s (closed s (listening s) Done).

(** What happens to it: a client connects, [Accept] fails while the listener is open,
    the body of a handler returns, the context is cancelled, [Shutdown] is called and
    closes the stored listener. *)
Inductive env : state → state → Prop :=
| step_accept s : serve s = Accepting → listening s = true → env s (at_ s InHand)
| step_failed s e temporary :
    serve s = Accepting → listening s = true → env s (accept_failed s e false temporary)
| step_handled s : running s ≠ 0%nat → env s (body_returned s)
| step_cancel s :
    env s {| serve := serve s; listening := listening s; cancelled := true; wg := wg s; running := running s;
             deferred := deferred s; stop := stop s |}
| step_shutdown s : stop s = NotCalled → env s (closed s (close_stored s) Closing).

Definition step (s s' : state) : Prop := own s s' ∨ env s s'.

End accept.

(** ** Lemmas *)

Section lemmas.
Import accept.

(** The counter of the wait group is the handlers that have not called [Done] and the one
    about to be started; it is zero when [Serve] has returned. *)
Record inv (s : state) : Prop := {
  inv_wg : wg s = Z.of_nat (running s + deferred s) + match serve s with Counted => 1 | _ => 0 end;
  inv_returned : ∀ e, serve s = Returned e → wg s = 0
}.

Lemma accept_step_inv s s' : step s s' → inv s → inv s'.
Proof.
  intros Hs [Hw Hr]. destruct Hs as [Hs|Hs]; destruct Hs; split; cbn; try done; try intros e';
    unfold accept_failed; rewrite ?orb_true_r; repeat case_match; cbn in *; simplify_eq/=; try lia; try done.
  all: first [pose proof (Hr _ eq_refl); lia | congruence].
Qed.

Lemma reached_inv s : rtc step start s → inv s.
Proof.
  assert (inv start) as H0 by (by split). intros Hs. clear -Hs H0. induction Hs as [|s0 s1 s2 H1 _ IH]; [done|].
  by eapply IH, accept_step_inv.
Qed.

(** How many steps of its own the process has left, were no client to connect. *)
Definition distance (s : state) : nat :=
  deferred s + (if listening s then 1 else 0) + match stop s with Closing => 1 | _ => 0 end +
  match serve s with InHand => 6 | Counted => 5 | Starting => 4 | Accepting => 3 | Waiting _ => 1 | Returned _ => 0 end.

Lemma serve_own_closer s s' : own s s' → (distance s' < distance s)%nat.
Proof.
  intros Hs. unfold distance. destruct Hs; unfold accept_failed; rewrite ?orb_true_r; cbn;
    repeat match goal with H : _ = _ |- _ => rewrite H end; try lia.
Qed.

(** Once the listener is closed, or will be, [Serve] stands still only in its wait for a
    handler whose body runs. *)
Lemma own_progress s :
  inv s → listening s = false ∨ cancelled s = true →
  (∃ s', own s s') ∨ (∃ e, serve s = Returned e) ∨ (∃ e, serve s = Waiting e ∧ running s ≠ 0%nat).
Proof.
  intros [Hw Hr] Hl. destruct (serve s) as [| | | |e|e] eqn:Hp; try by (left; eexists; constructor).
  - destruct (listening s) eqn:Hli; [|left; eexists; by apply (step_closed s (errors_New "closed"))].
    left. eexists. apply step_close; [by destruct Hl|done|by rewrite Hp].
  - destruct (deferred s) as [|n] eqn:Hd; [|left; eexists; apply step_done; lia].
    destruct (running s) as [|n] eqn:Hn; [left; eexists; by apply (step_return s e)|].
    right; right. by exists e.
  - right; left. by exists e.
Qed.

End lemmas.

(** ** Properties *)

Section properties.
Import accept.

(** C34: [Serve] leaves no connection behind, and only a handler can hold it up. However
    accepting, handling, cancellation and [Shutdown] interleave: the wait group never goes
    below zero, which would panic; when [Serve] has returned, every handler it started has
    returned; what the process does by itself cannot go on for ever; and once the listener
    is closed or the context cancelled, it comes to a halt only when [Serve] has returned
    or is waiting for a handler whose body has not returned. That a handler returns is not
    claimed. *)
Theorem serve_waits_for_handlers s :
  rtc step start s →
  0 <= wg s ∧
  (∀ e, serve s = Returned e → running s = 0%nat ∧ deferred s = 0%nat) ∧
  Acc (flip own) s ∧
  (listening s = false ∨ cancelled s = true → (∀ s', ¬ own s s') →
     (∃ e, serve s = Returned e) ∨ (∃ e, serve s = Waiting e ∧ running s ≠ 0%nat)).
Proof.
  intros Hi%reached_inv. pose proof Hi as [Hw Hr]. split_and!.
  - destruct (serve s); lia.
  - intros e He. pose proof (Hr e He). rewrite He in Hw. lia.
  - clear. induction s as [s IH] using (induction_ltof1 _ distance). constructor. intros s' Hs'.
    by apply IH, serve_own_closer.
  - intros Hl Hno. destruct (own_progress s Hi Hl) as [[s' Hs']|H]; [by destruct (Hno s')|exact H].
Qed.

(** [Shutdown] can return too early: there is a run in which it has returned while
    [Serve] has a connection in hand that it counts and handles only afterwards. *)
Theorem shutdown_misses_connection :
  ∃ s, rtc step start s ∧ stop s = Done ∧ serve s = InHand ∧ step s (Add s) ∧ step (Add s) (go (Add s)).
Proof.
  exists {| serve := InHand; listening := false; cancelled := false; wg := 0; running := 0; deferred := 0; stop := Done |}.
  split; [|split; [done|split; [done|split; left; by constructor]]].
  eapply rtc_l; [left; by apply step_begin|]. eapply rtc_l; [right; by apply step_accept|].
  eapply rtc_l; [right; by apply step_shutdown|]. eapply rtc_l; [left; by apply step_stopped|]. apply rtc_refl.
Qed.

(** [Shutdown] called before [Serve] has stored its listener closes nothing: [Serve]
    then listens although [Shutdown] has returned. *)
Theorem early_shutdown_ignored :
  ∃ s, rtc step start s ∧ stop s = Done ∧ serve s = Accepting ∧ listening s = true.
Proof.
  exists {| serve := Accepting; listening := true; cancelled := false; wg := 0; running := 0; deferred := 0; stop := Done |}.
  split; [|done]. eapply rtc_l; [right; by apply step_shutdown|]. eapply rtc_l; [left; by apply step_stopped|].
  eapply rtc_l; [left; by apply step_begin|]. apply rtc_refl.
Qed.

End properties.

(** ** Witnesses *)

Section witnesses.
Import accept.

(** A client is served, the context is cancelled, and [Serve] returns. *)
Lemma serve_waits_for_handlers_witness :
  ∃ s, rtc step start s ∧ serve s = Returned None ∧ running s = 0%nat.
Proof.
  set (s := {| serve := Returned None; listening := false; cancelled := true; wg := 0; running := 0; deferred := 0;
               stop := NotCalled |}).
  assert (rtc step start s) as Hs.
  { eapply rtc_l; [left; by apply step_begin|]. eapply rtc_l; [right; by apply step_accept|].
    eapply rtc_l; [left; by apply step_add|]. eapply rtc_l; [left; by apply step_go|].
    eapply rtc_l; [right; apply step_cancel|]. eapply rtc_l; [left; by apply step_close|].
    eapply rtc_l; [left; by apply (step_closed _ (errors_New "closed"))|].
    eapply rtc_l; [right; by apply step_handled|]. eapply rtc_l; [left; by apply step_done|].
    eapply rtc_l; [left; by apply step_return|]. apply rtc_refl. }
  exists s. split; [exact Hs|]. split; [reflexivity|].
  destruct (serve_waits_for_handlers s Hs) as (_ & H & _). destruct (H None); [reflexivity|assumption].
Defined.

End witnesses.
